(** * StreamDJ: the streaming pipeline and its supervisors

    A shallow embedding of the event handlers of the StreamDJ player and
    server, and the properties of the design document checked against them.

    Every component of the program is a closure over a handful of mutable
    variables, driven by events (socket and process events, timers, API
    calls).  Each component is embedded as a record holding those variables
    and one function per handler, which takes the state before the handler
    runs and returns the state after it together with the list of the
    outward actions the handler performed (writes, spawns, pauses, ...).
    What the environment decides (the clock, [Math.random], whether a write
    or a spawn succeeds) is an argument of the handler.

    Layout: the embeddings come first, one module per source file; the
    properties follow, one module per component. *)

From Stdlib Require Import ZArith Lia.
From Stdlib.Strings Require Import Byte.
From stdpp Require Import base tactics option list gmap strings.

Open Scope Z_scope.

(** ** JavaScript values the handlers test for truthiness *)

Module Js.

(** A number used as a condition: [0] is falsy ([if (pid)], [if (startedAt)]). *)
Definition truthyNum (v : option Z) : bool :=
  match v with
  | Some n => negb (n =? 0)
  | None => false
  end.

(** A string used as a condition: the empty string is falsy ([if (reason)]). *)
Definition truthyStr (v : option string) : bool :=
  match v with
  | Some s => negb (String.eqb s "")
  | None => false
  end.

(** [a || b] on optional strings. *)
Definition orStr (a b : option string) : option string :=
  if truthyStr a then a else b.

(** A draw of [Math.random()]: the rational [rnum / rden], in [0, 1). *)
Record Random := mkRandom { rnum : Z; rden : Z }.

Definition validRandom (r : Random) : Prop := 0 <= rnum r < rden r.

(** [Math.floor(Math.random() * n)] for an integer [n]. *)
Definition floorMul (r : Random) (n : Z) : Z := (rnum r * n) / rden r.

(** [Number.MAX_SAFE_INTEGER], 2^53 - 1: up to it in magnitude every
    integer is a JavaScript number, and arithmetic on them is exact. *)
Definition MAX_SAFE_INTEGER : Z := 9007199254740991.

End Js.

(** ** player/audio-socket.js: the Transport Socket *)

Module AudioSocket.

Definition RECONNECT_FLOOR_MS : Z := 1000.
Definition RECONNECT_CAP_MS : Z := 30000.

(** [SocketState].  Sockets are identified by the order in which
    [net.createConnection] made them; [reconnectTimer] holds the delay the
    pending timer was armed with. *)
Record SocketState := mkSocketState {
  socket : option nat;
  writable : bool;
  reconnectDelay : Z;
  reconnectTimer : option Z;
  reconnectAttempts : Z;
  shuttingDown : bool;
  created : nat
}.

Definition initial : SocketState :=
  {| socket := None; writable := true; reconnectDelay := RECONNECT_FLOOR_MS;
     reconnectTimer := None; reconnectAttempts := 0; shuttingDown := false;
     created := 0 |}.

Inductive Action :=
| Scheduled (delay : Z)      (* setTimeout(..., delay) in scheduleReconnect *)
| GaveUp                     (* the maximum of attempts is reached *)
| CreateConnection (s : nat) (* net.createConnection *)
| Connected (s : nat)        (* the 'connect' event was handled *)
| DrainCallback              (* onDrain() *)
| EndSocket (s : nat).       (* socket.end() *)

Section Handlers.

Variable maxReconnectAttempts : Z.

Definition clearReconnectTimer (st : SocketState) : SocketState :=
  match reconnectTimer st with
  | Some _ =>
      {| socket := socket st; writable := writable st;
         reconnectDelay := reconnectDelay st; reconnectTimer := None;
         reconnectAttempts := reconnectAttempts st;
         shuttingDown := shuttingDown st; created := created st |}
  | None => st
  end.

Definition scheduleReconnect (st : SocketState) : SocketState * list Action :=
  if shuttingDown st then (st, [])
  else if bool_decide (is_Some (reconnectTimer st)) then (st, [])
  else if maxReconnectAttempts <=? reconnectAttempts st then (st, [GaveUp])
  else
    let delay := Z.min (reconnectDelay st) RECONNECT_CAP_MS in
    ({| socket := socket st; writable := writable st;
        reconnectDelay := Z.min (delay * 2) RECONNECT_CAP_MS;
        reconnectTimer := Some delay;
        reconnectAttempts := reconnectAttempts st + 1;
        shuttingDown := shuttingDown st; created := created st |},
     [Scheduled delay]).

Definition connect (st : SocketState) : SocketState * list Action :=
  if shuttingDown st then (st, [])
  else
    let st1 := clearReconnectTimer st in
    ({| socket := socket st1; writable := writable st1;
        reconnectDelay := reconnectDelay st1;
        reconnectTimer := reconnectTimer st1;
        reconnectAttempts := reconnectAttempts st1;
        shuttingDown := shuttingDown st1; created := S (created st1) |},
     [CreateConnection (created st1)]).

(** socket.on('connect') of socket [s] *)
Definition onConnect (s : nat) (st : SocketState) : SocketState * list Action :=
  ({| socket := Some s; writable := true;
      reconnectDelay := RECONNECT_FLOOR_MS; reconnectTimer := reconnectTimer st;
      reconnectAttempts := 0; shuttingDown := shuttingDown st;
      created := created st |},
   [Connected s]).

(** socket.on('drain') *)
Definition onDrain (hasCallback : bool) (st : SocketState)
  : SocketState * list Action :=
  ({| socket := socket st; writable := true;
      reconnectDelay := reconnectDelay st; reconnectTimer := reconnectTimer st;
      reconnectAttempts := reconnectAttempts st;
      shuttingDown := shuttingDown st; created := created st |},
   if hasCallback then [DrainCallback] else []).

(** socket.on('error') only logs. *)
Definition onError (st : SocketState) : SocketState * list Action := (st, []).

(** socket.on('close') of socket [s] *)
Definition onClose (s : nat) (st : SocketState) : SocketState * list Action :=
  scheduleReconnect
    {| socket := if bool_decide (socket st = Some s) then None else socket st;
       writable := false;
       reconnectDelay := reconnectDelay st; reconnectTimer := reconnectTimer st;
       reconnectAttempts := reconnectAttempts st;
       shuttingDown := shuttingDown st; created := created st |}.

(** The callback of the reconnect timer; nothing runs when no timer is pending. *)
Definition onReconnectTimer (st : SocketState) : SocketState * list Action :=
  match reconnectTimer st with
  | Some _ =>
      connect
        {| socket := socket st; writable := writable st;
           reconnectDelay := reconnectDelay st; reconnectTimer := None;
           reconnectAttempts := reconnectAttempts st;
           shuttingDown := shuttingDown st; created := created st |}
  | None => (st, [])
  end.

Definition disconnect (st : SocketState) : SocketState * list Action :=
  let st1 := clearReconnectTimer st in
  match socket st1 with
  | Some s =>
      ({| socket := None; writable := writable st1;
          reconnectDelay := reconnectDelay st1;
          reconnectTimer := reconnectTimer st1;
          reconnectAttempts := reconnectAttempts st1;
          shuttingDown := shuttingDown st1; created := created st1 |},
       [EndSocket s])
  | None => (st1, [])
  end.

Definition setShuttingDown (value : bool) (st : SocketState)
  : SocketState * list Action :=
  let st1 :=
    {| socket := socket st; writable := writable st;
       reconnectDelay := reconnectDelay st; reconnectTimer := reconnectTimer st;
       reconnectAttempts := reconnectAttempts st;
       shuttingDown := value; created := created st |} in
  (if value then clearReconnectTimer st1 else st1, []).

Definition setWritable (value : bool) (st : SocketState)
  : SocketState * list Action :=
  ({| socket := socket st; writable := value;
      reconnectDelay := reconnectDelay st; reconnectTimer := reconnectTimer st;
      reconnectAttempts := reconnectAttempts st;
      shuttingDown := shuttingDown st; created := created st |}, []).

(** Everything that can happen to the socket component. *)
Inductive Event :=
| Connect
| Disconnect
| SetShuttingDown (value : bool)
| SetWritable (value : bool)
| SocketConnect (s : nat)
| SocketDrain (hasCallback : bool)
| SocketError
| SocketClose (s : nat)
| ReconnectTimer.

Definition step (e : Event) (st : SocketState) : SocketState * list Action :=
  match e with
  | Connect => connect st
  | Disconnect => disconnect st
  | SetShuttingDown v => setShuttingDown v st
  | SetWritable v => setWritable v st
  | SocketConnect s => onConnect s st
  | SocketDrain cb => onDrain cb st
  | SocketError => onError st
  | SocketClose s => onClose s st
  | ReconnectTimer => onReconnectTimer st
  end.

(** The state after a sequence of events and everything done on the way. *)
Fixpoint run (evs : list Event) (st : SocketState) : SocketState * list Action :=
  match evs with
  | [] => (st, [])
  | e :: evs' =>
      let '(st1, acts) := step e st in
      let '(st2, acts') := run evs' st1 in
      (st2, acts ++ acts')
  end.

End Handlers.

(** The delays scheduled in a trace, cut into the runs of consecutive
    failures: a handled 'connect' event ends the current run. *)
Fixpoint failureRuns (cur : list Z) (tr : list Action) : list (list Z) :=
  match tr with
  | [] => [cur]
  | Scheduled d :: tr' => failureRuns (cur ++ [d]) tr'
  | Connected _ :: tr' => cur :: failureRuns [] tr'
  | _ :: tr' => failureRuns cur tr'
  end.

(** [doubling d ds]: [ds] starts at [d] and each next delay is the double
    of the one before, up to the cap. *)
Fixpoint doubling (d : Z) (ds : list Z) : Prop :=
  match ds with
  | [] => True
  | x :: ds' => x = d /\ doubling (Z.min (x * 2) RECONNECT_CAP_MS) ds'
  end.

Fixpoint nonDecreasing (ds : list Z) : Prop :=
  match ds with
  | x :: ((y :: _) as ds') => x <= y /\ nonDecreasing ds'
  | _ => True
  end.

(** The stored delay lies between the floor and the cap. *)
Definition delayInRange (st : SocketState) : Prop :=
  RECONNECT_FLOOR_MS <= reconnectDelay st <= RECONNECT_CAP_MS.

(** *** A scenario: seven failed connections, one that succeeds, then the
    connection is lost and two more fail. *)

Definition failedAttempt (s : nat) : list Event := [SocketClose s; ReconnectTimer].

Definition outage : list Event :=
  Connect
  :: concat (List.map failedAttempt [0; 1; 2; 3; 4; 5; 6]%nat)
  ++ [SocketConnect 7; SocketClose 7; ReconnectTimer; SocketClose 8].

End AudioSocket.

(** ** player/playlist-manager.js and player/playback-controller.js:
       the Decode Controller *)

Module Player.

(** [TrackMetadata] *)
Record Track := mkTrack {
  title : string;
  artist : string;
  album : string;
  duration : option Z;
  filename : string;
  fullPath : string
}.

(** [PlaylistState]; indices are JavaScript numbers, [-1] is "none". *)
Record PlaylistState := mkPlaylist {
  playlist : list Track;
  currentIndex : Z;
  currentTrack : option Track;
  history : list Z;
  shuffledQueue : list Z;
  shuffle : bool
}.

(** [state.playlist[index] || null] *)
Definition getTrackAtIndex (index : Z) (pl : PlaylistState) : option Track :=
  if index <? 0 then None else playlist pl !! Z.to_nat index.

(** [shuffleArray]: Fisher-Yates from the last position down to 1, one
    draw of [Math.random] per position. *)
Definition swap (i j : nat) (arr : list Z) : list Z :=
  match arr !! i, arr !! j with
  | Some x, Some y => <[j := x]> (<[i := y]> arr)
  | _, _ => arr
  end.

Fixpoint shuffleFrom (i : nat) (draws : list Js.Random) (arr : list Z) : list Z :=
  match i with
  | O => arr
  | S i' =>
      let r := List.hd {| Js.rnum := 0; Js.rden := 1 |} draws in
      let j := Z.to_nat (Js.floorMul r (Z.of_nat i + 1)) in
      shuffleFrom i' (List.tl draws) (swap i j arr)
  end.

Definition shuffleArray (draws : list Js.Random) (arr : list Z) : list Z :=
  shuffleFrom (Nat.pred (length arr)) draws arr.

Definition withQueue (q : list Z) (pl : PlaylistState) : PlaylistState :=
  {| playlist := playlist pl; currentIndex := currentIndex pl;
     currentTrack := currentTrack pl; history := history pl;
     shuffledQueue := q; shuffle := shuffle pl |}.

(** [refreshShuffleQueue(excludeIndex)] *)
Definition refreshShuffleQueue (draws : list Js.Random) (excludeIndex : Z)
    (pl : PlaylistState) : PlaylistState :=
  let n := length (playlist pl) in
  let indices :=
    List.filter (fun idx => negb (idx =? excludeIndex) || (n =? 1)%nat)
      (List.map Z.of_nat (seq 0 n)) in
  withQueue (shuffleArray draws indices) pl.

(** [pickNextIndex()]: the index and the state it leaves. *)
Definition pickNextIndex (draws : list Js.Random) (pl : PlaylistState)
  : Z * PlaylistState :=
  if (length (playlist pl) =? 0)%nat then (-1, pl)
  else if negb (shuffle pl) then
    if currentIndex pl =? -1 then (0, pl)
    else (Z.rem (currentIndex pl + 1) (Z.of_nat (length (playlist pl))), pl)
  else
    let pl1 :=
      if (length (shuffledQueue pl) =? 0)%nat
      then refreshShuffleQueue draws (currentIndex pl) pl
      else pl in
    match shuffledQueue pl1 with
    | next :: rest => (next, withQueue rest pl1)
    | [] => (-1, pl1)
    end.

(** [setCurrentIndex(index)] *)
Definition setCurrentIndex (index : Z) (pl : PlaylistState) : PlaylistState :=
  {| playlist := playlist pl; currentIndex := index;
     currentTrack := getTrackAtIndex index pl; history := history pl;
     shuffledQueue := shuffledQueue pl; shuffle := shuffle pl |}.

(** [addToHistory()] *)
Definition addToHistory (pl : PlaylistState) : PlaylistState :=
  if currentIndex pl =? -1 then pl
  else
    {| playlist := playlist pl; currentIndex := currentIndex pl;
       currentTrack := currentTrack pl;
       history := history pl ++ [currentIndex pl];
       shuffledQueue := shuffledQueue pl; shuffle := shuffle pl |}.

(** The decode subprocess handle, and what [spawn] does. *)
Record Decoder := mkDecoder { decoderPid : option Z }.

Inductive SpawnOutcome :=
| SpawnThrows
| SpawnReturns (d : option Decoder).

(** [!ffmpeg || !ffmpeg.pid] *)
Definition noHandle (d : option Decoder) : bool :=
  match d with
  | Some dec => negb (Js.truthyNum (decoderPid dec))
  | None => true
  end.

(** The outcomes of [spawn] after which [playTrackAtIndex] gives up: the
    [catch] branch and the test for a PID. *)
Definition spawnFailed (o : SpawnOutcome) : bool :=
  match o with
  | SpawnThrows => true
  | SpawnReturns d => noHandle d
  end.

(** [PlaybackState]; [offset] is in milliseconds here, seconds in the code. *)
Record PlaybackState := mkPlayback {
  process : option Decoder;
  startTime : option Z;
  offset : Z;
  isPaused : bool;
  stopIntent : option string;
  shuttingDown : bool
}.

(** The controller and the playlist manager it was given. *)
Record Controller := mkController {
  playback : PlaybackState;
  playlistManager : PlaylistState
}.

Definition initialPlaylist (tracks : list Track) (shuffled : bool) : PlaylistState :=
  {| playlist := tracks; currentIndex := -1; currentTrack := None;
     history := []; shuffledQueue := []; shuffle := shuffled |}.

Definition initialPlayback : PlaybackState :=
  {| process := None; startTime := None; offset := 0; isPaused := false;
     stopIntent := None; shuttingDown := false |}.

Inductive Action :=
| SpawnDecoder (trackPath : string) (offsetMs : Z) (* spawn('ffmpeg', buildFfmpegArgs(...)) *)
| PostMetadata (track : Track)                     (* postTrackMetadata(track) *)
| WarnNoTracks.                                    (* 'No tracks available for continuation.' *)

Definition withPlaylist (pl : PlaylistState) (c : Controller) : Controller :=
  {| playback := playback c; playlistManager := pl |}.

(** [playTrackAtIndex(index, options)], up to the registration of the
    handlers; [offsetMs] is [options.offset || 0]. *)
Definition playTrackAtIndex (index : Z) (offsetMs : Z) (now : Z)
    (o : SpawnOutcome) (c : Controller) : Controller * list Action :=
  match getTrackAtIndex index (playlistManager c) with
  | None => (c, [])
  | Some track =>
      let pl := setCurrentIndex index (playlistManager c) in
      let pb := playback c in
      let pb :=
        {| process := process pb; startTime := startTime pb; offset := offsetMs;
           isPaused := false; stopIntent := stopIntent pb;
           shuttingDown := shuttingDown pb |} in
      let failed :=
        ({| playback := pb; playlistManager := setCurrentIndex (-1) pl |},
         [SpawnDecoder (fullPath track) offsetMs]) in
      match o with
      | SpawnThrows => failed
      | SpawnReturns d =>
          if noHandle d then failed
          else
            ({| playback :=
                  {| process := d; startTime := Some now; offset := offsetMs;
                     isPaused := false; stopIntent := None;
                     shuttingDown := shuttingDown pb |};
                playlistManager := pl |},
             [SpawnDecoder (fullPath track) offsetMs; PostMetadata track])
      end
  end.

(** ffmpeg.on('close'): the end of a track.  [o] is the outcome of the
    spawn of the next decoder, should the handler get that far. *)
Definition onDecoderClose (now : Z) (draws : list Js.Random) (o : SpawnOutcome)
    (c : Controller) : Controller * list Action :=
  let pb := playback c in
  let c :=
    {| playback :=
         {| process := None; startTime := startTime pb; offset := offset pb;
            isPaused := isPaused pb; stopIntent := stopIntent pb;
            shuttingDown := shuttingDown pb |};
       playlistManager := playlistManager c |} in
  if Js.truthyStr (stopIntent pb) then (c, [])
  else if shuttingDown pb then (c, [])
  else
    let pl := addToHistory (playlistManager c) in
    let '(nextIndex, pl) := pickNextIndex draws pl in
    if nextIndex =? -1 then
      (withPlaylist (setCurrentIndex (-1) pl) c, [WarnNoTracks])
    else playTrackAtIndex nextIndex 0 now o (withPlaylist pl c).

(** [getCurrentPositionSeconds()], in milliseconds. *)
Definition getCurrentPositionMs (now : Z) (c : Controller) : Z :=
  let pb := playback c in
  if isPaused pb then offset pb
  else if negb (Js.truthyNum (startTime pb)) then 0
  else offset pb + (now - default 0 (startTime pb)).

Definition isPlaying (c : Controller) : bool :=
  bool_decide (is_Some (process (playback c))).

(** The shuffle queue holds indices of the playlist. *)
Definition queueInRange (pl : PlaylistState) : Prop :=
  Forall (fun i => 0 <= i < Z.of_nat (length (playlist pl))) (shuffledQueue pl).

(** *** A three-track scenario *)

Definition track (name : string) : Track :=
  {| title := name; artist := "Unknown Artist"; album := "Unknown Album";
     duration := None; filename := name +:+ ".mp3";
     fullPath := "/music/" +:+ name +:+ ".mp3" |}.

Definition threeTracks : list Track := [track "a"; track "b"; track "c"].

Definition decoder : Decoder := {| decoderPid := Some 777 |}.

(** A decoder handle without a PID. *)
Definition withoutPid : SpawnOutcome :=
  SpawnReturns (Some {| decoderPid := None |}).

(** The second track is playing, shuffle off. *)
Definition playingSecond : Controller :=
  (playTrackAtIndex 1 0 0 (SpawnReturns (Some decoder))
     {| playback := initialPlayback;
        playlistManager := initialPlaylist threeTracks false |}).1.

End Player.

(** ** server/constants.js and server/ffmpeg-manager.js: the Encode Supervisor *)

Module Ffmpeg.

(** The constants of server/constants.js the supervisor reads; apart from
    the flag, each is a positive integer taken from the environment, with a
    default. *)
Record Config := mkConfig {
  FFMPEG_HEARTBEAT_INTERVAL_MS : Z;
  FFMPEG_STALL_WARN_MS : Z;
  FFMPEG_RESTART_MAX_ATTEMPTS : Z;
  FFMPEG_RESTART_WINDOW_MS : Z;
  FFMPEG_RESTART_BACKOFF_BASE_MS : Z;
  FFMPEG_RESTART_BACKOFF_MAX_MS : Z;
  FFMPEG_STABLE_RUN_MS : Z;
  FFMPEG_AUTO_RESTART : bool
}.

Definition defaults : Config :=
  {| FFMPEG_HEARTBEAT_INTERVAL_MS := 7000;
     FFMPEG_STALL_WARN_MS := 20000;
     FFMPEG_RESTART_MAX_ATTEMPTS := 5;
     FFMPEG_RESTART_WINDOW_MS := 60000;
     FFMPEG_RESTART_BACKOFF_BASE_MS := 500;
     FFMPEG_RESTART_BACKOFF_MAX_MS := 60000;
     FFMPEG_STABLE_RUN_MS := 120000;
     FFMPEG_AUTO_RESTART := true |}.

(** What [optionalPositiveIntEnv] guarantees. *)
Definition positiveConfig (cfg : Config) : Prop :=
  0 < FFMPEG_HEARTBEAT_INTERVAL_MS cfg /\ 0 < FFMPEG_STALL_WARN_MS cfg
  /\ 0 < FFMPEG_RESTART_MAX_ATTEMPTS cfg /\ 0 < FFMPEG_RESTART_WINDOW_MS cfg
  /\ 0 < FFMPEG_RESTART_BACKOFF_BASE_MS cfg
  /\ 0 < FFMPEG_RESTART_BACKOFF_MAX_MS cfg /\ 0 < FFMPEG_STABLE_RUN_MS cfg.

(** The automatic unblock delay written in [scheduleRestart], and the
    delay of the respawn after a planned exit. *)
Definition BLOCK_TIMEOUT_MS : Z := 300000.
Definition PLANNED_RESPAWN_MS : Z := 250.

(** The child process handle, as far as the code looks at it. *)
Record Stdin := mkStdin { destroyed : bool }.
Record Proc := mkProc { pid : option Z; killed : bool; stdin : option Stdin }.

(** What [spawn('ffmpeg', args, ...)] does: throw, or return a handle. *)
Inductive SpawnOutcome :=
| SpawnThrows
| SpawnReturns (p : option Proc).

(** What [ffmpegProcess.kill('SIGTERM')] does; a delivered signal sets the
    handle's [killed]. *)
Inductive KillOutcome := KillDelivered | KillNotDelivered | KillThrows.

(** The four [setTimeout] callbacks of the module. *)
Inductive TimerKind := TRestart | TPlanned | TStability | TBlock.

Global Instance TimerKind_eq_dec : EqDecision TimerKind.
Proof. solve_decision. Defined.

Record Timer := mkTimer { handle : nat; kind : TimerKind; due : Z }.

(** [heartbeatState] *)
Record Heartbeat := mkHeartbeat {
  lastFrame : option Z;
  stallWarnings : Z;
  lastWarningAt : option Z;
  startedAt : option Z
}.

(** [rtmpStatus], the two fields the supervisor's decisions touch. *)
Record RtmpStatus := mkRtmpStatus { connected : bool; ffmpegRestarts : Z }.

(** The variables of [createFfmpegManager].  [lastProgressFrame] is the
    number the heartbeat reads out of [lastProgress.frame], when there is
    one.  Three fields are not variables of the code but of the runtime
    under it: [timers] and [timerSeq] are the pending [setTimeout]s and the
    next timer handle, and [listeners] counts the process handles that
    carry the module's 'close' and 'error' listeners and have not emitted
    'close' yet. *)
Record State := mkState {
  ffmpegProcess : option Proc;
  ffmpegWritable : bool;
  restartingFfmpeg : bool;
  ffmpegRestartAttempts : list Z;
  ffmpegStartedAt : option Z;
  ffmpegBlocked : bool;
  ffmpegBlockTimeout : option nat;
  manualRestartReason : option string;
  pendingOverlayStyleRestart : bool;
  plannedPauseReason : option string;
  heartbeatTimer : bool;
  heartbeatState : Heartbeat;
  lastProgressFrame : option Z;
  lastProgressUpdateAt : option Z;
  rtmpStatus : RtmpStatus;
  timers : list Timer;
  timerSeq : nat;
  listeners : nat
}.

Definition idleHeartbeat : Heartbeat :=
  {| lastFrame := None; stallWarnings := 0; lastWarningAt := None;
     startedAt := None |}.

Definition initial : State :=
  {| ffmpegProcess := None; ffmpegWritable := true; restartingFfmpeg := false;
     ffmpegRestartAttempts := []; ffmpegStartedAt := None;
     ffmpegBlocked := false; ffmpegBlockTimeout := None;
     manualRestartReason := None; pendingOverlayStyleRestart := false;
     plannedPauseReason := None; heartbeatTimer := false;
     heartbeatState := idleHeartbeat; lastProgressFrame := None;
     lastProgressUpdateAt := None;
     rtmpStatus := {| connected := false; ffmpegRestarts := 0 |};
     timers := []; timerSeq := 0; listeners := 0 |}.

(** Assignments to one variable. *)
Definition setProcess (v : option Proc) (st : State) : State :=
  let 'mkState _ b c d e f g h i j k l m n o p q r := st in
  mkState v b c d e f g h i j k l m n o p q r.
Definition setWritableFlag (v : bool) (st : State) : State :=
  let 'mkState a _ c d e f g h i j k l m n o p q r := st in
  mkState a v c d e f g h i j k l m n o p q r.
Definition setRestarting (v : bool) (st : State) : State :=
  let 'mkState a b _ d e f g h i j k l m n o p q r := st in
  mkState a b v d e f g h i j k l m n o p q r.
Definition setAttempts (v : list Z) (st : State) : State :=
  let 'mkState a b c _ e f g h i j k l m n o p q r := st in
  mkState a b c v e f g h i j k l m n o p q r.
Definition setStartedAt (v : option Z) (st : State) : State :=
  let 'mkState a b c d _ f g h i j k l m n o p q r := st in
  mkState a b c d v f g h i j k l m n o p q r.
Definition setBlocked (v : bool) (st : State) : State :=
  let 'mkState a b c d e _ g h i j k l m n o p q r := st in
  mkState a b c d e v g h i j k l m n o p q r.
Definition setBlockTimeout (v : option nat) (st : State) : State :=
  let 'mkState a b c d e f _ h i j k l m n o p q r := st in
  mkState a b c d e f v h i j k l m n o p q r.
Definition setManualReason (v : option string) (st : State) : State :=
  let 'mkState a b c d e f g _ i j k l m n o p q r := st in
  mkState a b c d e f g v i j k l m n o p q r.
Definition setPendingOverlay (v : bool) (st : State) : State :=
  let 'mkState a b c d e f g h _ j k l m n o p q r := st in
  mkState a b c d e f g h v j k l m n o p q r.
Definition setPlannedReason (v : option string) (st : State) : State :=
  let 'mkState a b c d e f g h i _ k l m n o p q r := st in
  mkState a b c d e f g h i v k l m n o p q r.
Definition setHeartbeatTimer (v : bool) (st : State) : State :=
  let 'mkState a b c d e f g h i j _ l m n o p q r := st in
  mkState a b c d e f g h i j v l m n o p q r.
Definition setHeartbeatState (v : Heartbeat) (st : State) : State :=
  let 'mkState a b c d e f g h i j k _ m n o p q r := st in
  mkState a b c d e f g h i j k v m n o p q r.
Definition setProgressFrame (v : option Z) (st : State) : State :=
  let 'mkState a b c d e f g h i j k l _ n o p q r := st in
  mkState a b c d e f g h i j k l v n o p q r.
Definition setProgressUpdateAt (v : option Z) (st : State) : State :=
  let 'mkState a b c d e f g h i j k l m _ o p q r := st in
  mkState a b c d e f g h i j k l m v o p q r.
Definition setRtmpStatus (v : RtmpStatus) (st : State) : State :=
  let 'mkState a b c d e f g h i j k l m n _ p q r := st in
  mkState a b c d e f g h i j k l m n v p q r.
Definition setTimers (v : list Timer) (st : State) : State :=
  let 'mkState a b c d e f g h i j k l m n o _ q r := st in
  mkState a b c d e f g h i j k l m n o v q r.
Definition setTimerSeq (v : nat) (st : State) : State :=
  let 'mkState a b c d e f g h i j k l m n o p _ r := st in
  mkState a b c d e f g h i j k l m n o p v r.
Definition setListeners (v : nat) (st : State) : State :=
  let 'mkState a b c d e f g h i j k l m n o p q _ := st in
  mkState a b c d e f g h i j k l m n o p q v.

Definition setConnected (v : bool) (st : State) : State :=
  setRtmpStatus
    {| connected := v; ffmpegRestarts := ffmpegRestarts (rtmpStatus st) |} st.
Definition setRestarts (v : Z) (st : State) : State :=
  setRtmpStatus {| connected := connected (rtmpStatus st); ffmpegRestarts := v |} st.

(** [setTimeout(callback, delay)] at time [now]: a fresh handle. *)
Definition setTimeout (k : TimerKind) (now delay : Z) (st : State) : nat * State :=
  let h := timerSeq st in
  (h, setTimerSeq (S h)
        (setTimers (timers st ++ [{| handle := h; kind := k; due := now + delay |}]) st)).

(** [clearTimeout(h)]: nothing happens when the timer has fired already. *)
Definition clearTimeout (h : nat) (st : State) : State :=
  setTimers (List.filter (fun t => negb (handle t =? h)%nat) (timers st)) st.

Definition findTimer (h : nat) (st : State) : option Timer :=
  List.find (fun t => (handle t =? h)%nat) (timers st).

(** What the handlers do to the outside. *)
Inductive Action :=
| ASpawn                           (* spawn('ffmpeg', args, ...) is called *)
| AKill                            (* ffmpegProcess.kill('SIGTERM') *)
| AStdinEnd                        (* ffmpegProcess.stdin.end() *)
| AOnSpawn (reason : option string)(* onSpawn({ reason }) *)
| AOnClose                         (* onClose(...) *)
| AOnDrain                         (* onDrain() *)
| AStallWarning.                   (* the heartbeat's stall warning *)

Global Instance Action_eq_dec : EqDecision Action.
Proof. solve_decision. Defined.

Section Handlers.

Variable cfg : Config.

Definition startHeartbeat (now : Z) (st : State) : State :=
  let hb := heartbeatState st in
  setHeartbeatTimer true
    (setHeartbeatState
       {| lastFrame := lastFrame hb; stallWarnings := stallWarnings hb;
          lastWarningAt := lastWarningAt hb; startedAt := Some now |} st).

Definition stopHeartbeat (st : State) : State :=
  setProgressUpdateAt None
    (setHeartbeatState idleHeartbeat (setHeartbeatTimer false st)).

(** The restart timestamps still inside the sliding window at [now]. *)
Definition recentAttempts (now : Z) (st : State) : list Z :=
  List.filter (fun ts => now - ts <=? FFMPEG_RESTART_WINDOW_MS cfg)
    (ffmpegRestartAttempts st).

Definition backoffBase (attemptNo : Z) : Z :=
  Z.min (FFMPEG_RESTART_BACKOFF_BASE_MS cfg * 2 ^ attemptNo)
    (FFMPEG_RESTART_BACKOFF_MAX_MS cfg).

Definition backoffDelay (attemptNo : Z) (rnd : Js.Random) : Z :=
  let baseDelay := backoffBase attemptNo in
  let jitter := Js.floorMul rnd (Z.min 1000 baseDelay) in
  baseDelay + jitter.

Definition scheduleRestart (now : Z) (rnd : Js.Random) (st : State) : State :=
  if negb (FFMPEG_AUTO_RESTART cfg) then st
  else if restartingFfmpeg st then st
  else
    let st := setAttempts (recentAttempts now st) st in
    if FFMPEG_RESTART_MAX_ATTEMPTS cfg
       <=? Z.of_nat (length (ffmpegRestartAttempts st))
    then
      let st := setConnected false (setBlocked true st) in
      let st :=
        match ffmpegBlockTimeout st with
        | Some h => clearTimeout h st
        | None => st
        end in
      let '(h, st) := setTimeout TBlock now BLOCK_TIMEOUT_MS st in
      setBlockTimeout (Some h) st
    else
      let attemptNo := Z.of_nat (length (ffmpegRestartAttempts st)) in
      let delay := backoffDelay attemptNo rnd in
      let st := setAttempts (ffmpegRestartAttempts st ++ [now]) st in
      let st := setRestarts (ffmpegRestarts (rtmpStatus st) + 1) st in
      let st := setRestarting true st in
      (setTimeout TRestart now delay st).2.

(** [!ffmpegProcess || !ffmpegProcess.pid] *)
Definition noHandle (p : option Proc) : bool :=
  match p with
  | Some pr => negb (Js.truthyNum (pid pr))
  | None => true
  end.

(** [spawn_].  The command line it builds does not enter any decision of
    the supervisor and is left out. *)
Definition spawn_ (now : Z) (o : SpawnOutcome) (st : State)
  : State * list Action :=
  match o with
  | SpawnThrows => (setBlocked true (setConnected false st), [ASpawn])
  | SpawnReturns p =>
      let st := setProcess p st in
      if noHandle p then (setBlocked true (setConnected false st), [ASpawn])
      else
        let st := setWritableFlag true st in
        let st := setProgressUpdateAt None (setProgressFrame None st) in
        let st := setConnected true st in
        let st := setStartedAt (Some now) st in
        let st := (setTimeout TStability now (FFMPEG_STABLE_RUN_MS cfg) st).2 in
        let st := startHeartbeat now st in
        (setListeners (S (listeners st)) st, [ASpawn])
  end.

(** The callback of the stability check armed by [spawn_]. *)
Definition onStabilityTimer (now : Z) (st : State) : State :=
  if bool_decide (is_Some (ffmpegProcess st))
     && Js.truthyNum (ffmpegStartedAt st)
     && (FFMPEG_STABLE_RUN_MS cfg <=? now - default 0 (ffmpegStartedAt st))
  then
    let st := setAttempts [] st in
    if ffmpegBlocked st then setBlocked false st else st
  else st.

(** The callback of the automatic unblock armed by [scheduleRestart]. *)
Definition onBlockTimer (st : State) : State :=
  setAttempts [] (setBlocked false st).

(** The callback of the backed-off restart armed by [scheduleRestart]. *)
Definition onRestartTimer (now : Z) (o : SpawnOutcome) (st : State)
  : State * list Action :=
  spawn_ now o (setRestarting false st).

(** ffmpegProcess.on('spawn') *)
Definition onProcSpawn (st : State) : State * list Action :=
  (st, [AOnSpawn (Js.orStr (manualRestartReason st) (plannedPauseReason st))]).

(** ffmpegProcess.stdin.on('drain') *)
Definition onStdinDrain (st : State) : State * list Action :=
  (setWritableFlag true st, [AOnDrain]).

(** ffmpegProcess.stderr.on('data'), for one progress line [key=value];
    [frame] is the number of a [frame=] line. *)
Definition onProgressLine (now : Z) (frame : option Z) (st : State) : State :=
  let st := match frame with
            | Some f => setProgressFrame (Some f) st
            | None => st
            end in
  setProgressUpdateAt (Some now) st.

(** ffmpegProcess.on('close') *)
Definition onProcClose (now : Z) (rnd : Js.Random) (st : State)
  : State * list Action :=
  let reason := manualRestartReason st in
  let st := setConnected false st in
  let st := setProcess None st in
  let st := stopHeartbeat st in
  let st := setPendingOverlay false st in
  let st := setListeners (Nat.pred (listeners st)) st in
  if Js.truthyStr reason then
    let st := setManualReason None st in
    ((setTimeout TPlanned now PLANNED_RESPAWN_MS st).2, [AOnClose])
  else
    let st := setManualReason None st in
    (scheduleRestart now rnd st, [AOnClose]).

(** ffmpegProcess.on('error') *)
Definition onProcError (now : Z) (rnd : Js.Random) (st : State)
  : State * list Action :=
  let st := setConnected false st in
  let st := stopHeartbeat st in
  let st := setPendingOverlay false st in
  let st := setManualReason None st in
  (scheduleRestart now rnd st, []).

Definition processKilled (st : State) : bool :=
  match ffmpegProcess st with
  | Some p => killed p
  | None => false
  end.

(** The callback of the heartbeat interval. *)
Definition onHeartbeat (now : Z) (rnd : Js.Random) (st : State)
  : State * list Action :=
  if processKilled st then
    let st := setConnected false st in
    let st := setProcess None st in
    let st := stopHeartbeat st in
    (scheduleRestart now rnd st, [])
  else
    let hb := heartbeatState st in
    let hb :=
      match lastProgressFrame st with
      | Some f =>
          if bool_decide (lastFrame hb = Some f) then hb
          else {| lastFrame := Some f; stallWarnings := 0;
                  lastWarningAt := None; startedAt := startedAt hb |}
      | None => hb
      end in
    let st := setHeartbeatState hb st in
    let progressTimestamp :=
      if Js.truthyNum (lastProgressUpdateAt st) then lastProgressUpdateAt st
      else startedAt hb in
    if negb (Js.truthyNum progressTimestamp) then (st, [])
    else
      let stalledMs := now - default 0 progressTimestamp in
      if (FFMPEG_STALL_WARN_MS cfg <? stalledMs)
         && (negb (Js.truthyNum (lastWarningAt hb))
             || (FFMPEG_STALL_WARN_MS cfg <=? now - default 0 (lastWarningAt hb)))
      then
        (setHeartbeatState
           {| lastFrame := lastFrame hb; stallWarnings := stallWarnings hb + 1;
              lastWarningAt := Some now; startedAt := startedAt hb |} st,
         [AStallWarning])
      else (st, []).

Definition markKilled (st : State) : State :=
  match ffmpegProcess st with
  | Some p =>
      setProcess (Some {| pid := pid p; killed := true; stdin := stdin p |}) st
  | None => st
  end.

(** [requestRestart(reason)] and the boolean it returns. *)
Definition requestRestart (reason : string) (k : KillOutcome) (st : State)
  : State * list Action * bool :=
  match ffmpegProcess st with
  | None => (st, [], false)
  | Some _ =>
      if pendingOverlayStyleRestart st then (st, [], false)
      else
        let st := setManualReason (Some reason) (setPendingOverlay true st) in
        match k with
        | KillDelivered => (markKilled st, [AKill], true)
        | KillNotDelivered => (st, [AKill], true)
        | KillThrows =>
            (setManualReason None (setPendingOverlay false st), [AKill], false)
        end
  end.

Definition getStdin (st : State) : option Stdin :=
  match ffmpegProcess st with
  | Some p =>
      match stdin p with
      | Some s => if destroyed s then None else Some s
      | None => None
      end
  | None => None
  end.

Definition isWritable (st : State) : bool := ffmpegWritable st.
Definition setWritable (value : bool) (st : State) : State :=
  setWritableFlag value st.
Definition isRunning (st : State) : bool :=
  bool_decide (is_Some (ffmpegProcess st)).
Definition isBlocked (st : State) : bool := ffmpegBlocked st.

(** [getStatus()], the fields read by the health and status routes. *)
Record Status := mkStatus {
  statusConnected : bool;
  statusRestarts : Z;
  statusPid : option Z;
  statusUptimeMs : option Z;
  statusBlocked : bool;
  restartAttemptsInWindow : Z
}.

Definition getStatus (now : Z) (st : State) : Status :=
  {| statusConnected := connected (rtmpStatus st);
     statusRestarts := ffmpegRestarts (rtmpStatus st);
     statusPid :=
       match ffmpegProcess st with
       | Some p => if Js.truthyNum (pid p) then pid p else None
       | None => None
       end;
     statusUptimeMs :=
       if Js.truthyNum (ffmpegStartedAt st)
       then Some (now - default 0 (ffmpegStartedAt st)) else None;
     statusBlocked := ffmpegBlocked st;
     restartAttemptsInWindow := Z.of_nat (length (ffmpegRestartAttempts st)) |}.

(** [shutdown()]; a throwing [kill] leaves before [stopHeartbeat]. *)
Definition shutdown (k : KillOutcome) (st : State) : State * list Action :=
  match ffmpegProcess st with
  | Some p =>
      let ended := if bool_decide (is_Some (stdin p)) then [AStdinEnd] else [] in
      match k with
      | KillDelivered => (stopHeartbeat (markKilled st), ended ++ [AKill])
      | KillNotDelivered => (stopHeartbeat st, ended ++ [AKill])
      | KillThrows => (st, ended ++ [AKill])
      end
  | None => (stopHeartbeat st, [])
  end.

Definition setPlannedPause (reason : string) (st : State) : State :=
  setWritableFlag false (setPlannedReason (Some reason) st).

Definition clearPlannedPause (st : State) : State :=
  setWritableFlag true (setPlannedReason None st).

Definition getPlannedPause (st : State) : option string := plannedPauseReason st.

(** The encoder closes its end of the audio pipe. *)
Definition pipeDestroyed (st : State) : State :=
  match ffmpegProcess st with
  | Some p =>
      match stdin p with
      | Some _ =>
          setProcess
            (Some {| pid := pid p; killed := killed p;
                     stdin := Some {| destroyed := true |} |}) st
      | None => st
      end
  | None => st
  end.

(** Everything that can happen to the supervisor: calls of its API,
    events of the processes it spawned, and its timers. *)
Inductive Event :=
| ApiSpawn (now : Z) (o : SpawnOutcome)
| ApiRequestRestart (reason : string) (k : KillOutcome)
| ApiShutdown (k : KillOutcome)
| ApiSetWritable (value : bool)
| ApiSetPlannedPause (reason : string)
| ApiClearPlannedPause
| ProcSpawn
| ProcClose (now : Z) (rnd : Js.Random)
| ProcError (now : Z) (rnd : Js.Random)
| StdinDrain
| ProgressLine (now : Z) (frame : option Z)
| PipeDestroyed
| HeartbeatTick (now : Z) (rnd : Js.Random)
| TimerFires (h : nat) (now : Z) (o : SpawnOutcome).

(** A timer fires once, not before it is due; its callback depends on
    what armed it. *)
Definition onTimer (h : nat) (now : Z) (o : SpawnOutcome) (st : State)
  : option (State * list Action) :=
  match findTimer h st with
  | Some t =>
      if due t <=? now then
        let st := clearTimeout h st in
        Some match kind t with
             | TRestart => onRestartTimer now o st
             | TPlanned => spawn_ now o st
             | TStability => (onStabilityTimer now st, [])
             | TBlock => (onBlockTimer st, [])
             end
      else None
  | None => None
  end.

(** One event; [None] when the event cannot happen in that state: an
    event of a process needs a process that carries the listeners, a tick
    needs the interval, a timer callback needs the timer.  The 'spawn'
    listener reads [ffmpegProcess.pid] first, so it needs the variable to
    hold a process as well.

    [spawn_] returns before it registers anything on a handle without a
    PID, so what such a handle emits reaches no handler of this module.
    Its 'error' event, with no listener, is an uncaught exception of the
    Node process; server.js answers it with its own [shutdown], which
    calls [shutdown] here: the event [ApiShutdown]. *)
Definition step (e : Event) (st : State) : option (State * list Action) :=
  let live := bool_decide (listeners st <> 0%nat) in
  match e with
  | ApiSpawn now o => Some (spawn_ now o st)
  | ApiRequestRestart reason k => Some (requestRestart reason k st).1
  | ApiShutdown k => Some (shutdown k st)
  | ApiSetWritable v => Some (setWritable v st, [])
  | ApiSetPlannedPause reason => Some (setPlannedPause reason st, [])
  | ApiClearPlannedPause => Some (clearPlannedPause st, [])
  | ProcSpawn => if live && isRunning st then Some (onProcSpawn st) else None
  | ProcClose now rnd => if live then Some (onProcClose now rnd st) else None
  | ProcError now rnd => if live then Some (onProcError now rnd st) else None
  | StdinDrain => if live then Some (onStdinDrain st) else None
  | ProgressLine now frame =>
      if live then Some (onProgressLine now frame st, []) else None
  | PipeDestroyed => if live then Some (pipeDestroyed st, []) else None
  | HeartbeatTick now rnd =>
      if heartbeatTimer st then Some (onHeartbeat now rnd st) else None
  | TimerFires h now o => onTimer h now o st
  end.

Fixpoint run (evs : list Event) (st : State) : option (State * list Action) :=
  match evs with
  | [] => Some (st, [])
  | e :: evs' =>
      match step e st with
      | Some (st1, acts) =>
          match run evs' st1 with
          | Some (st2, acts') => Some (st2, acts ++ acts')
          | None => None
          end
      | None => None
      end
  end.

(** *** Vocabulary of the crash-loop properties *)

Definition timerOfKind (k : TimerKind) (h : nat) (st : State) : bool :=
  match findTimer h st with
  | Some t => bool_decide (kind t = k)
  | None => false
  end.

(** A restart, backed off or planned, is waiting to spawn. *)
Definition spawnPending (st : State) : bool :=
  existsb (fun t => bool_decide (kind t = TRestart \/ kind t = TPlanned))
    (timers st).

(** No encoder is left that could report anything, and no spawn is
    waiting: the supervisor after the last process has closed. *)
Definition quiet (st : State) : Prop :=
  ffmpegProcess st = None /\ listeners st = 0%nat /\ spawnPending st = false.

(** No process carries the listeners of the supervisor, the heartbeat is
    off and no spawn is waiting.  [ffmpegProcess] may still hold a handle,
    the one a spawn without a PID has stored. *)
Definition unattended (st : State) : Prop :=
  listeners st = 0%nat /\ heartbeatTimer st = false /\ spawnPending st = false.

(** [spawn] is called from outside. *)
Definition callsSpawn (e : Event) : bool :=
  match e with
  | ApiSpawn _ _ => true
  | _ => false
  end.

(** A [setTimeout] callback runs. *)
Definition firesTimer (e : Event) : bool :=
  match e with
  | TimerFires _ _ _ => true
  | _ => false
  end.

(** The events that end a blocked period: the automatic unblock timer
    fires, or [spawn] is called from outside. *)
Definition endsBlock (st : State) (e : Event) : bool :=
  match e with
  | TimerFires h _ _ => timerOfKind TBlock h st
  | ApiSpawn _ _ => true
  | _ => false
  end.

(** [waits st acts st']: from [st] the supervisor reaches [st'] through
    events none of which ends the blocked period, doing [acts]. *)
Inductive waits : State -> list Action -> State -> Prop :=
| waits_here st : waits st [] st
| waits_step st e st1 acts acts' st2 :
    endsBlock st e = false ->
    step e st = Some (st1, acts) ->
    waits st1 acts' st2 ->
    waits st (acts ++ acts') st2.

(** The same, as a run that stops at the first event ending the blocked
    period. *)
Fixpoint runWaiting (evs : list Event) (st : State)
  : option (State * list Action) :=
  match evs with
  | [] => Some (st, [])
  | e :: evs' =>
      if endsBlock st e then None
      else
        match step e st with
        | Some (st1, acts) =>
            match runWaiting evs' st1 with
            | Some (st2, acts') => Some (st2, acts ++ acts')
            | None => None
            end
        | None => None
        end
  end.


(** The outcomes of [spawn] that give no process handle. *)
Definition spawnFails (o : SpawnOutcome) : bool :=
  match o with
  | SpawnThrows => true
  | SpawnReturns p => noHandle p
  end.

Definition restartArmed (st : State) : bool :=
  existsb (fun t => bool_decide (kind t = TRestart)) (timers st).

End Handlers.

(** *** Scenarios, with the default constants *)

Definition noJitter : Js.Random := {| Js.rnum := 0; Js.rden := 1 |}.

Definition encoder : Proc :=
  {| pid := Some 4242; killed := false; stdin := Some {| destroyed := false |} |}.

Definition started : SpawnOutcome := SpawnReturns (Some encoder).

(** The encoder starts, then exits unexpectedly four times; each time the
    backed-off timer respawns it. *)
Definition fourCrashes : list Event :=
  [ ApiSpawn 0 started;
    ProcClose 1000 noJitter; TimerFires 1 1500 started;
    ProcClose 2000 noJitter; TimerFires 3 3000 started;
    ProcClose 3500 noJitter; TimerFires 5 5500 started;
    ProcClose 6000 noJitter; TimerFires 7 10000 started ].

(** The fifth failure is reported by an 'error' event. *)
Definition fifthFailureReported : list Event :=
  fourCrashes ++ [ ProcError 10500 noJitter ].

(** Five unexpected exits, each followed by its restart. *)
Definition fiveCrashes : list Event :=
  fourCrashes ++ [ ProcClose 10500 noJitter; TimerFires 9 18500 started ].

(** The sixth failure is an unexpected exit ... *)
Definition sixthExit : list Event := fiveCrashes ++ [ ProcClose 19000 noJitter ].

(** ... or is reported by an 'error' event, the handle staying open. *)
Definition sixthError : list Event := fiveCrashes ++ [ ProcError 19000 noJitter ].

(** More than a minute after the sixth failure was reported by 'error',
    the process closes; the restart timer this arms fires. *)
Definition lateClose : list Event :=
  [ ProcClose 80000 noJitter; TimerFires 12 80500 started ].

(** The fifth failure, reported by 'error', is reported again by 'close';
    then the restart timer fires. *)
Definition reportedAgain : list Event :=
  [ ProcClose 10600 noJitter; TimerFires 9 18500 started ].

(** While blocked: a stale stability timer fires and a planned restart is
    requested. *)
Definition whileBlocked : list Event :=
  [ TimerFires 0 120000 started;
    ApiRequestRestart "background change" KillDelivered ].

(** A handle without a PID. *)
Definition noPid : SpawnOutcome :=
  SpawnReturns (Some {| pid := None; killed := false; stdin := None |}).

(** The encoder exits unexpectedly after one second, and the backed-off
    respawn yields a handle without a PID. *)
Definition failedRespawn : list Event :=
  [ ApiSpawn 1000 started; ProcClose 2000 noJitter; TimerFires 1 2500 noPid ].

(** A planned restart is requested; the heartbeat sees the killed handle
    before the encoder has closed and arms a restart, whose spawn throws. *)
Definition respawnThrowsBeforeClose : list Event :=
  [ ApiSpawn 0 started;
    ApiRequestRestart "background change" KillDelivered;
    HeartbeatTick 7000 noJitter;
    TimerFires 1 7500 SpawnThrows ].

(** The state a scenario ends in ([initial] if it cannot happen). *)
Definition after (evs : list Event) : State :=
  match run defaults evs initial with
  | Some (st, _) => st
  | None => initial
  end.

(** The actions of a scenario. *)
Definition actionsOf (evs : list Event) (st : State) : list Action :=
  match run defaults evs st with
  | Some (_, acts) => acts
  | None => []
  end.

End Ffmpeg.

(** ** server/constants.js and server/silence-generator.js: the Silence Filler *)

Module Silence.

Definition SAMPLE_RATE : Z := 44100.
Definition CHANNELS : Z := 2.
Definition BYTES_PER_SAMPLE : Z := 2.
Definition BYTES_PER_SECOND : Z := SAMPLE_RATE * CHANNELS * BYTES_PER_SAMPLE.
Definition SILENCE_CHUNK_DURATION_MS : Z := 20.
Definition SILENCE_CHUNK_SIZE : Z :=
  BYTES_PER_SECOND * SILENCE_CHUNK_DURATION_MS / 1000.
Definition SILENCE_RESUME_DELAY_MS : Z := 120.

(** [Buffer.alloc(SILENCE_CHUNK_SIZE, 0)] *)
Definition SILENCE_CHUNK : list Byte.byte :=
  List.repeat Byte.x00 (Z.to_nat SILENCE_CHUNK_SIZE).

(** What [stdin.write(chunk)] does: it returns [true], it returns [false]
    (the stream asks the writer to wait for 'drain'), or it throws. *)
Inductive WriteOutcome :=
| WriteAccepted
| WriteBuffered
| WriteThrowsEPIPE
| WriteThrowsOther.

Global Instance WriteOutcome_eq_dec : EqDecision WriteOutcome.
Proof. solve_decision. Defined.

(** The variables of [createSilenceGenerator]: [silenceInterval] and
    [idleSilenceTimer] say whether the variable holds a timer;
    [idleArmed] says whether the resume timer is still due to fire. *)
Record State := mkState {
  silenceInterval : bool;
  silencePaused : bool;
  silenceBackpressure : bool;
  idleSilenceTimer : bool;
  idleArmed : bool
}.

Definition initial : State :=
  {| silenceInterval := false; silencePaused := false;
     silenceBackpressure := false; idleSilenceTimer := false;
     idleArmed := false |}.

Inductive Action :=
| WriteChunk (chunk : list Byte.byte) (w : WriteOutcome) (* stdin.write(chunk) *)
| WarnWriteError.

Definition withBackpressure (v : bool) (st : State) : State :=
  {| silenceInterval := silenceInterval st; silencePaused := silencePaused st;
     silenceBackpressure := v; idleSilenceTimer := idleSilenceTimer st;
     idleArmed := idleArmed st |}.

(** [writeSilenceChunk], the callback of the interval.  The three
    dependencies are wired by the orchestrator to the supervisor's
    [getStdin], [isWritable] and [setWritable]; [w] is what the write does
    if the tick gets to it. *)
Definition writeSilenceChunk (w : WriteOutcome) (enc : Ffmpeg.State) (st : State)
  : State * Ffmpeg.State * list Action :=
  if silencePaused st || silenceBackpressure st then (st, enc, [])
  else
    match Ffmpeg.getStdin enc with
    | None => (withBackpressure true st, enc, [])
    | Some _ =>
        if negb (Ffmpeg.isWritable enc) then (withBackpressure true st, enc, [])
        else
          match w with
          | WriteAccepted => (st, enc, [WriteChunk SILENCE_CHUNK w])
          | WriteBuffered =>
              (withBackpressure true st, Ffmpeg.setWritable false enc,
               [WriteChunk SILENCE_CHUNK w])
          | WriteThrowsEPIPE =>
              (withBackpressure true st, enc, [WriteChunk SILENCE_CHUNK w])
          | WriteThrowsOther =>
              (st, enc, [WriteChunk SILENCE_CHUNK w; WarnWriteError])
          end
    end.

Definition ensureSilenceWriter (st : State) : State :=
  if silenceInterval st then st
  else
    {| silenceInterval := true; silencePaused := false;
       silenceBackpressure := false; idleSilenceTimer := idleSilenceTimer st;
       idleArmed := idleArmed st |}.

Definition start (st : State) : State := ensureSilenceWriter st.

Definition stop (st : State) : State :=
  {| silenceInterval := false; silencePaused := false;
     silenceBackpressure := false; idleSilenceTimer := false;
     idleArmed := if idleSilenceTimer st then false else idleArmed st |}.

Definition suspendTemporarily (st : State) : State :=
  if silenceInterval st then
    {| silenceInterval := silenceInterval st; silencePaused := true;
       silenceBackpressure := silenceBackpressure st;
       idleSilenceTimer := idleSilenceTimer st; idleArmed := idleArmed st |}
  else st.

(** [resumeAfterDelay]: the pending timer, if any, is replaced. *)
Definition resumeAfterDelay (st : State) : State :=
  {| silenceInterval := silenceInterval st; silencePaused := silencePaused st;
     silenceBackpressure := silenceBackpressure st;
     idleSilenceTimer := true; idleArmed := true |}.

(** The callback of the timer armed by [resumeAfterDelay]. *)
Definition onIdleTimer (st : State) : State :=
  if silenceInterval st then
    {| silenceInterval := silenceInterval st; silencePaused := false;
       silenceBackpressure := false;
       idleSilenceTimer := idleSilenceTimer st; idleArmed := false |}
  else
    {| silenceInterval := silenceInterval st; silencePaused := silencePaused st;
       silenceBackpressure := silenceBackpressure st;
       idleSilenceTimer := idleSilenceTimer st; idleArmed := false |}.

Definition setBackpressure (value : bool) (st : State) : State :=
  withBackpressure value st.
Definition resetBackpressure (st : State) : State := withBackpressure false st.
Definition isActive (st : State) : bool := silenceInterval st.
Definition isPaused (st : State) : bool := silencePaused st.
Definition hasBackpressure (st : State) : bool := silenceBackpressure st.

(** The chunks handed to [stdin.write]. *)
Definition written (acts : list Action) : list (list Byte.byte) :=
  omap (fun a => match a with
                 | WriteChunk chunk _ => Some chunk
                 | WarnWriteError => None
                 end) acts.

(** A series of ticks with no other call of the filler's API in between;
    each tick meets the encoder in the state given with it. *)
Fixpoint ticks (ins : list (WriteOutcome * Ffmpeg.State)) (st : State)
  : State * list Action :=
  match ins with
  | [] => (st, [])
  | (w, enc) :: ins' =>
      let '(st1, _, acts) := writeSilenceChunk w enc st in
      let '(st2, acts') := ticks ins' st1 in
      (st2, acts ++ acts')
  end.

(** A running encoder and a filler that was started. *)
Definition encoderUp : Ffmpeg.State :=
  (Ffmpeg.spawn_ Ffmpeg.defaults 0 Ffmpeg.started Ffmpeg.initial).1.

Definition running : State := start initial.

End Silence.

(** ** server/tcp-server.js: the Ingest Listener *)

Module Tcp.

(** A producer socket, as far as the listener looks at it; [closed] says
    that its 'close' event has been delivered. *)
Record Socket := mkSocket { paused : bool; destroyed : bool; closed : bool }.

Definition freshSocket : Socket :=
  {| paused := false; destroyed := false; closed := false |}.

(** [ingestStats]; its field [start] is [sessionStart] here, [start]
    being the listener's method. *)
Record IngestStats := mkStats {
  bytesTotal : Z;
  bytesSinceLog : Z;
  chunksTotal : Z;
  lastLog : Z;
  sessionStart : Z
}.

(** The variables of [createTcpServer], and the sockets the listener has
    been handed, by identity. *)
Record State := mkState {
  listening : bool;
  currentProducer : option nat;
  pendingSocketResume : option nat;
  ingestIdleTimer : bool;
  ingestStats : IngestStats;
  sockets : gmap nat Socket
}.

Definition initial (now : Z) : State :=
  {| listening := false; currentProducer := None; pendingSocketResume := None;
     ingestIdleTimer := false;
     ingestStats := {| bytesTotal := 0; bytesSinceLog := 0; chunksTotal := 0;
                       lastLog := now; sessionStart := now |};
     sockets := ∅ |}.

Inductive Action :=
| PauseSocket (s : nat)        (* socket.pause() *)
| ResumeSocket (s : nat)       (* socket.resume() *)
| DestroySocket (s : nat)      (* socket.destroy() *)
| OnProducerConnect (s : nat)  (* onProducerConnect(socket) *)
| OnProducerDisconnect         (* onProducerDisconnect() *)
| IdleWarning.                 (* the idle timer's warning *)

Global Instance Action_eq_dec : EqDecision Action.
Proof. solve_decision. Defined.

Definition setCurrent (v : option nat) (st : State) : State :=
  let 'mkState a _ c d e f := st in mkState a v c d e f.
Definition setPending (v : option nat) (st : State) : State :=
  let 'mkState a b _ d e f := st in mkState a b v d e f.
Definition setIdleTimer (v : bool) (st : State) : State :=
  let 'mkState a b c _ e f := st in mkState a b c v e f.
Definition setStats (v : IngestStats) (st : State) : State :=
  let 'mkState a b c d _ f := st in mkState a b c d v f.
Definition setSockets (v : gmap nat Socket) (st : State) : State :=
  let 'mkState a b c d e _ := st in mkState a b c d e v.
Definition setListening (v : bool) (st : State) : State :=
  let 'mkState _ b c d e f := st in mkState v b c d e f.

(** The methods of a socket. *)
Definition socketPause (s : nat) (st : State) : State :=
  setSockets
    (alter (fun k => {| paused := true; destroyed := destroyed k;
                        closed := closed k |}) s (sockets st)) st.
Definition socketResume (s : nat) (st : State) : State :=
  setSockets
    (alter (fun k => {| paused := false; destroyed := destroyed k;
                        closed := closed k |}) s (sockets st)) st.
Definition socketDestroy (s : nat) (st : State) : State :=
  setSockets
    (alter (fun k => {| paused := paused k; destroyed := true;
                        closed := closed k |}) s (sockets st)) st.
Definition socketDestroyed (s : nat) (st : State) : bool :=
  match sockets st !! s with
  | Some k => destroyed k
  | None => true
  end.
Definition socketPaused (s : nat) (st : State) : bool :=
  match sockets st !! s with
  | Some k => paused k
  | None => false
  end.

Section Handlers.

Variable INGEST_LOG_INTERVAL_MS : Z.

Definition flushIngestLog (now : Z) (st : State) : State :=
  let i := ingestStats st in
  setStats {| bytesTotal := bytesTotal i; bytesSinceLog := 0;
              chunksTotal := chunksTotal i; lastLog := now; sessionStart := sessionStart i |} st.

Definition scheduleIngestIdleWarning (st : State) : State := setIdleTimer true st.

Definition stopIngestIdleWarning (st : State) : State := setIdleTimer false st.

Definition noteIngestChunk (size now : Z) (st : State) : State :=
  let i := ingestStats st in
  let st := setStats {| bytesTotal := bytesTotal i + size;
                        bytesSinceLog := bytesSinceLog i + size;
                        chunksTotal := chunksTotal i + 1;
                        lastLog := lastLog i; sessionStart := sessionStart i |} st in
  let st := if INGEST_LOG_INTERVAL_MS <=? now - lastLog i
            then flushIngestLog now st else st in
  scheduleIngestIdleWarning st.

Definition resetIngestCounters (now : Z) (st : State) : State :=
  setStats {| bytesTotal := 0; bytesSinceLog := 0; chunksTotal := 0;
              lastLog := now; sessionStart := now |} st.

(** What the injected [onData] did with the chunk: whether it called the
    [pause] control it was handed, and the [paused] field of what it
    returned.  It has no other way into the listener ([resume] and
    [isPaused] are handed over too; the orchestrator calls neither). *)
Record Verdict := mkVerdict { calledPause : bool; resultPaused : bool }.

(** The [pause] control: [socket.pause(); pendingSocketResume = socket]. *)
Definition controlPause (s : nat) (st : State) : State :=
  setPending (Some s) (socketPause s st).

(** [handleProducerData(socket, chunk)] *)
Definition handleProducerData (s : nat) (size now : Z) (v : Verdict) (st : State)
  : State * list Action :=
  let st := noteIngestChunk size now st in
  let '(st, acts) :=
    if calledPause v then (controlPause s st, [PauseSocket s]) else (st, []) in
  (if resultPaused v then setPending (Some s) st else st, acts).

(** socket.on('data') *)
Definition onSocketData (s : nat) (size now : Z) (v : Verdict) (st : State)
  : State * list Action :=
  if size =? 0 then (st, []) else handleProducerData s size now v st.

(** socket.on('close') of socket [s]; the socket is destroyed by then. *)
Definition onSocketClose (s : nat) (now : Z) (st : State) : State * list Action :=
  let st :=
    setSockets
      (alter (fun k => {| paused := paused k; destroyed := true;
                          closed := true |}) s (sockets st)) st in
  let st := if bool_decide (pendingSocketResume st = Some s)
            then setPending None st else st in
  let st := if bool_decide (currentProducer st = Some s)
            then setCurrent None st else st in
  let st := resetIngestCounters now st in
  let st := stopIngestIdleWarning st in
  (st, [OnProducerDisconnect]).

(** [attachProducer(socket)] *)
Definition attachProducer (s : nat) (now : Z) (st : State) : State * list Action :=
  let '(st, replaced) :=
    match currentProducer st with
    | Some old => (socketDestroy old st, [DestroySocket old])
    | None => (st, [])
    end in
  let st := setCurrent (Some s) st in
  let st := resetIngestCounters now st in
  let st := scheduleIngestIdleWarning st in
  (st, replaced ++ [OnProducerConnect s]).

(** The connection listener of [net.createServer], for a new socket. *)
Definition onConnection (s : nat) (now : Z) (st : State) : State * list Action :=
  attachProducer s now (setSockets (<[s := freshSocket]> (sockets st)) st).

(** The callback of the idle timer. *)
Definition onIdleTimer (st : State) : State * list Action :=
  (setIdleTimer false st, [IdleWarning]).

Definition start (st : State) : State := setListening true st.

Definition stop (st : State) : State * list Action :=
  let st := stopIngestIdleWarning st in
  let '(st, acts) :=
    match currentProducer st with
    | Some s => (setCurrent None (socketDestroy s st), [DestroySocket s])
    | None => (st, [])
    end in
  (setListening false st, acts).

(** [pauseProducer(reason)] *)
Definition pauseProducer (st : State) : State * list Action :=
  match currentProducer st with
  | Some s =>
      if socketDestroyed s st then (setPending None st, [])
      else (setPending (Some s) (socketPause s st), [PauseSocket s])
  | None => (setPending None st, [])
  end.

(** [resumeProducer(reason)] *)
Definition resumeProducer (st : State) : State * list Action :=
  match pendingSocketResume st with
  | Some s =>
      if socketDestroyed s st then (setPending None st, [])
      else (setPending None (socketResume s st), [ResumeSocket s])
  | None => (setPending None st, [])
  end.

Definition getProducer (st : State) : option nat := currentProducer st.
Definition isListening (st : State) : bool := listening st.
Definition getStats (st : State) : IngestStats := ingestStats st.

(** What can happen to the listener. *)
Inductive Event :=
| Start
| Stop
| Connection (s : nat) (now : Z)
| SocketData (s : nat) (size now : Z) (v : Verdict)
| SocketError (s : nat)
| SocketClose (s : nat) (now : Z)
| IdleTimer
| PauseProducer
| ResumeProducer.

(** One event; [None] when it cannot happen: a connection brings a socket
    never seen before, a socket emits 'close' once and no 'data' while
    paused or after it was destroyed, the timer fires when armed. *)
Definition step (e : Event) (st : State) : option (State * list Action) :=
  match e with
  | Start => Some (start st, [])
  | Stop => Some (stop st)
  | Connection s now =>
      match sockets st !! s with
      | None => Some (onConnection s now st)
      | Some _ => None
      end
  | SocketData s size now v =>
      match sockets st !! s with
      | Some k =>
          if paused k || destroyed k then None
          else Some (onSocketData s size now v st)
      | None => None
      end
  | SocketError s =>
      match sockets st !! s with
      | Some _ => Some (st, [])
      | None => None
      end
  | SocketClose s now =>
      match sockets st !! s with
      | Some k => if closed k then None else Some (onSocketClose s now st)
      | None => None
      end
  | IdleTimer => if ingestIdleTimer st then Some (onIdleTimer st) else None
  | PauseProducer => Some (pauseProducer st)
  | ResumeProducer => Some (resumeProducer st)
  end.

Fixpoint run (evs : list Event) (st : State) : option (State * list Action) :=
  match evs with
  | [] => Some (st, [])
  | e :: evs' =>
      match step e st with
      | Some (st1, acts) =>
          match run evs' st1 with
          | Some (st2, acts') => Some (st2, acts ++ acts')
          | None => None
          end
      | None => None
      end
  end.

(** Every socket handed to the listener that is not destroyed is the
    current producer: at most one producer is live. *)
Definition oneProducer (st : State) : Prop :=
  forall s k,
    sockets st !! s = Some k -> destroyed k = false -> currentProducer st = Some s.

End Handlers.

(** *** A replacement scenario *)

Definition INGEST_LOG_INTERVAL_MS : Z := 5000.

Definition noPause : Verdict := {| calledPause := false; resultPaused := false |}.
Definition didPause : Verdict := {| calledPause := true; resultPaused := true |}.

(** Producer 0 connects and sends; producer 1 connects in its place, sends
    a chunk that meets backpressure and is paused; then the 'close' event
    of the destroyed producer 0 arrives. *)
Definition replaced : list Event :=
  [ Start; Connection 0 100; SocketData 0 4096 120 noPause;
    Connection 1 200; SocketData 1 4096 220 didPause ].

Definition replacedThenClosed : list Event := replaced ++ [ SocketClose 0 300 ].

Definition after (evs : list Event) : State :=
  match run INGEST_LOG_INTERVAL_MS evs (initial 0) with
  | Some (st, _) => st
  | None => initial 0
  end.

Definition actionsOf (evs : list Event) : list Action :=
  match run INGEST_LOG_INTERVAL_MS evs (initial 0) with
  | Some (_, acts) => acts
  | None => []
  end.

End Tcp.

(** ** server.js and server/http-routes.js: the Orchestrator *)

Module Server.

Import Silence.

(** The three components the orchestrator creates, and its own flags. *)
Record State := mkState {
  ffmpegManager : Ffmpeg.State;
  silenceGenerator : Silence.State;
  tcpServer : Tcp.State;
  positionUpdates : bool;
  isShuttingDown : bool
}.

Definition initial : State :=
  {| ffmpegManager := Ffmpeg.initial; silenceGenerator := Silence.initial;
     tcpServer := Tcp.initial 0; positionUpdates := false;
     isShuttingDown := false |}.

Definition setManager (v : Ffmpeg.State) (st : State) : State :=
  let 'mkState _ b c d e := st in mkState v b c d e.
Definition setSilence (v : Silence.State) (st : State) : State :=
  let 'mkState a _ c d e := st in mkState a v c d e.
Definition setTcp (v : Tcp.State) (st : State) : State :=
  let 'mkState a b _ d e := st in mkState a b v d e.
Definition setPositionUpdates (v : bool) (st : State) : State :=
  let 'mkState a b c _ e := st in mkState a b c v e.
Definition setShuttingDown (v : bool) (st : State) : State :=
  let 'mkState a b c d _ := st in mkState a b c d v.

(** What the server does to the outside, by component; [IngestWrite] is
    the [stdin.write(chunk)] of the orchestrator's [onData]. *)
Inductive Action :=
| Encoder (a : Ffmpeg.Action)
| Filler (a : Silence.Action)
| Listener (a : Tcp.Action)
| IngestWrite (chunk : list Byte.byte) (w : WriteOutcome)
| WriteFailed.

Section Wiring.

Variable cfg : Ffmpeg.Config.
Variable INGEST_LOG_INTERVAL_MS : Z.

Definition tcpDoes (r : Tcp.State * list Tcp.Action) (st : State)
  : State * list Action :=
  (setTcp r.1 st, List.map Listener r.2).

(** [onSpawn], [onClose] and [onDrain], handed to the supervisor. *)
Definition onSpawn (reason : option string) (st : State) : State * list Action :=
  let '(st, acts) :=
    if Js.truthyStr reason then tcpDoes (Tcp.resumeProducer (tcpServer st)) st
    else (st, []) in
  (setPositionUpdates true st, acts).

Definition onClose (st : State) : State * list Action :=
  (setPositionUpdates false st, []).

Definition onDrain (st : State) : State * list Action :=
  let st := setSilence (Silence.resetBackpressure (silenceGenerator st)) st in
  tcpDoes (Tcp.resumeProducer (tcpServer st)) st.

(** [onProducerDisconnect], handed to the listener ([onProducerConnect]
    only logs). *)
Definition onProducerDisconnect (st : State) : State :=
  setSilence (Silence.resumeAfterDelay (silenceGenerator st)) st.

(** The callbacks among the actions of the supervisor, run in order. *)
Fixpoint encoderDid (acts : list Ffmpeg.Action) (st : State)
  : State * list Action :=
  match acts with
  | [] => (st, [])
  | a :: acts' =>
      let '(st1, called) :=
        match a with
        | Ffmpeg.AOnSpawn reason => onSpawn reason st
        | Ffmpeg.AOnClose => onClose st
        | Ffmpeg.AOnDrain => onDrain st
        | _ => (st, [])
        end in
      let '(st2, rest) := encoderDid acts' st1 in
      (st2, Encoder a :: called ++ rest)
  end.

(** The callbacks among the actions of the listener. *)
Fixpoint listenerDid (acts : list Tcp.Action) (st : State) : State * list Action :=
  match acts with
  | [] => (st, [])
  | a :: acts' =>
      let st1 :=
        match a with
        | Tcp.OnProducerDisconnect => onProducerDisconnect st
        | _ => st
        end in
      let '(st2, rest) := listenerDid acts' st1 in
      (st2, Listener a :: rest)
  end.

(** [onData(chunk, socketControl)], handed to the listener: the state it
    leaves in the filler and the supervisor, what it asks of the socket,
    and its write. *)
Definition onData (chunk : list Byte.byte) (w : WriteOutcome) (st : State)
  : State * Tcp.Verdict * list Action :=
  let st :=
    if Silence.isActive (silenceGenerator st)
    then setSilence
           (Silence.resumeAfterDelay
              (Silence.suspendTemporarily (silenceGenerator st))) st
    else st in
  match Ffmpeg.getStdin (ffmpegManager st) with
  | None => (st, Tcp.noPause, [])
  | Some _ =>
      if negb (Ffmpeg.isWritable (ffmpegManager st))
      then (st, Tcp.didPause, [])
      else
        match w with
        | WriteAccepted => (st, Tcp.noPause, [IngestWrite chunk w])
        | WriteBuffered =>
            (setManager (Ffmpeg.setWritable false (ffmpegManager st)) st,
             Tcp.didPause, [IngestWrite chunk w])
        | WriteThrowsEPIPE => (st, Tcp.didPause, [IngestWrite chunk w])
        | WriteThrowsOther => (st, Tcp.noPause, [IngestWrite chunk w; WriteFailed])
        end
  end.

(** A chunk arrives on socket [s]: the listener's 'data' handler, with
    the orchestrator's [onData] inside. *)
Definition producerData (s : nat) (chunk : list Byte.byte) (w : WriteOutcome)
    (now : Z) (st : State) : State * list Action :=
  if (length chunk =? 0)%nat then (st, [])
  else
    let '(st, v, wrote) := onData chunk w st in
    let '(st, did) :=
      tcpDoes (Tcp.handleProducerData INGEST_LOG_INTERVAL_MS s
                 (Z.of_nat (length chunk)) now v (tcpServer st)) st in
    (st, wrote ++ did).

(** The planned restart of [onBackgroundChange] and of the overlay style
    listener. *)
Definition plannedRestart (reason : string) (k : Ffmpeg.KillOutcome) (st : State)
  : State * list Action :=
  if Ffmpeg.isRunning (ffmpegManager st) then
    let '(st, paused) := tcpDoes (Tcp.pauseProducer (tcpServer st)) st in
    let st := setManager (Ffmpeg.setPlannedPause reason (ffmpegManager st)) st in
    let st := setSilence (Silence.setBackpressure true (silenceGenerator st)) st in
    let '(enc, acts, _) := Ffmpeg.requestRestart reason k (ffmpegManager st) in
    (setManager enc st, paused ++ List.map Encoder acts)
  else (st, []).

Definition onBackgroundChange (newBackground : option string)
    (k : Ffmpeg.KillOutcome) (st : State) : State * list Action :=
  plannedRestart
    (if Js.truthyStr newBackground then "background change"
     else "background change (reset to solid color)") k st.

Definition onOverlayStyleChange (k : Ffmpeg.KillOutcome) (st : State)
  : State * list Action :=
  plannedRestart "overlay style change" k st.

(** The end of [startServer]: the three components are started. *)
Definition startComponents (now : Z) (o : Ffmpeg.SpawnOutcome) (st : State)
  : State * list Action :=
  let '(enc, acts) := Ffmpeg.spawn_ cfg now o (ffmpegManager st) in
  let st := setManager enc st in
  let st := setSilence (Silence.start (silenceGenerator st)) st in
  let st := setTcp (Tcp.start (tcpServer st)) st in
  (st, List.map Encoder acts).

(** [shutdown(reason)] *)
Definition shutdown (k : Ffmpeg.KillOutcome) (st : State) : State * list Action :=
  if isShuttingDown st then (st, [])
  else
    let st := setShuttingDown true st in
    let st := setSilence (Silence.stop (silenceGenerator st)) st in
    let '(st, closed) := tcpDoes (Tcp.stop (tcpServer st)) st in
    let '(enc, acts) := Ffmpeg.shutdown k (ffmpegManager st) in
    (setPositionUpdates false (setManager enc st), closed ++ List.map Encoder acts).

(** A tick of the filler's interval. *)
Definition silenceTick (w : WriteOutcome) (st : State) : State * list Action :=
  let '(sil, enc, acts) :=
    Silence.writeSilenceChunk w (ffmpegManager st) (silenceGenerator st) in
  (setManager enc (setSilence sil st), List.map Filler acts).

(** Everything that can happen to the server: its start, the events of
    the encoder process and the supervisor's timers, the filler's
    interval and timer, the listener's sockets and timer, and the
    requests that change the background or the overlay style or end the
    process. *)
Inductive Event :=
| StartServer (now : Z) (o : Ffmpeg.SpawnOutcome)
| Supervisor (e : Ffmpeg.Event)
| SilenceTick (w : WriteOutcome)
| SilenceIdleTimer
| Connection (s : nat) (now : Z)
| SocketData (s : nat) (chunk : list Byte.byte) (w : WriteOutcome) (now : Z)
| SocketError (s : nat)
| SocketClose (s : nat) (now : Z)
| IngestIdleTimer
| BackgroundChange (newBackground : option string) (k : Ffmpeg.KillOutcome)
| OverlayStyleChange (k : Ffmpeg.KillOutcome)
| Shutdown (k : Ffmpeg.KillOutcome).

(** The events of the supervisor that come from outside the program;
    its API is called by the orchestrator alone. *)
Definition external (e : Ffmpeg.Event) : bool :=
  match e with
  | Ffmpeg.ProcSpawn | Ffmpeg.ProcClose _ _ | Ffmpeg.ProcError _ _
  | Ffmpeg.StdinDrain | Ffmpeg.ProgressLine _ _ | Ffmpeg.PipeDestroyed
  | Ffmpeg.HeartbeatTick _ _ | Ffmpeg.TimerFires _ _ _ => true
  | _ => false
  end.

Definition socketAccepts (s : nat) (st : State) : bool :=
  match Tcp.sockets (tcpServer st) !! s with
  | Some k => negb (Tcp.paused k || Tcp.destroyed k)
  | None => false
  end.

Definition step (e : Event) (st : State) : option (State * list Action) :=
  match e with
  | StartServer now o => Some (startComponents now o st)
  | Supervisor e =>
      if external e then
        match Ffmpeg.step cfg e (ffmpegManager st) with
        | Some (enc, acts) => Some (encoderDid acts (setManager enc st))
        | None => None
        end
      else None
  | SilenceTick w =>
      if Silence.silenceInterval (silenceGenerator st)
      then Some (silenceTick w st) else None
  | SilenceIdleTimer =>
      if Silence.idleArmed (silenceGenerator st)
      then Some (setSilence (Silence.onIdleTimer (silenceGenerator st)) st, [])
      else None
  | Connection s now =>
      match Tcp.step INGEST_LOG_INTERVAL_MS (Tcp.Connection s now) (tcpServer st) with
      | Some (tcp, acts) => Some (listenerDid acts (setTcp tcp st))
      | None => None
      end
  | SocketData s chunk w now =>
      if socketAccepts s st then Some (producerData s chunk w now st) else None
  | SocketError s =>
      match Tcp.step INGEST_LOG_INTERVAL_MS (Tcp.SocketError s) (tcpServer st) with
      | Some (tcp, acts) => Some (listenerDid acts (setTcp tcp st))
      | None => None
      end
  | SocketClose s now =>
      match Tcp.step INGEST_LOG_INTERVAL_MS (Tcp.SocketClose s now) (tcpServer st) with
      | Some (tcp, acts) => Some (listenerDid acts (setTcp tcp st))
      | None => None
      end
  | IngestIdleTimer =>
      match Tcp.step INGEST_LOG_INTERVAL_MS Tcp.IdleTimer (tcpServer st) with
      | Some (tcp, acts) => Some (listenerDid acts (setTcp tcp st))
      | None => None
      end
  | BackgroundChange newBackground k => Some (onBackgroundChange newBackground k st)
  | OverlayStyleChange k => Some (onOverlayStyleChange k st)
  | Shutdown k => Some (shutdown k st)
  end.

Fixpoint run (evs : list Event) (st : State) : option (State * list Action) :=
  match evs with
  | [] => Some (st, [])
  | e :: evs' =>
      match step e st with
      | Some (st1, acts) =>
          match run evs' st1 with
          | Some (st2, acts') => Some (st2, acts ++ acts')
          | None => None
          end
      | None => None
      end
  end.

(** *** Vocabulary of the flow-control properties *)

(** The writes to the encoder input in a trace, by either writer, with
    what each write did; the most recent is the last. *)
Definition encoderWrites (acts : list Action) : list WriteOutcome :=
  omap (fun a => match a with
                 | IngestWrite _ w => Some w
                 | Filler (WriteChunk _ w) => Some w
                 | _ => None
                 end) acts.

Definition fillerWrites (acts : list Action) : list (list Byte.byte) :=
  omap (fun a => match a with
                 | Filler (WriteChunk chunk _) => Some chunk
                 | _ => None
                 end) acts.

(** The events that reset the filler's backpressure flag: the encoder's
    'drain', the filler's resume timer, and the stop of [shutdown]. *)
Definition resetsBackpressure (e : Event) : bool :=
  match e with
  | Supervisor Ffmpeg.StdinDrain | SilenceIdleTimer | Shutdown _ => true
  | _ => false
  end.

(** [starved st acts st']: from [st] the server reaches [st'] through
    events none of which resets the filler's backpressure flag. *)
Inductive starved : State -> list Action -> State -> Prop :=
| starved_here st : starved st [] st
| starved_step st e st1 acts acts' st2 :
    resetsBackpressure e = false ->
    step e st = Some (st1, acts) ->
    starved st1 acts' st2 ->
    starved st (acts ++ acts') st2.

Fixpoint runStarved (evs : list Event) (st : State)
  : option (State * list Action) :=
  match evs with
  | [] => Some (st, [])
  | e :: evs' =>
      if resetsBackpressure e then None
      else
        match step e st with
        | Some (st1, acts) =>
            match runStarved evs' st1 with
            | Some (st2, acts') => Some (st2, acts ++ acts')
            | None => None
            end
        | None => None
        end
  end.

End Wiring.

(** The filler's interval runs and its backpressure flag is set. *)
Definition heldBack (st : State) : Prop :=
  silenceInterval (silenceGenerator st) = true
  /\ silenceBackpressure (silenceGenerator st) = true.

(** *** POST /ffmpeg/unblock *)

(** The members of the object [createFfmpegManager] returns. *)
Inductive ManagerMethod :=
| MSpawn | MShutdown | MRequestRestart
| MGetStdin | MIsWritable | MSetWritable
| MIsRunning | MIsBlocked | MGetStatus
| MSetPlannedPause | MClearPlannedPause | MGetPlannedPause.

Definition managerApi : list (string * ManagerMethod) :=
  [ ("spawn", MSpawn); ("shutdown", MShutdown); ("requestRestart", MRequestRestart);
    ("getStdin", MGetStdin); ("isWritable", MIsWritable);
    ("setWritable", MSetWritable);
    ("isRunning", MIsRunning); ("isBlocked", MIsBlocked); ("getStatus", MGetStatus);
    ("setPlannedPause", MSetPlannedPause);
    ("clearPlannedPause", MClearPlannedPause);
    ("getPlannedPause", MGetPlannedPause) ].

(** [ffmpegManager[name]]: [None] is [undefined]. *)
Definition member (name : string) : option ManagerMethod :=
  snd <$> List.find (fun p => String.eqb p.1 name) managerApi.

(** What the outside decides during a call. *)
Record Env := mkEnv {
  envNow : Z;
  envSpawn : Ffmpeg.SpawnOutcome;
  envKill : Ffmpeg.KillOutcome
}.

(** A member called with no argument: the supervisor after the call and
    the truthiness of what the call returns. *)
Definition callNoArgs (cfg : Ffmpeg.Config) (env : Env) (m : ManagerMethod)
    (enc : Ffmpeg.State) : Ffmpeg.State * bool :=
  match m with
  | MSpawn => ((Ffmpeg.spawn_ cfg (envNow env) (envSpawn env) enc).1, false)
  | MShutdown => ((Ffmpeg.shutdown (envKill env) enc).1, false)
  | MRequestRestart =>
      let '(enc1, _, sent) := Ffmpeg.requestRestart "" (envKill env) enc in
      (if sent then Ffmpeg.setManualReason None enc1 else enc1, sent)
  | MGetStdin => (enc, bool_decide (is_Some (Ffmpeg.getStdin enc)))
  | MIsWritable => (enc, Ffmpeg.isWritable enc)
  | MSetWritable => (Ffmpeg.setWritable false enc, false)
  | MIsRunning => (enc, Ffmpeg.isRunning enc)
  | MIsBlocked => (enc, Ffmpeg.isBlocked enc)
  | MGetStatus => (enc, true)
  | MSetPlannedPause =>
      (Ffmpeg.setWritableFlag false (Ffmpeg.setPlannedReason None enc), false)
  | MClearPlannedPause => (Ffmpeg.clearPlannedPause enc, false)
  | MGetPlannedPause => (enc, Js.truthyStr (Ffmpeg.getPlannedPause enc))
  end.

(** How a route handler ends: with a response, or with an exception it
    does not catch. *)
Inductive Outcome :=
| Responds (status : Z) (body : option string)
| Throws (error : string).

(** The handler of POST /ffmpeg/unblock: it calls
    [ffmpegManager.manualUnblock()]. *)
Definition postFfmpegUnblock (cfg : Ffmpeg.Config) (env : Env) (st : State)
  : State * Outcome :=
  match member "manualUnblock" with
  | None => (st, Throws "TypeError: ffmpegManager.manualUnblock is not a function")
  | Some m =>
      let '(enc, unblocked) := callNoArgs cfg env m (ffmpegManager st) in
      (setManager enc st,
       if unblocked then Responds 204 None
       else Responds 409 (Some "FFmpeg is not in blocked state"))
  end.

(** *** Scenarios, with the default constants *)

Definition audio : list Byte.byte := [Byte.x01; Byte.x02; Byte.x03; Byte.x04].

Definition env0 : Env :=
  {| envNow := 0; envSpawn := Ffmpeg.started; envKill := Ffmpeg.KillDelivered |}.

(** The server starts and a producer connects. *)
Definition streaming : list Event :=
  [ StartServer 0 Ffmpeg.started; Supervisor Ffmpeg.ProcSpawn; Connection 0 100 ].

(** A chunk meets backpressure and its producer is paused; the encoder
    exits; a new producer connects. *)
Definition stalledThenCrashed : list Event :=
  streaming
  ++ [ SocketData 0 audio WriteBuffered 200;
       Supervisor (Ffmpeg.ProcClose 300 Ffmpeg.noJitter);
       Connection 1 400 ].

(** The background is changed while no producer is connected; before the
    encoder has closed, a producer connects. *)
Definition plannedPauseThenConnect : list Event :=
  [ StartServer 0 Ffmpeg.started; Supervisor Ffmpeg.ProcSpawn;
    BackgroundChange (Some "/bg.png") Ffmpeg.KillDelivered;
    Connection 0 100 ].

(** A chunk meets backpressure and its producer is paused; the overlay
    style changes, the encoder closes for the planned restart, is respawned
    and reports its start. *)
Definition stalledThenRestyled : list Event :=
  streaming
  ++ [ SocketData 0 audio WriteBuffered 200;
       OverlayStyleChange Ffmpeg.KillDelivered;
       Supervisor (Ffmpeg.ProcClose 300 Ffmpeg.noJitter);
       Supervisor (Ffmpeg.TimerFires 1 550 Ffmpeg.started) ].

(** The encoder dies with the filler running; the next tick finds its
    input gone. *)
Definition encoderGone : list Event :=
  [ StartServer 0 Ffmpeg.started; Supervisor Ffmpeg.ProcSpawn;
    SilenceTick WriteAccepted;
    Supervisor (Ffmpeg.ProcClose 300 Ffmpeg.noJitter);
    SilenceTick WriteAccepted ].

(** The backed-off timer respawns the encoder, which reports its start;
    the filler ticks twice. *)
Definition thenRespawned : list Event :=
  [ Supervisor (Ffmpeg.TimerFires 1 800 Ffmpeg.started);
    Supervisor Ffmpeg.ProcSpawn;
    SilenceTick WriteAccepted; SilenceTick WriteAccepted ].

Definition after (evs : list Event) : State :=
  match run Ffmpeg.defaults Tcp.INGEST_LOG_INTERVAL_MS evs initial with
  | Some (st, _) => st
  | None => initial
  end.

Definition actionsOf (evs : list Event) (st : State) : list Action :=
  match run Ffmpeg.defaults Tcp.INGEST_LOG_INTERVAL_MS evs st with
  | Some (_, acts) => acts
  | None => []
  end.

End Server.

(** ** JavaScript strings, as far as the helpers below look into them *)

Module JsString.

(** A JavaScript string: its UTF-16 code units. *)
Definition ofString (s : string) : list N :=
  List.map Ascii.N_of_ascii (String.list_ascii_of_string s).

(** WhiteSpace and LineTerminator of ECMAScript: what [trim] strips, what
    [\s] matches and what [parseInt] skips. *)
Definition isWhiteSpace (c : N) : bool :=
  ((9 <=? c) && (c <=? 13) || (c =? 32) || (c =? 160) || (c =? 0x1680)
   || (0x2000 <=? c) && (c <=? 0x200A) || (c =? 0x2028) || (c =? 0x2029)
   || (c =? 0x202F) || (c =? 0x205F) || (c =? 0x3000) || (c =? 0xFEFF))%N.

Fixpoint dropWhile (p : N -> bool) (s : list N) : list N :=
  match s with
  | c :: s' => if p c then dropWhile p s' else s
  | [] => []
  end.

Definition trimStart (s : list N) : list N := dropWhile isWhiteSpace s.

Fixpoint trimEnd (s : list N) : list N :=
  match s with
  | [] => []
  | c :: s' =>
      match trimEnd s' with
      | [] => if isWhiteSpace c then [] else [c]
      | kept => c :: kept
      end
  end.

Definition trim (s : list N) : list N := trimEnd (trimStart s).

Definition digitValue (c : N) : option Z :=
  if ((48 <=? c) && (c <=? 57))%N then Some (Z.of_N (c - 48)) else None.

(** Whether the string begins with a decimal digit. *)
Definition startsWithDigit (s : list N) : bool :=
  match s with
  | c :: _ => bool_decide (is_Some (digitValue c))
  | [] => false
  end.

(** The longest prefix of decimal digits, as a number; [None] when there
    is no digit. *)
Fixpoint leadingDigits (s : list N) (acc : Z) (seen : bool) : option Z :=
  match s with
  | c :: s' =>
      match digitValue c with
      | Some d => leadingDigits s' (acc * 10 + d) true
      | None => if seen then Some acc else None
      end
  | [] => if seen then Some acc else None
  end.

(** [Number.parseInt(s, 10)]; [None] is NaN.  The result is the integer
    the digits denote.  Up to [Js.MAX_SAFE_INTEGER] in magnitude that is
    the number JavaScript returns (with -0 for a negative zero); beyond it
    JavaScript returns the nearest double, of the same sign, and Infinity
    past the largest double. *)
Definition parseInt10 (s : list N) : option Z :=
  let s := trimStart s in
  let '(sign, s) :=
    match s with
    | 45%N :: s' => (-1, s')
    | 43%N :: s' => (1, s')
    | _ => (1, s)
    end in
  (fun v => sign * v) <$> leadingDigits s 0 false.

End JsString.

(** ** lib/utils/env.js: the environment helpers *)

Module Env.
Import JsString.

(** How a helper ends: it returns, or it logs and calls [process.exit(1)]. *)
Inductive Outcome (A : Type) :=
| Returns (a : A)
| Exits.
Arguments Returns {A} a.
Arguments Exits {A}.

Definition bind {A B} (o : Outcome A) (f : A -> Outcome B) : Outcome B :=
  match o with
  | Returns a => f a
  | Exits => Exits
  end.

(** [process.env[name]], when it is neither [undefined] nor [''], which is
    [optionalEnv(name, undefined)]. *)
Definition provided (env : gmap string (list N)) (name : string) : option (list N) :=
  match env !! name with
  | Some [] => None
  | v => v
  end.

Definition requireEnv (env : gmap string (list N)) (name : string) : Outcome (list N) :=
  match provided env name with
  | Some v => Returns v
  | None => Exits
  end.

Definition requireIntEnv (env : gmap string (list N)) (name : string) : Outcome Z :=
  bind (requireEnv env name) (fun raw =>
  match parseInt10 raw with
  | Some parsed => Returns parsed
  | None => Exits
  end).

Definition optionalEnv (env : gmap string (list N)) (name : string)
    (fallback : list N) : list N :=
  default fallback (provided env name).

Definition optionalIntEnv (env : gmap string (list N)) (name : string)
    (fallback : Z) : Outcome Z :=
  match provided env name with
  | None => Returns fallback
  | Some value =>
      match parseInt10 value with
      | Some parsed => Returns parsed
      | None => Exits
      end
  end.
Definition requirePortEnv (env : gmap string (list N)) (name : string) : Outcome Z :=
  bind (requireIntEnv env name) (fun port =>
  if (port <? 1) || (65535 <? port) then Exits else Returns port).

Definition optionalPortEnv (env : gmap string (list N)) (name : string)
    (fallback : Z) : Outcome Z :=
  bind (optionalIntEnv env name fallback) (fun port =>
  if (port <? 1) || (65535 <? port) then Exits else Returns port).

Definition requirePositiveIntEnv (env : gmap string (list N)) (name : string)
  : Outcome Z :=
  bind (requireIntEnv env name) (fun value =>
  if value <=? 0 then Exits else Returns value).

Definition optionalPositiveIntEnv (env : gmap string (list N)) (name : string)
    (fallback : Z) : Outcome Z :=
  bind (optionalIntEnv env name fallback) (fun value =>
  if value <=? 0 then Exits else Returns value).

End Env.

(** ** server/constants.js: the constants read from the environment *)

Module Constants.
Import JsString Env.

(** server/constants.js, the constants of the supervisor and the listener,
    in the order the module reads them. *)
Record Loaded := mkLoaded {
  INGEST_LOG_INTERVAL_MS : Z;
  INGEST_IDLE_WARN_MS : Z;
  supervisor : Ffmpeg.Config
}.

Definition load (env : gmap string (list N)) : Outcome Loaded :=
  bind (optionalPositiveIntEnv env "INGEST_LOG_INTERVAL_MS" 5000) (fun logInterval =>
  bind (optionalPositiveIntEnv env "INGEST_IDLE_WARN_MS" 8000) (fun idleWarn =>
  bind (optionalPositiveIntEnv env "FFMPEG_HEARTBEAT_INTERVAL_MS" 7000) (fun heartbeat =>
  bind (optionalPositiveIntEnv env "FFMPEG_STALL_WARN_MS" 20000) (fun stall =>
  bind (optionalPositiveIntEnv env "FFMPEG_RESTART_MAX_ATTEMPTS" 5) (fun maxAttempts =>
  bind (optionalPositiveIntEnv env "FFMPEG_RESTART_WINDOW_MS" 60000) (fun window =>
  bind (optionalPositiveIntEnv env "FFMPEG_RESTART_BACKOFF_BASE_MS" 500) (fun base =>
  bind (optionalPositiveIntEnv env "FFMPEG_RESTART_BACKOFF_MAX_MS" 60000) (fun cap =>
  bind (optionalPositiveIntEnv env "FFMPEG_STABLE_RUN_MS" 120000) (fun stable =>
  Returns
    {| INGEST_LOG_INTERVAL_MS := logInterval;
       INGEST_IDLE_WARN_MS := idleWarn;
       supervisor :=
         {| Ffmpeg.FFMPEG_HEARTBEAT_INTERVAL_MS := heartbeat;
            Ffmpeg.FFMPEG_STALL_WARN_MS := stall;
            Ffmpeg.FFMPEG_RESTART_MAX_ATTEMPTS := maxAttempts;
            Ffmpeg.FFMPEG_RESTART_WINDOW_MS := window;
            Ffmpeg.FFMPEG_RESTART_BACKOFF_BASE_MS := base;
            Ffmpeg.FFMPEG_RESTART_BACKOFF_MAX_MS := cap;
            Ffmpeg.FFMPEG_STABLE_RUN_MS := stable;
            Ffmpeg.FFMPEG_AUTO_RESTART :=
              negb (bool_decide (env !! "FFMPEG_AUTO_RESTART"
                                 = Some (ofString "false"))) |} |}))))))))).

End Constants.
(** ** lib/services/diagnostics.js: ring buffers, events and the restart history *)

Module Diagnostics.

Definition MAX_LOG_ENTRIES : nat := 5000.
Definition MAX_EVENTS : nat := 1000.
Definition MAX_RESTART_HISTORY : nat := 100.

(** [class RingBuffer].  [maxSize] is positive wherever the module makes
    one (with 0 JavaScript computes [head = NaN]); [head] then stays below
    [maxSize], so the assignment [buffer[head] = item] of a full buffer
    and the reads of [toArray] are inside the array. *)
Record RingBuffer (A : Type) := mkRing {
  maxSize : nat;
  buffer : list A;
  head : nat;
  count : nat
}.
Arguments mkRing {A} _ _ _ _.
Arguments maxSize {A} _.
Arguments buffer {A} _.
Arguments head {A} _.
Arguments count {A} _.

Definition newRing {A} (size : nat) : RingBuffer A :=
  {| maxSize := size; buffer := []; head := 0; count := 0 |}.

Definition push {A} (item : A) (r : RingBuffer A) : RingBuffer A :=
  {| maxSize := maxSize r;
     buffer := if (length (buffer r) <? maxSize r)%nat
               then buffer r ++ [item]
               else <[head r := item]> (buffer r);
     head := ((head r + 1) mod maxSize r)%nat;
     count := Nat.min (count r + 1) (maxSize r) |}.

Definition toArray {A} (r : RingBuffer A) : list A :=
  if (length (buffer r) <? maxSize r)%nat then buffer r
  else omap (fun i => buffer r !! ((head r + i) mod maxSize r)%nat)
         (seq 0 (maxSize r)).

Definition clear {A} (r : RingBuffer A) : RingBuffer A :=
  {| maxSize := maxSize r; buffer := []; head := 0; count := 0 |}.

Definition ringLength {A} (r : RingBuffer A) : nat := length (buffer r).

(** [items] pushed one after the other. *)
Definition pushAll {A} (items : list A) (r : RingBuffer A) : RingBuffer A :=
  foldl (fun r x => push x r) r items.

(** What a ring of size [n] holds after [items] were pushed: item [j] sits
    at position [j mod n], for the last [n] items. *)
Definition holds {A} (n : nat) (items : list A) (r : RingBuffer A) : Prop :=
  maxSize r = n
  /\ length (buffer r) = Nat.min (length items) n
  /\ head r = (length items mod n)%nat
  /\ count r = Nat.min (length items) n
  /\ forall j, (j < length items)%nat -> (length items <= j + n)%nat ->
               buffer r !! (j mod n)%nat = items !! j.

(** [array.slice(-limit)] for an integer [limit]. *)
Definition sliceLast {A} (limit : Z) (l : list A) : list A :=
  let len := Z.of_nat (length l) in
  let start := - limit in
  let from := if start <? 0 then Z.max (len + start) 0 else Z.min start len in
  drop (Z.to_nat from) l.

(** [limit ? array.slice(-limit) : array] *)
Definition limited {A} (limit : Z) (l : list A) : list A :=
  if limit =? 0 then l else sliceLast limit l.

(** The values the module stores in event data; a key that is missing
    reads as [undefined]. *)
Inductive Value := VNull | VStr (s : string) | VNum (n : Z).

Global Instance Value_eq_dec : EqDecision Value.
Proof. solve_decision. Defined.

Definition truthy (v : option Value) : bool :=
  match v with
  | Some (VStr s) => negb (String.eqb s "")
  | Some (VNum n) => negb (n =? 0)
  | _ => false
  end.

(** [v || fallback] *)
Definition orElse (v : option Value) (fallback : Value) : Value :=
  if truthy v then default fallback v else fallback.

(** An event; its [id] is a random string and is left out.  A timestamp
    is the time its ISO string renders, in milliseconds. *)
Record DiagEvent := mkEvent {
  timestamp : Z;
  type : string;
  data : gmap string Value
}.

Record RestartEntry := mkRestart {
  restartedAt : Z;
  reason : Value;
  trigger : Value;
  bufferLevel : option Value;
  restartLastError : option Value;
  networkState : option Value
}.

Record StallEvent := mkStall {
  stalledAt : Z;
  duration : Value;
  stallBufferLevel : option Value
}.
(** [streamLifecycle] *)
Record Lifecycle := mkLifecycle {
  state : string;
  stateChangedAt : option Z;
  sessionStartedAt : option Z;
  sessionUptimeMs : Z;
  restartCount : Z;
  lastRestartReason : Value;
  lastRestartTimestamp : option Z;
  lastError : Value;
  lastErrorTimestamp : option Z
}.

(** The state of the module: the event and restart buffers, the
    lifecycle, and the stall statistics of [bufferStats]. *)
Record State := mkState {
  eventBuffer : RingBuffer DiagEvent;
  restartHistory : RingBuffer RestartEntry;
  streamLifecycle : Lifecycle;
  stallCount : Z;
  stallEvents : list StallEvent
}.

Definition initial : State :=
  {| eventBuffer := newRing MAX_EVENTS;
     restartHistory := newRing MAX_RESTART_HISTORY;
     streamLifecycle :=
       {| state := "idle"; stateChangedAt := None; sessionStartedAt := None;
          sessionUptimeMs := 0; restartCount := 0; lastRestartReason := VNull;
          lastRestartTimestamp := None; lastError := VNull;
          lastErrorTimestamp := None |};
     stallCount := 0; stallEvents := [] |}.

Definition setLifecycle (v : Lifecycle) (st : State) : State :=
  let 'mkState a b _ d e := st in mkState a b v d e.

(** [recordEvent(type, data)] at time [now]. *)
Definition recordEvent (type : string) (data : gmap string Value) (now : Z)
    (st : State) : State :=
  let event := {| timestamp := now; type := type; data := data |} in
  let st :=
    {| eventBuffer := push event (eventBuffer st);
       restartHistory := restartHistory st;
       streamLifecycle := streamLifecycle st;
       stallCount := stallCount st; stallEvents := stallEvents st |} in
  let st :=
    if String.eqb type "stream.restart" then
      let l := streamLifecycle st in
      {| eventBuffer := eventBuffer st;
         restartHistory :=
           push {| restartedAt := now;
                   reason := orElse (data !! "reason") (VStr "unknown");
                   trigger := orElse (data !! "trigger") (VStr "unknown");
                   bufferLevel := data !! "bufferLevel";
                   restartLastError := data !! "lastError";
                   networkState := data !! "networkState" |}
             (restartHistory st);
         streamLifecycle :=
           {| state := state l; stateChangedAt := stateChangedAt l;
              sessionStartedAt := sessionStartedAt l;
              sessionUptimeMs := sessionUptimeMs l;
              restartCount := restartCount l + 1;
              lastRestartReason := orElse (data !! "reason") (VStr "unknown");
              lastRestartTimestamp := Some now;
              lastError := lastError l;
              lastErrorTimestamp := lastErrorTimestamp l |};
         stallCount := stallCount st; stallEvents := stallEvents st |}
    else st in
  let st :=
    if String.eqb type "stream.error" then
      let l := streamLifecycle st in
      setLifecycle
        {| state := state l; stateChangedAt := stateChangedAt l;
           sessionStartedAt := sessionStartedAt l;
           sessionUptimeMs := sessionUptimeMs l;
           restartCount := restartCount l;
           lastRestartReason := lastRestartReason l;
           lastRestartTimestamp := lastRestartTimestamp l;
           lastError := orElse (data !! "error") VNull;
           lastErrorTimestamp := Some now |} st
    else st in
  if String.eqb type "buffer.stall" then
    let stalls :=
      stallEvents st
      ++ [{| stalledAt := now; duration := orElse (data !! "duration") (VNum 0);
             stallBufferLevel := data !! "bufferLevel" |}] in
    {| eventBuffer := eventBuffer st; restartHistory := restartHistory st;
       streamLifecycle := streamLifecycle st;
       stallCount := stallCount st + 1;
       stallEvents := if (50 <? length stalls)%nat then List.tl stalls else stalls |}
  else st.

(** [setStreamState(newState, context)]; the keys of [context] come last
    in the object literal and win. *)
Definition setStreamState (newState : string) (context : gmap string Value)
    (now : Z) (st : State) : State :=
  let l := streamLifecycle st in
  let previousState := state l in
  let st :=
    setLifecycle
      {| state := newState; stateChangedAt := Some now;
         sessionStartedAt :=
           if String.eqb newState "streaming"
              && negb (String.eqb previousState "streaming")
           then Some now else sessionStartedAt l;
         sessionUptimeMs := sessionUptimeMs l;
         restartCount := restartCount l;
         lastRestartReason := lastRestartReason l;
         lastRestartTimestamp := lastRestartTimestamp l;
         lastError := lastError l;
         lastErrorTimestamp := lastErrorTimestamp l |} st in
  recordEvent "stream.stateChange"
    (context ∪ {[ "from" := VStr previousState; "to" := VStr newState ]}) now st.
(** The parameter object of [recordRestart]; [None] is a key left out. *)
Record RestartParams := mkParams {
  pReason : option Value;
  pTrigger : option Value;
  pErrorCode : option Value;
  pErrorMessage : option Value;
  pBufferLevel : option Value;
  pNetworkState : option Value;
  pCodePath : option Value
}.

(** [recordRestart(params)] *)
Definition recordRestart (params : RestartParams) (now : Z) (st : State) : State :=
  let reason := default (VStr "unknown") (pReason params) in
  let trigger := default (VStr "auto") (pTrigger params) in
  let l := streamLifecycle st in
  let st :=
    recordEvent "stream.restart"
      {[ "reason" := reason; "trigger" := trigger;
         "errorCode" := default VNull (pErrorCode params);
         "errorMessage" := default VNull (pErrorMessage params);
         "bufferLevel" := default VNull (pBufferLevel params);
         "networkState" := default VNull (pNetworkState params);
         "codePath" := default VNull (pCodePath params);
         "lastError" := lastError l;
         "previousState" := VStr (state l);
         "uptimeBeforeRestart" := VNum (sessionUptimeMs l) ]} now st in
  setStreamState "reconnecting" {[ "reason" := reason ]} now st.

(** [getEvents(type, limit)]; [type] is [None] for [null]. *)
Definition getEvents (type : option string) (limit : Z) (st : State)
  : list DiagEvent :=
  let allEvents := toArray (eventBuffer st) in
  let filtered :=
    match type with
    | Some t =>
        if String.eqb t "" then allEvents
        else List.filter
               (fun e => String.eqb (Diagnostics.type e) t
                         || String.prefix (t +:+ ".") (Diagnostics.type e))
               allEvents
    | None => allEvents
    end in
  limited limit filtered.

(** [getRestartHistory(limit)] *)
Definition getRestartHistory (limit : Z) (st : State) : list RestartEntry :=
  limited limit (toArray (restartHistory st)).

(** [clearDiagnostics()], as far as this state goes. *)
Definition clearDiagnostics (now : Z) (st : State) : State :=
  let l := streamLifecycle st in
  recordEvent "diagnostics.cleared" ∅ now
    {| eventBuffer := clear (eventBuffer st);
       restartHistory := clear (restartHistory st);
       streamLifecycle :=
         {| state := state l; stateChangedAt := stateChangedAt l;
            sessionStartedAt := sessionStartedAt l;
            sessionUptimeMs := sessionUptimeMs l;
            restartCount := 0;
            lastRestartReason := lastRestartReason l;
            lastRestartTimestamp := lastRestartTimestamp l;
            lastError := lastError l;
            lastErrorTimestamp := lastErrorTimestamp l |};
       stallCount := 0; stallEvents := [] |}.

(** The restarts the supervisor reports from [scheduleRestart], one after
    the other. *)
Definition recordRestarts (calls : list (Z * RestartParams)) (st : State) : State :=
  foldl (fun st c => recordRestart c.2 c.1 st) st calls.

(** What [recordRestart] leaves in the restart history. *)
Definition restartEntry (lastErr : Value) (c : Z * RestartParams) : RestartEntry :=
  {| restartedAt := c.1;
     reason := orElse (Some (default (VStr "unknown") (pReason c.2))) (VStr "unknown");
     trigger := orElse (Some (default (VStr "auto") (pTrigger c.2))) (VStr "unknown");
     bufferLevel := Some (default VNull (pBufferLevel c.2));
     restartLastError := Some lastErr;
     networkState := Some (default VNull (pNetworkState c.2)) |}.

(** The report [scheduleRestart] makes of a crash. *)
Definition crashReported : RestartParams :=
  {| pReason := Some (VStr "auto_recovery"); pTrigger := Some (VStr "auto");
     pErrorCode := None; pErrorMessage := None; pBufferLevel := None;
     pNetworkState := None; pCodePath := Some (VStr "scheduleRestart") |}.

End Diagnostics.
(** ** server/http-routes.js: the diagnostics routes *)

Module Routes.

(** [Math.min(cap, Math.max(1, parseInt(req.query.limit, 10) || fallback))];
    [q] is the query parameter as [parseInt] reads it, [None] when the
    request has none ([parseInt(undefined, 10)] is NaN). *)
Definition queryLimit (cap fallback : Z) (q : option (list N)) : Z :=
  let wanted :=
    match q ≫= JsString.parseInt10 with
    | Some parsed => if parsed =? 0 then fallback else parsed
    | None => fallback
    end in
  Z.min cap (Z.max 1 wanted).

(** GET /diagnostics/restarts: the body [{ restarts, count }]. *)
Definition getDiagnosticsRestarts (q : option (list N)) (st : Diagnostics.State)
  : list Diagnostics.RestartEntry * nat :=
  let restarts := Diagnostics.getRestartHistory (queryLimit 100 50 q) st in
  (restarts, length restarts).

(** GET /diagnostics/events: the body [{ events, count }]; [type] is the
    query parameter when it is a string. *)
Definition getDiagnosticsEvents (type : option string) (q : option (list N))
    (st : Diagnostics.State) : list Diagnostics.DiagEvent * nat :=
  let events := Diagnostics.getEvents type (queryLimit 1000 100 q) st in
  (events, length events).

End Routes.
(** ** server.js: the metadata shown in the overlay *)

Module Metadata.
Import JsString.

(** [s.replace(/[...]+/g, ' ')]: every maximal run of characters of the
    class becomes one space; [inRun] says that the character before
    belonged to the run being replaced. *)
Fixpoint replaceRuns (p : N -> bool) (inRun : bool) (s : list N) : list N :=
  match s with
  | [] => []
  | c :: s' =>
      if p c then
        if inRun then replaceRuns p true s' else 32%N :: replaceRuns p true s'
      else c :: replaceRuns p false s'
  end.

(** The classes [\r\n], [<>] and [[\],:'\\] of [sanitizeMetadataField]. *)
Definition isLineBreak (c : N) : bool := ((c =? 13) || (c =? 10))%N.
Definition isAngle (c : N) : bool := ((c =? 60) || (c =? 62))%N.
Definition isFilterSyntax (c : N) : bool :=
  ((c =? 91) || (c =? 93) || (c =? 44) || (c =? 58) || (c =? 39) || (c =? 92))%N.

(** [sanitizeMetadataField(value, fallback)], for a value that is a
    string, [null] or [undefined] ([None]); the fallback may be [null]. *)
Definition sanitizeMetadataField (value : option (list N))
    (fallback : option (list N)) : option (list N) :=
  match value with
  | None => fallback
  | Some v =>
      let str := replaceRuns isLineBreak false v in
      let str := List.filter (fun c => negb (isAngle c)) str in
      let str := List.map (fun c => if isFilterSyntax c then 32%N else c) str in
      let str := replaceRuns isWhiteSpace false str in
      let str := trim str in
      if (0 <? length str)%nat then Some str else fallback
  end.

(** No two spaces in a row. *)
Fixpoint singleSpaced (s : list N) : bool :=
  match s with
  | a :: ((b :: _) as rest) => negb ((a =? 32)%N && (b =? 32)%N) && singleSpaced rest
  | _ => true
  end.

(** A character the sanitizer lets through: no angle bracket, none of the
    characters of the filter syntax, and no white space but the space. *)
Definition plain (c : N) : bool :=
  negb (isAngle c) && negb (isFilterSyntax c)
  && (negb (isWhiteSpace c) || (c =? 32)%N).

(** A field as the sanitizer leaves it: not empty, plain characters only,
    single spaces, none at either end. *)
Definition tidy (s : list N) : bool :=
  (0 <? length s)%nat && forallb plain s && singleSpaced s
  && negb (bool_decide (head s = Some 32%N))
  && negb (bool_decide (last s = Some 32%N)).

End Metadata.
(** ** server/overlay-renderer.js: escaping for the drawtext filter *)

Module Overlay.

(** [s.replace(/c/g, by)] for a single character [c]. *)
Definition replaceChar (c : N) (by_ : list N) (s : list N) : list N :=
  flat_map (fun x => if (x =? c)%N then by_ else [x]) s.

(** [ffmpegFilterPath(p)]: backslashes become slashes, then colons and
    single quotes are escaped, and the whole is quoted. *)
Definition ffmpegFilterPath (p : list N) : list N :=
  let normalized := replaceChar 92 [47%N] p in
  let escaped := replaceChar 39 [92%N; 39%N] (replaceChar 58 [92%N; 58%N] normalized) in
  [39%N] ++ escaped ++ [39%N].

(** [escapeDrawtextText(text)]; [None] is [null] or [undefined]. *)
Definition escapeDrawtextText (text : option (list N)) : list N :=
  match text with
  | None | Some [] => []
  | Some t => replaceChar 37 [37%N; 37%N] t
  end.

(** [combinePrefix(prefix, value)] *)
Definition combinePrefix (prefix value : list N) : list N :=
  match last prefix with
  | None => value
  | Some c =>
      if JsString.isWhiteSpace c then prefix ++ value
      else prefix ++ [32%N] ++ value
  end.

(** What [ffmpegFilterPath] aims at between the quotes: backslashes stand
    before colons and quotes only, and every colon and quote has one. *)
Fixpoint wellEscaped (s : list N) : bool :=
  match s with
  | 92%N :: c :: rest => ((c =? 58) || (c =? 39))%N && wellEscaped rest
  | c :: rest =>
      negb ((c =? 92) || (c =? 58) || (c =? 39))%N && wellEscaped rest
  | [] => true
  end.

End Overlay.

(** ** player/playlist-manager.js and player/playback-controller.js:
       history, stop, pause, resume and skip *)

Module Playback.
Import Player.

Definition withHistory (h : list Z) (pl : PlaylistState) : PlaylistState :=
  {| playlist := playlist pl; currentIndex := currentIndex pl;
     currentTrack := currentTrack pl; history := h;
     shuffledQueue := shuffledQueue pl; shuffle := shuffle pl |}.

(** [popFromHistory()]: the entry is removed also when no track stands at
    it any more; [None] is [null]. *)
Definition popFromHistory (pl : PlaylistState) : option Z * PlaylistState :=
  match last (history pl) with
  | None => (None, pl)
  | Some previousIndex =>
      (if bool_decide (is_Some (getTrackAtIndex previousIndex pl))
       then Some previousIndex else None,
       withHistory (removelast (history pl)) pl)
  end.

(** What the controller does to the outside, with the kill of the decoder
    added to the actions of [playTrackAtIndex]. *)
Inductive Command :=
| Did (a : Action)
| KillDecoder                     (* proc.kill('SIGTERM') *)
| WarnNoNext                      (* 'No next track available' *)
| WarnNoPrevious                  (* 'No previous track in history' *)
| WarnNothingToPlay.              (* 'No tracks available to start playback...' *)

Definition setStopIntent (v : option string) (c : Controller) : Controller :=
  let pb := playback c in
  {| playback :=
       {| process := process pb; startTime := startTime pb; offset := offset pb;
          isPaused := isPaused pb; stopIntent := v;
          shuttingDown := shuttingDown pb |};
     playlistManager := playlistManager c |}.

Definition setOffset (v : Z) (c : Controller) : Controller :=
  let pb := playback c in
  {| playback :=
       {| process := process pb; startTime := startTime pb; offset := v;
          isPaused := isPaused pb; stopIntent := stopIntent pb;
          shuttingDown := shuttingDown pb |};
     playlistManager := playlistManager c |}.

Definition setPaused (v : bool) (c : Controller) : Controller :=
  let pb := playback c in
  {| playback :=
       {| process := process pb; startTime := startTime pb; offset := offset pb;
          isPaused := v; stopIntent := stopIntent pb;
          shuttingDown := shuttingDown pb |};
     playlistManager := playlistManager c |}.

(** [stopPlayback(intent)], up to the promise it returns; the boolean
    says whether the promise waits for the 'close' event of the decoder. *)
Definition stopPlayback (intent : string) (c : Controller)
  : Controller * list Command * bool :=
  match process (playback c) with
  | None => (c, [], false)
  | Some _ => (setStopIntent (Some intent) c, [KillDecoder], true)
  end.

(** The 'close' event of a decoder that [stopPlayback] was called on: the
    listener of [playTrackAtIndex] runs first, then the one [stopPlayback]
    added with [once], which clears the intent and resolves the promise. *)
Definition onStoppedClose (now : Z) (draws : list Js.Random) (o : SpawnOutcome)
    (c : Controller) : Controller * list Command :=
  let '(c, acts) := onDecoderClose now draws o c in
  (setStopIntent None c, List.map Did acts).

(** [pausePlayback()], in its two parts: up to [await stopPlayback('pause')]
    ([None] when it returns at once), and after it. *)
Definition pausePlayback_begin (now : Z) (c : Controller)
  : option (Controller * list Command) :=
  if negb (isPlaying c) || isPaused (playback c) then None
  else
    let c := setOffset (getCurrentPositionMs now c) c in
    Some (stopPlayback "pause" c).1.

Definition pausePlayback_end (c : Controller) : Controller := setPaused true c.

(** [resumePlayback()] *)
Definition resumePlayback (now : Z) (o : SpawnOutcome) (c : Controller)
  : Controller * list Command :=
  if isPaused (playback c) && negb (currentIndex (playlistManager c) =? -1) then
    let '(c, acts) :=
      playTrackAtIndex (currentIndex (playlistManager c)) (offset (playback c))
        now o c in
    (c, List.map Did acts)
  else (c, []).

(** [skipToNext()], up to [await stopPlayback('manual')]: the state, what
    was done, and the index to play with whether the promise waits, when
    the function goes on. *)
Definition skipToNext_begin (draws : list Js.Random) (c : Controller)
  : Controller * list Command * option (Z * bool) :=
  if (length (playlist (playlistManager c)) =? 0)%nat then (c, [], None)
  else
    let '(nextIndex, pl) := pickNextIndex draws (playlistManager c) in
    if nextIndex =? -1 then (withPlaylist pl c, [WarnNoNext], None)
    else
      let c := withPlaylist (addToHistory pl) c in
      let '(c, cmds, waits) := stopPlayback "manual" c in
      (c, cmds, Some (nextIndex, waits)).

(** [skipToPrevious()], up to [await stopPlayback('manual')]. *)
Definition skipToPrevious_begin (c : Controller)
  : Controller * list Command * option (Z * bool) :=
  let '(previousIndex, pl) := popFromHistory (playlistManager c) in
  let c := withPlaylist pl c in
  match previousIndex with
  | None => (c, [WarnNoPrevious], None)
  | Some index =>
      let '(c, cmds, waits) := stopPlayback "manual" c in
      (c, cmds, Some (index, waits))
  end.
(** The end of both: [await playTrackAtIndex(index)]. *)
Definition skip_end (index : Z) (now : Z) (o : SpawnOutcome) (c : Controller)
  : Controller * list Command :=
  let '(c, acts) := playTrackAtIndex index 0 now o c in
  (c, List.map Did acts).

(** [startPlaybackLoop()] *)
Definition startPlaybackLoop (now : Z) (draws : list Js.Random) (o : SpawnOutcome)
    (c : Controller) : Controller * list Command :=
  if (length (playlist (playlistManager c)) =? 0)%nat then (c, [WarnNothingToPlay])
  else
    let '(index, pl) := pickNextIndex draws (playlistManager c) in
    let startIndex := if index =? -1 then 0 else index in
    let '(c, acts) := playTrackAtIndex startIndex 0 now o (withPlaylist pl c) in
    (c, List.map Did acts).

(** A controller in the middle of a track: one decoder, a track at the
    current index, nothing being stopped, not paused. *)
Definition playing (c : Controller) : Prop :=
  is_Some (process (playback c))
  /\ is_Some (getTrackAtIndex (currentIndex (playlistManager c)) (playlistManager c))
  /\ currentTrack (playlistManager c)
     = getTrackAtIndex (currentIndex (playlistManager c)) (playlistManager c)
  /\ isPaused (playback c) = false
  /\ Js.truthyStr (stopIntent (playback c)) = false
  /\ shuttingDown (playback c) = false.

(** The whole of [pausePlayback()], [skipToNext()] and [skipToPrevious()]
    when the 'close' event of the killed decoder is the next thing that
    happens to the controller; [closing] is what the 'close' listener of
    [playTrackAtIndex] would read should it go on to the next track. *)
Definition awaitStop (waits : bool) (closing : Z * list Js.Random * SpawnOutcome)
    (c : Controller) : Controller * list Command :=
  if waits then
    let '(now, draws, o) := closing in onStoppedClose now draws o c
  else (c, []).

Definition pausePlayback (now : Z) (closing : Z * list Js.Random * SpawnOutcome)
    (c : Controller) : Controller * list Command :=
  match pausePlayback_begin now c with
  | None => (c, [])
  | Some (c, cmds) =>
      let '(c, closed) := awaitStop true closing c in
      (pausePlayback_end c, cmds ++ closed)
  end.

Definition skipThen (begun : Controller * list Command * option (Z * bool))
    (closing : Z * list Js.Random * SpawnOutcome) (now : Z) (o : SpawnOutcome)
  : Controller * list Command :=
  let '(c, cmds, goes) := begun in
  match goes with
  | None => (c, cmds)
  | Some (index, waits) =>
      let '(c, closed) := awaitStop waits closing c in
      let '(c, played) := skip_end index now o c in
      (c, cmds ++ closed ++ played)
  end.

Definition skipToNext (draws : list Js.Random)
    (closing : Z * list Js.Random * SpawnOutcome) (now : Z) (o : SpawnOutcome)
    (c : Controller) : Controller * list Command :=
  skipThen (skipToNext_begin draws c) closing now o.

Definition skipToPrevious (closing : Z * list Js.Random * SpawnOutcome)
    (now : Z) (o : SpawnOutcome) (c : Controller) : Controller * list Command :=
  skipThen (skipToPrevious_begin c) closing now o.

(** The controller once a decoder that [stopPlayback] killed has closed:
    no process and no intent, the rest as it was. *)
Definition stopped (c : Controller) : Controller :=
  let pb := playback c in
  {| playback :=
       {| process := None; startTime := startTime pb; offset := offset pb;
          isPaused := isPaused pb; stopIntent := None;
          shuttingDown := shuttingDown pb |};
     playlistManager := playlistManager c |}.

(** The second of three tracks, started at the instant [now]. *)
Definition secondStartedAt (now : Z) : Controller :=
  (playTrackAtIndex 1 0 now (SpawnReturns (Some decoder))
     {| playback := initialPlayback;
        playlistManager := initialPlaylist threeTracks false |}).1.

End Playback.
(** ** player/audio-socket.js: what the socket does about reconnecting *)

Module Reconnect.
Import AudioSocket.

(** The actions that reach for the server: arming the reconnect timer and
    opening a connection. *)
Definition reaches (a : Action) : bool :=
  match a with
  | Scheduled _ | CreateConnection _ => true
  | _ => false
  end.

(** Every event but [setShuttingDown(false)]. *)
Definition keepsShutdown (e : Event) : bool :=
  match e with
  | SetShuttingDown false => false
  | _ => true
  end.

(** The sockets that were opened, in order. *)
Definition opened (tr : list Action) : list nat :=
  omap (fun a => match a with CreateConnection s => Some s | _ => None end) tr.

End Reconnect.

(** ** player/playback-controller.js and player.js: decoded audio on its
       way to the socket *)

Module AudioPath.
Import AudioSocket.

(** The controller with the socket it was given and its
    [lastAudioDataLogTime]. *)
Record PlayerState := mkPlayerState {
  audioSocket : SocketState;
  controller : Player.Controller;
  lastAudioDataLogTime : Z
}.

Inductive Output :=
| SocketWrite (s : nat) (chunk : list Byte.byte)  (* socket.write(chunk) *)
| PauseStdout                                     (* state.process.stdout.pause() *)
| ResumeStdout                                    (* state.process.stdout.resume() *)
| WarnUnavailable (now : Z)                       (* 'Audio socket not available' *)
| WarnNotWritable (now : Z)                       (* 'Socket not writable, pausing FFmpeg stdout' *)
| WarnBackpressure                                (* 'Socket write returned false' *)
| Socket (a : Action).                            (* what the socket did *)

Definition withSocket (s : SocketState) (st : PlayerState) : PlayerState :=
  {| audioSocket := s; controller := controller st;
     lastAudioDataLogTime := lastAudioDataLogTime st |}.

Definition withController (c : Player.Controller) (st : PlayerState) : PlayerState :=
  {| audioSocket := audioSocket st; controller := c;
     lastAudioDataLogTime := lastAudioDataLogTime st |}.

(** [if (now - lastAudioDataLogTime > 5000) { warn(...); lastAudioDataLogTime = now; }] *)
Definition warnEvery5s (now : Z) (w : Output) (st : PlayerState)
  : PlayerState * list Output :=
  if 5000 <? now - lastAudioDataLogTime st then
    ({| audioSocket := audioSocket st; controller := controller st;
        lastAudioDataLogTime := now |}, [w])
  else (st, []).

(** [if (state.process) { state.process.stdout.pause(); }] *)
Definition pauseStdout (st : PlayerState) : list Output :=
  if Player.isPlaying (controller st) then [PauseStdout] else [].

(** [handleAudioData(chunk)]; [destroyed] is [socket.destroyed], [now] is
    [Date.now()] and [ok] what [socket.write] returns, should the handler
    get that far. *)
Definition handleAudioData (chunk : list Byte.byte) (destroyed : bool) (now : Z)
    (ok : bool) (st : PlayerState) : PlayerState * list Output :=
  if (length chunk =? 0)%nat then (st, [])
  else
    match socket (audioSocket st) with
    | None => warnEvery5s now (WarnUnavailable now) st
    | Some s =>
        if destroyed then warnEvery5s now (WarnUnavailable now) st
        else if negb (writable (audioSocket st)) then
          let '(st, warned) := warnEvery5s now (WarnNotWritable now) st in
          (st, warned ++ pauseStdout st)
        else if ok then (st, [SocketWrite s chunk])
        else
          let st := withSocket (setWritable false (audioSocket st)).1 st in
          (st, [SocketWrite s chunk; WarnBackpressure] ++ pauseStdout st)
    end.

(** [resumeFfmpegStdout()], the drain callback player.js gives the socket. *)
Definition resumeFfmpegStdout (st : PlayerState) : list Output :=
  if Player.isPlaying (controller st)
     && negb (Player.isPaused (Player.playback (controller st)))
  then [ResumeStdout] else [].

Inductive Event :=
| AudioData (chunk : list Byte.byte) (destroyed : bool) (now : Z) (ok : bool)
| Sock (e : AudioSocket.Event)
| ControllerMoves (c : Player.Controller).   (* any other handler of the controller *)

Section Steps.

Variable maxReconnectAttempts : Z.

Definition step (e : Event) (st : PlayerState) : PlayerState * list Output :=
  match e with
  | AudioData chunk destroyed now ok => handleAudioData chunk destroyed now ok st
  | Sock e =>
      let '(s, acts) := AudioSocket.step maxReconnectAttempts e (audioSocket st) in
      let st := withSocket s st in
      (st,
       concat (List.map (fun a => match a with
                                  | DrainCallback => Socket a :: resumeFfmpegStdout st
                                  | _ => [Socket a]
                                  end) acts))
  | ControllerMoves c => (withController c st, [])
  end.
Fixpoint run (evs : list Event) (st : PlayerState) : PlayerState * list Output :=
  match evs with
  | [] => (st, [])
  | e :: evs' =>
      let '(st1, out) := step e st in
      let '(st2, out') := run evs' st1 in
      (st2, out ++ out')
  end.

End Steps.

(** The chunks that arrived and the chunks that were written. *)
Definition arrived (evs : list Event) : list (list Byte.byte) :=
  omap (fun e => match e with AudioData chunk _ _ _ => Some chunk | _ => None end) evs.

Definition written (out : list Output) : list (list Byte.byte) :=
  omap (fun o => match o with SocketWrite _ chunk => Some chunk | _ => None end) out.

(** The instants of the warnings that are held to one in five seconds. *)
Definition warnedAt (out : list Output) : list Z :=
  omap (fun o => match o with
                 | WarnUnavailable now | WarnNotWritable now => Some now
                 | _ => None
                 end) out.

Fixpoint spaced (last : Z) (times : list Z) : Prop :=
  match times with
  | [] => True
  | t :: times' => 5000 < t - last /\ spaced t times'
  end.

(** The events that leave a socket that is not writable as it is: all but
    'drain', 'connect' and [setWritable(true)]. *)
Definition holdsBack (e : Event) : bool :=
  match e with
  | Sock (SocketDrain _) | Sock (SocketConnect _) | Sock (SetWritable true) => false
  | _ => true
  end.

(** A player that is connected and decoding the second of three tracks. *)
Definition streaming : PlayerState :=
  {| audioSocket := (AudioSocket.run 10 [Connect; SocketConnect 0] initial).1;
     controller := Player.playingSecond;
     lastAudioDataLogTime := 0 |}.

End AudioPath.
(** ** server/ffmpeg-manager.js and server/http-routes.js: what the
       status and the health check report *)

Module Supervision.
Import Ffmpeg.

(** GET /health: [healthy] and the status code of the answer. *)
Definition healthy (st : State) : bool :=
  isRunning st && connected (rtmpStatus st) && negb (isBlocked st).

Definition healthCode (st : State) : Z := if healthy st then 200 else 503.

(** What holds of the supervisor between any two of its handlers. *)
Definition consistent (cfg : Config) (st : State) : Prop :=
  Z.of_nat (length (ffmpegRestartAttempts st))
    <= Z.max 0 (FFMPEG_RESTART_MAX_ATTEMPTS cfg)
  /\ 0 <= ffmpegRestarts (rtmpStatus st)
  /\ (connected (rtmpStatus st) = true -> noHandle (ffmpegProcess st) = false).

(** The supervisor has nothing to do with restarts: no attempt on record,
    none counted, no backed-off restart in progress, and no timer pending
    but planned respawns and stability checks. *)
Definition neverRestarted (st : State) : Prop :=
  ffmpegRestartAttempts st = []
  /\ ffmpegRestarts (rtmpStatus st) = 0
  /\ restartingFfmpeg st = false
  /\ ffmpegBlockTimeout st = None
  /\ Forall (fun t => kind t = TPlanned \/ kind t = TStability) (timers st).

(** The default constants with [FFMPEG_AUTO_RESTART=false]. *)
Definition withoutAutoRestart : Config :=
  {| FFMPEG_HEARTBEAT_INTERVAL_MS := FFMPEG_HEARTBEAT_INTERVAL_MS defaults;
     FFMPEG_STALL_WARN_MS := FFMPEG_STALL_WARN_MS defaults;
     FFMPEG_RESTART_MAX_ATTEMPTS := FFMPEG_RESTART_MAX_ATTEMPTS defaults;
     FFMPEG_RESTART_WINDOW_MS := FFMPEG_RESTART_WINDOW_MS defaults;
     FFMPEG_RESTART_BACKOFF_BASE_MS := FFMPEG_RESTART_BACKOFF_BASE_MS defaults;
     FFMPEG_RESTART_BACKOFF_MAX_MS := FFMPEG_RESTART_BACKOFF_MAX_MS defaults;
     FFMPEG_STABLE_RUN_MS := FFMPEG_STABLE_RUN_MS defaults;
     FFMPEG_AUTO_RESTART := false |}.

End Supervision.
(** ** server/tcp-server.js: the ingest statistics *)

Module Ingest.
Import Tcp.

(** The sizes of the chunks counted since the counters were last reset:
    a connection and the 'close' of any socket reset them, an empty chunk
    is not counted. *)
Fixpoint sinceReset (counted : list Z) (evs : list Event) : list Z :=
  match evs with
  | [] => counted
  | Connection _ _ :: evs' => sinceReset [] evs'
  | SocketClose _ _ :: evs' => sinceReset [] evs'
  | SocketData _ size _ _ :: evs' =>
      sinceReset (if size =? 0 then counted else counted ++ [size]) evs'
  | _ :: evs' => sinceReset counted evs'
  end.

Definition total (sizes : list Z) : Z := foldr Z.add 0 sizes.

(** A chunk has a length. *)
Definition sized (e : Event) : Prop :=
  match e with
  | SocketData _ size _ _ => 0 <= size
  | _ => True
  end.

(** The counters stand for the chunks in [counted]. *)
Definition counts (counted : list Z) (st : State) : Prop :=
  bytesTotal (ingestStats st) = total counted
  /\ chunksTotal (ingestStats st) = Z.of_nat (length counted)
  /\ 0 <= bytesSinceLog (ingestStats st) <= bytesTotal (ingestStats st).

End Ingest.

(** ** server.js: producer audio and the Silence Filler *)

Module Handover.
Import Silence Server.

(** The filler is held while the producer sends: its interval runs, it
    is paused, and the timer that will resume it is pending. *)
Definition muted (st : State) : Prop :=
  silenceInterval (silenceGenerator st) = true
  /\ silencePaused (silenceGenerator st) = true
  /\ idleArmed (silenceGenerator st) = true.

(** The events that end the pause: the resume timer fires, or the filler
    is stopped by [shutdown]. *)
Definition unmutes (e : Event) : bool :=
  match e with
  | SilenceIdleTimer | Shutdown _ => true
  | _ => false
  end.

End Handover.

(** ** server/http-routes.js and server.js: POST /metadata *)

Module MetadataRoute.
Import JsString Metadata.

Definition MAX_METADATA_TITLE_LENGTH : Z := 200.
Definition MAX_METADATA_ARTIST_LENGTH : Z := 100.
Definition MAX_METADATA_ALBUM_LENGTH : Z := 100.
Definition MAX_METADATA_COMMENT_LENGTH : Z := 300.

(** A member of the parsed request body, as far as the handler tells
    values apart: missing, a string, or anything else JSON can hold
    ([null], a number, a boolean, an array, an object). *)
Inductive Json :=
| JUndefined
| JString (s : list N)
| JOther.

(** The members of the body the handler reads; [req.body || {}] gives
    them all as [undefined] when there is no body. *)
Record Body := mkBody {
  title : Json;
  artist : Json;
  album : Json;
  comment : Json;
  filename : Json
}.

(** What [validateString] throws; the message is made of the two. *)
Inductive Invalid :=
| NotAString (fieldName : string)          (* '<field> must be a string' *)
| TooLong (fieldName : string) (maxLength : Z).
                                           (* '<field> exceeds maximum length of <max>' *)

(** [validateString(value, maxLength, fieldName)]: [None] when it
    returns. *)
Definition validateString (value : Json) (maxLength : Z) (fieldName : string)
  : option Invalid :=
  match value with
  | JString s =>
      if maxLength <? Z.of_nat (length s) then Some (TooLong fieldName maxLength)
      else None
  | _ => Some (NotAString fieldName)
  end.

(** [if (body.x !== undefined) validateString(body.x, ...)] *)
Definition validateProvided (value : Json) (maxLength : Z) (fieldName : string)
  : option Invalid :=
  match value with
  | JUndefined => None
  | _ => validateString value maxLength fieldName
  end.
(** The checks of the handler, in its order; the first that throws ends
    the [try] block. *)
Definition checks (body : Body) : list (option Invalid) :=
  [ validateProvided (title body) MAX_METADATA_TITLE_LENGTH "title";
    validateProvided (artist body) MAX_METADATA_ARTIST_LENGTH "artist";
    validateProvided (album body) MAX_METADATA_ALBUM_LENGTH "album";
    validateProvided (comment body) MAX_METADATA_COMMENT_LENGTH "comment";
    validateProvided (filename body) 255 "filename" ].

Fixpoint firstThrown (results : list (option Invalid)) : option Invalid :=
  match results with
  | [] => None
  | Some e :: _ => Some e
  | None :: rest => firstThrown rest
  end.

(** The answer of the handler, and the body handed to [onMetadataUpdate]
    when it is called. *)
Record Answer := mkAnswer {
  status : Z;
  error : option Invalid;
  update : option Body
}.

Definition postMetadata (body : Body) : Answer :=
  match firstThrown (checks body) with
  | Some e => {| status := 400; error := Some e; update := None |}
  | None => {| status := 204; error := None; update := Some body |}
  end.

(** A member as [sanitizeMetadataField] takes it once the body has passed
    the checks: a string, or [undefined]. *)
Definition provided (value : Json) : option (list N) :=
  match value with
  | JString s => Some s
  | _ => None
  end.

(** The three fields of [normalizeMetadata] that are sanitized members
    of the body, for a body that has passed the checks. *)
Definition normalizedTitle (body : Body) : option (list N) :=
  sanitizeMetadataField (provided (title body)) (Some (ofString "StreamDJ Live")).
Definition normalizedArtist (body : Body) : option (list N) :=
  sanitizeMetadataField (provided (artist body)) (Some (ofString "StreamDJ")).
Definition normalizedAlbum (body : Body) : option (list N) :=
  sanitizeMetadataField (provided (album body)) (Some (ofString "Live Mix")).

(** A member the handler lets through. *)
Definition acceptable (value : Json) (maxLength : Z) : Prop :=
  value = JUndefined
  \/ exists s, value = JString s /\ Z.of_nat (length s) <= maxLength.

(** A text fit for the overlay: tidy and within the length. *)
Definition fits (maxLength : Z) (shown : option (list N)) : Prop :=
  exists s, shown = Some s /\ tidy s = true /\ Z.of_nat (length s) <= maxLength.

End MetadataRoute.

(** ** lib/config: the ports and hosts shared by the three programs *)

Module LibConfig.
Import JsString Env.

Definition DEFAULT_TCP_PORT : Z := 5000.
Definition DEFAULT_HTTP_PORT : Z := 4000.
Definition DEFAULT_PLAYER_API_PORT : Z := 3000.
Definition DEFAULT_HTTP_HOST : list N := ofString "127.0.0.1".

Record Loaded := mkLoaded {
  TCP_PORT : Z;
  HTTP_PORT : Z;
  HTTP_HOST : list N;
  PLAYER_API_PORT : Z;
  PLAYER_API_HOST : list N
}.

(** The module, in the order it reads the environment. *)
Definition load (env : gmap string (list N)) : Outcome Loaded :=
  bind (optionalPortEnv env "TCP_PORT" DEFAULT_TCP_PORT) (fun tcp =>
  bind (optionalPortEnv env "HTTP_PORT" DEFAULT_HTTP_PORT) (fun http =>
  let httpHost := optionalEnv env "HTTP_HOST" DEFAULT_HTTP_HOST in
  bind (optionalPortEnv env "PLAYER_API_PORT" DEFAULT_PLAYER_API_PORT) (fun player =>
  let playerHost := optionalEnv env "PLAYER_API_HOST" DEFAULT_HTTP_HOST in
  Returns {| TCP_PORT := tcp; HTTP_PORT := http; HTTP_HOST := httpHost;
             PLAYER_API_PORT := player; PLAYER_API_HOST := playerHost |}))).

Definition validPort (port : Z) : Prop := 1 <= port <= 65535.

End LibConfig.
(** ** lib/utils/auth.js: the API key of the HTTP endpoints *)

Module Auth.
Import JsString.

(** [Buffer.from(s)]: the UTF-8 bytes of a string given by its UTF-16
    code units.  A surrogate pair is one code point; a surrogate on its
    own is encoded as U+FFFD. *)
Definition isHighSurrogate (c : N) : bool := ((0xD800 <=? c) && (c <=? 0xDBFF))%N.
Definition isLowSurrogate (c : N) : bool := ((0xDC00 <=? c) && (c <=? 0xDFFF))%N.

Definition utf8CodePoint (cp : N) : list N :=
  (if cp <? 0x80 then [cp]
   else if cp <? 0x800 then [0xC0 + cp / 64; 0x80 + cp mod 64]
   else if cp <? 0x10000 then
     [0xE0 + cp / 4096; 0x80 + (cp / 64) mod 64; 0x80 + cp mod 64]
   else
     [0xF0 + cp / 262144; 0x80 + (cp / 4096) mod 64;
      0x80 + (cp / 64) mod 64; 0x80 + cp mod 64])%N.

Definition REPLACEMENT : list N := [0xEF; 0xBF; 0xBD]%N.

Fixpoint utf8 (s : list N) : list N :=
  match s with
  | [] => []
  | c :: rest =>
      if isHighSurrogate c then
        match rest with
        | d :: rest' =>
            if isLowSurrogate d
            then utf8CodePoint (0x10000 + (c - 0xD800) * 1024 + (d - 0xDC00))
                 ++ utf8 rest'
            else REPLACEMENT ++ utf8 rest
        | [] => REPLACEMENT
        end
      else if isLowSurrogate c then REPLACEMENT ++ utf8 rest
      else utf8CodePoint c ++ utf8 rest
  end.

(** [getApiKey()]: [None] is [null]. *)
Definition getApiKey (env : gmap string (list N)) : option (list N) :=
  match env !! "STREAMDJ_API_KEY" with
  | Some key =>
      if negb (length key =? 0)%nat && (0 <? length (trim key))%nat
      then Some (trim key) else None
  | None => None
  end.

Definition isAuthEnabled (env : gmap string (list N)) : bool :=
  bool_decide (is_Some (getApiKey env)).

(** [safeCompare(a, b)] on two strings: buffers of different lengths
    differ, and [timingSafeEqual] compares buffers of one length. *)
Definition safeCompare (a b : list N) : bool :=
  if negb (length (utf8 a) =? length (utf8 b))%nat then false
  else bool_decide (utf8 a = utf8 b).

(** What the middleware reads of a request; a header that is not there is
    [None]. *)
Record Request := mkRequest {
  path : list N;
  xApiKey : option (list N);
  authorization : option (list N)
}.

(** [s.split(' ')] *)
Fixpoint splitOnSpace (s : list N) : list (list N) :=
  match s with
  | [] => [[]]
  | c :: rest =>
      if (c =? 32)%N then [] :: splitOnSpace rest
      else match splitOnSpace rest with
           | part :: parts => (c :: part) :: parts
           | [] => [[c]]
           end
  end.

(** [s.toLowerCase() === 'bearer'].  No character outside ASCII has a
    letter of that word as its lower case, so the strings concerned are
    the spellings of the word in upper and lower case. *)
Definition lowerAscii (c : N) : N :=
  if ((65 <=? c) && (c <=? 90))%N then (c + 32)%N else c.

Definition isBearer (s : list N) : bool :=
  bool_decide (List.map lowerAscii s = ofString "bearer").

(** A header that is there and is not the empty string. *)
Definition truthy (h : option (list N)) : option (list N) :=
  match h with
  | Some [] => None
  | v => v
  end.

(** [extractApiKey(req)]: [None] is [null]. *)
Definition extractApiKey (req : Request) : option (list N) :=
  match truthy (xApiKey req) with
  | Some key => Some (trim key)
  | None =>
      match truthy (authorization req) with
      | Some authHeader =>
          match splitOnSpace authHeader with
          | [scheme; key] => if isBearer scheme then Some (trim key) else None
          | _ => None
          end
      | None => None
      end
  end.

(** [validateApiKey(providedKey)] *)
Definition validateApiKey (env : gmap string (list N))
    (providedKey : option (list N)) : bool :=
  match getApiKey env with
  | None => true
  | Some configuredKey =>
      match truthy providedKey with
      | None => false
      | Some key => safeCompare key configuredKey
      end
  end.
(** How the middleware ends: it calls [next()], or answers 401. *)
Inductive Verdict := Next | Unauthorized.

Definition authMiddleware (env : gmap string (list N)) (req : Request) : Verdict :=
  if negb (isAuthEnabled env) then Next
  else if validateApiKey env (extractApiKey req) then Next
  else Unauthorized.

(** [s.startsWith(prefix)] *)
Fixpoint startsWith (prefix s : list N) : bool :=
  match prefix, s with
  | [], _ => true
  | p :: prefix', c :: s' => (p =? c)%N && startsWith prefix' s'
  | _ :: _, [] => false
  end.

(** The middleware [createAuthMiddleware({ excludePaths })] returns. *)
Definition createAuthMiddleware (excludePaths : list (list N))
    (env : gmap string (list N)) (req : Request) : Verdict :=
  if existsb (fun p => bool_decide (path req = p) || startsWith (p ++ [47%N]) (path req))
       excludePaths
  then Next
  else authMiddleware env req.

(** The middleware of server.js. *)
Definition serverAuth (env : gmap string (list N)) (req : Request) : Verdict :=
  createAuthMiddleware [ofString "/health"] env req.

(** A header value as Node hands it over: characters up to U+00FF. *)
Definition latin1 (s : list N) : Prop := Forall (fun c => (c < 256)%N) s.

End Auth.

(** ** player/playback-controller.js and player/playlist-manager.js:
       one track after the other *)

Module Rounds.
Import Player Playback.

(** Natural completions in a row: each 'close' event with the instant,
    the draws of [Math.random] and the outcome of the spawn it meets. *)
Fixpoint completions (ins : list (Z * list Js.Random * SpawnOutcome))
    (c : Controller) : Controller * list Action :=
  match ins with
  | [] => (c, [])
  | (now, draws, o) :: ins' =>
      let '(c1, acts) := onDecoderClose now draws o c in
      let '(c2, acts') := completions ins' c1 in
      (c2, acts ++ acts')
  end.

(** The spawn gives a decoder with a PID. *)
Definition spawns (o : SpawnOutcome) : Prop :=
  exists d, o = SpawnReturns d /\ noHandle d = false.

(** Calls of [pickNextIndex] in a row, each with its draws: the indices
    picked and the state left. *)
Fixpoint picks (drawss : list (list Js.Random)) (pl : PlaylistState)
  : list Z * PlaylistState :=
  match drawss with
  | [] => ([], pl)
  | draws :: drawss' =>
      let '(index, pl1) := pickNextIndex draws pl in
      let '(indices, pl2) := picks drawss' pl1 in
      (index :: indices, pl2)
  end.

(** The tracks the decoder was spawned for. *)
Definition decoded (acts : list Action) : list string :=
  omap (fun a => match a with SpawnDecoder trackPath _ => Some trackPath | _ => None end)
    acts.

End Rounds.
(** ** lib/services/overlay-style-store.js: colours and labels of the
       overlay style *)

Module OverlayStyle.
Import JsString Metadata.

(** A member of the payload, as far as the two sanitizers tell values
    apart: [undefined] or [null], a string, anything else. *)
Inductive Value :=
| Missing
| Text (s : list N)
| Other.

Definition isHexDigit (c : N) : bool :=
  ((48 <=? c) && (c <=? 57) || (97 <=? c) && (c <=? 102)
   || (65 <=? c) && (c <=? 70))%N.

(** [COLOR_PATTERN.test(s)], the pattern being [/^#([0-9a-fA-F]{6})$/]. *)
Definition matchesColor (s : list N) : bool :=
  match s with
  | 35%N :: digits => (length digits =? 6)%nat && forallb isHexDigit digits
  | _ => false
  end.

(** [s.toUpperCase()] on a string that has passed the pattern: its
    letters are ASCII. *)
Definition upperAscii (c : N) : N :=
  if ((97 <=? c) && (c <=? 122))%N then (c - 32)%N else c.

(** [sanitizeColor(value, field)]; [None] when it throws. *)
Definition sanitizeColor (value : Value) : option (list N) :=
  match value with
  | Text s =>
      if matchesColor (trim s) then Some (List.map upperAscii (trim s)) else None
  | _ => None
  end.

(** [sanitizeText(value, field, maxLength)]; [None] when it throws. *)
Definition sanitizeText (value : Value) (maxLength : Z) : option (list N) :=
  match value with
  | Missing => Some []
  | Text s =>
      let normalized := trim (replaceRuns isLineBreak false s) in
      if maxLength <? Z.of_nat (length normalized) then None else Some normalized
  | Other => None
  end.

(** A colour as the store keeps it: [#] and six digits of 0-9, A-F. *)
Definition isUpperHexDigit (c : N) : bool :=
  ((48 <=? c) && (c <=? 57) || (65 <=? c) && (c <=? 70))%N.

Definition canonicalColor (s : list N) : bool :=
  match s with
  | 35%N :: digits => (length digits =? 6)%nat && forallb isUpperHexDigit digits
  | _ => false
  end.

End OverlayStyle.
(* ================================================================== *)
(** * Properties *)
(* ================================================================== *)

Module AudioSocketFacts.
Import AudioSocket.

Lemma doubling_snoc d l x :
  doubling d (l ++ [x]) ->
  doubling d (l ++ [x; Z.min (x * 2) RECONNECT_CAP_MS]).
Proof.
  revert d. induction l as [|y l IH]; intros d; simpl.
  - intros [-> _]. auto.
  - intros [-> H]. split; [reflexivity | apply IH, H].
Qed.

Lemma doubling_app_l d l l' : doubling d (l ++ l') -> doubling d l.
Proof.
  revert d. induction l as [|y l IH]; intros d; simpl; [auto|].
  intros [-> H]. split; [reflexivity | eapply IH, H].
Qed.

Lemma doubling_bounds d ds :
  RECONNECT_FLOOR_MS <= d <= RECONNECT_CAP_MS ->
  doubling d ds ->
  Forall (fun x => RECONNECT_FLOOR_MS <= x <= RECONNECT_CAP_MS) ds
  /\ nonDecreasing ds.
Proof.
  unfold RECONNECT_FLOOR_MS, RECONNECT_CAP_MS.
  revert d. induction ds as [|x ds IH]; intros d Hd; simpl.
  - intros _. split; [constructor | exact I].
  - intros [-> Hds].
    destruct (IH (Z.min (d * 2) 30000) ltac:(lia) Hds) as [Hall Hnd].
    split; [constructor; [lia | exact Hall] |].
    destruct ds as [|y ds']; [exact I |].
    split; [| exact Hnd].
    destruct Hds as [-> _]. unfold RECONNECT_CAP_MS. lia.
Qed.

(** The handlers keep the stored delay between the floor and the cap, and
    whatever they schedule continues the doubling run in progress. *)
Lemma step_runs maxAttempts e st cur rest :
  delayInRange st ->
  doubling RECONNECT_FLOOR_MS (cur ++ [reconnectDelay st]) ->
  exists cur' closed,
    delayInRange (step maxAttempts e st).1
    /\ doubling RECONNECT_FLOOR_MS (cur' ++ [reconnectDelay (step maxAttempts e st).1])
    /\ Forall (doubling RECONNECT_FLOOR_MS) closed
    /\ failureRuns cur ((step maxAttempts e st).2 ++ rest)
       = closed ++ failureRuns cur' rest.
Proof.
  intros Hr Hd.
  assert (Hfloor : doubling RECONNECT_FLOOR_MS ([] ++ [RECONNECT_FLOOR_MS]))
    by (simpl; auto).
  assert (Hcur : doubling RECONNECT_FLOOR_MS cur) by (eapply doubling_app_l, Hd).
  pose proof Hr as Hr'. unfold delayInRange in Hr'.
  destruct e; simpl.
  - (* connect *)
    unfold connect, clearReconnectTimer.
    destruct (shuttingDown st), (reconnectTimer st); simpl;
      exists cur, (@nil (list Z)); auto.
  - (* disconnect *)
    unfold disconnect, clearReconnectTimer.
    destruct (reconnectTimer st), (socket st); simpl; exists cur, (@nil (list Z)); auto.
  - unfold setShuttingDown, clearReconnectTimer.
    destruct value, (reconnectTimer st); simpl; exists cur, (@nil (list Z)); auto.
  - exists cur, (@nil (list Z)); auto.
  - (* 'connect' *)
    exists [], [cur]. simpl. split; [| auto].
    unfold delayInRange, RECONNECT_FLOOR_MS, RECONNECT_CAP_MS; simpl; lia.
  - destruct hasCallback; exists cur, (@nil (list Z)); auto.
  - exists cur, (@nil (list Z)); auto.
  - (* 'close' *)
    unfold onClose, scheduleReconnect; simpl.
    destruct (shuttingDown st); [exists cur, (@nil (list Z)); auto |].
    destruct (bool_decide (is_Some (reconnectTimer st))); [exists cur, (@nil (list Z)); auto |].
    destruct (maxAttempts <=? reconnectAttempts st); [exists cur, (@nil (list Z)); auto |].
    simpl. exists (cur ++ [reconnectDelay st]), (@nil (list Z)). simpl.
    replace (Z.min (reconnectDelay st) RECONNECT_CAP_MS) with (reconnectDelay st) by lia.
    split; [| split; [| auto]].
    + unfold delayInRange; simpl.
      unfold RECONNECT_FLOOR_MS, RECONNECT_CAP_MS in *. lia.
    + rewrite <- app_assoc. simpl. apply doubling_snoc, Hd.
  - (* the reconnect timer *)
    unfold onReconnectTimer, connect, clearReconnectTimer.
    destruct (reconnectTimer st); simpl; [| exists cur, (@nil (list Z)); auto].
    destruct (shuttingDown st); simpl; exists cur, (@nil (list Z)); auto.
Qed.

Lemma run_runs maxAttempts evs : forall st cur,
  delayInRange st ->
  doubling RECONNECT_FLOOR_MS (cur ++ [reconnectDelay st]) ->
  Forall (doubling RECONNECT_FLOOR_MS)
    (failureRuns cur (run maxAttempts evs st).2).
Proof.
  induction evs as [|e evs IH]; intros st cur Hr Hd.
  - simpl. constructor; [| constructor]. eapply doubling_app_l, Hd.
  - simpl.
    destruct (step maxAttempts e st) as [st1 acts] eqn:Hstep.
    destruct (run maxAttempts evs st1) as [st2 acts'] eqn:Hrun.
    simpl.
    destruct (step_runs maxAttempts e st cur acts' Hr Hd)
      as (cur' & closed & Hr1 & Hd1 & Hdone & Heq).
    rewrite Hstep in *. simpl in *. rewrite Heq.
    apply Forall_app. split; [exact Hdone |].
    specialize (IH st1 cur' Hr1 Hd1). rewrite Hrun in IH. exact IH.
Qed.

(** C4.  Whatever happens to the Transport Socket, the reconnect delays it
    schedules form, between two successful connections, a run that starts
    at the floor (1000 ms), doubles at each consecutive failure up to the
    cap (30000 ms), never decreases and never exceeds the cap; and handling
    a successful connection puts the stored delay back to the floor. *)
Theorem reconnect_delays_double_to_cap :
  forall (maxReconnectAttempts : Z) (evs : list Event),
    Forall
      (fun ds =>
         doubling RECONNECT_FLOOR_MS ds
         /\ nonDecreasing ds
         /\ Forall (fun d => RECONNECT_FLOOR_MS <= d <= RECONNECT_CAP_MS) ds)
      (failureRuns [] (run maxReconnectAttempts evs initial).2)
    /\ (forall s st, reconnectDelay (onConnect s st).1 = RECONNECT_FLOOR_MS).
Proof.
  intros maxAttempts evs. split; [| reflexivity].
  assert (H : Forall (doubling RECONNECT_FLOOR_MS)
                (failureRuns [] (run maxAttempts evs initial).2)).
  { apply run_runs.
    - unfold delayInRange, initial, RECONNECT_FLOOR_MS, RECONNECT_CAP_MS.
      simpl. lia.
    - simpl. auto. }
  eapply Forall_impl; [exact H |].
  intros ds Hds. split; [exact Hds |].
  assert (Hfl : RECONNECT_FLOOR_MS <= RECONNECT_FLOOR_MS <= RECONNECT_CAP_MS)
    by (unfold RECONNECT_FLOOR_MS, RECONNECT_CAP_MS; lia).
  destruct (doubling_bounds _ _ Hfl Hds) as [Hb Hn]. auto.
Qed.

(** The delays of the outage scenario, with the default maximum of ten
    attempts. *)
Example outage_delays :
  failureRuns [] (run 10 outage initial).2
  = [[1000; 2000; 4000; 8000; 16000; 30000; 30000]; [1000; 2000]].
Proof. reflexivity. Qed.

Lemma reconnect_delays_double_to_cap_witness :
  Forall
    (fun ds =>
       doubling RECONNECT_FLOOR_MS ds
       /\ nonDecreasing ds
       /\ Forall (fun d => RECONNECT_FLOOR_MS <= d <= RECONNECT_CAP_MS) ds)
    (failureRuns [] (run 10 outage initial).2).
Proof. exact (proj1 (reconnect_delays_double_to_cap 10 outage)). Defined.

End AudioSocketFacts.

Module FfmpegFacts.
Import Ffmpeg.

Section Supervisor.

Variable cfg : Config.

(** The threshold branch of [scheduleRestart], spelled out. *)
Lemma scheduleRestart_at_threshold now rnd st :
  FFMPEG_AUTO_RESTART cfg = true ->
  restartingFfmpeg st = false ->
  FFMPEG_RESTART_MAX_ATTEMPTS cfg
    <= Z.of_nat (length (recentAttempts cfg now st)) ->
  let st1 := scheduleRestart cfg now rnd st in
  ffmpegBlocked st1 = true
  /\ restartingFfmpeg st1 = false
  /\ ffmpegRestartAttempts st1 = recentAttempts cfg now st
  /\ ffmpegProcess st1 = ffmpegProcess st
  /\ listeners st1 = listeners st
  /\ ffmpegBlockTimeout st1 = Some (timerSeq st)
  /\ timers st1
     = match ffmpegBlockTimeout st with
       | Some h => List.filter (fun t => negb (handle t =? h)%nat) (timers st)
       | None => timers st
       end
       ++ [{| handle := timerSeq st; kind := TBlock;
              due := now + BLOCK_TIMEOUT_MS |}].
Proof.
  intros Hauto Hrest Hmax st1. subst st1.
  unfold scheduleRestart. rewrite Hauto, Hrest. simpl.
  destruct st; simpl in *. unfold recentAttempts in *. simpl in *.
  apply Z.leb_le in Hmax. rewrite Hmax.
  subst. destruct ffmpegBlockTimeout0; simpl; repeat split; reflexivity.
Qed.

(** Below the threshold the call records the attempt and arms the
    backed-off restart. *)
Lemma scheduleRestart_below_threshold now rnd st :
  FFMPEG_AUTO_RESTART cfg = true ->
  restartingFfmpeg st = false ->
  Z.of_nat (length (recentAttempts cfg now st))
    < FFMPEG_RESTART_MAX_ATTEMPTS cfg ->
  let st1 := scheduleRestart cfg now rnd st in
  ffmpegBlocked st1 = ffmpegBlocked st
  /\ restartingFfmpeg st1 = true
  /\ ffmpegRestartAttempts st1 = recentAttempts cfg now st ++ [now]
  /\ timers st1
     = timers st
       ++ [{| handle := timerSeq st; kind := TRestart;
              due := now + backoffDelay cfg
                             (Z.of_nat (length (recentAttempts cfg now st))) rnd |}].
Proof.
  intros Hauto Hrest Hmax st1. subst st1.
  unfold scheduleRestart. rewrite Hauto, Hrest. simpl.
  destruct st; simpl in *. unfold recentAttempts in *. simpl in *.
  apply Z.leb_gt in Hmax. rewrite Hmax. simpl. subst. repeat split; reflexivity.
Qed.

Lemma findTimer_In h st t : findTimer h st = Some t -> In t (timers st).
Proof. unfold findTimer. intros H. apply find_some in H. tauto. Qed.

Lemma spawnPending_false st :
  spawnPending st = false <->
  forall t, In t (timers st) -> kind t = TStability \/ kind t = TBlock.
Proof.
  unfold spawnPending. split.
  - intros H t Hin.
    destruct (kind t) eqn:Hk; auto; exfalso;
      (assert (Hex : existsb
                 (fun t => bool_decide (kind t = TRestart \/ kind t = TPlanned))
                 (timers st) = true);
       [apply existsb_exists; exists t; split; [exact Hin |];
        apply bool_decide_eq_true; auto | congruence]).
  - intros H. apply not_true_is_false. intros Hex.
    apply existsb_exists in Hex. destruct Hex as (t & Hin & Ht).
    apply bool_decide_eq_true in Ht.
    destruct (H t Hin) as [Hk | Hk]; rewrite Hk in Ht;
      destruct Ht; discriminate.
Qed.

Lemma quiet_clearTimeout h st : quiet st -> quiet (clearTimeout h st).
Proof.
  intros (Hp & Hl & Ht). unfold quiet, clearTimeout.
  destruct st; simpl in *. repeat split; auto.
  apply spawnPending_false. simpl. intros t Hin.
  apply filter_In in Hin. destruct Hin as [Hin _].
  apply (proj1 (spawnPending_false _) Ht t Hin).
Qed.

(** While blocked and quiet, one event that does not end the blocked
    period spawns nothing and leaves the supervisor blocked and quiet. *)
Lemma blocked_quiet_step st e st1 acts :
  ffmpegBlocked st = true ->
  quiet st ->
  endsBlock st e = false ->
  step cfg e st = Some (st1, acts) ->
  ffmpegBlocked st1 = true /\ quiet st1 /\ ASpawn ∉ acts.
Proof.
  intros Hb Hq Hends Hstep.
  pose proof Hq as (Hp & Hl & Ht).
  destruct e; simpl in Hends, Hstep; try discriminate;
    try (rewrite Hl in Hstep; simpl in Hstep; discriminate).
  - (* requestRestart *)
    unfold requestRestart in Hstep. rewrite Hp in Hstep.
    simpl in Hstep. inversion Hstep; subst. auto using not_elem_of_nil.
  - (* shutdown *)
    unfold shutdown in Hstep. rewrite Hp in Hstep.
    inversion Hstep; subst. split; [| split; [| apply not_elem_of_nil]].
    + destruct st; simpl in *; auto.
    + unfold quiet, spawnPending in *. destruct st; simpl in *; auto.
  - inversion Hstep; subst. split; [| split; [| apply not_elem_of_nil]].
    + destruct st; simpl in *; auto.
    + unfold quiet, spawnPending in *. destruct st; simpl in *; auto.
  - inversion Hstep; subst. split; [| split; [| apply not_elem_of_nil]].
    + destruct st; simpl in *; auto.
    + unfold quiet, spawnPending in *. destruct st; simpl in *; auto.
  - inversion Hstep; subst. split; [| split; [| apply not_elem_of_nil]].
    + destruct st; simpl in *; auto.
    + unfold quiet, spawnPending in *. destruct st; simpl in *; auto.
  - (* the heartbeat *)
    destruct (heartbeatTimer st); [| discriminate].
    unfold onHeartbeat, processKilled in Hstep. rewrite Hp in Hstep.
    assert (Hkeep : forall hb s,
               ffmpegBlocked s = true /\ quiet s ->
               ffmpegBlocked (setHeartbeatState hb s) = true
               /\ quiet (setHeartbeatState hb s)).
    { intros hb s. unfold quiet, spawnPending in *.
      destruct s; simpl in *; auto. }
    assert (Hstill : ffmpegBlocked st1 = true /\ quiet st1).
    { repeat match type of Hstep with
             | context [if ?c then _ else _] => destruct c
             | context [match ?c with Some _ => _ | None => _ end] => destruct c
             end;
        inversion Hstep; subst; repeat apply Hkeep; auto. }
    split; [apply Hstill | split; [apply Hstill |]].
    repeat match type of Hstep with
           | context [if ?c then _ else _] => destruct c
           | context [match ?c with Some _ => _ | None => _ end] => destruct c
           end;
      inversion Hstep; subst;
      try apply not_elem_of_nil;
      (intros Hin; apply list_elem_of_singleton in Hin; discriminate).
  - (* a timer *)
    unfold onTimer in Hstep. unfold timerOfKind in Hends.
    destruct (findTimer h st) as [t |] eqn:Hfind; [| discriminate].
    destruct (due t <=? now); [| discriminate].
    pose proof (proj1 (spawnPending_false st) Ht t (findTimer_In _ _ _ Hfind))
      as [Hk | Hk].
    + rewrite Hk in Hstep. inversion Hstep; subst.
      pose proof (quiet_clearTimeout h st Hq) as Hq'.
      assert (Hp' : ffmpegProcess (clearTimeout h st) = None) by apply Hq'.
      unfold onStabilityTimer. rewrite Hp'. simpl.
      split; [| split; [exact Hq' | apply not_elem_of_nil]].
      destruct st; simpl in *; auto.
    + rewrite Hk in Hends. rewrite bool_decide_eq_false in Hends. tauto.
Qed.

(** Blocked and quiet, the supervisor spawns nothing until an event ends
    the blocked period. *)
Lemma blocked_quiet_waits st acts st' :
  waits cfg st acts st' ->
  ffmpegBlocked st = true ->
  quiet st ->
  ffmpegBlocked st' = true /\ quiet st' /\ ASpawn ∉ acts.
Proof.
  induction 1 as [st | st e st1 acts acts' st2 Hends Hstep Hw IH];
    intros Hb Hq.
  - auto using not_elem_of_nil.
  - destruct (blocked_quiet_step st e st1 acts Hb Hq Hends Hstep)
      as (Hb1 & Hq1 & Hno).
    destruct (IH Hb1 Hq1) as (Hb2 & Hq2 & Hno').
    split; [exact Hb2 | split; [exact Hq2 |]].
    apply not_elem_of_app. auto.
Qed.

Lemma quiet_scheduleRestart_at_threshold now rnd st :
  FFMPEG_AUTO_RESTART cfg = true ->
  restartingFfmpeg st = false ->
  FFMPEG_RESTART_MAX_ATTEMPTS cfg
    <= Z.of_nat (length (recentAttempts cfg now st)) ->
  quiet st ->
  quiet (scheduleRestart cfg now rnd st).
Proof.
  intros Hauto Hrest Hmax (Hp & Hl & Ht).
  destruct (scheduleRestart_at_threshold now rnd st Hauto Hrest Hmax)
    as (_ & _ & _ & Hp1 & Hl1 & _ & Ht1).
  unfold quiet. rewrite Hp1, Hl1. repeat split; auto.
  apply spawnPending_false. rewrite Ht1. intros t Hin.
  apply in_app_or in Hin. destruct Hin as [Hin | [<- | []]]; [| auto].
  apply (proj1 (spawnPending_false st) Ht).
  destruct (ffmpegBlockTimeout st); [| exact Hin].
  apply filter_In in Hin. tauto.
Qed.

(** The usual way into the blocked state: the one attached encoder exits
    unexpectedly while the window is full.  The exit leaves the supervisor
    blocked and quiet, so nothing spawns until the blocked period ends. *)
Lemma unexpected_exit_at_threshold now rnd st :
  FFMPEG_AUTO_RESTART cfg = true ->
  restartingFfmpeg st = false ->
  Js.truthyStr (manualRestartReason st) = false ->
  listeners st = 1%nat ->
  spawnPending st = false ->
  FFMPEG_RESTART_MAX_ATTEMPTS cfg
    <= Z.of_nat (length (recentAttempts cfg now st)) ->
  let st1 := (onProcClose cfg now rnd st).1 in
  (onProcClose cfg now rnd st).2 = [AOnClose]
  /\ ffmpegBlocked st1 = true
  /\ quiet st1
  /\ (forall acts st2,
        waits cfg st1 acts st2 -> (ASpawn ∉ acts) /\ ffmpegBlocked st2 = true).
Proof.
  intros Hauto Hrest Hreason Hl Ht Hmax st1.
  set (closed := setPendingOverlay false
                   (stopHeartbeat (setProcess None (setConnected false st)))).
  set (st0 := setManualReason None
                (setListeners (Nat.pred (listeners closed)) closed)).
  assert (Hst1 : st1 = scheduleRestart cfg now rnd st0)
    by (subst st1 st0 closed; unfold onProcClose; rewrite Hreason; reflexivity).
  assert (Hacts : (onProcClose cfg now rnd st).2 = [AOnClose])
    by (unfold onProcClose; rewrite Hreason; reflexivity).
  assert (Hrest0 : restartingFfmpeg st0 = false)
    by (subst st0 closed; destruct st; exact Hrest).
  assert (Hmax0 : FFMPEG_RESTART_MAX_ATTEMPTS cfg
                  <= Z.of_nat (length (recentAttempts cfg now st0)))
    by (subst st0 closed; destruct st; exact Hmax).
  assert (Hq0 : quiet st0).
  { subst st0 closed. unfold quiet, spawnPending in *.
    destruct st; simpl in *. subst. auto. }
  destruct (scheduleRestart_at_threshold now rnd st0 Hauto Hrest0 Hmax0)
    as (Hb & _).
  pose proof (quiet_scheduleRestart_at_threshold now rnd st0 Hauto Hrest0 Hmax0 Hq0)
    as Hq1.
  rewrite <- Hst1 in Hb, Hq1.
  split; [exact Hacts | split; [exact Hb | split; [exact Hq1 |]]].
  intros acts st2 Hw.
  destruct (blocked_quiet_waits st1 acts st2 Hw Hb Hq1) as (Hb2 & _ & Hno).
  auto.
Qed.

(** The backed-off delay: the capped doubling plus a jitter below
    [min(1000, baseDelay)]. *)
Lemma backoffDelay_bounds attemptNo rnd :
  positiveConfig cfg ->
  Js.validRandom rnd ->
  0 <= attemptNo ->
  0 < backoffBase cfg attemptNo <= FFMPEG_RESTART_BACKOFF_MAX_MS cfg
  /\ backoffBase cfg attemptNo <= backoffDelay cfg attemptNo rnd
     < backoffBase cfg attemptNo + Z.min 1000 (backoffBase cfg attemptNo).
Proof.
  intros (_ & _ & _ & _ & Hbase & Hcap & _) [Hnum Hden] Hn.
  assert (Hpow : 0 < 2 ^ attemptNo) by (apply Z.pow_pos_nonneg; lia).
  assert (Hb : 0 < backoffBase cfg attemptNo <= FFMPEG_RESTART_BACKOFF_MAX_MS cfg)
    by (unfold backoffBase; split; [apply Z.min_glb_lt; nia | apply Z.le_min_r]).
  split; [exact Hb |].
  unfold backoffDelay, Js.floorMul.
  set (b := backoffBase cfg attemptNo) in *.
  assert (Hm : 0 < Z.min 1000 b) by (apply Z.min_glb_lt; lia).
  assert (Hlo : 0 <= (Js.rnum rnd * Z.min 1000 b) / Js.rden rnd)
    by (apply Z.div_pos; nia).
  assert (Hhi : (Js.rnum rnd * Z.min 1000 b) / Js.rden rnd < Z.min 1000 b)
    by (apply Z.div_lt_upper_bound; nia).
  lia.
Qed.

(** C1 (amended).  When [scheduleRestart] runs with auto-restart enabled
    and no restart already pending, and the restart timestamps inside the
    sliding window number at least FFMPEG_RESTART_MAX_ATTEMPTS, the
    supervisor enters the blocked state ([isBlocked] is true); the call
    arms no spawn, only the automatic unblock due 300000 ms later, whose
    callback clears the blocked state and the attempt window; and when no
    encoder process is left attached and no respawn is pending, no spawn
    attempt occurs, and the supervisor stays blocked, through every
    sequence of events until that timer fires or [spawn] is called from
    outside. *)
Theorem crash_loop_blocks_until_timeout now rnd st :
  FFMPEG_AUTO_RESTART cfg = true ->
  restartingFfmpeg st = false ->
  FFMPEG_RESTART_MAX_ATTEMPTS cfg
    <= Z.of_nat (length (recentAttempts cfg now st)) ->
  let st1 := scheduleRestart cfg now rnd st in
  isBlocked st1 = true
  /\ restartingFfmpeg st1 = false
  /\ (forall t, In t (timers st1) -> kind t <> TBlock -> In t (timers st))
  /\ (exists h,
        ffmpegBlockTimeout st1 = Some h
        /\ In {| handle := h; kind := TBlock; due := now + 300000 |}
              (timers st1))
  /\ (forall s,
        isBlocked (onBlockTimer s) = false
        /\ ffmpegRestartAttempts (onBlockTimer s) = [])
  /\ (quiet st ->
      forall acts st2,
        waits cfg st1 acts st2 -> (ASpawn ∉ acts) /\ isBlocked st2 = true).
Proof.
  intros Hauto Hrest Hmax st1.
  destruct (scheduleRestart_at_threshold now rnd st Hauto Hrest Hmax)
    as (Hb & Hr & _ & _ & _ & Hh & Ht).
  fold st1 in Hb, Hr, Hh, Ht.
  split; [exact Hb | split; [exact Hr |]].
  split; [| split; [| split]].
  - intros t Hin Hk. rewrite Ht in Hin.
    apply in_app_or in Hin. destruct Hin as [Hin | [<- | []]].
    + destruct (ffmpegBlockTimeout st); [| exact Hin].
      apply filter_In in Hin. tauto.
    + simpl in Hk. congruence.
  - exists (timerSeq st). split; [exact Hh |].
    rewrite Ht. apply in_or_app. right. left. reflexivity.
  - intros s. destruct s; simpl; auto.
  - intros Hq acts st2 Hw.
    pose proof (quiet_scheduleRestart_at_threshold now rnd st Hauto Hrest Hmax Hq)
      as Hq1.
    destruct (blocked_quiet_waits st1 acts st2 Hw Hb Hq1) as (Hb2 & _ & Hno).
    auto.
Qed.

Lemma unattended_clearTimeout h st :
  unattended st -> unattended (clearTimeout h st).
Proof.
  intros (Hl & Hh & Ht). unfold unattended, clearTimeout.
  destruct st; simpl in *. repeat split; auto.
  apply spawnPending_false. simpl. intros t Hin.
  apply filter_In in Hin. destruct Hin as [Hin _].
  apply (proj1 (spawnPending_false _) Ht t Hin).
Qed.

(** Unattended, one event other than a call of [spawn] spawns nothing and
    leaves the supervisor unattended; the blocked flag changes in timer
    callbacks only. *)
Lemma unattended_step st e st1 acts :
  unattended st ->
  callsSpawn e = false ->
  step cfg e st = Some (st1, acts) ->
  unattended st1 /\ (ASpawn ∉ acts)
  /\ (firesTimer e = false -> ffmpegBlocked st1 = ffmpegBlocked st).
Proof.
  intros Hu Hcall Hstep.
  pose proof Hu as (Hl & Hh & Ht).
  destruct e; simpl in Hcall, Hstep; try discriminate;
    try (rewrite Hl in Hstep; simpl in Hstep; discriminate);
    try (rewrite Hh in Hstep; discriminate).
  - (* requestRestart *)
    unfold requestRestart, markKilled in Hstep.
    unfold unattended, spawnPending in *.
    destruct st; simpl in *.
    destruct ffmpegProcess0;
      [| inversion Hstep; subst; simpl; auto using not_elem_of_nil].
    destruct pendingOverlayStyleRestart0;
      [inversion Hstep; subst; simpl; auto using not_elem_of_nil |].
    destruct k; inversion Hstep; subst; simpl;
      (split; [auto | split; [| auto]]);
      intros Hin; apply list_elem_of_singleton in Hin; discriminate.
  - (* shutdown *)
    unfold shutdown, markKilled in Hstep.
    unfold unattended, spawnPending in *.
    destruct st; simpl in *.
    destruct ffmpegProcess0 as [p |];
      [| inversion Hstep; subst; simpl; auto using not_elem_of_nil].
    destruct k; inversion Hstep; subst; simpl;
      (split; [auto | split; [| auto]]);
      destruct (bool_decide (is_Some (stdin p))); simpl;
      intros Hin;
      repeat (apply elem_of_cons in Hin; destruct Hin as [Hin | Hin];
              [discriminate |]);
      apply elem_of_nil in Hin; exact Hin.
  - inversion Hstep; subst. unfold unattended, spawnPending in *.
    destruct st; simpl in *; auto using not_elem_of_nil.
  - inversion Hstep; subst. unfold unattended, spawnPending in *.
    destruct st; simpl in *; auto using not_elem_of_nil.
  - inversion Hstep; subst. unfold unattended, spawnPending in *.
    destruct st; simpl in *; auto using not_elem_of_nil.
  - (* a timer *)
    unfold onTimer in Hstep.
    destruct (findTimer h st) as [t |] eqn:Hfind; [| discriminate].
    destruct (due t <=? now); [| discriminate].
    pose proof (unattended_clearTimeout h st Hu) as Hu'.
    split; [| split; [| discriminate]].
    + pose proof (proj1 (spawnPending_false st) Ht t (findTimer_In _ _ _ Hfind))
        as [Hk | Hk]; rewrite Hk in Hstep; inversion Hstep; subst.
      * unfold onStabilityTimer.
        destruct (_ && _ && _); [| exact Hu'].
        unfold unattended, spawnPending in *.
        destruct (clearTimeout h st); simpl in *.
        destruct ffmpegBlocked0; simpl; auto.
      * unfold onBlockTimer, unattended, spawnPending in *.
        destruct (clearTimeout h st); simpl in *. auto.
    + pose proof (proj1 (spawnPending_false st) Ht t (findTimer_In _ _ _ Hfind))
        as [Hk | Hk]; rewrite Hk in Hstep; inversion Hstep; subst;
        apply not_elem_of_nil.
Qed.

(** Unattended, the supervisor spawns nothing until [spawn] is called
    from outside. *)
Lemma unattended_run evs : forall st st2 acts,
  unattended st ->
  existsb callsSpawn evs = false ->
  run cfg evs st = Some (st2, acts) ->
  unattended st2 /\ (ASpawn ∉ acts)
  /\ (existsb firesTimer evs = false -> ffmpegBlocked st2 = ffmpegBlocked st).
Proof.
  induction evs as [| e evs IH]; intros st st2 acts Hu Hcalls Hrun;
    simpl in Hcalls, Hrun.
  - injection Hrun as <- <-. auto using not_elem_of_nil.
  - apply orb_false_iff in Hcalls. destruct Hcalls as [Hcall Hcalls].
    destruct (step cfg e st) as [[st1 acts1] |] eqn:Hstep; [| discriminate].
    destruct (run cfg evs st1) as [[st2' acts'] |] eqn:Hrest; [| discriminate].
    injection Hrun as <- <-.
    destruct (unattended_step st e st1 acts1 Hu Hcall Hstep) as (Hu1 & Hno1 & Hb1).
    destruct (IH st1 st2' acts' Hu1 Hcalls Hrest) as (Hu2 & Hno2 & Hb2).
    split; [exact Hu2 | split].
    + apply not_elem_of_app. auto.
    + simpl. intros Hfires. apply orb_false_iff in Hfires.
      destruct Hfires as [Hf Hfs]. rewrite (Hb2 Hfs). apply Hb1, Hf.
Qed.

(** C3 (amended).  A spawn attempt that yields no process handle ([spawn]
    throws, or the handle has no PID) is not handed to the restart path:
    [spawn_] marks the supervisor blocked and disconnected and returns.
    It arms no timer and leaves the attempt window and the restart counter
    as they were.  When at that moment no earlier encoder carries the
    listeners of the supervisor, the heartbeat is off and no respawn is
    pending, then through every sequence of events without a call of
    [spawn] from outside the supervisor makes no spawn attempt, and as long
    as no timer armed earlier fires either it stays blocked. *)
Theorem spawn_failure_blocks_without_restart now o st :
  spawnFails o = true ->
  let st1 := (spawn_ cfg now o st).1 in
  (spawn_ cfg now o st).2 = [ASpawn]
  /\ isBlocked st1 = true
  /\ connected (rtmpStatus st1) = false
  /\ timers st1 = timers st
  /\ restartingFfmpeg st1 = restartingFfmpeg st
  /\ ffmpegRestartAttempts st1 = ffmpegRestartAttempts st
  /\ ffmpegRestarts (rtmpStatus st1) = ffmpegRestarts (rtmpStatus st)
  /\ (unattended st ->
      forall evs st2 acts,
        existsb callsSpawn evs = false ->
        run cfg evs st1 = Some (st2, acts) ->
        (ASpawn ∉ acts)
        /\ (existsb firesTimer evs = false -> isBlocked st2 = true)).
Proof.
  intros Hfail st1.
  assert (Hb : isBlocked st1 = true).
  { subst st1. destruct o as [| p]; simpl in *;
      [| rewrite Hfail]; destruct st; reflexivity. }
  assert (H : (spawn_ cfg now o st).2 = [ASpawn]
              /\ connected (rtmpStatus st1) = false
              /\ timers st1 = timers st
              /\ restartingFfmpeg st1 = restartingFfmpeg st
              /\ ffmpegRestartAttempts st1 = ffmpegRestartAttempts st
              /\ ffmpegRestarts (rtmpStatus st1) = ffmpegRestarts (rtmpStatus st)).
  { subst st1. destruct o as [| p]; simpl in *;
      [| rewrite Hfail]; destruct st; simpl; repeat split; reflexivity. }
  destruct H as (H1 & H2 & H3 & H4 & H5 & H6).
  repeat (split; [assumption |]).
  intros Hu evs st2 acts Hcalls Hrun.
  assert (Hu1 : unattended st1).
  { subst st1. unfold unattended, spawnPending in *.
    destruct o as [| p]; simpl in *; [| rewrite Hfail];
      destruct st; simpl in *; exact Hu. }
  destruct (unattended_run evs st1 st2 acts Hu1 Hcalls Hrun) as (_ & Hno & Hkeep).
  split; [exact Hno |].
  intros Hfires. unfold isBlocked in *. rewrite (Hkeep Hfires). exact Hb.
Qed.













Lemma runWaiting_waits evs : forall st st2 acts,
  runWaiting cfg evs st = Some (st2, acts) -> waits cfg st acts st2.
Proof.
  induction evs as [| e evs IH]; intros st st2 acts; simpl.
  - intros [= <- <-]. constructor.
  - destruct (endsBlock st e) eqn:Hends; [discriminate |].
    destruct (step cfg e st) as [[st1 acts1] |] eqn:Hstep; [| discriminate].
    destruct (runWaiting cfg evs st1) as [[st2' acts'] |] eqn:Hrun;
      [| discriminate].
    intros [= <- <-]. econstructor; eauto.
Qed.

End Supervisor.

(** *** The scenarios, evaluated *)

(** The scenario of the design document: five unexpected exits inside the
    window, each restarted; the sixth restart request is refused and the
    status reports blocked. *)
Example sixth_restart_request_refused :
  isBlocked (after fiveCrashes) = false
  /\ statusRestarts (getStatus 18500 (after fiveCrashes)) = 5
  /\ statusBlocked (getStatus 19000 (after sixthExit)) = true
  /\ restartArmed (after sixthExit) = false
  /\ actionsOf [ProcClose 19000 noJitter] (after fiveCrashes) = [AOnClose].
Proof. vm_compute. repeat split; reflexivity. Qed.

(** C1, as stated, fails on the code in two ways.  First, a restart
    requested while one is already pending is ignored, whatever the window
    holds: after four restarted crashes the fifth failure is reported by
    'error' and again by 'close'; the second report finds five timestamps
    in the window, does not block, and the pending timer spawns.  Second,
    the blocked flag gates nothing: when the sixth failure is reported by
    'error', the supervisor blocks, and when that process closes 61 s
    later the window has expired, a restart is armed and the encoder is
    spawned, blocked still set and the unblock timer still pending. *)
Lemma restart_request_not_blocked_and_spawn_while_blocked :
  (FFMPEG_RESTART_MAX_ATTEMPTS defaults
     <= Z.of_nat (length (recentAttempts defaults 10600
                            (after fifthFailureReported)))
   /\ isBlocked (scheduleRestart defaults 10600 noJitter
                   (after fifthFailureReported)) = false
   /\ actionsOf reportedAgain (after fifthFailureReported) = [AOnClose; ASpawn]
   /\ isBlocked (after (fifthFailureReported ++ reportedAgain)) = false)
  /\ (isBlocked (after fiveCrashes) = false
      /\ FFMPEG_RESTART_MAX_ATTEMPTS defaults
           <= Z.of_nat (length (recentAttempts defaults 19000 (after fiveCrashes)))
      /\ isBlocked (after sixthError) = true
      /\ runWaiting defaults lateClose (after sixthError)
         = run defaults lateClose (after sixthError)
      /\ actionsOf lateClose (after sixthError) = [AOnClose; ASpawn]
      /\ isBlocked (after (sixthError ++ lateClose)) = true
      /\ timerOfKind TBlock 11 (after (sixthError ++ lateClose)) = true).
Proof.
  vm_compute. repeat split; try reflexivity; intros H; discriminate H.
Qed.

Lemma crash_loop_blocks_until_timeout_witness :
  isBlocked (scheduleRestart defaults 19500 noJitter (after sixthExit)) = true
  /\ (ASpawn ∉ actionsOf whileBlocked
                 (scheduleRestart defaults 19500 noJitter (after sixthExit))).
Proof.
  assert (Hmax : FFMPEG_RESTART_MAX_ATTEMPTS defaults
                 <= Z.of_nat (length (recentAttempts defaults 19500
                                        (after sixthExit))))
    by (vm_compute; intros H; discriminate H).
  assert (Hq : quiet (after sixthExit)) by (vm_compute; auto).
  pose proof (crash_loop_blocks_until_timeout defaults 19500 noJitter
                (after sixthExit) eq_refl eq_refl Hmax)
    as (Hb & _ & _ & _ & _ & Hw).
  split; [exact Hb |].
  destruct (runWaiting defaults whileBlocked
              (scheduleRestart defaults 19500 noJitter (after sixthExit)))
    as [[st2 acts] |] eqn:Hrun; [| vm_compute in Hrun; discriminate Hrun].
  pose proof (runWaiting_waits defaults _ _ _ _ Hrun) as Hwaits.
  destruct (Hw Hq acts st2 Hwaits) as [Hno _].
  replace (actionsOf whileBlocked
             (scheduleRestart defaults 19500 noJitter (after sixthExit)))
    with acts; [exact Hno |].
  vm_compute in Hrun. injection Hrun as _ <-. vm_compute. reflexivity.
Defined.

(** C3, as stated, fails on the code: a failed spawn is not handed to the
    restart path.  A crash arms the backed-off restart; a spawn that throws
    or yields a handle without a PID arms nothing and blocks, also when the
    failed spawn was itself a scheduled restart. *)
Lemma spawn_failure_is_not_restarted :
  (restartArmed (after [ApiSpawn 0 started; ProcClose 1000 noJitter]) = true
   /\ isBlocked (after [ApiSpawn 0 started; ProcClose 1000 noJitter]) = false)
  /\ (restartArmed (spawn_ defaults 0 SpawnThrows initial).1 = false
      /\ restartingFfmpeg (spawn_ defaults 0 SpawnThrows initial).1 = false
      /\ timers (spawn_ defaults 0 SpawnThrows initial).1 = []
      /\ isBlocked (spawn_ defaults 0 SpawnThrows initial).1 = true)
  /\ (restartArmed (spawn_ defaults 0 noPid initial).1 = false
      /\ timers (spawn_ defaults 0 noPid initial).1 = []
      /\ isBlocked (spawn_ defaults 0 noPid initial).1 = true)
  /\ (restartArmed (after [ApiSpawn 0 started; ProcClose 1000 noJitter;
                           TimerFires 1 1500 SpawnThrows]) = false
      /\ isBlocked (after [ApiSpawn 0 started; ProcClose 1000 noJitter;
                           TimerFires 1 1500 SpawnThrows]) = true).
Proof. vm_compute. repeat split; reflexivity. Qed.

(** Why the proviso on attached encoders is there.  With an encoder
    still attached when the respawn throws, the close of that encoder, a
    planned one here, arms the next spawn: the supervisor spawns again,
    blocked, with no unblock timer and no call of [spawn]. *)
Example failed_respawn_with_encoder_attached :
  isBlocked (after respawnThrowsBeforeClose) = true
  /\ listeners (after respawnThrowsBeforeClose) = 1%nat
  /\ actionsOf [ProcClose 7600 noJitter; TimerFires 2 7850 started]
       (after respawnThrowsBeforeClose) = [AOnClose; ASpawn].
Proof. vm_compute. repeat split; reflexivity. Qed.

Lemma spawn_failure_blocks_without_restart_witness :
  isBlocked (after failedRespawn) = true
  /\ (ASpawn ∉ actionsOf [ApiRequestRestart "background change" KillDelivered;
                           TimerFires 0 121000 started] (after failedRespawn)).
Proof.
  set (pre := setRestarting false
                (clearTimeout 1
                   (after [ApiSpawn 1000 started; ProcClose 2000 noJitter]))).
  assert (Hst : (spawn_ defaults 2500 noPid pre).1 = after failedRespawn)
    by (vm_compute; reflexivity).
  assert (Hu : unattended pre) by (vm_compute; auto).
  pose proof (spawn_failure_blocks_without_restart defaults 2500 noPid pre eq_refl)
    as (_ & Hb & _ & _ & _ & _ & _ & Hw).
  rewrite Hst in Hb, Hw.
  split; [exact Hb |].
  destruct (run defaults [ApiRequestRestart "background change" KillDelivered;
                          TimerFires 0 121000 started] (after failedRespawn))
    as [[st2 acts] |] eqn:Hrun; [| vm_compute in Hrun; discriminate Hrun].
  destruct (Hw Hu [ApiRequestRestart "background change" KillDelivered;
                   TimerFires 0 121000 started] st2 acts eq_refl Hrun)
    as [Hno _].
  unfold actionsOf. rewrite Hrun. exact Hno.
Defined.



End FfmpegFacts.

Module PlayerFacts.
Import Player.

Lemma swap_length i j arr : length (swap i j arr) = length arr.
Proof.
  unfold swap. destruct (arr !! i), (arr !! j); auto.
  rewrite !length_insert. reflexivity.
Qed.

Lemma swap_Forall (P : Z -> Prop) i j arr : Forall P arr -> Forall P (swap i j arr).
Proof.
  intros H. unfold swap.
  destruct (arr !! i) as [x |] eqn:Hi; [| exact H].
  destruct (arr !! j) as [y |] eqn:Hj; [| exact H].
  apply Forall_insert; [apply Forall_insert; [exact H |] |].
  - eapply Forall_lookup_1; eauto.
  - eapply Forall_lookup_1; eauto.
Qed.

Lemma shuffleFrom_length i : forall draws arr,
  length (shuffleFrom i draws arr) = length arr.
Proof.
  induction i as [| i IH]; intros draws arr; simpl; [reflexivity |].
  rewrite IH. apply swap_length.
Qed.

Lemma shuffleFrom_Forall (P : Z -> Prop) i : forall draws arr,
  Forall P arr -> Forall P (shuffleFrom i draws arr).
Proof.
  induction i as [| i IH]; intros draws arr H; simpl; [exact H |].
  apply IH, swap_Forall, H.
Qed.

(** A refreshed queue is not empty and holds indices of the playlist. *)
Lemma refreshShuffleQueue_queue draws exclude pl :
  playlist pl <> [] ->
  shuffledQueue (refreshShuffleQueue draws exclude pl) <> []
  /\ queueInRange (refreshShuffleQueue draws exclude pl).
Proof.
  intros Hne. unfold refreshShuffleQueue, queueInRange, shuffleArray. simpl.
  set (n := length (playlist pl)).
  assert (Hn : (0 < n)%nat).
  { subst n. destruct (playlist pl); [congruence | simpl; lia]. }
  set (indices := List.filter _ _).
  assert (Hrange : Forall (fun i => 0 <= i < Z.of_nat n) indices).
  { apply List.Forall_forall. intros x Hx. subst indices.
    apply filter_In in Hx. destruct Hx as [Hx _].
    apply in_map_iff in Hx. destruct Hx as (k & <- & Hk).
    apply in_seq in Hk. lia. }
  assert (Hsome : indices <> []).
  { assert (Hin : exists x, In x indices).
    { destruct (decide (n = 1%nat)) as [H1 | H1].
      - exists 0. subst indices. apply filter_In. split.
        + apply in_map_iff. exists 0%nat. split; [reflexivity |].
          apply in_seq. lia.
        + apply orb_true_iff. right. apply Nat.eqb_eq, H1.
      - destruct (decide (exclude = 0)) as [H0 | H0].
        + exists 1. subst indices. apply filter_In. split.
          * apply in_map_iff. exists 1%nat. split; [reflexivity |].
            apply in_seq. lia.
          * apply orb_true_iff. left. apply negb_true_iff, Z.eqb_neq. lia.
        + exists 0. subst indices. apply filter_In. split.
          * apply in_map_iff. exists 0%nat. split; [reflexivity |].
            apply in_seq. lia.
          * apply orb_true_iff. left. apply negb_true_iff, Z.eqb_neq. lia. }
    destruct Hin as [x Hx]. intros Hnil. rewrite Hnil in Hx. destruct Hx. }
  split.
  - intros Hnil. apply Hsome.
    apply length_zero_iff_nil. apply length_zero_iff_nil in Hnil.
    rewrite shuffleFrom_length in Hnil. exact Hnil.
  - apply shuffleFrom_Forall. exact Hrange.
Qed.

(** When a next track exists: whenever the playlist is not empty.  The
    picked index is then an index of the playlist. *)
Lemma pickNextIndex_some draws pl :
  playlist pl <> [] ->
  -1 <= currentIndex pl ->
  queueInRange pl ->
  (pickNextIndex draws pl).1 <> -1
  /\ is_Some (getTrackAtIndex (pickNextIndex draws pl).1 (pickNextIndex draws pl).2).
Proof.
  intros Hne Hcur Hq.
  assert (Hn : (0 < length (playlist pl))%nat).
  { destruct (playlist pl); [congruence | simpl; lia]. }
  assert (Hget : forall i pl',
             playlist pl' = playlist pl ->
             0 <= i < Z.of_nat (length (playlist pl)) ->
             i <> -1 /\ is_Some (getTrackAtIndex i pl')).
  { intros i pl' Hpl Hi. split; [lia |]. unfold getTrackAtIndex.
    destruct (i <? 0) eqn:Hneg; [apply Z.ltb_lt in Hneg; lia |].
    rewrite Hpl. apply lookup_lt_is_Some. lia. }
  unfold pickNextIndex.
  destruct (length (playlist pl) =? 0)%nat eqn:H0; [apply Nat.eqb_eq in H0; lia |].
  destruct (shuffle pl); simpl.
  - destruct (length (shuffledQueue pl) =? 0)%nat eqn:Hlen.
    + destruct (refreshShuffleQueue_queue draws (currentIndex pl) pl Hne)
        as [Hsome Hrange].
      destruct (shuffledQueue (refreshShuffleQueue draws (currentIndex pl) pl))
        as [| next rest] eqn:Hqueue; [congruence |].
      simpl. apply Hget; [reflexivity |].
      unfold queueInRange in Hrange. rewrite Hqueue in Hrange.
      apply Forall_cons in Hrange. apply Hrange.
    + destruct (shuffledQueue pl) as [| next rest] eqn:Hqueue;
        [simpl in Hlen; discriminate |].
      simpl. apply Hget; [reflexivity |].
      unfold queueInRange in Hq. rewrite Hqueue in Hq.
      apply Forall_cons in Hq. apply Hq.
  - destruct (currentIndex pl =? -1) eqn:Hc; simpl.
    + apply Hget; [reflexivity | lia].
    + apply Z.eqb_neq in Hc. apply Hget; [reflexivity |].
      apply Z.rem_bound_pos; lia.
Qed.

Lemma pickNextIndex_empty draws pl :
  playlist pl = [] -> (pickNextIndex draws pl).1 = -1.
Proof. intros H. unfold pickNextIndex. rewrite H. reflexivity. Qed.

(** C8 (amended).  When the decode subprocess closes with no stop-intent
    set and the controller not shutting down: if a next track exists (the
    pick is an index with a track), the handler moves on to it by itself
    and spawns the decoder of that track from its start.  When that spawn
    gives a handle with a PID, the track is the current one and is
    playing; when the spawn throws or gives no PID, the current index is
    reset to -1 and nothing plays, next track or not.  If no next track
    exists, playback halts and the current playlist index is reset to
    -1. *)
Theorem natural_completion_advances_or_halts now draws o c :
  Js.truthyStr (stopIntent (playback c)) = false ->
  shuttingDown (playback c) = false ->
  let picked := pickNextIndex draws (addToHistory (playlistManager c)) in
  let result := onDecoderClose now draws o c in
  (picked.1 = -1 ->
     currentIndex (playlistManager result.1) = -1
     /\ currentTrack (playlistManager result.1) = None
     /\ process (playback result.1) = None
     /\ result.2 = [WarnNoTracks])
  /\ (forall next,
        picked.1 <> -1 ->
        getTrackAtIndex picked.1 picked.2 = Some next ->
        In (SpawnDecoder (fullPath next) 0) result.2
        /\ (forall d,
              o = SpawnReturns d ->
              noHandle d = false ->
              currentIndex (playlistManager result.1) = picked.1
              /\ currentTrack (playlistManager result.1) = Some next
              /\ process (playback result.1) = d
              /\ isPlaying result.1 = true
              /\ startTime (playback result.1) = Some now
              /\ offset (playback result.1) = 0
              /\ isPaused (playback result.1) = false)
        /\ (spawnFailed o = true ->
              currentIndex (playlistManager result.1) = -1
              /\ currentTrack (playlistManager result.1) = None
              /\ process (playback result.1) = None
              /\ isPlaying result.1 = false
              /\ result.2 = [SpawnDecoder (fullPath next) 0])).
Proof.
  intros Hintent Hdown picked result. subst result.
  unfold onDecoderClose. simpl. rewrite Hintent, Hdown.
  fold picked. destruct picked as [nextIndex pl] eqn:Hpick. simpl.
  split.
  - intros ->. simpl. repeat split; reflexivity.
  - intros next Hne Hnext.
    destruct (nextIndex =? -1) eqn:Heq; [apply Z.eqb_eq in Heq; congruence |].
    unfold playTrackAtIndex. simpl. rewrite Hnext.
    split; [| split].
    + destruct o as [| d]; [left; reflexivity |].
      destruct (noHandle d); left; reflexivity.
    + intros d -> Hd. rewrite Hd. simpl.
      unfold isPlaying. simpl.
      assert (Hsome : is_Some d).
      { destruct d; [eauto | discriminate]. }
      rewrite bool_decide_eq_true_2 by exact Hsome.
      repeat split; try reflexivity.
      unfold getTrackAtIndex in *. simpl. exact Hnext.
    + intros Hfail.
      assert (Hres : match o with
                     | SpawnThrows => true
                     | SpawnReturns d => noHandle d
                     end = true) by exact Hfail.
      destruct o as [| d]; [| rewrite Hres]; simpl;
        repeat split; reflexivity.
Qed.

Lemma natural_completion_advances_or_halts_witness :
  currentIndex (playlistManager
                  (onDecoderClose 5000 [] (SpawnReturns (Some decoder))
                     playingSecond).1) = 2
  /\ isPlaying (onDecoderClose 5000 [] (SpawnReturns (Some decoder))
                  playingSecond).1 = true.
Proof.
  pose proof (natural_completion_advances_or_halts 5000 []
                (SpawnReturns (Some decoder)) playingSecond eq_refl eq_refl)
    as [_ Hadv].
  destruct (Hadv (track "c")) as (_ & Hplay & _).
  - vm_compute. intros H. discriminate H.
  - reflexivity.
  - destruct (Hplay (Some decoder) eq_refl eq_refl) as (Hi & _ & _ & Hp & _).
    split; [exact Hi | exact Hp].
Defined.

(** C8, as stated, fails on the code: the second of three tracks ends,
    with no stop-intent and no shutdown, and the third track is there to be
    played; the spawn of its decoder throws, or gives a handle without a
    PID, and playback does not advance: no track is current, the index is
    -1 and nothing plays. *)
Lemma next_track_not_played_when_spawn_fails :
  Js.truthyStr (stopIntent (playback playingSecond)) = false
  /\ shuttingDown (playback playingSecond) = false
  /\ (pickNextIndex [] (addToHistory (playlistManager playingSecond))).1 = 2
  /\ getTrackAtIndex 2 (playlistManager playingSecond) = Some (track "c")
  /\ (currentIndex (playlistManager
                      (onDecoderClose 5000 [] SpawnThrows playingSecond).1) = -1
      /\ currentTrack (playlistManager
                         (onDecoderClose 5000 [] SpawnThrows playingSecond).1)
         = None
      /\ isPlaying (onDecoderClose 5000 [] SpawnThrows playingSecond).1 = false)
  /\ (currentIndex (playlistManager
                      (onDecoderClose 5000 [] withoutPid playingSecond).1) = -1
      /\ currentTrack (playlistManager
                         (onDecoderClose 5000 [] withoutPid playingSecond).1)
         = None
      /\ isPlaying (onDecoderClose 5000 [] withoutPid playingSecond).1 = false).
Proof. vm_compute. repeat split; reflexivity. Qed.

End PlayerFacts.

Module SilenceFacts.
Import Silence.

Lemma SILENCE_CHUNK_length : length SILENCE_CHUNK = 3528%nat.
Proof. unfold SILENCE_CHUNK. rewrite repeat_length. reflexivity. Qed.

Lemma tick_held w enc st :
  silencePaused st || silenceBackpressure st = true ->
  writeSilenceChunk w enc st = (st, enc, []).
Proof. intros H. unfold writeSilenceChunk. rewrite H. reflexivity. Qed.

(** Under backpressure, ticks change nothing and write nothing. *)
Lemma ticks_backpressured ins : forall st,
  silenceBackpressure st = true -> ticks ins st = (st, []).
Proof.
  induction ins as [| [w enc] ins IH]; intros st Hbp; simpl; [reflexivity |].
  rewrite tick_held by (rewrite Hbp; apply orb_true_r).
  rewrite IH by exact Hbp. reflexivity.
Qed.

(** C6.  A tick of the Silence Filler writes nothing to the encoder input
    while the paused flag or the backpressure flag is set; with neither
    set, the encoder input present and the encoder writable, it hands
    exactly one chunk to the encoder input, the silent chunk of 3528 zero
    bytes; a write that signals backpressure sets the backpressure flag
    (and clears the shared writable flag), and with the flag set no tick
    writes again, whatever the encoder, until the flag is reset. *)
Theorem silence_tick_respects_flags w enc st :
  let '(st1, enc1, acts) := writeSilenceChunk w enc st in
  (silencePaused st = true \/ silenceBackpressure st = true ->
     written acts = [] /\ st1 = st /\ enc1 = enc)
  /\ (silencePaused st = false ->
      silenceBackpressure st = false ->
      is_Some (Ffmpeg.getStdin enc) ->
      Ffmpeg.isWritable enc = true ->
      written acts = [SILENCE_CHUNK]
      /\ length SILENCE_CHUNK = 3528%nat
      /\ Forall (fun b => b = Byte.x00) SILENCE_CHUNK
      /\ (w = WriteBuffered ->
          silenceBackpressure st1 = true /\ Ffmpeg.isWritable enc1 = false))
  /\ (silenceBackpressure st1 = true ->
      forall ins, ticks ins st1 = (st1, [])).
Proof.
  destruct (writeSilenceChunk w enc st) as [[st1 enc1] acts] eqn:Htick.
  split; [| split].
  - intros Hflag. rewrite tick_held in Htick.
    + injection Htick as <- <- <-. auto.
    + destruct Hflag as [-> | ->]; [reflexivity | apply orb_true_r].
  - intros Hp Hbp [stdin Hstdin] Hw.
    unfold writeSilenceChunk in Htick.
    rewrite Hp, Hbp, Hstdin in Htick. simpl in Htick.
    unfold Ffmpeg.isWritable in *. rewrite Hw in Htick. simpl in Htick.
    split; [| split; [apply SILENCE_CHUNK_length | split]].
    + destruct w; injection Htick as <- <- <-; reflexivity.
    + unfold SILENCE_CHUNK. apply List.Forall_forall. intros b Hb.
      apply repeat_spec in Hb. exact Hb.
    + intros ->. injection Htick as <- <- <-. split; [reflexivity |].
      destruct enc; reflexivity.
  - intros Hbp ins. apply ticks_backpressured, Hbp.
Qed.

Lemma silence_tick_respects_flags_witness :
  written (writeSilenceChunk WriteBuffered encoderUp running).2 = [SILENCE_CHUNK]
  /\ silenceBackpressure (writeSilenceChunk WriteBuffered encoderUp running).1.1
     = true.
Proof.
  pose proof (silence_tick_respects_flags WriteBuffered encoderUp running) as H.
  destruct (writeSilenceChunk WriteBuffered encoderUp running)
    as [[st1 enc1] acts] eqn:Htick.
  destruct H as (_ & H & _).
  assert (Hstdin : is_Some (Ffmpeg.getStdin encoderUp))
    by (eexists; reflexivity).
  destruct (H eq_refl eq_refl Hstdin eq_refl) as (Hw & _ & _ & Hb).
  split; [exact Hw | apply Hb; reflexivity].
Defined.

End SilenceFacts.

Module TcpFacts.
Import Tcp.

Section Listener.

Variable interval : Z.

Lemma oneProducer_initial now : oneProducer (initial now).
Proof. intros s k H. simpl in H. rewrite lookup_empty in H. discriminate. Qed.

(** Destroying a socket, or closing it, leaves the others as they are
    and the socket itself destroyed. *)
Lemma lookup_alter_destroyed (f : Socket -> Socket) s s0 k (m : gmap nat Socket) :
  (forall x, destroyed (f x) = true) ->
  alter f s m !! s0 = Some k ->
  destroyed k = false ->
  s0 <> s /\ m !! s0 = Some k.
Proof.
  intros Hf Hk Hd. rewrite lookup_alter in Hk. case_decide as Heq.
  - subst. destruct (m !! s0) as [x |]; simpl in Hk; [| discriminate].
    injection Hk as <-. rewrite Hf in Hd. discriminate.
  - auto.
Qed.

(** Pausing or resuming a socket does not change which are destroyed. *)
Lemma lookup_alter_kept (f : Socket -> Socket) s s0 k (m : gmap nat Socket) :
  (forall x, destroyed (f x) = destroyed x) ->
  alter f s m !! s0 = Some k ->
  exists k0, m !! s0 = Some k0 /\ destroyed k0 = destroyed k.
Proof.
  intros Hf Hk. rewrite lookup_alter in Hk. case_decide as Heq.
  - subst. destruct (m !! s0) as [x |]; simpl in Hk; [| discriminate].
    injection Hk as <-. eauto.
  - eauto.
Qed.

(** What the 'close' handler leaves in each variable. *)
Lemma onSocketClose_fields s now st :
  sockets (onSocketClose s now st).1
  = alter (fun k => {| paused := paused k; destroyed := true; closed := true |})
      s (sockets st)
  /\ currentProducer (onSocketClose s now st).1
     = (if bool_decide (currentProducer st = Some s) then None
        else currentProducer st)
  /\ pendingSocketResume (onSocketClose s now st).1
     = (if bool_decide (pendingSocketResume st = Some s) then None
        else pendingSocketResume st)
  /\ (onSocketClose s now st).2 = [OnProducerDisconnect].
Proof.
  unfold onSocketClose. destruct st as [l cur pend idle stats socks]. simpl.
  destruct (bool_decide (pend = Some s)); simpl;
    destruct (bool_decide (cur = Some s)); simpl; repeat split; reflexivity.
Qed.

Lemma oneProducer_step e st st1 acts :
  step interval e st = Some (st1, acts) -> oneProducer st -> oneProducer st1.
Proof.
  intros Hstep Hone. unfold oneProducer in *.
  destruct e; unfold step in Hstep.
  - (* start *)
    injection Hstep as <- <-. destruct st; simpl in *. exact Hone.
  - (* stop *)
    unfold stop in Hstep.
    destruct st as [l cur pend idle stats socks]; simpl in *.
    destruct cur as [c |]; simpl in *; injection Hstep as <- <-; simpl.
    + intros s0 k Hk Hd.
      apply lookup_alter_destroyed in Hk; [| reflexivity | exact Hd].
      destruct Hk as [Hne Hk]. specialize (Hone s0 k Hk Hd). congruence.
    + exact Hone.
  - (* a connection *)
    destruct (sockets st !! s) eqn:Hfresh; [discriminate |].
    unfold onConnection, attachProducer in Hstep.
    destruct st as [l cur pend idle stats socks]; simpl in *.
    destruct cur as [c |]; simpl in *; injection Hstep as <- <-; simpl;
      intros s0 k Hk Hd.
    + apply lookup_alter_destroyed in Hk; [| reflexivity | exact Hd].
      destruct Hk as [Hne Hk]. rewrite lookup_insert in Hk.
      case_decide as Heq; [congruence |].
      specialize (Hone s0 k Hk Hd). congruence.
    + rewrite lookup_insert in Hk. case_decide as Heq; [congruence |].
      specialize (Hone s0 k Hk Hd). discriminate.
  - (* data *)
    destruct (sockets st !! s) as [k0 |] eqn:Hs; [| discriminate].
    destruct (paused k0 || destroyed k0); [discriminate |].
    unfold onSocketData, handleProducerData, noteIngestChunk, controlPause
      in Hstep.
    destruct st as [l cur pend idle stats socks]; simpl in *.
    repeat match type of Hstep with
           | context [if ?c then _ else _] => destruct c
           end;
      simpl in *; injection Hstep as <- <-; simpl;
      try exact Hone;
      (intros s0 k Hk Hd;
       apply lookup_alter_kept in Hk; [| reflexivity];
       destruct Hk as (k1 & Hk1 & Hd1); apply (Hone s0 k1 Hk1); congruence).
  - (* error *)
    destruct (sockets st !! s); [| discriminate].
    injection Hstep as <- <-. exact Hone.
  - (* close *)
    destruct (sockets st !! s) as [k0 |] eqn:Hs; [| discriminate].
    destruct (closed k0); [discriminate |].
    apply (inj Some) in Hstep. rename Hstep into Hpair.
    destruct (onSocketClose_fields s now st) as (Hsock & Hcur & _).
    rewrite Hpair in Hsock, Hcur. simpl in Hsock, Hcur.
    intros s0 k Hk Hd. rewrite Hsock in Hk.
    apply lookup_alter_destroyed in Hk; [| reflexivity | exact Hd].
    destruct Hk as [Hne Hk]. specialize (Hone s0 k Hk Hd).
    rewrite Hcur, Hone.
    rewrite bool_decide_eq_false_2 by congruence. reflexivity.
  - (* the idle timer *)
    destruct (ingestIdleTimer st); [| discriminate].
    injection Hstep as <- <-. destruct st; simpl in *. exact Hone.
  - (* pauseProducer *)
    unfold pauseProducer, socketDestroyed in Hstep.
    destruct st as [l cur pend idle stats socks]; simpl in *.
    destruct cur as [c |]; simpl in *;
      [destruct (socks !! c) as [kc |]; [destruct (destroyed kc) |] |];
      injection Hstep as <- <-; simpl; try exact Hone.
    intros s0 k Hk Hd.
    apply lookup_alter_kept in Hk; [| reflexivity].
    destruct Hk as (k1 & Hk1 & Hd1). apply (Hone s0 k1 Hk1). congruence.
  - (* resumeProducer *)
    unfold resumeProducer, socketDestroyed in Hstep.
    destruct st as [l cur pend idle stats socks]; simpl in *.
    destruct pend as [c |]; simpl in *;
      [destruct (socks !! c) as [kc |]; [destruct (destroyed kc) |] |];
      injection Hstep as <- <-; simpl; try exact Hone.
    intros s0 k Hk Hd.
    apply lookup_alter_kept in Hk; [| reflexivity].
    destruct Hk as (k1 & Hk1 & Hd1). apply (Hone s0 k1 Hk1). congruence.
Qed.

Lemma oneProducer_run evs : forall st st1 acts,
  run interval evs st = Some (st1, acts) -> oneProducer st -> oneProducer st1.
Proof.
  induction evs as [| e evs IH]; intros st st1 acts; simpl.
  - intros [= <- <-]. auto.
  - destruct (step interval e st) as [[st' acts'] |] eqn:Hstep; [| discriminate].
    destruct (run interval evs st') as [[st2 acts2] |] eqn:Hrun; [| discriminate].
    intros [= <- <-] Hone.
    eapply IH; [exact Hrun |]. eapply oneProducer_step; eauto.
Qed.

(** A connection that finds a producer installed. *)
Lemma onConnection_replaces s now st old :
  currentProducer st = Some old ->
  (onConnection s now st).2 = [DestroySocket old; OnProducerConnect s]
  /\ currentProducer (onConnection s now st).1 = Some s
  /\ socketDestroyed old (onConnection s now st).1 = true
  /\ pendingSocketResume (onConnection s now st).1 = pendingSocketResume st.
Proof.
  intros Hcur. unfold onConnection, attachProducer, socketDestroyed.
  destruct st as [l cur pend idle stats socks]; simpl in *. subst cur. simpl.
  repeat split; try reflexivity.
  rewrite lookup_alter. rewrite decide_True by reflexivity.
  destruct (<[s:=freshSocket]> socks !! old); reflexivity.
Qed.

(** C9.  The Ingest Listener tracks at most one producer socket at all
    times: whatever happens, every socket it was handed and that is not
    destroyed is its current producer.  A connection that arrives while a
    producer is installed destroys the old socket before the new one is
    announced, and installs the new one.  When the 'close' event of a
    socket other than the current producer fires, the current producer,
    its socket and a pending-resume reference to it are left as they
    were; only a pending-resume reference to the closed socket is
    dropped. *)
Theorem single_producer_replacement :
  (forall now evs st acts,
      run interval evs (initial now) = Some (st, acts) -> oneProducer st)
  /\ (forall st old new now,
        currentProducer st = Some old ->
        (onConnection new now st).2 = [DestroySocket old; OnProducerConnect new]
        /\ currentProducer (onConnection new now st).1 = Some new
        /\ socketDestroyed old (onConnection new now st).1 = true)
  /\ (forall st old new now,
        currentProducer st = Some new ->
        old <> new ->
        currentProducer (onSocketClose old now st).1 = Some new
        /\ sockets (onSocketClose old now st).1 !! new = sockets st !! new
        /\ (pendingSocketResume st = Some new ->
            pendingSocketResume (onSocketClose old now st).1 = Some new)
        /\ (pendingSocketResume st = Some old ->
            pendingSocketResume (onSocketClose old now st).1 = None)).
Proof.
  split; [| split].
  - intros now evs st acts Hrun.
    eapply oneProducer_run; [exact Hrun | apply oneProducer_initial].
  - intros st old new now Hcur.
    destruct (onConnection_replaces new now st old Hcur) as (H1 & H2 & H3 & _).
    auto.
  - intros st old new now Hcur Hne.
    destruct (onSocketClose_fields old now st) as (Hsock & Hc & Hp & _).
    rewrite Hsock, Hc, Hp, Hcur.
    rewrite bool_decide_eq_false_2 by congruence.
    split; [reflexivity | split; [| split]].
    + rewrite lookup_alter. rewrite decide_False by exact Hne. reflexivity.
    + intros ->. rewrite bool_decide_eq_false_2 by congruence. reflexivity.
    + intros ->. rewrite bool_decide_eq_true_2 by reflexivity. reflexivity.
Qed.

End Listener.

(** The replacement scenario, evaluated: producer 1 is installed and paused
    with its pending-resume reference, producer 0 is destroyed, and the
    late 'close' of producer 0 changes none of it. *)
Example replacement_scenario :
  actionsOf replaced
  = [OnProducerConnect 0; DestroySocket 0; OnProducerConnect 1; PauseSocket 1]
  /\ currentProducer (after replaced) = Some 1%nat
  /\ socketDestroyed 0 (after replaced) = true
  /\ currentProducer (after replacedThenClosed) = Some 1%nat
  /\ pendingSocketResume (after replacedThenClosed) = Some 1%nat
  /\ socketPaused 1 (after replacedThenClosed) = true.
Proof. vm_compute. repeat split; reflexivity. Qed.

Lemma single_producer_replacement_witness :
  currentProducer (onSocketClose 0 300 (after replaced)).1 = Some 1%nat
  /\ pendingSocketResume (onSocketClose 0 300 (after replaced)).1 = Some 1%nat.
Proof.
  pose proof (single_producer_replacement INGEST_LOG_INTERVAL_MS) as (_ & _ & Hclose).
  assert (Hcur : currentProducer (after replaced) = Some 1%nat) by reflexivity.
  assert (Hne : 0%nat <> 1%nat) by discriminate.
  destruct (Hclose (after replaced) 0%nat 1%nat 300 Hcur Hne) as (Hc & _ & Hp & _).
  split; [exact Hc | apply Hp; reflexivity].
Defined.

End TcpFacts.

Module ServerFacts.
Import Silence Server.

(** *** The manual unblock route *)

(** C2 fails on the code: the object returned by [createFfmpegManager] has
    no member [manualUnblock].  Whatever the state of the supervisor,
    blocked or not, the handler of POST /ffmpeg/unblock ends in an uncaught
    TypeError: it answers neither 204 nor 409, and the supervisor is left
    as it was. *)
Theorem unblock_route_throws cfg env st :
  member "manualUnblock" = None
  /\ postFfmpegUnblock cfg env st
     = (st, Throws "TypeError: ffmpegManager.manualUnblock is not a function")
  /\ Ffmpeg.isBlocked (ffmpegManager (postFfmpegUnblock cfg env st).1)
     = Ffmpeg.isBlocked (ffmpegManager st).
Proof. repeat split; reflexivity. Qed.

(** The route called while the supervisor is blocked after a crash loop. *)
Example unblock_route_while_blocked :
  let st := setManager (Ffmpeg.after Ffmpeg.sixthExit) initial in
  Ffmpeg.isBlocked (ffmpegManager st) = true
  /\ (postFfmpegUnblock Ffmpeg.defaults env0 st).2
     = Throws "TypeError: ffmpegManager.manualUnblock is not a function"
  /\ Ffmpeg.isBlocked
       (ffmpegManager (postFfmpegUnblock Ffmpeg.defaults env0 st).1) = true.
Proof. vm_compute. repeat split; reflexivity. Qed.

(** *** Flow control between the listener and the encoder *)

Ltac split_branches H :=
  repeat match type of H with
         | context [if ?c then _ else _] => destruct c
         | context [match ?c with Some _ => _ | None => _ end] => destruct c
         | context [match ?c with
                    | Ffmpeg.KillDelivered => _
                    | Ffmpeg.KillNotDelivered => _
                    | Ffmpeg.KillThrows => _
                    end] => destruct c
         | context [match ?c with
                    | Ffmpeg.SpawnThrows => _
                    | Ffmpeg.SpawnReturns _ => _
                    end] => destruct c
         | context [match ?c with
                    | Ffmpeg.TRestart => _
                    | Ffmpeg.TPlanned => _
                    | Ffmpeg.TStability => _
                    | Ffmpeg.TBlock => _
                    end] => destruct c
         end.

(** The supervisor calls [onSpawn] on the 'spawn' event of the encoder and
    [onDrain] on the 'drain' event of its input, and nowhere else. *)
Lemma supervisor_callbacks cfg e enc enc1 acts :
  Ffmpeg.step cfg e enc = Some (enc1, acts) ->
  (forall r, In (Ffmpeg.AOnSpawn r) acts -> e = Ffmpeg.ProcSpawn)
  /\ (In Ffmpeg.AOnDrain acts -> e = Ffmpeg.StdinDrain).
Proof.
  intros Hstep.
  destruct e; unfold Ffmpeg.step in Hstep;
    try (split; [intros r Hin | intros Hin]; reflexivity).
  all: unfold Ffmpeg.spawn_, Ffmpeg.requestRestart, Ffmpeg.shutdown,
         Ffmpeg.onProcClose, Ffmpeg.onProcError, Ffmpeg.onHeartbeat,
         Ffmpeg.onTimer, Ffmpeg.onRestartTimer, Ffmpeg.spawn_ in Hstep.
  all: split_branches Hstep; try discriminate.
  all: apply (inj Some) in Hstep; apply (f_equal snd) in Hstep; simpl in Hstep;
       subst acts; simpl.
  all: split; [intros r Hin | intros Hin].
  all: solve [intuition discriminate].
Qed.

Section Wired.

Variable cfg : Ffmpeg.Config.
Variable interval : Z.

Lemma fillerWrites_listener (acts : list Tcp.Action) :
  fillerWrites (List.map Listener acts) = [].
Proof. induction acts as [| a acts IH]; [reflexivity | exact IH]. Qed.

Lemma fillerWrites_encoder (acts : list Ffmpeg.Action) :
  fillerWrites (List.map Encoder acts) = [].
Proof. induction acts as [| a acts IH]; [reflexivity | exact IH]. Qed.

Lemma fillerWrites_app acts acts' :
  fillerWrites (acts ++ acts') = fillerWrites acts ++ fillerWrites acts'.
Proof. apply omap_app. Qed.

(** What the three callbacks do to the filler and to the sockets. *)
Lemma onSpawn_effect reason st :
  silenceGenerator (onSpawn reason st).1 = silenceGenerator st
  /\ fillerWrites (onSpawn reason st).2 = []
  /\ (forall s, In (Listener (Tcp.ResumeSocket s)) (onSpawn reason st).2 ->
                Js.truthyStr reason = true
                /\ Tcp.pendingSocketResume (tcpServer st) = Some s).
Proof.
  unfold onSpawn, tcpDoes, Tcp.resumeProducer.
  destruct (Js.truthyStr reason); simpl.
  - destruct (Tcp.pendingSocketResume (tcpServer st)) as [p |];
      [destruct (Tcp.socketDestroyed p (tcpServer st)) |];
      destruct st; simpl; (split; [reflexivity | split; [reflexivity |]]);
      intros s Hin; simpl in Hin; try tauto.
    destruct Hin as [[= <-] | []]. auto.
  - destruct st; simpl. split; [reflexivity | split; [reflexivity |]].
    intros s [].
Qed.

Lemma onDrain_effect st :
  fillerWrites (onDrain st).2 = []
  /\ (forall s, In (Listener (Tcp.ResumeSocket s)) (onDrain st).2 ->
                Tcp.pendingSocketResume (tcpServer st) = Some s).
Proof.
  unfold onDrain, tcpDoes, Tcp.resumeProducer.
  destruct st as [enc sil tcp pos down]; simpl.
  destruct (Tcp.pendingSocketResume tcp) as [p |];
    [destruct (Tcp.socketDestroyed p tcp) |];
    simpl; (split; [reflexivity |]); intros s Hin; simpl in Hin; try tauto.
  destruct Hin as [[= <-] | []]. auto.
Qed.

Lemma encoderDid_resumes acts : forall st s,
  In (Listener (Tcp.ResumeSocket s)) (encoderDid acts st).2 ->
  (exists r, In (Ffmpeg.AOnSpawn r) acts /\ Js.truthyStr r = true)
  \/ In Ffmpeg.AOnDrain acts.
Proof.
  induction acts as [| a acts IH]; intros st s; simpl; [tauto |].
  destruct a; simpl.
  all: try (destruct (encoderDid acts st) as [st2 rest] eqn:Hrest; simpl;
            intros [Hin | Hin]; [discriminate |];
            specialize (IH st s); rewrite Hrest in IH;
            destruct (IH Hin) as [(r & Hr & Ht) | Hd]; eauto).
  - (* onSpawn *)
    destruct (onSpawn reason st) as [st1 called] eqn:Hcalled.
    destruct (encoderDid acts st1) as [st2 rest] eqn:Hrest. simpl.
    intros [Hin | Hin]; [discriminate |].
    apply in_app_or in Hin. destruct Hin as [Hin | Hin].
    + left. exists reason. split; [auto |].
      pose proof (onSpawn_effect reason st) as (_ & _ & Hres).
      rewrite Hcalled in Hres. apply (Hres s Hin).
    + specialize (IH st1 s); rewrite Hrest in IH.
      destruct (IH Hin) as [(r & Hr & Ht) | Hd]; eauto.
  - (* onClose *)
    unfold onClose.
    destruct (encoderDid acts (setPositionUpdates false st)) as [st2 rest] eqn:Hrest.
    simpl. intros [Hin | Hin]; [discriminate |].
    specialize (IH (setPositionUpdates false st) s); rewrite Hrest in IH.
    destruct (IH Hin) as [(r & Hr & Ht) | Hd]; eauto.
  - (* onDrain *) auto.
Qed.

Lemma encoderDid_filler acts : forall st,
  ~ In Ffmpeg.AOnDrain acts ->
  silenceGenerator (encoderDid acts st).1 = silenceGenerator st
  /\ fillerWrites (encoderDid acts st).2 = [].
Proof.
  induction acts as [| a acts IH]; intros st Hno; simpl; [auto |].
  assert (Hno' : ~ In Ffmpeg.AOnDrain acts) by (intros H; apply Hno; right; exact H).
  destruct a; simpl.
  all: try (destruct (encoderDid acts st) as [st2 rest] eqn:Hrest; simpl;
            specialize (IH st Hno'); rewrite Hrest in IH; exact IH).
  - destruct (onSpawn reason st) as [st1 called] eqn:Hcalled.
    destruct (encoderDid acts st1) as [st2 rest] eqn:Hrest. simpl.
    pose proof (onSpawn_effect reason st) as (Hsil & Hw & _).
    rewrite Hcalled in Hsil, Hw. simpl in Hsil, Hw.
    specialize (IH st1 Hno'). rewrite Hrest in IH. simpl in IH.
    destruct IH as [IH1 IH2]. split; [congruence |].
    change (fillerWrites (called ++ rest) = []).
    rewrite fillerWrites_app, Hw, IH2. reflexivity.
  - unfold onClose.
    destruct (encoderDid acts (setPositionUpdates false st)) as [st2 rest] eqn:Hrest.
    simpl. specialize (IH (setPositionUpdates false st) Hno').
    rewrite Hrest in IH. simpl in IH. destruct IH as [IH1 IH2].
    split; [rewrite IH1; destruct st; reflexivity | exact IH2].
  - exfalso. apply Hno. left. reflexivity.
Qed.

(** The listener's callbacks leave the filler's interval and its
    backpressure flag alone, and add no action of their own. *)
Lemma listenerDid_effect acts : forall st,
  (listenerDid acts st).2 = List.map Listener acts
  /\ silenceInterval (silenceGenerator (listenerDid acts st).1)
     = silenceInterval (silenceGenerator st)
  /\ silenceBackpressure (silenceGenerator (listenerDid acts st).1)
     = silenceBackpressure (silenceGenerator st).
Proof.
  induction acts as [| a acts IH]; intros st; simpl; [auto |].
  match goal with
  | |- context [listenerDid acts ?s] =>
      destruct (listenerDid acts s) as [st2 rest] eqn:Hrest;
      specialize (IH s); rewrite Hrest in IH; simpl in IH;
      destruct IH as (IH1 & IH2 & IH3)
  end.
  simpl. rewrite IH1, IH2, IH3.
  destruct a; destruct st; simpl; auto.
Qed.

Lemma tcpServer_setTcp tcp st : tcpServer (setTcp tcp st) = tcp.
Proof. destruct st; reflexivity. Qed.

Lemma pending_setPending v tcp :
  Tcp.pendingSocketResume (Tcp.setPending v tcp) = v.
Proof. destruct tcp; reflexivity. Qed.

(** The data handler, case by case. *)
Lemma producerData_pauses s chunk w now st :
  chunk <> [] ->
  (In (Listener (Tcp.PauseSocket s)) (producerData interval s chunk w now st).2
   <-> is_Some (Ffmpeg.getStdin (ffmpegManager st))
       /\ (Ffmpeg.isWritable (ffmpegManager st) = false
           \/ w = WriteBuffered \/ w = WriteThrowsEPIPE))
  /\ (In (Listener (Tcp.PauseSocket s)) (producerData interval s chunk w now st).2 ->
      Tcp.pendingSocketResume
        (tcpServer (producerData interval s chunk w now st).1) = Some s)
  /\ (forall s', ~ In (Listener (Tcp.ResumeSocket s'))
                    (producerData interval s chunk w now st).2)
  /\ encoderWrites (producerData interval s chunk w now st).2
     = (if bool_decide (is_Some (Ffmpeg.getStdin (ffmpegManager st)))
           && Ffmpeg.isWritable (ffmpegManager st)
        then [w] else []).
Proof.
  intros Hne. unfold producerData.
  destruct chunk as [| b chunk]; [congruence |].
  change ((length (b :: chunk) =? 0)%nat) with false. cbv iota.
  unfold onData.
  assert (Hgs : forall sil,
             Ffmpeg.getStdin (ffmpegManager (setSilence sil st))
             = Ffmpeg.getStdin (ffmpegManager st)) by (destruct st; reflexivity).
  assert (Hw : forall sil,
             Ffmpeg.isWritable (ffmpegManager (setSilence sil st))
             = Ffmpeg.isWritable (ffmpegManager st)) by (destruct st; reflexivity).
  destruct (Silence.isActive (silenceGenerator st));
    rewrite ?Hgs, ?Hw;
    (destruct (Ffmpeg.getStdin (ffmpegManager st)) as [stdin |];
     [destruct (Ffmpeg.isWritable (ffmpegManager st)); [destruct w |] |]);
    simpl;
    (split; [split; [intros Hin | intros [Hs Hc]] | split; [intros Hin | split]]);
    try (rewrite bool_decide_eq_true_2 by eauto);
    try (rewrite bool_decide_eq_false_2 by (intros [? ?]; discriminate));
    simpl in *;
    try reflexivity;
    try (destruct st; reflexivity);
    try (intros s' Hin'; simpl in Hin'; intuition discriminate);
    try solve [intuition (try discriminate; eauto)];
    try (destruct Hs; discriminate);
    rewrite tcpServer_setTcp, pending_setPending; reflexivity.
Qed.

Lemma no_resume_in_listener_actions (acts : list Tcp.Action) s :
  ~ In (Tcp.ResumeSocket s) acts ->
  ~ In (Listener (Tcp.ResumeSocket s)) (List.map Listener acts).
Proof.
  intros Hno Hin. apply in_map_iff in Hin.
  destruct Hin as (a & [= ->] & Hin). auto.
Qed.

Lemma no_resume_in_encoder_actions (acts : list Ffmpeg.Action) s :
  ~ In (Listener (Tcp.ResumeSocket s)) (List.map Encoder acts).
Proof.
  intros Hin. apply in_map_iff in Hin.
  destruct Hin as (a & Ha & _). discriminate.
Qed.

Lemma no_resume_in_filler_actions (acts : list Silence.Action) s :
  ~ In (Listener (Tcp.ResumeSocket s)) (List.map Filler acts).
Proof.
  intros Hin. apply in_map_iff in Hin.
  destruct Hin as (a & Ha & _). discriminate.
Qed.

(** Apart from [resumeProducer], nothing in the listener resumes a socket. *)
Lemma listener_step_no_resume e tcp tcp1 acts s :
  Tcp.step interval e tcp = Some (tcp1, acts) ->
  e <> Tcp.ResumeProducer ->
  ~ In (Tcp.ResumeSocket s) acts.
Proof.
  intros Hstep Hne.
  destruct e; unfold Tcp.step in Hstep; try congruence.
  all: unfold Tcp.stop, Tcp.onConnection, Tcp.attachProducer, Tcp.onSocketData,
         Tcp.handleProducerData, Tcp.onSocketClose, Tcp.onIdleTimer,
         Tcp.pauseProducer in Hstep.
  all: split_branches Hstep; try discriminate.
  all: apply (inj Some) in Hstep; apply (f_equal snd) in Hstep; simpl in Hstep;
       subst acts; simpl; intuition discriminate.
Qed.

(** A socket is resumed only when the encoder reports 'drain', or reports
    its start with a restart or pause reason set. *)
Lemma resume_only_on_drain_or_spawn e st st1 acts s :
  step cfg interval e st = Some (st1, acts) ->
  In (Listener (Tcp.ResumeSocket s)) acts ->
  e = Supervisor Ffmpeg.StdinDrain
  \/ (e = Supervisor Ffmpeg.ProcSpawn
      /\ Js.truthyStr
           (Js.orStr (Ffmpeg.manualRestartReason (ffmpegManager st))
                     (Ffmpeg.plannedPauseReason (ffmpegManager st))) = true).
Proof.
  intros Hstep Hin.
  destruct e; unfold step in Hstep.
  - (* start *)
    exfalso. apply (inj Some) in Hstep. unfold startComponents in Hstep.
    destruct (Ffmpeg.spawn_ cfg now o (ffmpegManager st)) as [enc acts0].
    injection Hstep as _ <-.
    exact (no_resume_in_encoder_actions _ _ Hin).
  - (* the supervisor *)
    destruct (external e) eqn:Hext; [| discriminate].
    destruct (Ffmpeg.step cfg e (ffmpegManager st)) as [[enc acts0] |] eqn:Henc;
      [| discriminate].
    apply (inj Some) in Hstep.
    assert (Hacts : acts = (encoderDid acts0 (setManager enc st)).2)
      by (rewrite Hstep; reflexivity).
    rewrite Hacts in Hin. apply encoderDid_resumes in Hin.
    destruct (supervisor_callbacks cfg e _ _ _ Henc) as [Hspawn Hdrain].
    destruct Hin as [(r & Hr & Ht) | Hd].
    + right. pose proof (Hspawn r Hr) as ->. split; [reflexivity |].
      unfold Ffmpeg.step in Henc.
      destruct (bool_decide (Ffmpeg.listeners (ffmpegManager st) <> 0%nat)
                && Ffmpeg.isRunning (ffmpegManager st));
        [| discriminate].
      unfold Ffmpeg.onProcSpawn in Henc. injection Henc as _ <-.
      destruct Hr as [[= <-] | []]. exact Ht.
    + left. rewrite (Hdrain Hd). reflexivity.
  - (* a tick *)
    exfalso. destruct (silenceInterval (silenceGenerator st)); [| discriminate].
    apply (inj Some) in Hstep. unfold silenceTick in Hstep.
    destruct (writeSilenceChunk w (ffmpegManager st) (silenceGenerator st))
      as [[sil enc] acts0].
    injection Hstep as _ <-.
    exact (no_resume_in_filler_actions _ _ Hin).
  - exfalso. destruct (idleArmed (silenceGenerator st)); [| discriminate].
    injection Hstep as _ <-. destruct Hin.
  - exfalso.
    destruct (Tcp.step interval (Tcp.Connection s0 now) (tcpServer st))
      as [[tcp acts0] |] eqn:Htcp; [| discriminate].
    apply (inj Some) in Hstep.
    destruct (listenerDid_effect acts0 (setTcp tcp st)) as (Hacts & _).
    rewrite Hstep in Hacts. simpl in Hacts. subst acts.
    revert Hin. apply no_resume_in_listener_actions.
    eapply listener_step_no_resume; [exact Htcp | discriminate].
  - (* data *)
    exfalso. destruct (socketAccepts s0 st); [| discriminate].
    apply (inj Some) in Hstep.
    destruct chunk as [| b chunk].
    + unfold producerData in Hstep. simpl in Hstep.
      injection Hstep as _ <-. destruct Hin.
    + assert (Hc : b :: chunk <> []) by discriminate.
      destruct (producerData_pauses s0 (b :: chunk) w now st Hc)
        as (_ & _ & Hno & _).
      rewrite Hstep in Hno. exact (Hno s Hin).
  - exfalso.
    destruct (Tcp.step interval (Tcp.SocketError s0) (tcpServer st))
      as [[tcp acts0] |] eqn:Htcp; [| discriminate].
    apply (inj Some) in Hstep.
    destruct (listenerDid_effect acts0 (setTcp tcp st)) as (Hacts & _).
    rewrite Hstep in Hacts. simpl in Hacts. subst acts.
    revert Hin. apply no_resume_in_listener_actions.
    eapply listener_step_no_resume; [exact Htcp | discriminate].
  - exfalso.
    destruct (Tcp.step interval (Tcp.SocketClose s0 now) (tcpServer st))
      as [[tcp acts0] |] eqn:Htcp; [| discriminate].
    apply (inj Some) in Hstep.
    destruct (listenerDid_effect acts0 (setTcp tcp st)) as (Hacts & _).
    rewrite Hstep in Hacts. simpl in Hacts. subst acts.
    revert Hin. apply no_resume_in_listener_actions.
    eapply listener_step_no_resume; [exact Htcp | discriminate].
  - exfalso.
    destruct (Tcp.step interval Tcp.IdleTimer (tcpServer st))
      as [[tcp acts0] |] eqn:Htcp; [| discriminate].
    apply (inj Some) in Hstep.
    destruct (listenerDid_effect acts0 (setTcp tcp st)) as (Hacts & _).
    rewrite Hstep in Hacts. simpl in Hacts. subst acts.
    revert Hin. apply no_resume_in_listener_actions.
    eapply listener_step_no_resume; [exact Htcp | discriminate].
  - (* background *)
    exfalso. apply (inj Some) in Hstep.
    unfold onBackgroundChange, plannedRestart, tcpDoes in Hstep.
    revert Hstep Hin. generalize (if Js.truthyStr newBackground
                                  then "background change"
                                  else "background change (reset to solid color)").
    intros reason Hstep Hin.
    destruct (Ffmpeg.isRunning (ffmpegManager st));
      [| injection Hstep as _ <-; destruct Hin].
    simpl in Hstep.
    match type of Hstep with
    | context [Ffmpeg.requestRestart reason k ?e] =>
        destruct (Ffmpeg.requestRestart reason k e) as [[enc acts0] sent]
    end.
    injection Hstep as _ <-.
    apply in_app_or in Hin. destruct Hin as [Hin | Hin].
    + revert Hin. apply no_resume_in_listener_actions.
      apply (listener_step_no_resume Tcp.PauseProducer (tcpServer st)
               (Tcp.pauseProducer (tcpServer st)).1);
        [unfold Tcp.step; rewrite <- surjective_pairing; reflexivity
        | discriminate].
    + exact (no_resume_in_encoder_actions _ _ Hin).
  - (* overlay style *)
    exfalso. apply (inj Some) in Hstep.
    unfold onOverlayStyleChange, plannedRestart, tcpDoes in Hstep.
    destruct (Ffmpeg.isRunning (ffmpegManager st));
      [| injection Hstep as _ <-; destruct Hin].
    simpl in Hstep.
    match type of Hstep with
    | context [Ffmpeg.requestRestart ?r k ?e] =>
        destruct (Ffmpeg.requestRestart r k e) as [[enc acts0] sent]
    end.
    injection Hstep as _ <-.
    apply in_app_or in Hin. destruct Hin as [Hin | Hin].
    + revert Hin. apply no_resume_in_listener_actions.
      apply (listener_step_no_resume Tcp.PauseProducer (tcpServer st)
               (Tcp.pauseProducer (tcpServer st)).1);
        [unfold Tcp.step; rewrite <- surjective_pairing; reflexivity
        | discriminate].
    + exact (no_resume_in_encoder_actions _ _ Hin).
  - (* shutdown *)
    exfalso. apply (inj Some) in Hstep.
    unfold shutdown, tcpDoes in Hstep.
    destruct (isShuttingDown st); [injection Hstep as _ <-; destruct Hin |].
    simpl in Hstep.
    match type of Hstep with
    | context [Ffmpeg.shutdown k ?e] =>
        destruct (Ffmpeg.shutdown k e) as [enc acts0]
    end.
    injection Hstep as _ <-.
    apply in_app_or in Hin. destruct Hin as [Hin | Hin].
    + revert Hin. apply no_resume_in_listener_actions.
      match goal with
      | |- ~ In _ (Tcp.stop ?t).2 =>
          apply (listener_step_no_resume Tcp.Stop t (Tcp.stop t).1);
            [unfold Tcp.step; rewrite <- surjective_pairing; reflexivity
            | discriminate]
      end.
    + exact (no_resume_in_encoder_actions _ _ Hin).
Qed.

(** C5 (amended).  For every inbound producer chunk: when the encoder
    input is missing or destroyed the producer socket is not paused;
    otherwise it is paused if and only if the shared writable flag is
    already false (a write returned false and no drain came since, or a
    planned pause is on), or the write of this chunk returns false or
    raises EPIPE; a pause records the socket as the pending resume, and
    the chunk is handed to the encoder input exactly when the input is
    there and the flag is true.  The data handler never resumes a
    socket; a socket is resumed only when the encoder reports 'drain', or
    reports its start with a restart or pause reason set, never on a
    timer. *)
Theorem ingest_pause_and_resume :
  (forall s chunk w now st,
      chunk <> [] ->
      (In (Listener (Tcp.PauseSocket s)) (producerData interval s chunk w now st).2
       <-> is_Some (Ffmpeg.getStdin (ffmpegManager st))
           /\ (Ffmpeg.isWritable (ffmpegManager st) = false
               \/ w = WriteBuffered \/ w = WriteThrowsEPIPE))
      /\ (In (Listener (Tcp.PauseSocket s))
             (producerData interval s chunk w now st).2 ->
          Tcp.pendingSocketResume
            (tcpServer (producerData interval s chunk w now st).1) = Some s)
      /\ (forall s', ~ In (Listener (Tcp.ResumeSocket s'))
                        (producerData interval s chunk w now st).2)
      /\ encoderWrites (producerData interval s chunk w now st).2
         = (if bool_decide (is_Some (Ffmpeg.getStdin (ffmpegManager st)))
               && Ffmpeg.isWritable (ffmpegManager st)
            then [w] else []))
  /\ (forall e st st1 acts s,
        step cfg interval e st = Some (st1, acts) ->
        In (Listener (Tcp.ResumeSocket s)) acts ->
        e = Supervisor Ffmpeg.StdinDrain
        \/ (e = Supervisor Ffmpeg.ProcSpawn
            /\ Js.truthyStr
                 (Js.orStr (Ffmpeg.manualRestartReason (ffmpegManager st))
                           (Ffmpeg.plannedPauseReason (ffmpegManager st)))
               = true)).
Proof.
  split.
  - intros s chunk w now st. apply producerData_pauses.
  - intros e st st1 acts s. apply resume_only_on_drain_or_spawn.
Qed.

(** *** The filler after the encoder is gone *)

Lemma silence_setTcp tcp st : silenceGenerator (setTcp tcp st) = silenceGenerator st.
Proof. destruct st; reflexivity. Qed.

Lemma silence_setManager enc st :
  silenceGenerator (setManager enc st) = silenceGenerator st.
Proof. destruct st; reflexivity. Qed.

Lemma silence_setSilence sil st : silenceGenerator (setSilence sil st) = sil.
Proof. destruct st; reflexivity. Qed.

Lemma heldBack_listener e st tcp acts0 st1 acts :
  Tcp.step interval e (tcpServer st) = Some (tcp, acts0) ->
  listenerDid acts0 (setTcp tcp st) = (st1, acts) ->
  heldBack st ->
  fillerWrites acts = [] /\ heldBack st1.
Proof.
  intros _ Hdid [Hi Hb].
  destruct (listenerDid_effect acts0 (setTcp tcp st)) as (Hacts & Hi1 & Hb1).
  rewrite Hdid in Hacts, Hi1, Hb1. simpl in Hacts, Hi1, Hb1.
  rewrite silence_setTcp in Hi1, Hb1.
  split; [subst acts; apply fillerWrites_listener |].
  split; congruence.
Qed.

(** With the flag set, an event that does not reset it leaves it set and
    makes the filler write nothing. *)
Lemma heldBack_step e st st1 acts :
  resetsBackpressure e = false ->
  step cfg interval e st = Some (st1, acts) ->
  heldBack st ->
  fillerWrites acts = [] /\ heldBack st1.
Proof.
  intros Hreset Hstep Hheld. pose proof Hheld as [Hi Hb].
  destruct e; unfold step in Hstep; try discriminate.
  - (* start *)
    apply (inj Some) in Hstep. unfold startComponents in Hstep.
    destruct (Ffmpeg.spawn_ cfg now o (ffmpegManager st)) as [enc acts0].
    injection Hstep as <- <-.
    split; [apply fillerWrites_encoder |].
    unfold heldBack, Silence.start, ensureSilenceWriter.
    rewrite silence_setTcp, silence_setSilence, silence_setManager, Hi. auto.
  - (* the supervisor *)
    destruct (external e) eqn:Hext; [| discriminate].
    destruct (Ffmpeg.step cfg e (ffmpegManager st)) as [[enc acts0] |] eqn:Henc;
      [| discriminate].
    apply (inj Some) in Hstep.
    destruct (supervisor_callbacks cfg e _ _ _ Henc) as [_ Hdrain].
    assert (Hno : ~ In Ffmpeg.AOnDrain acts0).
    { intros Hin. rewrite (Hdrain Hin) in Hreset. discriminate. }
    destruct (encoderDid_filler acts0 (setManager enc st) Hno) as [Hsil Hw].
    rewrite Hstep in Hsil, Hw. simpl in Hsil, Hw.
    rewrite silence_setManager in Hsil.
    split; [exact Hw |]. unfold heldBack. rewrite Hsil. auto.
  - (* a tick *)
    destruct (silenceInterval (silenceGenerator st)); [| discriminate].
    apply (inj Some) in Hstep. unfold silenceTick in Hstep.
    rewrite SilenceFacts.tick_held in Hstep by (rewrite Hb; apply orb_true_r).
    injection Hstep as <- <-. split; [reflexivity |].
    unfold heldBack. rewrite silence_setManager, silence_setSilence. auto.
  - destruct (Tcp.step interval (Tcp.Connection s now) (tcpServer st))
      as [[tcp acts0] |] eqn:Htcp; [| discriminate].
    apply (inj Some) in Hstep. eapply heldBack_listener; eauto.
  - (* data *)
    destruct (socketAccepts s st); [| discriminate].
    apply (inj Some) in Hstep. unfold producerData in Hstep.
    destruct (length chunk =? 0)%nat; [injection Hstep as <- <-; auto |].
    destruct (onData chunk w st) as [[st' v] wrote] eqn:Hdata.
    unfold tcpDoes in Hstep. simpl in Hstep. injection Hstep as <- <-.
    assert (Hst' : heldBack st' /\ fillerWrites wrote = []).
    { unfold onData in Hdata. unfold heldBack.
      destruct (isActive (silenceGenerator st)) eqn:Hact;
        split_branches Hdata; try destruct w; injection Hdata as <- _ <-;
        rewrite ?silence_setManager, ?silence_setSilence;
        unfold resumeAfterDelay, suspendTemporarily; rewrite ?Hi; simpl;
        auto. }
    destruct Hst' as [[Hi' Hb'] Hw'].
    rewrite fillerWrites_app, Hw', fillerWrites_listener.
    split; [reflexivity |]. unfold heldBack. rewrite silence_setTcp. auto.
  - destruct (Tcp.step interval (Tcp.SocketError s) (tcpServer st))
      as [[tcp acts0] |] eqn:Htcp; [| discriminate].
    apply (inj Some) in Hstep. eapply heldBack_listener; eauto.
  - destruct (Tcp.step interval (Tcp.SocketClose s now) (tcpServer st))
      as [[tcp acts0] |] eqn:Htcp; [| discriminate].
    apply (inj Some) in Hstep. eapply heldBack_listener; eauto.
  - destruct (Tcp.step interval Tcp.IdleTimer (tcpServer st))
      as [[tcp acts0] |] eqn:Htcp; [| discriminate].
    apply (inj Some) in Hstep. eapply heldBack_listener; eauto.
  - (* background *)
    apply (inj Some) in Hstep.
    unfold onBackgroundChange, plannedRestart, tcpDoes in Hstep.
    revert Hstep. generalize (if Js.truthyStr newBackground
                              then "background change"
                              else "background change (reset to solid color)").
    intros reason Hstep.
    destruct (Ffmpeg.isRunning (ffmpegManager st));
      [| injection Hstep as <- <-; auto].
    simpl in Hstep.
    match type of Hstep with
    | context [Ffmpeg.requestRestart reason k ?e] =>
        destruct (Ffmpeg.requestRestart reason k e) as [[enc acts0] sent]
    end.
    injection Hstep as <- <-.
    rewrite fillerWrites_app, fillerWrites_listener, fillerWrites_encoder.
    split; [reflexivity |]. unfold heldBack.
    rewrite silence_setManager, silence_setSilence. simpl.
    rewrite silence_setManager, silence_setTcp. auto.
  - (* overlay style *)
    apply (inj Some) in Hstep.
    unfold onOverlayStyleChange, plannedRestart, tcpDoes in Hstep.
    destruct (Ffmpeg.isRunning (ffmpegManager st));
      [| injection Hstep as <- <-; auto].
    simpl in Hstep.
    match type of Hstep with
    | context [Ffmpeg.requestRestart ?r k ?e] =>
        destruct (Ffmpeg.requestRestart r k e) as [[enc acts0] sent]
    end.
    injection Hstep as <- <-.
    rewrite fillerWrites_app, fillerWrites_listener, fillerWrites_encoder.
    split; [reflexivity |]. unfold heldBack.
    rewrite silence_setManager, silence_setSilence. simpl.
    rewrite silence_setManager, silence_setTcp. auto.
Qed.

Lemma heldBack_starved st acts st' :
  starved cfg interval st acts st' ->
  heldBack st ->
  fillerWrites acts = [] /\ heldBack st'.
Proof.
  induction 1 as [st | st e st1 acts acts' st2 Hreset Hstep Hs IH]; intros Hheld.
  - auto.
  - destruct (heldBack_step e st st1 acts Hreset Hstep Hheld) as [Hw Hheld1].
    destruct (IH Hheld1) as [Hw' Hheld2].
    rewrite fillerWrites_app, Hw, Hw'. auto.
Qed.

Lemma runStarved_starved evs : forall st st2 acts,
  runStarved cfg interval evs st = Some (st2, acts) ->
  starved cfg interval st acts st2.
Proof.
  induction evs as [| e evs IH]; intros st st2 acts; simpl.
  - intros [= <- <-]. constructor.
  - destruct (resetsBackpressure e) eqn:Hreset; [discriminate |].
    destruct (step cfg interval e st) as [[st1 acts1] |] eqn:Hstep;
      [| discriminate].
    destruct (runStarved cfg interval evs st1) as [[st2' acts'] |] eqn:Hrun;
      [| discriminate].
    intros [= <- <-]. econstructor; eauto.
Qed.

(** C10.  A tick of the Silence Filler that gets as far as the encoder
    and finds its input missing or destroyed, or the shared writable flag
    false, writes nothing and sets the filler's backpressure flag.  From
    then on, while the filler's interval runs, the filler writes nothing
    and the flag stays set through every sequence of events of the
    server, the spawn of a new encoder among them, until one of the three
    events that clear the flag: the encoder's 'drain' (which calls
    [resetBackpressure]), the timer of [resumeAfterDelay], or the stop of
    the filler. *)
Theorem filler_starves_until_reset :
  (forall w st,
      silencePaused (silenceGenerator st) = false ->
      silenceBackpressure (silenceGenerator st) = false ->
      Ffmpeg.getStdin (ffmpegManager st) = None
      \/ Ffmpeg.isWritable (ffmpegManager st) = false ->
      fillerWrites (silenceTick w st).2 = []
      /\ silenceBackpressure (silenceGenerator (silenceTick w st).1) = true)
  /\ (forall st acts st',
        silenceInterval (silenceGenerator st) = true ->
        silenceBackpressure (silenceGenerator st) = true ->
        starved cfg interval st acts st' ->
        fillerWrites acts = []
        /\ silenceBackpressure (silenceGenerator st') = true).
Proof.
  split.
  - intros w st Hp Hb Hgone. unfold silenceTick, writeSilenceChunk.
    rewrite Hp, Hb. simpl.
    destruct (Ffmpeg.getStdin (ffmpegManager st)) as [stdin |].
    + destruct Hgone as [Hgone | Hgone]; [discriminate |].
      rewrite Hgone. simpl.
      rewrite silence_setManager, silence_setSilence. auto.
    + simpl. rewrite silence_setManager, silence_setSilence. auto.
  - intros st acts st' Hi Hb Hs.
    destruct (heldBack_starved st acts st' Hs (conj Hi Hb)) as [Hw [_ Hb']].
    auto.
Qed.

End Wired.


(** C5, as stated, fails on the code in both directions, and for the
    resume.  A chunk that arrives when the encoder input is gone is not
    paused, though the most recent write to the encoder input reported
    not-writable.  A chunk that arrives during a planned pause is paused,
    though no write ever reported not-writable.  And a producer paused for
    backpressure is resumed when the encoder respawned by a planned restart
    reports its start, no drain having been reported. *)
Lemma pause_and_resume_beyond_last_write :
  (last (encoderWrites (actionsOf stalledThenCrashed initial)) = Some WriteBuffered
   /\ snd <$> step Ffmpeg.defaults Tcp.INGEST_LOG_INTERVAL_MS
                (SocketData 1 audio WriteAccepted 500) (after stalledThenCrashed)
      = Some []
   /\ Tcp.socketPaused 1
        (tcpServer (after (stalledThenCrashed
                           ++ [SocketData 1 audio WriteAccepted 500]))) = false)
  /\ (encoderWrites (actionsOf plannedPauseThenConnect initial) = []
      /\ snd <$> step Ffmpeg.defaults Tcp.INGEST_LOG_INTERVAL_MS
                   (SocketData 0 audio WriteAccepted 150)
                   (after plannedPauseThenConnect)
         = Some [Listener (Tcp.PauseSocket 0)]
      /\ Tcp.socketPaused 0
           (tcpServer (after (plannedPauseThenConnect
                              ++ [SocketData 0 audio WriteAccepted 150]))) = true)
  /\ (Tcp.socketPaused 0 (tcpServer (after stalledThenRestyled)) = true
      /\ last (encoderWrites (actionsOf stalledThenRestyled initial))
         = Some WriteBuffered
      /\ snd <$> step Ffmpeg.defaults Tcp.INGEST_LOG_INTERVAL_MS
                   (Supervisor Ffmpeg.ProcSpawn) (after stalledThenRestyled)
         = Some [Encoder (Ffmpeg.AOnSpawn (Some "overlay style change"));
                 Listener (Tcp.ResumeSocket 0)]
      /\ Tcp.socketPaused 0
           (tcpServer (after (stalledThenRestyled
                              ++ [Supervisor Ffmpeg.ProcSpawn]))) = false).
Proof. vm_compute. repeat split; reflexivity. Qed.

Lemma ingest_pause_and_resume_witness :
  In (Listener (Tcp.PauseSocket 0))
    (producerData Tcp.INGEST_LOG_INTERVAL_MS 0 audio WriteBuffered 200
       (after streaming)).2
  /\ Tcp.pendingSocketResume
       (tcpServer (producerData Tcp.INGEST_LOG_INTERVAL_MS 0 audio WriteBuffered 200
                     (after streaming)).1) = Some 0%nat.
Proof.
  pose proof (ingest_pause_and_resume Ffmpeg.defaults Tcp.INGEST_LOG_INTERVAL_MS)
    as [Hdata _].
  assert (Hne : audio <> []) by discriminate.
  destruct (Hdata 0%nat audio WriteBuffered 200 (after streaming) Hne)
    as (Hiff & Hpending & _).
  assert (Hin : In (Listener (Tcp.PauseSocket 0))
                  (producerData Tcp.INGEST_LOG_INTERVAL_MS 0 audio WriteBuffered
                     200 (after streaming)).2).
  { apply Hiff. split; [eexists; reflexivity | right; left; reflexivity]. }
  split; [exact Hin | exact (Hpending Hin)].
Defined.

(** The scenario of C10: the encoder dies, the next tick sets the flag; the
    encoder is respawned and is writable again, and the filler still
    writes nothing. *)
Example filler_silent_after_respawn :
  silenceBackpressure (silenceGenerator (after encoderGone)) = true
  /\ Ffmpeg.isRunning (ffmpegManager (after (encoderGone ++ thenRespawned))) = true
  /\ Ffmpeg.isWritable (ffmpegManager (after (encoderGone ++ thenRespawned))) = true
  /\ length (fillerWrites (actionsOf encoderGone initial)) = 1%nat
  /\ fillerWrites (actionsOf thenRespawned (after encoderGone)) = [].
Proof. vm_compute. repeat split; reflexivity. Qed.

Lemma filler_starves_until_reset_witness :
  fillerWrites (actionsOf thenRespawned (after encoderGone)) = []
  /\ silenceBackpressure
       (silenceGenerator (after (encoderGone ++ thenRespawned))) = true.
Proof.
  pose proof (filler_starves_until_reset Ffmpeg.defaults Tcp.INGEST_LOG_INTERVAL_MS)
    as [_ Hstarved].
  destruct (runStarved Ffmpeg.defaults Tcp.INGEST_LOG_INTERVAL_MS thenRespawned
              (after encoderGone)) as [[st2 acts] |] eqn:Hrun;
    [| vm_compute in Hrun; discriminate Hrun].
  pose proof (runStarved_starved _ _ _ _ _ _ Hrun) as Hs.
  assert (Hi : silenceInterval (silenceGenerator (after encoderGone)) = true)
    by reflexivity.
  assert (Hb : silenceBackpressure (silenceGenerator (after encoderGone)) = true)
    by reflexivity.
  destruct (Hstarved (after encoderGone) acts st2 Hi Hb Hs) as [Hw Hb2].
  assert (Hsame : run Ffmpeg.defaults Tcp.INGEST_LOG_INTERVAL_MS thenRespawned
                    (after encoderGone) = Some (st2, acts)).
  { rewrite <- Hrun. vm_compute. reflexivity. }
  split.
  - unfold actionsOf. rewrite Hsame. exact Hw.
  - replace (after (encoderGone ++ thenRespawned)) with st2; [exact Hb2 |].
    vm_compute in Hsame. injection Hsame as <- _. vm_compute. reflexivity.
Defined.

End ServerFacts.

Module EnvFacts.
Import JsString Env.

Lemma optionalPositiveIntEnv_returns env name fallback v :
  optionalPositiveIntEnv env name fallback = Returns v <->
  0 < v
  /\ ((provided env name = None /\ v = fallback)
      \/ (exists s, provided env name = Some s /\ parseInt10 s = Some v)).
Proof.
  unfold optionalPositiveIntEnv, optionalIntEnv, bind.
  destruct (provided env name) as [s |].
  - destruct (parseInt10 s) as [n |] eqn:Hp.
    + destruct (n <=? 0) eqn:Hn.
      * split; [discriminate |].
        intros [Hv [[? _] | (s' & [= <-] & Hs)]]; [discriminate |].
        apply Z.leb_le in Hn. rewrite Hp in Hs. injection Hs as ->. lia.
      * apply Z.leb_gt in Hn. split.
        -- intros [= <-]. split; [lia |]. right. eauto.
        -- intros [_ [[? _] | (s' & [= <-] & Hs)]]; [discriminate |].
           congruence.
    + split; [discriminate |].
      intros [_ [[? _] | (s' & [= <-] & Hs)]]; [discriminate | congruence].
  - destruct (fallback <=? 0) eqn:Hn.
    + split; [discriminate |].
      intros [Hv [[_ ->] | (s' & ? & _)]]; [| discriminate].
      apply Z.leb_le in Hn. lia.
    + apply Z.leb_gt in Hn. split.
      * intros [= <-]. split; [lia |]. left. auto.
      * intros [_ [[_ ->] | (s' & ? & _)]]; [reflexivity | discriminate].
Qed.

Lemma optionalPositiveIntEnv_positive env name fallback v :
  optionalPositiveIntEnv env name fallback = Returns v -> 0 < v.
Proof. intros H. apply optionalPositiveIntEnv_returns in H. tauto. Qed.

(** X4.  For a variable that is unset or empty, or whose digits denote
    an integer up to [Number.MAX_SAFE_INTEGER] in magnitude (the range in
    which the number [parseInt] returns is that integer),
    [optionalPositiveIntEnv] returns positive integers only.  Unset or
    empty, it returns the fallback, and exits when the fallback is not
    positive; with a value it returns the integer [parseInt] reads in it,
    at most [Number.MAX_SAFE_INTEGER], and exits when there is none or it
    is zero or negative. *)
Theorem optional_positive_int_env_outcome env name fallback :
  (forall s n,
      provided env name = Some s -> parseInt10 s = Some n ->
      Z.abs n <= Js.MAX_SAFE_INTEGER) ->
  match optionalPositiveIntEnv env name fallback with
  | Returns v =>
      0 < v
      /\ ((provided env name = None /\ v = fallback)
          \/ (exists s, provided env name = Some s /\ parseInt10 s = Some v
                        /\ v <= Js.MAX_SAFE_INTEGER))
  | Exits =>
      (provided env name = None /\ fallback <= 0)
      \/ (exists s, provided env name = Some s
                    /\ (parseInt10 s = None
                        \/ exists n, parseInt10 s = Some n /\ n <= 0))
  end.
Proof.
  intros Hsafe.
  destruct (optionalPositiveIntEnv env name fallback) as [v |] eqn:H.
  - apply optionalPositiveIntEnv_returns in H.
    destruct H as [Hv [Hunset | (s & Hs & Hp)]]; [auto |].
    split; [exact Hv |]. right. exists s.
    pose proof (Hsafe s v Hs Hp). split; [exact Hs | split; [exact Hp | lia]].
  - unfold optionalPositiveIntEnv, optionalIntEnv, bind in H.
    destruct (provided env name) as [s |].
    + right. exists s. split; [reflexivity |].
      destruct (parseInt10 s) as [n |]; [| auto].
      right. exists n. split; [reflexivity |].
      destruct (n <=? 0) eqn:Hn; [apply Z.leb_le in Hn; lia | discriminate].
    + left. split; [reflexivity |].
      destruct (fallback <=? 0) eqn:Hn; [apply Z.leb_le in Hn; lia | discriminate].
Qed.

Lemma optional_positive_int_env_outcome_witness :
  exists v,
    optionalPositiveIntEnv {[ "FFMPEG_STALL_WARN_MS" := ofString "8000" ]}
      "FFMPEG_STALL_WARN_MS" 20000 = Returns v
    /\ 0 < v <= Js.MAX_SAFE_INTEGER.
Proof.
  pose proof (optional_positive_int_env_outcome
                {[ "FFMPEG_STALL_WARN_MS" := ofString "8000" ]}
                "FFMPEG_STALL_WARN_MS" 20000) as H.
  assert (Hout : optionalPositiveIntEnv
                   {[ "FFMPEG_STALL_WARN_MS" := ofString "8000" ]}
                   "FFMPEG_STALL_WARN_MS" 20000 = Returns 8000)
    by (vm_compute; reflexivity).
  rewrite Hout in H.
  assert (Hsafe : forall s n,
             provided {[ "FFMPEG_STALL_WARN_MS" := ofString "8000" ]}
               "FFMPEG_STALL_WARN_MS" = Some s ->
             parseInt10 s = Some n -> Z.abs n <= Js.MAX_SAFE_INTEGER).
  { intros s n Hs Hn. vm_compute in Hs. injection Hs as <-.
    vm_compute in Hn. injection Hn as <-. vm_compute. discriminate. }
  destruct (H Hsafe) as [Hpos [[Hunset _] | (s & _ & _ & Hmax)]].
  - vm_compute in Hunset. discriminate Hunset.
  - exists 8000. split; [exact Hout | split; [exact Hpos | exact Hmax]].
Defined.

Lemma load_empty :
  Constants.load ∅
  = Returns {| Constants.INGEST_LOG_INTERVAL_MS := 5000;
               Constants.INGEST_IDLE_WARN_MS := 8000;
               Constants.supervisor := Ffmpeg.defaults |}.
Proof. reflexivity. Qed.

(** X5.  Whatever the environment holds, the constants the supervisor and
    the listener are configured with are positive once server/constants.js
    has loaded; they are the documented defaults when the environment sets
    none of them; and automatic restarts are off exactly when
    FFMPEG_AUTO_RESTART is the string 'false'. *)
Theorem constants_are_positive env c :
  Constants.load env = Returns c ->
  0 < Constants.INGEST_LOG_INTERVAL_MS c
  /\ 0 < Constants.INGEST_IDLE_WARN_MS c
  /\ Ffmpeg.positiveConfig (Constants.supervisor c)
  /\ (Ffmpeg.FFMPEG_AUTO_RESTART (Constants.supervisor c) = false
      <-> env !! "FFMPEG_AUTO_RESTART" = Some (ofString "false"))
  /\ Constants.load ∅
     = Returns {| Constants.INGEST_LOG_INTERVAL_MS := 5000;
                  Constants.INGEST_IDLE_WARN_MS := 8000;
                  Constants.supervisor := Ffmpeg.defaults |}.
Proof.
  unfold Constants.load at 1. intros H.
  repeat match type of H with
         | bind ?o _ = _ =>
             let v := fresh "v" in
             let Hv := fresh "Hv" in
             destruct o as [v |] eqn:Hv; [simpl in H | discriminate H];
             apply optionalPositiveIntEnv_positive in Hv
         end.
  injection H as <-. simpl. unfold Ffmpeg.positiveConfig. simpl.
  repeat split; try assumption.
  - intros Hn. apply negb_false_iff in Hn. apply bool_decide_eq_true in Hn. exact Hn.
  - intros ->. reflexivity.
Qed.

Lemma constants_are_positive_witness :
  Ffmpeg.positiveConfig
    {| Ffmpeg.FFMPEG_HEARTBEAT_INTERVAL_MS := 7000;
       Ffmpeg.FFMPEG_STALL_WARN_MS := 20000;
       Ffmpeg.FFMPEG_RESTART_MAX_ATTEMPTS := 3;
       Ffmpeg.FFMPEG_RESTART_WINDOW_MS := 60000;
       Ffmpeg.FFMPEG_RESTART_BACKOFF_BASE_MS := 500;
       Ffmpeg.FFMPEG_RESTART_BACKOFF_MAX_MS := 60000;
       Ffmpeg.FFMPEG_STABLE_RUN_MS := 120000;
       Ffmpeg.FFMPEG_AUTO_RESTART := false |}.
Proof.
  refine (proj1 (proj2 (proj2
            (constants_are_positive
               {[ "FFMPEG_RESTART_MAX_ATTEMPTS" := ofString "3";
                  "FFMPEG_AUTO_RESTART" := ofString "false" ]}
               {| Constants.INGEST_LOG_INTERVAL_MS := 5000;
                  Constants.INGEST_IDLE_WARN_MS := 8000;
                  Constants.supervisor := _ |} _)))).
  vm_compute. reflexivity.
Defined.

Lemma leadingDigits_app s rest : forall acc seen n,
  startsWithDigit rest = false ->
  leadingDigits s acc seen = Some n ->
  leadingDigits (s ++ rest) acc seen = Some n.
Proof.
  induction s as [| c s IH]; intros acc seen n Hrest H; simpl in *.
  - destruct seen; [| discriminate].
    destruct rest as [| c rest]; simpl; [exact H |].
    simpl in Hrest. destruct (digitValue c); [| exact H].
    rewrite bool_decide_eq_true_2 in Hrest by eauto. discriminate.
  - destruct (digitValue c); [apply IH; assumption | exact H].
Qed.

Lemma dropWhile_app p s rest :
  dropWhile p s <> [] -> dropWhile p (s ++ rest) = dropWhile p s ++ rest.
Proof.
  induction s as [| c s IH]; simpl; [congruence |].
  destruct (p c); [exact IH | reflexivity].
Qed.

Lemma parseInt10_app s rest n :
  startsWithDigit rest = false ->
  parseInt10 s = Some n ->
  parseInt10 (s ++ rest) = Some n.
Proof.
  intros Hrest. unfold parseInt10, trimStart.
  destruct (dropWhile isWhiteSpace s) as [| c t] eqn:Ht; [discriminate |].
  rewrite dropWhile_app by (rewrite Ht; discriminate). rewrite Ht. simpl.
  assert (Hsigned : forall sign u,
             (fun v => sign * v) <$> leadingDigits u 0 false = Some n ->
             (fun v => sign * v) <$> leadingDigits (u ++ rest) 0 false = Some n).
  { intros sign u H.
    destruct (leadingDigits u 0 false) as [v |] eqn:Hv; [| discriminate].
    rewrite (leadingDigits_app u rest 0 false v Hrest Hv). exact H. }
  destruct (decide (c = 45%N)) as [-> | H45];
    [apply (Hsigned (-1) t) |].
  destruct (decide (c = 43%N)) as [-> | H43];
    [apply (Hsigned 1 t) |].
  intros H.
  assert (Hc : (fun v => 1 * v) <$> leadingDigits (c :: t) 0 false = Some n).
  { revert H. clear -H45 H43.
    destruct c as [| p]; [auto |].
    do 6 (destruct p as [p | p |]; auto); congruence. }
  pose proof (Hsigned 1 (c :: t) Hc) as Happ. revert Happ. clear -H45 H43.
  destruct c as [| p]; [auto |].
  do 6 (destruct p as [p | p |]; auto); congruence.
Qed.

(** X6.  The integer helpers read a numeric prefix: when a value parses
    as [n], the same value followed by any text that does not start with
    a digit is accepted as [n] too. *)
Theorem optionalIntEnv_ignores_trailing_text env name fallback s rest n :
  env !! name = Some (s ++ rest) ->
  parseInt10 s = Some n ->
  startsWithDigit rest = false ->
  optionalIntEnv env name fallback = Returns n.
Proof.
  intros Henv Hs Hrest. unfold optionalIntEnv, provided. rewrite Henv.
  pose proof (parseInt10_app s rest n Hrest Hs) as Happ.
  destruct (s ++ rest) as [| c u] eqn:Hsu.
  - unfold parseInt10 in Happ. simpl in Happ. discriminate.
  - rewrite Happ. reflexivity.
Qed.

Lemma optionalIntEnv_ignores_trailing_text_witness :
  optionalIntEnv {[ "INGEST_IDLE_WARN_MS" := ofString "8000ms" ]}
    "INGEST_IDLE_WARN_MS" 5 = Returns 8000.
Proof.
  apply (optionalIntEnv_ignores_trailing_text _ _ 5 (ofString "8000") (ofString "ms"));
    reflexivity.
Defined.

End EnvFacts.

Module DiagnosticsFacts.
Import Diagnostics.

Section Ring.
Context {A : Type}.

Lemma holds_new n : holds n (@nil A) (newRing n).
Proof.
  unfold holds, newRing. simpl.
  split; [reflexivity |]. split; [reflexivity |].
  split; [symmetry; apply Nat.Div0.mod_0_l |]. split; [reflexivity |].
  intros j Hj. lia.
Qed.

Lemma mod_differs (n j k : nat) :
  (0 < n)%nat -> (j < k)%nat -> (k < j + n)%nat -> (j mod n <> k mod n)%nat.
Proof.
  intros Hn Hjk Hk Heq.
  pose proof (Nat.div_mod_eq j n) as Hj.
  pose proof (Nat.div_mod_eq k n) as Hk'.
  assert (Hd : (k - j = n * (k / n - j / n))%nat) by nia.
  assert (0 < k / n - j / n)%nat by nia.
  nia.
Qed.

Lemma holds_push n (items : list A) r x :
  (0 < n)%nat -> holds n items r -> holds n (items ++ [x]) (push x r).
Proof.
  intros Hn (Hm & Hlen & Hh & Hc & Hat).
  unfold holds, push. simpl. rewrite Hm, length_app. simpl.
  destruct (length (buffer r) <? n)%nat eqn:Hfull.
  - apply Nat.ltb_lt in Hfull.
    assert (Hk : (length items < n)%nat) by lia.
    assert (Hbuf : length (buffer r) = length items) by lia.
    split; [reflexivity |]. split; [rewrite length_app; simpl; lia |].
    split; [rewrite Hh, Nat.Div0.add_mod_idemp_l; reflexivity |].
    split; [lia |].
    intros j Hj Hjn.
    assert (Hjs : (j mod n = j)%nat) by (apply Nat.mod_small; lia).
    rewrite Hjs.
    destruct (decide (j = length items)) as [-> | Hne].
    + rewrite <- Hbuf at 1. rewrite !lookup_app_r by lia.
      rewrite Hbuf, Nat.sub_diag. reflexivity.
    + rewrite !lookup_app_l by lia.
      rewrite <- Hjs at 1. apply Hat; lia.
  - apply Nat.ltb_ge in Hfull.
    assert (Hk : (n <= length items)%nat) by lia.
    assert (Hbuf : length (buffer r) = n) by lia.
    split; [reflexivity |]. split; [rewrite length_insert; lia |].
    split; [rewrite Hh, Nat.Div0.add_mod_idemp_l; reflexivity |].
    split; [lia |].
    intros j Hj Hjn. rewrite Hh.
    destruct (decide (j = length items)) as [-> | Hne].
    + rewrite list_lookup_insert_eq
        by (rewrite Hbuf; apply Nat.mod_upper_bound; lia).
      rewrite lookup_app_r by lia. rewrite Nat.sub_diag. reflexivity.
    + rewrite list_lookup_insert_ne by (apply not_eq_sym, mod_differs; lia).
      rewrite lookup_app_l by lia. apply Hat; lia.
Qed.

Lemma holds_pushAll n (items : list A) : forall done r,
  (0 < n)%nat -> holds n done r -> holds n (done ++ items) (pushAll items r).
Proof.
  induction items as [| x items IH]; intros done r Hn Hr; simpl.
  - rewrite app_nil_r. exact Hr.
  - replace (done ++ x :: items) with ((done ++ [x]) ++ items)
      by (rewrite <- app_assoc; reflexivity).
    apply IH; [exact Hn |]. apply holds_push; assumption.
Qed.

Lemma omap_seq_lookup (f : nat -> option A) (l : list A) : forall s,
  (forall i, (i < length l)%nat -> f (s + i)%nat = l !! i) ->
  omap f (seq s (length l)) = l.
Proof.
  induction l as [| x l IH]; intros s Hf; simpl; [reflexivity |].
  pose proof (Hf 0%nat ltac:(simpl; lia)) as H0.
  rewrite Nat.add_0_r in H0. rewrite H0. simpl. f_equal.
  apply IH. intros i Hi.
  replace (S s + i)%nat with (s + S i)%nat by lia.
  apply (Hf (S i)). simpl. lia.
Qed.

Lemma holds_toArray n (items : list A) r :
  (0 < n)%nat -> holds n items r ->
  toArray r = drop (length items - n) items.
Proof.
  intros Hn (Hm & Hlen & Hh & _ & Hat).
  unfold toArray. rewrite Hm.
  destruct (length (buffer r) <? n)%nat eqn:Hfull.
  - apply Nat.ltb_lt in Hfull.
    replace (length items - n)%nat with 0%nat by lia. rewrite drop_0.
    apply list_eq. intros j.
    destruct (decide (j < length items)%nat) as [Hj | Hj].
    + rewrite <- (Nat.mod_small j n) at 1 by lia. apply Hat; lia.
    + rewrite !lookup_ge_None_2 by lia. reflexivity.
  - apply Nat.ltb_ge in Hfull.
    assert (Hk : (n <= length items)%nat) by lia.
    assert (Hd : length (drop (length items - n) items) = n)
      by (rewrite length_drop; lia).
    pose proof (omap_seq_lookup
                  (fun i => buffer r !! ((head r + i) mod n)%nat)
                  (drop (length items - n) items) 0) as Hseq.
    rewrite Hd in Hseq. apply Hseq.
    intros i Hi. simpl.
    rewrite lookup_drop, Hh, Nat.Div0.add_mod_idemp_l.
    replace ((length items + i) mod n)%nat
      with ((length items - n + i) mod n)%nat.
    + apply Hat; lia.
    + replace (length items + i)%nat with ((length items - n + i) + 1 * n)%nat by lia.
      rewrite Nat.Div0.mod_add. reflexivity.
Qed.
(** X1.  A ring buffer returns the items pushed last, oldest first: after
    any number of pushes [toArray] is the last [maxSize] items pushed, and
    [count] and [length] are the number of items kept. *)
Theorem ring_keeps_most_recent (n : nat) (items : list A) :
  (0 < n)%nat ->
  toArray (pushAll items (newRing n)) = drop (length items - n) items
  /\ ringLength (pushAll items (newRing n)) = Nat.min (length items) n
  /\ count (pushAll items (newRing n)) = Nat.min (length items) n.
Proof.
  intros Hn.
  pose proof (holds_pushAll n items [] (newRing n) Hn (holds_new n)) as H.
  simpl in H. split; [apply holds_toArray; assumption |].
  destruct H as (_ & Hlen & _ & Hc & _). auto.
Qed.

End Ring.


(** [recordEvent] by type of event. *)
Lemma recordEvent_restart data now st :
  let st1 := recordEvent "stream.restart" data now st in
  eventBuffer st1
  = push {| timestamp := now; type := "stream.restart"; data := data |}
      (eventBuffer st)
  /\ restartHistory st1
     = push {| restartedAt := now;
               reason := orElse (data !! "reason") (VStr "unknown");
               trigger := orElse (data !! "trigger") (VStr "unknown");
               bufferLevel := data !! "bufferLevel";
               restartLastError := data !! "lastError";
               networkState := data !! "networkState" |} (restartHistory st)
  /\ lastError (streamLifecycle st1) = lastError (streamLifecycle st)
  /\ restartCount (streamLifecycle st1) = restartCount (streamLifecycle st) + 1
  /\ state (streamLifecycle st1) = state (streamLifecycle st)
  /\ sessionUptimeMs (streamLifecycle st1) = sessionUptimeMs (streamLifecycle st).
Proof.
  unfold recordEvent.
  change (String.eqb "stream.restart" "stream.restart") with true.
  change (String.eqb "stream.restart" "stream.error") with false.
  change (String.eqb "stream.restart" "buffer.stall") with false.
  cbv iota. destruct st as [ev rh l sc se].
  repeat split.
Qed.

Lemma recordEvent_stateChange data now st :
  let st1 := recordEvent "stream.stateChange" data now st in
  eventBuffer st1
  = push {| timestamp := now; type := "stream.stateChange"; data := data |}
      (eventBuffer st)
  /\ restartHistory st1 = restartHistory st
  /\ streamLifecycle st1 = streamLifecycle st.
Proof.
  unfold recordEvent.
  change (String.eqb "stream.stateChange" "stream.restart") with false.
  change (String.eqb "stream.stateChange" "stream.error") with false.
  change (String.eqb "stream.stateChange" "buffer.stall") with false.
  cbv iota. destruct st as [ev rh l sc se].
  repeat split.
Qed.

Lemma setStreamState_effect newState context now st :
  let st1 := setStreamState newState context now st in
  (exists e, eventBuffer st1 = push e (eventBuffer st))
  /\ restartHistory st1 = restartHistory st
  /\ state (streamLifecycle st1) = newState
  /\ lastError (streamLifecycle st1) = lastError (streamLifecycle st)
  /\ restartCount (streamLifecycle st1) = restartCount (streamLifecycle st).
Proof.
  intros st1. subst st1. unfold setStreamState.
  match goal with
  | |- context [recordEvent _ ?d now ?s] =>
      destruct (recordEvent_stateChange d now s) as (He & Hh & Hl)
  end.
  cbv zeta in He, Hh, Hl. rewrite He, Hh, Hl.
  destruct st as [ev rh l sc se]. unfold setLifecycle.
  cbn [eventBuffer restartHistory streamLifecycle state lastError restartCount].
  repeat split. eauto.
Qed.

Lemma recordRestart_effect p now st :
  restartHistory (recordRestart p now st)
  = push (restartEntry (lastError (streamLifecycle st)) (now, p)) (restartHistory st)
  /\ lastError (streamLifecycle (recordRestart p now st))
     = lastError (streamLifecycle st)
  /\ restartCount (streamLifecycle (recordRestart p now st))
     = restartCount (streamLifecycle st) + 1
  /\ state (streamLifecycle (recordRestart p now st)) = "reconnecting"
  /\ exists e1 e2,
       eventBuffer (recordRestart p now st) = push e2 (push e1 (eventBuffer st)).
Proof.
  unfold recordRestart.
  match goal with
  | |- context [setStreamState _ _ now (recordEvent _ ?d now st)] =>
      set (restartData := d);
      destruct (recordEvent_restart restartData now st)
        as (He & Hh & Hl & Hc & _);
      destruct (setStreamState_effect "reconnecting"
                  {[ "reason" := default (VStr "unknown") (pReason p) ]} now
                  (recordEvent "stream.restart" restartData now st))
        as ((e2 & He2) & Hh2 & Hs2 & Hl2 & Hc2)
  end.
  cbv zeta in He, Hh, Hl, Hc, He2, Hh2, Hs2, Hl2, Hc2.
  rewrite Hh2, Hl2, Hc2, Hs2, He2, Hh, Hl, Hc, He.
  split; [| repeat split; eauto].
  apply (f_equal (fun e => push e (restartHistory st))).
  unfold restartEntry. cbn [fst snd].
  assert (Hr : restartData !! "reason" = Some (default (VStr "unknown") (pReason p)))
    by (subst restartData; apply lookup_insert_eq).
  assert (Ht : restartData !! "trigger" = Some (default (VStr "auto") (pTrigger p))).
  { subst restartData. rewrite lookup_insert_ne by discriminate.
    apply lookup_insert_eq. }
  assert (Hb : restartData !! "bufferLevel"
               = Some (default VNull (pBufferLevel p))).
  { subst restartData. do 4 (rewrite lookup_insert_ne by discriminate).
    apply lookup_insert_eq. }
  assert (Hn : restartData !! "networkState"
               = Some (default VNull (pNetworkState p))).
  { subst restartData. do 5 (rewrite lookup_insert_ne by discriminate).
    apply lookup_insert_eq. }
  assert (Hle : restartData !! "lastError" = Some (lastError (streamLifecycle st))).
  { subst restartData. do 7 (rewrite lookup_insert_ne by discriminate).
    apply lookup_insert_eq. }
  rewrite Hr, Ht, Hb, Hn, Hle. reflexivity.
Qed.
Lemma recordRestarts_effect calls : forall st,
  restartHistory (recordRestarts calls st)
  = pushAll (List.map (restartEntry (lastError (streamLifecycle st))) calls)
      (restartHistory st)
  /\ lastError (streamLifecycle (recordRestarts calls st))
     = lastError (streamLifecycle st)
  /\ restartCount (streamLifecycle (recordRestarts calls st))
     = restartCount (streamLifecycle st) + Z.of_nat (length calls).
Proof.
  induction calls as [| [now p] calls IH]; intros st.
  - simpl. repeat split. lia.
  - destruct (recordRestart_effect p now st) as (Hh & He & Hc & _).
    destruct (IH (recordRestart p now st)) as (IHh & IHe & IHc).
    change (recordRestarts ((now, p) :: calls) st)
      with (recordRestarts calls (recordRestart p now st)).
    rewrite IHh, IHe, IHc, Hh, He, Hc. simpl length.
    repeat split. lia.
Qed.

Lemma sliceLast_drop {A} (limit : Z) (l : list A) :
  0 < limit ->
  sliceLast limit l = drop (length l - Z.to_nat limit) l.
Proof.
  intros Hl. unfold sliceLast.
  assert (H0 : (- limit <? 0) = true) by (apply Z.ltb_lt; lia).
  rewrite H0. f_equal. lia.
Qed.

Lemma recordRestarts_events calls : forall st,
  (calls <> [] ->
   state (streamLifecycle (recordRestarts calls st)) = "reconnecting")
  /\ exists items,
       length items = (2 * length calls)%nat
       /\ eventBuffer (recordRestarts calls st) = pushAll items (eventBuffer st).
Proof.
  induction calls as [| [now p] calls IH]; intros st.
  - split; [congruence |]. exists []. split; reflexivity.
  - change (recordRestarts ((now, p) :: calls) st)
      with (recordRestarts calls (recordRestart p now st)).
    destruct (IH (recordRestart p now st)) as [Hs (items & Hlen & He)].
    split.
    + intros _. destruct calls as [| c calls']; [| apply Hs; discriminate].
      apply (recordRestart_effect p now st).
    + destruct (recordRestart_effect p now st) as (_ & _ & _ & _ & e1 & e2 & Hpush).
      exists (e1 :: e2 :: items). split; [simpl; lia |].
      rewrite He, Hpush. reflexivity.
Qed.

Lemma restart_history_window (calls : list (Z * RestartParams)) (limit : Z) :
  0 < limit ->
  getRestartHistory limit (recordRestarts calls initial)
  = drop (length calls - Nat.min (Z.to_nat limit) MAX_RESTART_HISTORY)
      (List.map (restartEntry VNull) calls)
  /\ restartCount (streamLifecycle (recordRestarts calls initial))
     = Z.of_nat (length calls).
Proof.
  intros Hl.
  destruct (recordRestarts_effect calls initial) as (Hh & _ & Hc).
  split; [| rewrite Hc; reflexivity].
  unfold getRestartHistory, limited.
  destruct (limit =? 0) eqn:H0; [apply Z.eqb_eq in H0; lia |].
  rewrite Hh. simpl lastError. simpl restartHistory.
  assert (Hn : (0 < MAX_RESTART_HISTORY)%nat) by (unfold MAX_RESTART_HISTORY; lia).
  pose proof (holds_pushAll MAX_RESTART_HISTORY
                (List.map (restartEntry VNull) calls) []
                (newRing MAX_RESTART_HISTORY) Hn (holds_new MAX_RESTART_HISTORY))
    as Hholds.
  rewrite app_nil_l in Hholds.
  rewrite (holds_toArray _ _ _ Hn Hholds).
  rewrite sliceLast_drop by exact Hl.
  rewrite drop_drop, length_drop, length_map. f_equal. lia.
Qed.

(** X2.  The restart history keeps the hundred most recent restarts:
    after any series of [recordRestart] calls, [getRestartHistory(limit)]
    with a positive limit returns the last [min(limit, 100)] of them,
    oldest first, each with the reason and trigger it was reported with
    ('unknown' and 'auto' when left out); [restartCount] counts them all,
    the lifecycle state is 'reconnecting' after each, and every restart
    adds two events to the event buffer. *)
Theorem restart_history_most_recent (calls : list (Z * RestartParams)) (limit : Z) :
  0 < limit ->
  getRestartHistory limit (recordRestarts calls initial)
  = drop (length calls - Nat.min (Z.to_nat limit) MAX_RESTART_HISTORY)
      (List.map (restartEntry VNull) calls)
  /\ restartCount (streamLifecycle (recordRestarts calls initial))
     = Z.of_nat (length calls)
  /\ (calls <> [] ->
      state (streamLifecycle (recordRestarts calls initial)) = "reconnecting")
  /\ ringLength (eventBuffer (recordRestarts calls initial))
     = Nat.min (2 * length calls) MAX_EVENTS.
Proof.
  intros Hl.
  destruct (restart_history_window calls limit Hl) as [Hh Hc].
  split; [exact Hh | split; [exact Hc | split]].
  - destruct (recordRestarts_events calls initial) as [Hs _]. exact Hs.
  - destruct (recordRestarts_events calls initial) as [_ (items & Hlen & He)].
    rewrite He. unfold ringLength.
    change (eventBuffer initial) with (@newRing DiagEvent MAX_EVENTS).
    assert (Hn : (0 < MAX_EVENTS)%nat) by (unfold MAX_EVENTS; lia).
    pose proof (holds_pushAll MAX_EVENTS items [] (newRing MAX_EVENTS) Hn
                  (holds_new MAX_EVENTS)) as (_ & Hbuf & _).
    simpl in Hbuf. rewrite Hbuf, Hlen. reflexivity.
Qed.

Lemma ring_keeps_most_recent_witness :
  toArray (pushAll [1; 2; 3; 4; 5] (newRing 3)) = [3; 4; 5].
Proof.
  exact (proj1 (ring_keeps_most_recent 3 [1; 2; 3; 4; 5] ltac:(lia))).
Defined.
Lemma restart_history_most_recent_witness :
  List.map restartedAt
    (getRestartHistory 2
       (recordRestarts [(10, crashReported); (20, crashReported);
                        (30, crashReported)] initial))
  = [20; 30].
Proof.
  rewrite (proj1 (restart_history_most_recent
                    [(10, crashReported); (20, crashReported); (30, crashReported)]
                    2 ltac:(lia))).
  reflexivity.
Defined.

End DiagnosticsFacts.

Module RoutesFacts.
Import Diagnostics Routes.

Lemma queryLimit_bounds cap fallback q :
  1 <= cap -> 1 <= queryLimit cap fallback q <= cap.
Proof. intros Hcap. unfold queryLimit. lia. Qed.

(** X3.  GET /diagnostics/restarts answers with the most recent restarts,
    oldest first, and their number: as many as the [limit] parameter asks
    for when it is a number from 1 to 100, 50 of them when the parameter is
    missing, not a number or 0, never more than 100 and, once a restart was
    recorded, never none. *)
Theorem restarts_route_returns_most_recent
    (q : option (list N)) (calls : list (Z * RestartParams)) :
  let limit := queryLimit 100 50 q in
  let response := getDiagnosticsRestarts q (recordRestarts calls initial) in
  1 <= limit <= 100
  /\ (forall n, q ≫= JsString.parseInt10 = Some n -> 1 <= n <= 100 -> limit = n)
  /\ (q ≫= JsString.parseInt10 = None \/ q ≫= JsString.parseInt10 = Some 0 ->
      limit = 50)
  /\ response.1
     = drop (length calls - Z.to_nat limit) (List.map (restartEntry VNull) calls)
  /\ response.2 = Nat.min (length calls) (Z.to_nat limit).
Proof.
  intros limit response.
  assert (Hb : 1 <= limit <= 100) by (apply queryLimit_bounds; lia).
  split; [exact Hb |].
  split; [| split].
  - intros n Hq Hn. subst limit. unfold queryLimit. rewrite Hq.
    destruct (n =? 0) eqn:H0; [apply Z.eqb_eq in H0; lia | lia].
  - intros [Hq | Hq]; subst limit; unfold queryLimit; rewrite Hq; simpl; lia.
  - subst response. unfold getDiagnosticsRestarts. fold limit. simpl.
    assert (Hl : 0 < limit) by lia.
    destruct (DiagnosticsFacts.restart_history_window calls limit Hl) as [Hh _].
    rewrite Hh.
    replace (Nat.min (Z.to_nat limit) MAX_RESTART_HISTORY) with (Z.to_nat limit)
      by (unfold MAX_RESTART_HISTORY; lia).
    split; [reflexivity |].
    rewrite length_drop, length_map. lia.
Qed.

End RoutesFacts.

Module MetadataFacts.
Import JsString Metadata.

Lemma plain_space : plain 32 = true.
Proof. reflexivity. Qed.

Lemma plain_not_space c : plain c = true -> c <> 32%N -> isWhiteSpace c = false.
Proof.
  unfold plain. intros H Hc.
  destruct (isWhiteSpace c); [| reflexivity].
  apply andb_true_iff in H. destruct H as [_ H]. simpl in H.
  apply N.eqb_eq in H. congruence.
Qed.

Lemma isLineBreak_white c : isLineBreak c = true -> isWhiteSpace c = true.
Proof.
  unfold isLineBreak, isWhiteSpace. intros H.
  apply orb_true_iff in H. destruct H as [H | H]; apply N.eqb_eq in H; subst;
    reflexivity.
Qed.

(** After the runs of white space were replaced, the characters are plain
    wherever the input had neither brackets nor filter syntax. *)
Lemma replaceRuns_plain s : forall inRun,
  forallb (fun c => negb (isAngle c) && negb (isFilterSyntax c)) s = true ->
  forallb plain (replaceRuns isWhiteSpace inRun s) = true.
Proof.
  induction s as [| c s IH]; intros inRun H; simpl in *; [reflexivity |].
  apply andb_true_iff in H. destruct H as [Hc Hs].
  destruct (isWhiteSpace c) eqn:Hw.
  - destruct inRun; simpl; rewrite ?plain_space; simpl; apply IH; exact Hs.
  - simpl. rewrite (IH false Hs), andb_true_r. unfold plain.
    rewrite Hc, Hw. reflexivity.
Qed.

Lemma replaceRuns_spaced s : forall inRun,
  singleSpaced (replaceRuns isWhiteSpace inRun s) = true
  /\ (inRun = true -> head (replaceRuns isWhiteSpace inRun s) <> Some 32%N).
Proof.
  induction s as [| c s IH]; intros inRun; simpl; [split; [reflexivity | discriminate] |].
  destruct (isWhiteSpace c) eqn:Hw.
  - destruct (IH true) as [Hs Hh]. destruct inRun; [auto |].
    split; [| discriminate].
    simpl. destruct (replaceRuns isWhiteSpace true s) as [| b rest] eqn:Hr;
      [reflexivity |].
    assert (Hb : b <> 32%N) by (intros ->; apply Hh; reflexivity).
    apply N.eqb_neq in Hb. rewrite Hb. simpl. exact Hs.
  - destruct (IH false) as [Hs _].
    assert (Hc : c <> 32%N) by (intros ->; discriminate Hw).
    split; [| intros _ [= ?]; congruence].
    simpl. destruct (replaceRuns isWhiteSpace false s) as [| b rest] eqn:Hr;
      [reflexivity |].
    apply N.eqb_neq in Hc. rewrite Hc. simpl. exact Hs.
Qed.

Lemma singleSpaced_tail c s : singleSpaced (c :: s) = true -> singleSpaced s = true.
Proof.
  simpl. destruct s as [| b rest]; [reflexivity |].
  intros H. apply andb_true_iff in H. tauto.
Qed.

Lemma trimStart_forallb (p : N -> bool) s :
  forallb p s = true -> forallb p (trimStart s) = true.
Proof.
  unfold trimStart. induction s as [| c s IH]; intros H; simpl; [reflexivity |].
  destruct (isWhiteSpace c); [| exact H].
  simpl in H. apply andb_true_iff in H. apply IH. tauto.
Qed.

Lemma trimStart_spaced s :
  singleSpaced s = true -> singleSpaced (trimStart s) = true.
Proof.
  unfold trimStart. induction s as [| c s IH]; intros H; simpl; [reflexivity |].
  destruct (isWhiteSpace c); [| exact H].
  apply IH. eapply singleSpaced_tail. exact H.
Qed.

Lemma trimStart_head s c :
  head (trimStart s) = Some c -> isWhiteSpace c = false.
Proof.
  unfold trimStart. induction s as [| a s IH]; simpl; [discriminate |].
  destruct (isWhiteSpace a) eqn:Ha; [exact IH |].
  simpl. intros [= <-]. exact Ha.
Qed.

(** [trimEnd] keeps a prefix and ends on a character that is no white
    space. *)
Lemma trimEnd_prefix s : exists dropped,
  s = trimEnd s ++ dropped /\ forallb isWhiteSpace dropped = true.
Proof.
  induction s as [| c s (dropped & Hs & Hd)]; simpl; [exists []; auto |].
  destruct (trimEnd s) as [| k kept] eqn:Ht.
  - destruct (isWhiteSpace c) eqn:Hc.
    + exists (c :: dropped). simpl in Hs. split; [simpl; congruence |].
      simpl. rewrite Hc, Hd. reflexivity.
    + exists dropped. simpl in *. split; [congruence | exact Hd].
  - exists dropped. split; [simpl in *; congruence | exact Hd].
Qed.

Lemma trimEnd_last s c :
  last (trimEnd s) = Some c -> isWhiteSpace c = false.
Proof.
  induction s as [| a s IH]; simpl; [discriminate |].
  destruct (trimEnd s) as [| k kept] eqn:Ht.
  - destruct (isWhiteSpace a) eqn:Ha; [discriminate |].
    simpl. intros [= <-]. exact Ha.
  - rewrite last_cons. destruct (last (k :: kept)) eqn:Hl.
    + intros [= <-]. apply IH. reflexivity.
    + apply last_None in Hl. discriminate.
Qed.
Lemma trimEnd_head s : trimEnd s <> [] -> head (trimEnd s) = head s.
Proof.
  destruct s as [| c s]; simpl; [congruence |].
  destruct (trimEnd s); [destruct (isWhiteSpace c); [congruence | reflexivity] |].
  reflexivity.
Qed.

Lemma forallb_app_l (p : N -> bool) s t :
  forallb p (s ++ t) = true -> forallb p s = true.
Proof. rewrite forallb_app. intros H. apply andb_true_iff in H. tauto. Qed.

Lemma singleSpaced_app_l s t : singleSpaced (s ++ t) = true -> singleSpaced s = true.
Proof.
  induction s as [| a s IH]; [reflexivity |].
  destruct s as [| b s]; [reflexivity |].
  simpl. intros H. apply andb_true_iff in H. destruct H as [Hab Hs].
  rewrite Hab. simpl. apply IH. exact Hs.
Qed.

Lemma cleaned_has_no_syntax (s : list N) :
  forallb (fun c => negb (isAngle c) && negb (isFilterSyntax c))
    (List.map (fun c => if isFilterSyntax c then 32%N else c)
       (List.filter (fun c => negb (isAngle c)) s)) = true.
Proof.
  induction s as [| c s IH]; simpl; [reflexivity |].
  destruct (isAngle c) eqn:Ha; simpl; [exact IH |].
  rewrite IH, andb_true_r.
  destruct (isFilterSyntax c) eqn:Hf; [reflexivity |].
  rewrite Ha, Hf. reflexivity.
Qed.

Lemma white_space_32 : isWhiteSpace 32 = true.
Proof. reflexivity. Qed.

Lemma sanitized_field_is_tidy_or_fallback (v : list N) (fallback : option (list N)) :
  sanitizeMetadataField (Some v) fallback = fallback
  \/ exists s, sanitizeMetadataField (Some v) fallback = Some s /\ tidy s = true.
Proof.
  unfold sanitizeMetadataField.
  set (cleaned := List.map (fun c => if isFilterSyntax c then 32%N else c)
                    (List.filter (fun c => negb (isAngle c))
                       (replaceRuns isLineBreak false v))).
  set (d := replaceRuns isWhiteSpace false cleaned).
  destruct (0 <? length (trim d))%nat eqn:Hlen; [right | left; reflexivity].
  exists (trim d). split; [reflexivity |].
  assert (Hplain : forallb plain d = true)
    by (apply replaceRuns_plain, cleaned_has_no_syntax).
  destruct (replaceRuns_spaced cleaned false) as [Hspaced _]. fold d in Hspaced.
  destruct (trimEnd_prefix (trimStart d)) as (dropped & Hpre & _).
  fold (trim d) in Hpre.
  assert (Hne : trim d <> [])
    by (intros Hnil; rewrite Hnil in Hlen; discriminate).
  unfold tidy. rewrite Hlen. simpl.
  assert (H1 : forallb plain (trim d) = true).
  { apply (forallb_app_l plain _ dropped). rewrite <- Hpre.
    apply trimStart_forallb. exact Hplain. }
  assert (H2 : singleSpaced (trim d) = true).
  { apply (singleSpaced_app_l _ dropped). rewrite <- Hpre.
    apply trimStart_spaced. exact Hspaced. }
  rewrite H1, H2. simpl.
  rewrite !bool_decide_eq_false_2; [reflexivity | |].
  - intros Hl. apply trimEnd_last in Hl. discriminate.
  - unfold trim. rewrite trimEnd_head by exact Hne.
    intros Hh. apply trimStart_head in Hh. discriminate.
Qed.

(** X7.  Whatever string it is given, [sanitizeMetadataField] returns
    the fallback or a tidy string: not empty, free of line breaks, of
    angle brackets and of the characters [ ] , : ' and backslash, with
    no white space other than single spaces, and none at either end; a
    missing value gives the fallback. *)
Theorem sanitized_field_is_tidy (v : list N) (fallback : option (list N)) :
  (sanitizeMetadataField (Some v) fallback = fallback
   \/ exists s, sanitizeMetadataField (Some v) fallback = Some s
                /\ tidy s = true
                /\ Forall (fun c => isLineBreak c = false /\ isAngle c = false
                                    /\ isFilterSyntax c = false
                                    /\ (isWhiteSpace c = true -> c = 32%N)) s)
  /\ sanitizeMetadataField None fallback = fallback.
Proof.
  split; [| reflexivity].
  destruct (sanitized_field_is_tidy_or_fallback v fallback)
    as [H | (s & Hs & Ht)]; [left; exact H | right].
  exists s. split; [exact Hs | split; [exact Ht |]].
  unfold tidy in Ht.
  repeat (apply andb_true_iff in Ht; destruct Ht as [Ht ?]).
  apply Forall_forall. intros c Hin. apply list_elem_of_In in Hin.
  match goal with
  | Hp : forallb plain s = true |- _ =>
      pose proof (proj1 (forallb_forall plain s) Hp c Hin) as Hc
  end.
  revert Hc. clear. unfold plain. intros H.
  apply andb_true_iff in H. destruct H as [H Hw].
  apply andb_true_iff in H. destruct H as [Ha Hf].
  apply negb_true_iff in Ha, Hf.
  assert (Hs : isWhiteSpace c = true -> c = 32%N).
  { intros Hc. rewrite Hc in Hw. simpl in Hw. apply N.eqb_eq. exact Hw. }
  repeat split; try assumption.
  destruct (isLineBreak c) eqn:Hl; [| reflexivity].
  pose proof (Hs (isLineBreak_white c Hl)) as ->. discriminate Hl.
Qed.

Lemma replaceRuns_none (p : N -> bool) s : forall inRun,
  forallb (fun c => negb (p c)) s = true -> replaceRuns p inRun s = s.
Proof.
  induction s as [| c s IH]; intros inRun H; simpl in *; [reflexivity |].
  apply andb_true_iff in H. destruct H as [Hc Hs].
  apply negb_true_iff in Hc. rewrite Hc. f_equal. apply IH. exact Hs.
Qed.
Lemma plain_parts c :
  plain c = true ->
  isAngle c = false /\ isFilterSyntax c = false /\ isLineBreak c = false
  /\ (isWhiteSpace c = true -> c = 32%N).
Proof.
  unfold plain. intros H.
  apply andb_true_iff in H. destruct H as [H Hw].
  apply andb_true_iff in H. destruct H as [Ha Hf].
  apply negb_true_iff in Ha, Hf.
  assert (Hs : isWhiteSpace c = true -> c = 32%N).
  { intros Hc. rewrite Hc in Hw. simpl in Hw. apply N.eqb_eq. exact Hw. }
  repeat split; try assumption.
  destruct (isLineBreak c) eqn:Hl; [| reflexivity].
  pose proof (Hs (isLineBreak_white c Hl)) as ->. discriminate Hl.
Qed.

Lemma replaceRuns_tidy s : forall inRun,
  forallb plain s = true ->
  singleSpaced s = true ->
  (inRun = true -> head s <> Some 32%N) ->
  replaceRuns isWhiteSpace inRun s = s.
Proof.
  induction s as [| c s IH]; intros inRun Hp Hs Hh; [reflexivity |].
  simpl in Hp. apply andb_true_iff in Hp. destruct Hp as [Hc Hp].
  destruct (plain_parts c Hc) as (_ & _ & _ & Hw).
  simpl. destruct (isWhiteSpace c) eqn:Hcw.
  - pose proof (Hw eq_refl) as ->.
    destruct inRun; [exfalso; apply Hh; reflexivity |].
    f_equal. apply IH; [exact Hp | eapply singleSpaced_tail; exact Hs |].
    intros _. destruct s as [| b s]; [discriminate |].
    simpl in Hs. apply andb_true_iff in Hs. destruct Hs as [Hb _].
    simpl in Hb. apply negb_true_iff, N.eqb_neq in Hb. simpl. congruence.
  - f_equal. apply IH; [exact Hp | eapply singleSpaced_tail; exact Hs |].
    discriminate.
Qed.

Lemma trimEnd_fixed s c :
  last s = Some c -> isWhiteSpace c = false -> trimEnd s = s.
Proof.
  induction s as [| a s IH]; intros Hl Hc; [reflexivity |].
  simpl. destruct s as [| b s].
  - simpl in *. injection Hl as ->. rewrite Hc. reflexivity.
  - rewrite last_cons in Hl.
    destruct (last (b :: s)) as [l |] eqn:Hlast.
    + injection Hl as ->. rewrite (IH eq_refl Hc). reflexivity.
    + apply last_None in Hlast. discriminate.
Qed.

Lemma tidy_fixed s fallback :
  tidy s = true -> sanitizeMetadataField (Some s) fallback = Some s.
Proof.
  unfold tidy. intros H.
  repeat (apply andb_true_iff in H; destruct H as [H ?]).
  rename H into Hlen, H0 into Hlast, H1 into Hhead, H2 into Hspaced, H3 into Hplain.
  apply negb_true_iff, bool_decide_eq_false in Hlast, Hhead.
  assert (Hparts : forall c, In c s -> plain c = true)
    by (apply forallb_forall; exact Hplain).
  unfold sanitizeMetadataField.
  rewrite (replaceRuns_none isLineBreak s false).
  2:{ apply forallb_forall. intros c Hin. apply negb_true_iff.
      apply (plain_parts c (Hparts c Hin)). }
  replace (List.filter (fun c => negb (isAngle c)) s) with s.
  2:{ symmetry. apply forallb_filter_id. apply forallb_forall. intros c Hin.
      apply negb_true_iff. apply (plain_parts c (Hparts c Hin)). }
  replace (List.map (fun c => if isFilterSyntax c then 32%N else c) s) with s.
  2:{ symmetry. rewrite <- (map_id s) at 2. apply map_ext_in. intros c Hin.
      destruct (plain_parts c (Hparts c Hin)) as (_ & -> & _). reflexivity. }
  rewrite (replaceRuns_tidy s false Hplain Hspaced) by discriminate.
  assert (Htrim : trim s = s).
  { unfold trim, trimStart.
    destruct s as [| c s']; [discriminate Hlen |].
    assert (Hc : isWhiteSpace c = false).
    { destruct (isWhiteSpace c) eqn:Hw; [| reflexivity].
      destruct (plain_parts c (Hparts c (or_introl eq_refl))) as (_ & _ & _ & H32).
      exfalso. apply Hhead. simpl. f_equal. apply H32. exact Hw. }
    simpl dropWhile. rewrite Hc.
    destruct (last (c :: s')) as [l |] eqn:Hl;
      [| apply last_None in Hl; discriminate].
    apply (trimEnd_fixed _ l Hl).
    destruct (isWhiteSpace l) eqn:Hw; [| reflexivity].
    assert (Hin : In l (c :: s')).
    { apply last_Some in Hl. destruct Hl as [pre ->].
      apply in_or_app. right. left. reflexivity. }
    destruct (plain_parts l (Hparts l Hin)) as (_ & _ & _ & H32).
    exfalso. apply Hlast. rewrite <- (H32 Hw). reflexivity. }
  rewrite Htrim, Hlen. reflexivity.
Qed.

(** X8.  Sanitizing is idempotent: a tidy string comes back unchanged,
    so with a fallback that is tidy or [null], as every fallback of the
    server is, sanitizing the result again changes nothing. *)
Theorem sanitize_is_idempotent (v : list N) (fallback : option (list N)) :
  (forall f, fallback = Some f -> tidy f = true) ->
  (forall s, tidy s = true -> sanitizeMetadataField (Some s) fallback = Some s)
  /\ sanitizeMetadataField (sanitizeMetadataField (Some v) fallback) fallback
     = sanitizeMetadataField (Some v) fallback.
Proof.
  intros Hfb. split; [intros s Hs; apply tidy_fixed; exact Hs |].
  destruct (sanitized_field_is_tidy_or_fallback v fallback) as [-> | (s & -> & Hs)].
  - destruct fallback as [f |]; [| reflexivity].
    apply tidy_fixed. apply Hfb. reflexivity.
  - apply tidy_fixed. exact Hs.
Qed.

Lemma sanitize_is_idempotent_witness :
  sanitizeMetadataField
    (sanitizeMetadataField
       (Some (ofString "AC/DC: <Live> " ++ [13%N; 10%N] ++ ofString " [Intro]"))
       (Some (ofString "StreamDJ Live")))
    (Some (ofString "StreamDJ Live"))
  = Some (ofString "AC/DC Live Intro").
Proof.
  assert (Hfb : forall f, Some (ofString "StreamDJ Live") = Some f -> tidy f = true)
    by (intros f [= <-]; reflexivity).
  rewrite (proj2 (sanitize_is_idempotent _ _ Hfb)). reflexivity.
Defined.
End MetadataFacts.

Module OverlayFacts.
Import Overlay.

Lemma replaceChar_cons c by_ a s :
  replaceChar c by_ (a :: s)
  = (if (a =? c)%N then by_ else [a]) ++ replaceChar c by_ s.
Proof. reflexivity. Qed.

(** Putting an escape character before every occurrence of a character
    maps different strings to different strings. *)
Lemma replaceChar_escape_inj (c e : N) : forall x y,
  replaceChar c [e; c] x = replaceChar c [e; c] y -> x = y.
Proof.
  assert (Hodd : forall a s t,
             (a =? c)%N = false ->
             [e; c] ++ replaceChar c [e; c] s
             = [a] ++ replaceChar c [e; c] t -> False).
  { intros a s t Ha H. injection H as He Hrest. subst a.
    destruct t as [| d t]; [discriminate |].
    rewrite replaceChar_cons in Hrest.
    destruct (d =? c)%N eqn:Hd; injection Hrest as Hc _.
    - subst e. rewrite N.eqb_refl in Ha. discriminate.
    - subst d. rewrite N.eqb_refl in Hd. discriminate. }
  induction x as [| a x IH]; intros [| b y] H.
  - reflexivity.
  - rewrite replaceChar_cons in H. destruct (b =? c)%N; discriminate.
  - rewrite replaceChar_cons in H. destruct (a =? c)%N; discriminate.
  - rewrite !replaceChar_cons in H.
    destruct (a =? c)%N eqn:Ha, (b =? c)%N eqn:Hb.
    + apply N.eqb_eq in Ha, Hb. subst a b.
      injection H as H. f_equal. apply IH, H.
    + exfalso. exact (Hodd b x y Hb H).
    + exfalso. symmetry in H. exact (Hodd a y x Ha H).
    + injection H as -> H. f_equal. apply IH, H.
Qed.

Lemma escaped_path_wellEscaped : forall s,
  ~ In 92%N s ->
  wellEscaped (replaceChar 39 [92%N; 39%N] (replaceChar 58 [92%N; 58%N] s)) = true.
Proof.
  induction s as [| a s IH]; intros Hno; [reflexivity |].
  assert (Ha : a <> 92%N) by (intros ->; apply Hno; left; reflexivity).
  assert (Hs : ~ In 92%N s) by (intros Hin; apply Hno; right; exact Hin).
  specialize (IH Hs).
  assert (Hcons : replaceChar 39 [92%N; 39%N]
                    (replaceChar 58 [92%N; 58%N] (a :: s))
                  = (if ((a =? 58) || (a =? 39))%N then [92%N; a] else [a])
                    ++ replaceChar 39 [92%N; 39%N]
                         (replaceChar 58 [92%N; 58%N] s)).
  { unfold replaceChar. simpl.
    destruct (a =? 58)%N eqn:H58.
    - apply N.eqb_eq in H58. subst a. reflexivity.
    - simpl. destruct (a =? 39)%N eqn:H39; [| reflexivity].
      apply N.eqb_eq in H39. subst a. reflexivity. }
  rewrite Hcons. clear Hcons.
  destruct ((a =? 58) || (a =? 39))%N eqn:Hesc.
  - simpl. rewrite Hesc. exact IH.
  - apply orb_false_iff in Hesc. destruct Hesc as [H58 H39].
    apply N.eqb_neq in H58, H39.
    destruct a as [| p]; [simpl; exact IH |].
    do 7 (destruct p as [p | p |]; try (simpl; exact IH); try congruence).
Qed.

Lemma normalized_no_backslash p : ~ In 92%N (replaceChar 92 [47%N] p).
Proof.
  induction p as [| a p IH]; [intros [] |].
  rewrite replaceChar_cons. destruct (a =? 92)%N eqn:Ha; simpl.
  - intros [H | H]; [discriminate | exact (IH H)].
  - apply N.eqb_neq in Ha. intros [H | H]; [congruence | exact (IH H)].
Qed.

(** X9.  The escaping of the overlay renderer loses nothing.  What
    [ffmpegFilterPath] returns stands between two quotes, with backslashes
    before its colons and quotes and nowhere else; two paths are quoted to
    the same string exactly when they are the same path once backslashes
    are written as slashes.  [escapeDrawtextText] maps different texts to
    different strings, and no text to the empty string. *)
Theorem overlay_escaping_is_injective (p q : list N) (t u : list N) :
  (exists body,
     ffmpegFilterPath p = [39%N] ++ body ++ [39%N]
     /\ wellEscaped body = true)
  /\ (ffmpegFilterPath p = ffmpegFilterPath q
      <-> replaceChar 92 [47%N] p = replaceChar 92 [47%N] q)
  /\ (escapeDrawtextText (Some t) = escapeDrawtextText (Some u) -> t = u)
  /\ escapeDrawtextText None = [].
Proof.
  split; [| split; [| split; [| reflexivity]]].
  - eexists. split; [reflexivity |].
    apply escaped_path_wellEscaped, normalized_no_backslash.
  - unfold ffmpegFilterPath. split.
    + intros H. injection H as H. apply app_inv_tail in H.
      apply replaceChar_escape_inj in H. apply replaceChar_escape_inj in H.
      exact H.
    + intros ->. reflexivity.
  - assert (Hesc : forall s,
               escapeDrawtextText (Some s) = replaceChar 37 [37%N; 37%N] s)
      by (intros [| a s]; reflexivity).
    rewrite !Hesc. apply replaceChar_escape_inj.
Qed.

End OverlayFacts.

(** ** The playlist and the playback controller: shuffle, history, pause, skip *)

Module PlaybackFacts.
Import Player Playback.

Lemma swap_Permutation i j (arr : list Z) : swap i j arr ≡ₚ arr.
Proof.
  unfold swap.
  destruct (arr !! i) as [x |] eqn:Hi; [| reflexivity].
  destruct (arr !! j) as [y |] eqn:Hj; [| reflexivity].
  apply Permutation_insert_swap; assumption.
Qed.

Lemma shuffleFrom_Permutation i : forall draws (arr : list Z),
  shuffleFrom i draws arr ≡ₚ arr.
Proof.
  induction i as [| i IH]; intros draws arr; simpl; [reflexivity |].
  rewrite IH. apply swap_Permutation.
Qed.

(** X10.  A refreshed shuffle queue is a permutation of the indices of
    the playlist other than the excluded one (of all of them when the
    playlist has one track): every other track is queued exactly once. *)
Theorem shuffle_queue_is_permutation draws excludeIndex pl :
  let others :=
    List.filter
      (fun idx => negb (idx =? excludeIndex)
                  || (length (playlist pl) =? 1)%nat)
      (List.map Z.of_nat (seq 0 (length (playlist pl)))) in
  shuffledQueue (refreshShuffleQueue draws excludeIndex pl) ≡ₚ others
  /\ NoDup (shuffledQueue (refreshShuffleQueue draws excludeIndex pl))
  /\ (forall idx,
        idx ∈ shuffledQueue (refreshShuffleQueue draws excludeIndex pl)
        <-> 0 <= idx < Z.of_nat (length (playlist pl))
            /\ (idx <> excludeIndex \/ length (playlist pl) = 1%nat)).
Proof.
  intros others.
  assert (Hperm : shuffledQueue (refreshShuffleQueue draws excludeIndex pl) ≡ₚ others)
    by apply shuffleFrom_Permutation.
  assert (Hnodup : NoDup others).
  { subst others. apply NoDup_ListNoDup, List.NoDup_filter.
    apply Finite.Injective_map_NoDup; [intros a b; lia | apply List.seq_NoDup]. }
  split; [exact Hperm | split].
  - rewrite Hperm. exact Hnodup.
  - intros idx. rewrite Hperm. subst others.
    rewrite list_elem_of_In, filter_In, in_map_iff. split.
    + intros [(k & <- & Hk) Hf]. apply in_seq in Hk. split; [lia |].
      apply orb_true_iff in Hf. destruct Hf as [Hf | Hf].
      * left. apply negb_true_iff, Z.eqb_neq in Hf. exact Hf.
      * right. apply Nat.eqb_eq. exact Hf.
    + intros [Hr Hx]. split.
      * exists (Z.to_nat idx). split; [lia | apply in_seq; lia].
      * apply orb_true_iff. destruct Hx as [Hx | Hx].
        -- left. apply negb_true_iff, Z.eqb_neq. exact Hx.
        -- right. apply Nat.eqb_eq. exact Hx.
Qed.

Lemma removelast_snoc {A} (l : list A) (x : A) : removelast (l ++ [x]) = l.
Proof. apply List.removelast_last. Qed.

(** X11.  The history is a stack: [popFromHistory] hands back the index
    [addToHistory] recorded last and leaves the history as it was before;
    on an empty history it returns [null] and changes nothing; and with
    no track playing [addToHistory] records nothing. *)
Theorem history_round_trip pl :
  is_Some (getTrackAtIndex (currentIndex pl) pl) ->
  popFromHistory (addToHistory pl) = (Some (currentIndex pl), pl)
  /\ (forall pl', history pl' = [] -> popFromHistory pl' = (None, pl'))
  /\ (forall pl', currentIndex pl' = -1 -> addToHistory pl' = pl').
Proof.
  intros Htrack. split; [| split].
  - assert (Hcur : (currentIndex pl =? -1) = false).
    { apply Z.eqb_neq. intros Heq. rewrite Heq in Htrack.
      destruct Htrack as [t Ht]. discriminate Ht. }
    unfold addToHistory, popFromHistory. rewrite Hcur. simpl.
    rewrite last_snoc, removelast_snoc.
    unfold getTrackAtIndex in *. simpl.
    rewrite bool_decide_eq_true_2 by exact Htrack.
    destruct pl; reflexivity.
  - intros pl' Hh. unfold popFromHistory. rewrite Hh. reflexivity.
  - intros pl' Hc. unfold addToHistory. rewrite Hc. reflexivity.
Qed.

Lemma history_round_trip_witness :
  popFromHistory (addToHistory (playlistManager playingSecond))
  = (Some 1, playlistManager playingSecond).
Proof.
  apply (history_round_trip (playlistManager playingSecond)).
  vm_compute. eexists. reflexivity.
Defined.

Lemma awaitStop_stopPlayback intent closing c :
  intent <> "" ->
  let '(c1, cmds, waits) := stopPlayback intent c in
  awaitStop waits closing c1 = (if isPlaying c then stopped c else c, [])
  /\ cmds = if isPlaying c then [KillDecoder] else [].
Proof.
  intros Hintent. unfold stopPlayback, isPlaying.
  destruct c as [[proc st off pa si sd] pl]. simpl.
  destruct proc as [d |]; simpl.
  - destruct closing as [[now draws] o].
    unfold onStoppedClose, onDecoderClose. simpl.
    assert (Hne : String.eqb intent "" = false) by (apply String.eqb_neq, Hintent).
    rewrite Hne. simpl. split; reflexivity.
  - split; reflexivity.
Qed.

Lemma setCurrentIndex_same pl :
  currentTrack pl = getTrackAtIndex (currentIndex pl) pl ->
  setCurrentIndex (currentIndex pl) pl = pl.
Proof.
  intros H. unfold setCurrentIndex. rewrite <- H. destruct pl; reflexivity.
Qed.
(** X12.  Pausing a playing track and resuming it goes on with the same
    track from the position the pause was made at, when the 'close' event
    of the killed decoder is what the controller sees next: the pause
    kills the decoder and starts nothing, the position stands still while
    paused, and the resume spawns the decoder of that track at that
    position; playlist, current index, history and queue are as before
    the pause. *)
Theorem pause_then_resume_continues_track now1 closing now2 d c track :
  playing c ->
  getTrackAtIndex (currentIndex (playlistManager c)) (playlistManager c)
    = Some track ->
  noHandle d = false ->
  let position := getCurrentPositionMs now1 c in
  let paused := pausePlayback now1 closing c in
  let resumed := resumePlayback now2 (SpawnReturns d) paused.1 in
  paused.2 = [KillDecoder]
  /\ isPlaying paused.1 = false
  /\ (forall t, getCurrentPositionMs t paused.1 = position)
  /\ playlistManager paused.1 = playlistManager c
  /\ resumed.2 = [Did (SpawnDecoder (fullPath track) position);
                  Did (PostMetadata track)]
  /\ playlistManager resumed.1 = playlistManager c
  /\ playing resumed.1
  /\ (now2 <> 0 ->
      forall t, getCurrentPositionMs t resumed.1 = position + (t - now2)).
Proof.
  intros (Hproc & Htr & Hcur & Hpa & Hsi & Hsd) Htrack Hd position paused resumed.
  assert (Hidx : (currentIndex (playlistManager c) =? -1) = false).
  { apply Z.eqb_neq. intros Heq. rewrite Heq in Htrack. discriminate Htrack. }
  assert (Hpaused : paused
            = (pausePlayback_end (stopped (setOffset position c)), [KillDecoder])).
  { subst paused. unfold pausePlayback, pausePlayback_begin.
    unfold isPlaying. rewrite bool_decide_eq_true_2 by exact Hproc.
    rewrite Hpa. simpl negb. cbv iota. simpl orb. cbv iota.
    fold position.
    pose proof (awaitStop_stopPlayback "pause" closing (setOffset position c))
      as Hstop.
    destruct (stopPlayback "pause" (setOffset position c)) as [[c1 cmds] waits] eqn:Hs.
    simpl fst.
    unfold stopPlayback in Hs. simpl in Hs.
    destruct (process (playback c)) as [p |] eqn:Hp;
      [| destruct Hproc as [x Hx]; discriminate Hx].
    injection Hs as <- <- <-.
    destruct Hstop as [Hawait _]; [discriminate |].
    rewrite Hawait. unfold isPlaying. simpl. rewrite Hp.
    rewrite bool_decide_eq_true_2 by (eexists; reflexivity). reflexivity. }
  assert (Hplay : playTrackAtIndex (currentIndex (playlistManager c)) position now2
                    (SpawnReturns d) paused.1
                  = ({| playback :=
                          {| process := d; startTime := Some now2;
                             offset := position; isPaused := false;
                             stopIntent := None;
                             shuttingDown := shuttingDown (playback c) |};
                        playlistManager := playlistManager c |},
                     [SpawnDecoder (fullPath track) position; PostMetadata track])).
  { rewrite Hpaused. unfold playTrackAtIndex. simpl.
    rewrite Htrack, Hd. rewrite (setCurrentIndex_same _ Hcur). reflexivity. }
  assert (Hresumed : resumed
            = ({| playback :=
                    {| process := d; startTime := Some now2;
                       offset := position; isPaused := false;
                       stopIntent := None;
                       shuttingDown := shuttingDown (playback c) |};
                  playlistManager := playlistManager c |},
               [Did (SpawnDecoder (fullPath track) position);
                Did (PostMetadata track)])).
  { subst resumed. unfold resumePlayback.
    replace (isPaused (playback paused.1)) with true by (rewrite Hpaused; reflexivity).
    replace (currentIndex (playlistManager paused.1))
      with (currentIndex (playlistManager c)) by (rewrite Hpaused; reflexivity).
    replace (offset (playback paused.1)) with position
      by (rewrite Hpaused; reflexivity).
    rewrite Hidx, Hplay. reflexivity. }
  rewrite Hresumed. rewrite Hpaused. simpl.
  split; [reflexivity |].
  split; [apply bool_decide_eq_false_2; intros [x Hx]; discriminate Hx |].
  split; [intros t; reflexivity |].
  split; [reflexivity |].
  split; [reflexivity |].
  split; [reflexivity |].
  split.
  - unfold playing. simpl. rewrite Htrack.
    split; [destruct d as [dec |]; [eexists; reflexivity | discriminate Hd] |].
    split; [eexists; reflexivity |].
    split; [rewrite Hcur; exact Htrack |].
    split; [reflexivity |]. split; [reflexivity | exact Hsd].
  - intros Hnow t. unfold getCurrentPositionMs. simpl.
    destruct (now2 =? 0) eqn:H0; [apply Z.eqb_eq in H0; contradiction |].
    reflexivity.
Qed.

Lemma pause_then_resume_continues_track_witness :
  (resumePlayback 9000 (SpawnReturns (Some decoder))
     (pausePlayback 4000 (4100, [], SpawnThrows) (secondStartedAt 1000)).1).2
  = [Did (SpawnDecoder (fullPath (track "b")) 3000); Did (PostMetadata (track "b"))].
Proof.
  destruct (pause_then_resume_continues_track 4000 (4100, [], SpawnThrows) 9000
              (Some decoder) (secondStartedAt 1000) (track "b"))
    as (_ & _ & _ & _ & Hresumed & _).
  - vm_compute. repeat split; try reflexivity; eexists; reflexivity.
  - reflexivity.
  - reflexivity.
  - exact Hresumed.
Defined.

Lemma pickNextIndex_keeps draws pl :
  playlist (pickNextIndex draws pl).2 = playlist pl
  /\ currentIndex (pickNextIndex draws pl).2 = currentIndex pl
  /\ currentTrack (pickNextIndex draws pl).2 = currentTrack pl
  /\ history (pickNextIndex draws pl).2 = history pl.
Proof.
  unfold pickNextIndex.
  destruct (length (playlist pl) =? 0)%nat; [repeat split |].
  destruct (shuffle pl); simpl.
  - destruct (length (shuffledQueue pl) =? 0)%nat.
    + destruct (shuffledQueue (refreshShuffleQueue draws (currentIndex pl) pl));
        repeat split.
    + destruct (shuffledQueue pl); repeat split.
  - destruct (currentIndex pl =? -1); repeat split.
Qed.
Lemma playTrackAtIndex_keeps index offsetMs now o c :
  playlist (playlistManager (playTrackAtIndex index offsetMs now o c).1)
    = playlist (playlistManager c)
  /\ history (playlistManager (playTrackAtIndex index offsetMs now o c).1)
     = history (playlistManager c).
Proof.
  unfold playTrackAtIndex.
  destruct (getTrackAtIndex index (playlistManager c)); [| split; reflexivity].
  destruct o as [| d]; [split; reflexivity |].
  destruct (noHandle d); split; reflexivity.
Qed.

Lemma stop_keeps_playlist intent closing c :
  intent <> "" ->
  playlistManager
    (awaitStop (stopPlayback intent c).2 closing (stopPlayback intent c).1.1).1
  = playlistManager c.
Proof.
  intros Hintent.
  pose proof (awaitStop_stopPlayback intent closing c Hintent) as H.
  destruct (stopPlayback intent c) as [[c1 cmds] waits]. simpl.
  destruct H as [-> _]. destruct (isPlaying c); reflexivity.
Qed.

(** X13.  [skipToNext] followed by [skipToPrevious] comes back to the
    track that was current, when each killed decoder closes before
    anything else reaches the controller: it is the current track again,
    its decoder is spawned from the start, and the history is what it was
    before the two skips, whatever became of the track skipped to. *)
Theorem skip_next_then_previous_returns
    draws closing1 now1 o1 closing2 now2 d c track :
  getTrackAtIndex (currentIndex (playlistManager c)) (playlistManager c)
    = Some track ->
  queueInRange (playlistManager c) ->
  noHandle d = false ->
  let skipped := skipToNext draws closing1 now1 o1 c in
  let back := skipToPrevious closing2 now2 (SpawnReturns d) skipped.1 in
  history (playlistManager skipped.1)
    = history (playlistManager c) ++ [currentIndex (playlistManager c)]
  /\ currentIndex (playlistManager back.1) = currentIndex (playlistManager c)
  /\ currentTrack (playlistManager back.1) = Some track
  /\ history (playlistManager back.1) = history (playlistManager c)
  /\ playlist (playlistManager back.1) = playlist (playlistManager c)
  /\ process (playback back.1) = d
  /\ offset (playback back.1) = 0
  /\ exists before,
       back.2 = before ++ [Did (SpawnDecoder (fullPath track) 0);
                           Did (PostMetadata track)].
Proof.
  intros Htrack Hq Hd skipped back.
  set (cur := currentIndex (playlistManager c)) in *.
  assert (Hcur : 0 <= cur).
  { unfold getTrackAtIndex in Htrack.
    destruct (cur <? 0) eqn:Hneg; [discriminate | apply Z.ltb_ge in Hneg; lia]. }
  assert (Hne : playlist (playlistManager c) <> []).
  { unfold getTrackAtIndex in Htrack. intros Hnil. rewrite Hnil in Htrack.
    destruct (cur <? 0); [discriminate |]. rewrite lookup_nil in Htrack.
    discriminate. }
  assert (Hskipped : playlist (playlistManager skipped.1) = playlist (playlistManager c)
                     /\ history (playlistManager skipped.1)
                        = history (playlistManager c) ++ [cur]).
  { subst skipped. unfold skipToNext, skipToNext_begin.
    destruct (length (playlist (playlistManager c)) =? 0)%nat eqn:Hlen.
    { apply Nat.eqb_eq in Hlen. destruct (playlist (playlistManager c));
        [congruence | discriminate]. }
    pose proof (PlayerFacts.pickNextIndex_some draws (playlistManager c) Hne) as Hsome.
    pose proof (pickNextIndex_keeps draws (playlistManager c)) as Hkeep.
    destruct (pickNextIndex draws (playlistManager c)) as [nextIndex pl] eqn:Hpick.
    simpl in Hsome, Hkeep. destruct Hkeep as (Hpl & Hci & _ & Hh).
    destruct Hsome as [Hnext _]; [fold cur; lia | exact Hq |].
    apply Z.eqb_neq in Hnext. rewrite Hnext.
    pose proof (stop_keeps_playlist "manual" closing1
                  (withPlaylist (addToHistory pl) c)) as Hstop.
    destruct (stopPlayback "manual" (withPlaylist (addToHistory pl) c))
      as [[c1 cmds] waits]. simpl in Hstop.
    unfold skipThen.
    destruct (awaitStop waits closing1 c1) as [c2 closed]. simpl in Hstop.
    rewrite <- Hpl, <- Hh.
    pose proof (playTrackAtIndex_keeps nextIndex 0 now1 o1 c2) as Hplay.
    unfold skip_end.
    destruct (playTrackAtIndex nextIndex 0 now1 o1 c2) as [c3 acts]. simpl in *.
    destruct Hplay as [-> ->]. rewrite Hstop by discriminate.
    unfold addToHistory. rewrite Hci. fold cur.
    destruct (cur =? -1) eqn:Hm; [apply Z.eqb_eq in Hm; lia |].
    split; reflexivity. }
  destruct Hskipped as [Hpl Hh].
  split; [exact Hh |].
  subst back. unfold skipToPrevious, skipToPrevious_begin, popFromHistory.
  rewrite Hh, last_snoc, removelast_snoc.
  assert (Hthere : getTrackAtIndex cur (playlistManager skipped.1) = Some track).
  { unfold getTrackAtIndex in *. rewrite Hpl. exact Htrack. }
  rewrite bool_decide_eq_true_2 by (rewrite Hthere; eexists; reflexivity).
  set (c0 := withPlaylist _ skipped.1).
  pose proof (stop_keeps_playlist "manual" closing2 c0) as Hstop.
  destruct (stopPlayback "manual" c0) as [[c1 cmds] waits]. cbn [fst snd] in Hstop.
  unfold skipThen.
  destruct (awaitStop waits closing2 c1) as [c2 closed]. cbn [fst snd] in Hstop.
  specialize (Hstop ltac:(discriminate)).
  unfold skip_end, playTrackAtIndex. rewrite Hstop.
  assert (Hthere0 : getTrackAtIndex cur (playlistManager c0) = Some track)
    by exact Hthere.
  rewrite Hthere0, Hd. simpl.
  split; [reflexivity |]. split; [exact Hthere0 |].
  split; [reflexivity |]. split; [exact Hpl |].
  split; [reflexivity |]. split; [reflexivity |].
  exists (cmds ++ closed). rewrite <- app_assoc. reflexivity.
Qed.

Lemma skip_next_then_previous_returns_witness :
  currentIndex
    (playlistManager
       (skipToPrevious (7100, [], SpawnThrows) 7200 (SpawnReturns (Some decoder))
          (skipToNext [] (5100, [], SpawnThrows) 5200 SpawnThrows
             playingSecond).1).1) = 1.
Proof.
  destruct (skip_next_then_previous_returns [] (5100, [], SpawnThrows) 5200
              SpawnThrows (7100, [], SpawnThrows) 7200 (Some decoder)
              playingSecond (track "b"))
    as (_ & Hindex & _).
  - reflexivity.
  - vm_compute. constructor.
  - reflexivity.
  - exact Hindex.
Defined.
End PlaybackFacts.

(** ** The Transport Socket: the bound on reconnects, and shutdown *)

Module ReconnectFacts.
Import AudioSocket Reconnect.

(** The counter of attempts is the length of the failure run in progress
    and stays within the maximum. *)
Lemma step_counts maxAttempts e st cur rest :
  reconnectAttempts st = Z.of_nat (length cur) ->
  reconnectAttempts st <= Z.max 0 maxAttempts ->
  exists cur' closed,
    reconnectAttempts (step maxAttempts e st).1 = Z.of_nat (length cur')
    /\ reconnectAttempts (step maxAttempts e st).1 <= Z.max 0 maxAttempts
    /\ Forall (fun ds => Z.of_nat (length ds) <= Z.max 0 maxAttempts) closed
    /\ failureRuns cur ((step maxAttempts e st).2 ++ rest)
       = closed ++ failureRuns cur' rest.
Proof.
  intros Hlen Hmax.
  assert (Hkept : forall st', reconnectAttempts st' = reconnectAttempts st ->
            reconnectAttempts st' = Z.of_nat (length cur)
            /\ reconnectAttempts st' <= Z.max 0 maxAttempts
            /\ Forall (fun ds => Z.of_nat (length ds) <= Z.max 0 maxAttempts)
                 (@nil (list Z))).
  { intros st' ->. auto. }
  destruct e; simpl.
  - unfold connect, clearReconnectTimer.
    destruct (shuttingDown st), (reconnectTimer st); simpl;
      exists cur, (@nil (list Z)); auto.
  - unfold disconnect, clearReconnectTimer.
    destruct (reconnectTimer st), (socket st); simpl;
      exists cur, (@nil (list Z)); auto.
  - unfold setShuttingDown, clearReconnectTimer.
    destruct value, (reconnectTimer st); simpl; exists cur, (@nil (list Z)); auto.
  - exists cur, (@nil (list Z)); auto.
  - exists [], [cur]. simpl. split; [reflexivity |]. split; [lia |].
    split; [| reflexivity]. constructor; [lia | constructor].
  - destruct hasCallback; exists cur, (@nil (list Z)); auto.
  - exists cur, (@nil (list Z)); auto.
  - unfold onClose, scheduleReconnect; simpl.
    destruct (shuttingDown st); [exists cur, (@nil (list Z)); auto |].
    destruct (bool_decide (is_Some (reconnectTimer st)));
      [exists cur, (@nil (list Z)); auto |].
    destruct (maxAttempts <=? reconnectAttempts st) eqn:Hfull;
      [exists cur, (@nil (list Z)); auto |].
    apply Z.leb_gt in Hfull. simpl.
    exists (cur ++ [Z.min (reconnectDelay st) RECONNECT_CAP_MS]), (@nil (list Z)).
    rewrite length_app. simpl. split; [lia |]. split; [lia |].
    split; [constructor | reflexivity].
  - unfold onReconnectTimer, connect, clearReconnectTimer.
    destruct (reconnectTimer st); simpl; [| exists cur, (@nil (list Z)); auto].
    destruct (shuttingDown st); simpl; exists cur, (@nil (list Z)); auto.
Qed.

Lemma run_counts maxAttempts evs : forall st cur,
  reconnectAttempts st = Z.of_nat (length cur) ->
  reconnectAttempts st <= Z.max 0 maxAttempts ->
  Forall (fun ds => Z.of_nat (length ds) <= Z.max 0 maxAttempts)
    (failureRuns cur (run maxAttempts evs st).2).
Proof.
  induction evs as [| e evs IH]; intros st cur Hlen Hmax.
  - simpl. constructor; [lia | constructor].
  - simpl.
    destruct (step maxAttempts e st) as [st1 acts] eqn:Hstep.
    destruct (run maxAttempts evs st1) as [st2 acts'] eqn:Hrun.
    simpl.
    destruct (step_counts maxAttempts e st cur acts' Hlen Hmax)
      as (cur' & closed & Hlen1 & Hmax1 & Hdone & Heq).
    rewrite Hstep in *. simpl in *. rewrite Heq.
    apply Forall_app. split; [exact Hdone |].
    specialize (IH st1 cur' Hlen1 Hmax1). rewrite Hrun in IH. exact IH.
Qed.

(** X14.  Between two successful connections the socket arms the
    reconnect timer at most [maxReconnectAttempts] times, whatever
    happens to it: every run of consecutive failures holds at most that
    many delays (none when the maximum is zero or negative). *)
Theorem reconnects_bounded_by_maximum (maxReconnectAttempts : Z)
    (evs : list Event) :
  Forall (fun ds => Z.of_nat (length ds) <= Z.max 0 maxReconnectAttempts)
    (failureRuns [] (run maxReconnectAttempts evs initial).2).
Proof.
  apply run_counts; simpl; lia.
Qed.

Lemma shut_step maxAttempts e st :
  shuttingDown st = true ->
  reconnectTimer st = None ->
  keepsShutdown e = true ->
  shuttingDown (step maxAttempts e st).1 = true
  /\ reconnectTimer (step maxAttempts e st).1 = None
  /\ forallb (fun a => negb (reaches a)) (step maxAttempts e st).2 = true.
Proof.
  intros Hs Ht Hk.
  destruct e; simpl.
  - unfold connect. rewrite Hs. auto.
  - unfold disconnect, clearReconnectTimer. rewrite Ht.
    destruct (socket st); simpl; auto.
  - destruct value; [| discriminate Hk].
    unfold setShuttingDown, clearReconnectTimer. simpl. rewrite Ht. auto.
  - auto.
  - auto.
  - destruct hasCallback; auto.
  - auto.
  - unfold onClose, scheduleReconnect. simpl. rewrite Hs. auto.
  - unfold onReconnectTimer. rewrite Ht. auto.
Qed.

Lemma nothing_opened (tr : list Action) :
  forallb (fun a => negb (reaches a)) tr = true -> opened tr = [].
Proof.
  induction tr as [| a tr IH]; [reflexivity |].
  simpl. intros Ha. apply andb_true_iff in Ha. destruct Ha as [Ha Htr].
  unfold opened in *. simpl. destruct a; try discriminate Ha; apply IH, Htr.
Qed.
(** X15.  After [setShuttingDown(true)] the socket neither opens a
    connection nor arms the reconnect timer, and no timer is left
    pending, whatever happens next, as long as the flag is not taken
    back with [setShuttingDown(false)]. *)
Theorem no_reconnect_while_shutting_down (maxReconnectAttempts : Z)
    (st : SocketState) (evs : list Event) :
  forallb keepsShutdown evs = true ->
  let after := run maxReconnectAttempts evs (setShuttingDown true st).1 in
  forallb (fun a => negb (reaches a)) after.2 = true
  /\ opened after.2 = []
  /\ reconnectTimer after.1 = None
  /\ shuttingDown after.1 = true.
Proof.
  intros Hevs after.
  assert (Hrun : forall evs st0,
            forallb keepsShutdown evs = true ->
            shuttingDown st0 = true -> reconnectTimer st0 = None ->
            forallb (fun a => negb (reaches a)) (run maxReconnectAttempts evs st0).2
              = true
            /\ reconnectTimer (run maxReconnectAttempts evs st0).1 = None
            /\ shuttingDown (run maxReconnectAttempts evs st0).1 = true).
  { clear. induction evs as [| e evs IH]; intros st0 Hk Hs Ht; [simpl; auto |].
    simpl in Hk. apply andb_true_iff in Hk. destruct Hk as [Hk Hks].
    destruct (shut_step maxReconnectAttempts e st0 Hs Ht Hk) as (Hs1 & Ht1 & Ha).
    simpl. destruct (step maxReconnectAttempts e st0) as [st1 acts].
    specialize (IH st1 Hks Hs1 Ht1).
    destruct (run maxReconnectAttempts evs st1) as [st2 acts']. simpl in *.
    rewrite forallb_app, Ha. exact IH. }
  destruct (Hrun evs (setShuttingDown true st).1 Hevs) as (Ha & Ht & Hs).
  - unfold setShuttingDown, clearReconnectTimer. simpl.
    destruct (reconnectTimer st); reflexivity.
  - unfold setShuttingDown, clearReconnectTimer. simpl.
    destruct (reconnectTimer st); reflexivity.
  - split; [exact Ha |]. split; [| split; [exact Ht | exact Hs]].
    apply nothing_opened, Ha.
Qed.

Lemma no_reconnect_while_shutting_down_witness :
  opened (run 10 [SocketClose 0; ReconnectTimer; Connect; SocketClose 1]
            (setShuttingDown true (run 10 [Connect; SocketConnect 0] initial).1).1).2
  = [].
Proof.
  apply (no_reconnect_while_shutting_down 10
           (run 10 [Connect; SocketConnect 0] initial).1
           [SocketClose 0; ReconnectTimer; Connect; SocketClose 1]).
  reflexivity.
Defined.

End ReconnectFacts.

(** ** Decoded audio on its way to the socket *)

Module AudioPathFacts.
Import AudioSocket AudioPath.

Lemma written_app out out' : written (out ++ out') = written out ++ written out'.
Proof. unfold written. apply omap_app. Qed.

Lemma warnedAt_app out out' :
  warnedAt (out ++ out') = warnedAt out ++ warnedAt out'.
Proof. unfold warnedAt. apply omap_app. Qed.

Lemma warnEvery5s_effect now w st :
  audioSocket (warnEvery5s now w st).1 = audioSocket st
  /\ controller (warnEvery5s now w st).1 = controller st
  /\ ((warnEvery5s now w st).2 = []
      /\ lastAudioDataLogTime (warnEvery5s now w st).1 = lastAudioDataLogTime st
      \/ (warnEvery5s now w st).2 = [w]
         /\ lastAudioDataLogTime (warnEvery5s now w st).1 = now
         /\ 5000 < now - lastAudioDataLogTime st).
Proof.
  unfold warnEvery5s.
  destruct (5000 <? now - lastAudioDataLogTime st) eqn:Hlate; simpl.
  - apply Z.ltb_lt in Hlate. split; [reflexivity |]. split; [reflexivity |].
    right. split; [reflexivity |]. split; [reflexivity | exact Hlate].
  - split; [reflexivity |]. split; [reflexivity |]. left. split; reflexivity.
Qed.

Lemma written_pauseStdout st : written (pauseStdout st) = [].
Proof. unfold pauseStdout. destruct (Player.isPlaying _); reflexivity. Qed.

Lemma warnedAt_pauseStdout st : warnedAt (pauseStdout st) = [].
Proof. unfold pauseStdout. destruct (Player.isPlaying _); reflexivity. Qed.

(** What the socket does by itself writes nothing and warns of nothing. *)
Lemma socket_outputs_quiet st (acts : list Action) :
  written (concat (List.map (fun a => match a with
                                      | DrainCallback => Socket a :: resumeFfmpegStdout st
                                      | _ => [Socket a]
                                      end) acts)) = []
  /\ warnedAt (concat (List.map (fun a => match a with
                                          | DrainCallback => Socket a :: resumeFfmpegStdout st
                                          | _ => [Socket a]
                                          end) acts)) = [].
Proof.
  induction acts as [| a acts [IHw IHt]]; [split; reflexivity |].
  simpl. rewrite written_app, warnedAt_app, IHw, IHt.
  unfold resumeFfmpegStdout.
  destruct a; try (split; reflexivity).
  destruct (Player.isPlaying _ && _); split; reflexivity.
Qed.

(** A chunk is written at most once, as it came, and only to a socket
    that is writable. *)
Lemma handleAudioData_written chunk destroyed now ok st :
  written (handleAudioData chunk destroyed now ok st).2 = []
  \/ written (handleAudioData chunk destroyed now ok st).2 = [chunk]
     /\ writable (audioSocket st) = true.
Proof.
  unfold handleAudioData.
  destruct (length chunk =? 0)%nat; [left; reflexivity |].
  assert (Hwarn : forall w, (w = WarnUnavailable now \/ w = WarnNotWritable now) ->
            written (warnEvery5s now w st).2 = []).
  { intros w Hw. unfold warnEvery5s.
    destruct (5000 <? now - lastAudioDataLogTime st); simpl; [| reflexivity].
    destruct Hw as [-> | ->]; reflexivity. }
  destruct (socket (audioSocket st)) as [s |]; [| left; apply Hwarn; auto].
  destruct destroyed; [left; apply Hwarn; auto |].
  destruct (writable (audioSocket st)) eqn:Hw; simpl.
  - right. split; [| reflexivity].
    destruct ok; [reflexivity |].
    unfold written. simpl. fold (written (pauseStdout
      (withSocket (setWritable false (audioSocket st)).1 st))).
    rewrite written_pauseStdout. reflexivity.
  - left. specialize (Hwarn (WarnNotWritable now) ltac:(auto)).
    destruct (warnEvery5s now (WarnNotWritable now) st) as [st1 warned].
    simpl in *. rewrite written_app, Hwarn, written_pauseStdout. reflexivity.
Qed.
Lemma step_written maxAttempts e st :
  match e with
  | AudioData chunk _ _ _ =>
      written (step maxAttempts e st).2 = []
      \/ written (step maxAttempts e st).2 = [chunk]
         /\ writable (audioSocket st) = true
  | _ => written (step maxAttempts e st).2 = []
  end.
Proof.
  destruct e as [chunk destroyed now ok | e | c]; simpl.
  - apply handleAudioData_written.
  - destruct (AudioSocket.step maxAttempts e (audioSocket st)) as [s acts].
    simpl. apply socket_outputs_quiet.
  - reflexivity.
Qed.

(** X16.  The controller passes the decoded audio on as it comes: the
    chunks written to the socket are, in their order of arrival, some of
    the chunks the decoder gave, each written at most once; the others
    are dropped. *)
Theorem audio_written_in_order_at_most_once (maxReconnectAttempts : Z)
    (evs : list Event) (st : PlayerState) :
  written (run maxReconnectAttempts evs st).2 `sublist_of` arrived evs.
Proof.
  revert st. induction evs as [| e evs IH]; intros st; [simpl; constructor |].
  simpl. pose proof (step_written maxReconnectAttempts e st) as Hstep.
  destruct (step maxReconnectAttempts e st) as [st1 out].
  specialize (IH st1).
  destruct (run maxReconnectAttempts evs st1) as [st2 out']. simpl in *.
  rewrite written_app.
  destruct e as [chunk destroyed now ok | e | c]; simpl.
  - destruct Hstep as [-> | [-> _]]; simpl.
    + apply sublist_cons, IH.
    + apply sublist_skip, IH.
  - rewrite Hstep. exact IH.
  - rewrite Hstep. exact IH.
Qed.

Lemma socket_stays_unwritable maxAttempts e (s : SocketState) :
  writable s = false ->
  holdsBack (Sock e) = true ->
  writable (AudioSocket.step maxAttempts e s).1 = false.
Proof.
  intros Hw Hh. destruct e; simpl in Hh; try discriminate Hh; simpl.
  - unfold connect, clearReconnectTimer.
    destruct (shuttingDown s), (reconnectTimer s); simpl; exact Hw.
  - unfold disconnect, clearReconnectTimer.
    destruct (reconnectTimer s), (socket s); simpl; exact Hw.
  - unfold setShuttingDown, clearReconnectTimer.
    destruct value, (reconnectTimer s); simpl; exact Hw.
  - destruct value; [discriminate Hh | reflexivity].
  - exact Hw.
  - unfold onClose, scheduleReconnect. simpl.
    destruct (shuttingDown s); [reflexivity |].
    destruct (bool_decide _); [reflexivity |].
    destruct (_ <=? _); reflexivity.
  - unfold onReconnectTimer, connect, clearReconnectTimer.
    destruct (reconnectTimer s); simpl; [| exact Hw].
    destruct (shuttingDown s); simpl; exact Hw.
Qed.

Lemma held_step maxAttempts e st :
  writable (audioSocket st) = false ->
  holdsBack e = true ->
  writable (audioSocket (step maxAttempts e st).1) = false
  /\ written (step maxAttempts e st).2 = [].
Proof.
  intros Hw Hh. split.
  - destruct e as [chunk destroyed now ok | e | c]; simpl; [| | exact Hw].
    + unfold handleAudioData.
      destruct (length chunk =? 0)%nat; [exact Hw |].
      destruct (socket (audioSocket st));
        [| rewrite (proj1 (warnEvery5s_effect _ _ _)); exact Hw].
      destruct destroyed; [rewrite (proj1 (warnEvery5s_effect _ _ _)); exact Hw |].
      rewrite Hw. simpl.
      pose proof (proj1 (warnEvery5s_effect now (WarnNotWritable now) st)) as Hs.
      destruct (warnEvery5s now (WarnNotWritable now) st). simpl in *.
      rewrite Hs. exact Hw.
    + pose proof (socket_stays_unwritable maxAttempts e (audioSocket st) Hw Hh)
        as Hkept.
      destruct (AudioSocket.step maxAttempts e (audioSocket st)) as [s acts].
      exact Hkept.
  - pose proof (step_written maxAttempts e st) as Hstep.
    destruct e as [chunk destroyed now ok | e | c]; try exact Hstep.
    destruct Hstep as [Hnone | [_ Hwritable]]; [exact Hnone | congruence].
Qed.

(** X17.  Backpressure stops the audio: when [socket.write] has returned
    false the chunk was handed over once, the decoder is paused if there
    is one, and nothing more is written to the socket until it drains or
    connects again, whatever else happens; the 'drain' event then lifts
    the hold and resumes the decoder of a controller that is playing and
    not paused. *)
Theorem backpressure_stops_writes (maxReconnectAttempts : Z) (st : PlayerState)
    (s : nat) (chunk : list Byte.byte) (now : Z) (evs : list Event) :
  socket (audioSocket st) = Some s ->
  writable (audioSocket st) = true ->
  chunk <> [] ->
  forallb holdsBack evs = true ->
  let pushed := handleAudioData chunk false now false st in
  let later := run maxReconnectAttempts evs pushed.1 in
  let drained := step maxReconnectAttempts (Sock (SocketDrain true)) later.1 in
  pushed.2 = [SocketWrite s chunk; WarnBackpressure] ++ pauseStdout st
  /\ written later.2 = []
  /\ writable (audioSocket later.1) = false
  /\ writable (audioSocket drained.1) = true
  /\ drained.2 = Socket DrainCallback :: resumeFfmpegStdout later.1.
Proof.
  intros Hs Hw Hchunk Hevs pushed later drained.
  assert (Hpushed : pushed
            = (withSocket (setWritable false (audioSocket st)).1 st,
               [SocketWrite s chunk; WarnBackpressure] ++ pauseStdout st)).
  { subst pushed. unfold handleAudioData.
    destruct chunk as [| b chunk]; [congruence |]. simpl length.
    change (S (length chunk) =? 0)%nat with false. cbv iota.
    rewrite Hs, Hw. reflexivity. }
  assert (Hheld : forall evs st0,
            forallb holdsBack evs = true ->
            writable (audioSocket st0) = false ->
            written (run maxReconnectAttempts evs st0).2 = []
            /\ writable (audioSocket (run maxReconnectAttempts evs st0).1) = false).
  { clear. induction evs as [| e evs IH]; intros st0 Hh Hw; [simpl; auto |].
    simpl in Hh. apply andb_true_iff in Hh. destruct Hh as [Hh Hhs].
    destruct (held_step maxReconnectAttempts e st0 Hw Hh) as [Hw1 Hnone].
    simpl. destruct (step maxReconnectAttempts e st0) as [st1 out].
    specialize (IH st1 Hhs Hw1).
    destruct (run maxReconnectAttempts evs st1) as [st2 out']. simpl in *.
    rewrite written_app, Hnone. exact IH. }
  destruct (Hheld evs pushed.1 Hevs) as [Hnone Hstill];
    [rewrite Hpushed; reflexivity |].
  split; [rewrite Hpushed; reflexivity |].
  split; [exact Hnone |]. split; [exact Hstill |].
  subst drained. simpl. split; [reflexivity |].
  rewrite app_nil_r. reflexivity.
Qed.
Lemma backpressure_stops_writes_witness :
  written
    (run 10 [AudioData [Byte.x03; Byte.x04] false 20 true;
             Sock (SocketClose 0); Sock ReconnectTimer;
             AudioData [Byte.x05] false 40 true]
       (handleAudioData [Byte.x01; Byte.x02] false 10 false streaming).1).2
  = [].
Proof.
  destruct (backpressure_stops_writes 10 streaming 0 [Byte.x01; Byte.x02] 10
              [AudioData [Byte.x03; Byte.x04] false 20 true;
               Sock (SocketClose 0); Sock ReconnectTimer;
               AudioData [Byte.x05] false 40 true])
    as (_ & Hnone & _).
  - reflexivity.
  - reflexivity.
  - discriminate.
  - reflexivity.
  - exact Hnone.
Defined.

Lemma handleAudioData_warned chunk destroyed now ok st :
  let r := handleAudioData chunk destroyed now ok st in
  warnedAt r.2 = [] /\ lastAudioDataLogTime r.1 = lastAudioDataLogTime st
  \/ warnedAt r.2 = [now] /\ lastAudioDataLogTime r.1 = now
     /\ 5000 < now - lastAudioDataLogTime st.
Proof.
  unfold handleAudioData.
  destruct (length chunk =? 0)%nat; [left; split; reflexivity |].
  assert (Hwarn : forall w, warnedAt [w] = [now] ->
            let r := warnEvery5s now w st in
            warnedAt r.2 = [] /\ lastAudioDataLogTime r.1 = lastAudioDataLogTime st
            \/ warnedAt r.2 = [now] /\ lastAudioDataLogTime r.1 = now
               /\ 5000 < now - lastAudioDataLogTime st).
  { intros w Hw r. subst r.
    destruct (warnEvery5s_effect now w st) as (_ & _ & [[-> Hl] | (-> & Hl & Hlate)]).
    - left. split; [reflexivity | exact Hl].
    - right. split; [exact Hw | split; [exact Hl | exact Hlate]]. }
  destruct (socket (audioSocket st)) as [s |]; [| apply Hwarn; reflexivity].
  destruct destroyed; [apply Hwarn; reflexivity |].
  destruct (writable (audioSocket st)); simpl.
  - destruct ok; simpl; [left; split; reflexivity |].
    left. split; [| reflexivity].
    change (warnedAt (pauseStdout (withSocket (setWritable false (audioSocket st)).1 st))
            = []).
    apply warnedAt_pauseStdout.
  - specialize (Hwarn (WarnNotWritable now) eq_refl). simpl in Hwarn.
    destruct (warnEvery5s now (WarnNotWritable now) st) as [st1 warned].
    simpl in *. rewrite warnedAt_app, warnedAt_pauseStdout, app_nil_r. exact Hwarn.
Qed.

(** X18.  The warnings about a socket that is not available or not
    writable are held to one in five seconds: each comes more than
    5000 ms after the one before, and the first more than 5000 ms after
    the instant the controller last warned. *)
Theorem audio_warnings_five_seconds_apart (maxReconnectAttempts : Z)
    (evs : list Event) (st : PlayerState) :
  spaced (lastAudioDataLogTime st) (warnedAt (run maxReconnectAttempts evs st).2).
Proof.
  revert st. induction evs as [| e evs IH]; intros st; [exact I |].
  simpl.
  assert (Hstep : let r := step maxReconnectAttempts e st in
            warnedAt r.2 = [] /\ lastAudioDataLogTime r.1 = lastAudioDataLogTime st
            \/ exists now, warnedAt r.2 = [now] /\ lastAudioDataLogTime r.1 = now
               /\ 5000 < now - lastAudioDataLogTime st).
  { destruct e as [chunk destroyed now ok | e | c]; simpl.
    - destruct (handleAudioData_warned chunk destroyed now ok st) as [H | H];
        [left; exact H | right; exists now; exact H].
    - left. destruct (AudioSocket.step maxReconnectAttempts e (audioSocket st))
        as [s acts]. simpl. split; [apply socket_outputs_quiet | reflexivity].
    - left. split; reflexivity. }
  destruct (step maxReconnectAttempts e st) as [st1 out].
  specialize (IH st1).
  destruct (run maxReconnectAttempts evs st1) as [st2 out']. simpl in *.
  rewrite warnedAt_app.
  destruct Hstep as [[-> Hl] | (now & -> & Hl & Hlate)]; simpl.
  - rewrite <- Hl. exact IH.
  - split; [exact Hlate |]. rewrite <- Hl. exact IH.
Qed.

End AudioPathFacts.

(** ** The Encode Supervisor: what its status can report *)

Module SupervisionFacts.
Import Ffmpeg Supervision.

(** The state a step or a run ends in, read off its equation. *)
Ltac stepped H :=
  apply (f_equal (fun r : option (State * list Action) => option_map fst r)) in H;
  cbn [option_map fst] in H; injection H as <-.

Section Invariants.

Variable cfg : Config.

Lemma scheduleRestart_consistent now rnd st :
  consistent cfg st -> consistent cfg (scheduleRestart cfg now rnd st).
Proof.
  intros (Hlen & Hcount & Hpid). unfold scheduleRestart.
  destruct (FFMPEG_AUTO_RESTART cfg); simpl; [| repeat split; assumption].
  destruct (restartingFfmpeg st) eqn:Hr; [repeat split; assumption |].
  pose proof (List.filter_length_le
                (fun ts => now - ts <=? FFMPEG_RESTART_WINDOW_MS cfg)
                (ffmpegRestartAttempts st)) as Hrecent.
  destruct st; simpl in *. unfold recentAttempts, consistent. simpl.
  match goal with
  | |- context [List.filter ?f ?l] => set (recent := List.filter f l) in *
  end.
  destruct (FFMPEG_RESTART_MAX_ATTEMPTS cfg <=? Z.of_nat (length recent))
    eqn:Hmax.
  - destruct ffmpegBlockTimeout0; simpl; (split; [lia | split; [assumption |]]);
      intros H; discriminate H.
  - apply Z.leb_gt in Hmax. simpl. rewrite length_app. simpl.
    split; [lia | split; [lia | exact Hpid]].
Qed.

Lemma spawn_consistent now o st :
  consistent cfg st -> consistent cfg (spawn_ cfg now o st).1.
Proof.
  intros (Hlen & Hcount & Hpid). unfold spawn_, consistent.
  destruct o as [| p].
  - destruct st; simpl in *. split; [exact Hlen | split; [exact Hcount |]].
    intros H; discriminate H.
  - destruct (noHandle p) eqn:Hp; destruct st; simpl in *.
    + split; [exact Hlen | split; [exact Hcount |]]. intros H; discriminate H.
    + split; [exact Hlen | split; [exact Hcount |]]. intros _. exact Hp.
Qed.

Lemma step_consistent e st st1 acts :
  consistent cfg st ->
  step cfg e st = Some (st1, acts) ->
  consistent cfg st1.
Proof.
  intros Hc Hstep. pose proof Hc as (Hlen & Hcount & Hpid).
  destruct e; simpl in Hstep.
  - stepped Hstep. apply spawn_consistent, Hc.
  - stepped Hstep. unfold requestRestart.
    destruct (ffmpegProcess st) as [p |] eqn:Hproc; [| exact Hc].
    destruct (pendingOverlayStyleRestart st); [exact Hc |].
    unfold consistent in *. destruct k; destruct st; simpl in *;
      subst; simpl; auto.
  - stepped Hstep. unfold shutdown.
    destruct (ffmpegProcess st) as [p |] eqn:Hproc;
      [destruct k |]; unfold consistent in *; destruct st; simpl in *;
      subst; simpl; auto.
  - stepped Hstep. unfold consistent in *. destruct st; simpl in *; auto.
  - stepped Hstep. unfold consistent in *. destruct st; simpl in *; auto.
  - stepped Hstep. unfold consistent in *. destruct st; simpl in *; auto.
  - destruct (_ && _); [| discriminate]. stepped Hstep. exact Hc.
  - destruct (bool_decide _); [| discriminate]. stepped Hstep.
    unfold onProcClose.
    destruct (Js.truthyStr (manualRestartReason st)).
    + unfold consistent in *. destruct st; simpl in *.
      split; [exact Hlen | split; [exact Hcount |]]. intros H; discriminate H.
    + simpl. apply scheduleRestart_consistent.
      unfold consistent in *. destruct st; simpl in *.
      split; [exact Hlen | split; [exact Hcount |]]. intros H; discriminate H.
  - destruct (bool_decide _); [| discriminate]. stepped Hstep.
    unfold onProcError. simpl. apply scheduleRestart_consistent.
    unfold consistent in *. destruct st; simpl in *.
    split; [exact Hlen | split; [exact Hcount |]]. intros H; discriminate H.
  - destruct (bool_decide _); [| discriminate]. stepped Hstep.
    unfold consistent in *. destruct st; simpl in *; auto.
  - destruct (bool_decide _); [| discriminate]. stepped Hstep.
    unfold consistent, onProgressLine in *. destruct frame; destruct st; simpl in *; auto.
  - destruct (bool_decide _); [| discriminate]. stepped Hstep.
    unfold consistent, pipeDestroyed in *. destruct st; simpl in *.
    destruct ffmpegProcess0 as [p |]; [| auto].
    destruct (stdin p); simpl; auto.
  - destruct (heartbeatTimer st); [| discriminate]. stepped Hstep.
    unfold onHeartbeat. destruct (processKilled st).
    + simpl. apply scheduleRestart_consistent.
      unfold consistent in *. destruct st; simpl in *.
      split; [exact Hlen | split; [exact Hcount |]]. intros H; discriminate H.
    + repeat match goal with
             | |- context [if ?c then _ else _] => destruct c
             | |- context [match ?c with Some _ => _ | None => _ end] =>
                 destruct c
             end; unfold consistent in *; destruct st; simpl in *; auto.
  - unfold onTimer in Hstep.
    destruct (findTimer h st) as [t |]; [| discriminate].
    destruct (due t <=? now); [| discriminate].
    assert (Hcleared : consistent cfg (clearTimeout h st)).
    { unfold consistent in *. destruct st; simpl in *; auto. }
    stepped Hstep. destruct (kind t).
    + unfold onRestartTimer. apply spawn_consistent.
      unfold consistent in *. destruct st; simpl in *; auto.
    + apply spawn_consistent, Hcleared.
    + simpl. unfold onStabilityTimer.
      destruct (_ && _); [| exact Hcleared].
      unfold consistent in *. destruct st; simpl in *.
      destruct ffmpegBlocked0; simpl; (split; [lia | auto]).
    + simpl. unfold consistent, onBlockTimer in *. destruct st; simpl in *.
      split; [lia | auto].
Qed.
Lemma run_consistent evs : forall st st1 acts,
  consistent cfg st ->
  run cfg evs st = Some (st1, acts) ->
  consistent cfg st1.
Proof.
  induction evs as [| e evs IH]; intros st st1 acts Hc Hrun; simpl in Hrun.
  - stepped Hrun. exact Hc.
  - destruct (step cfg e st) as [[st0 acts0] |] eqn:Hstep; [| discriminate].
    destruct (run cfg evs st0) as [[st2 acts2] |] eqn:Hrest; [| discriminate].
    stepped Hrun.
    eapply IH; [| exact Hrest]. eapply step_consistent; eassumption.
Qed.

(** X19.  Whatever happened to the supervisor since it was created, its
    status never reports more restart attempts in the window than the
    maximum, never a negative restart count, and never [connected]
    without an encoder process that has a PID; so GET /health answers 200
    only while such a process is there and the supervisor is not
    blocked. *)
Theorem status_is_consistent evs st acts now :
  run cfg evs initial = Some (st, acts) ->
  let status := getStatus now st in
  restartAttemptsInWindow status <= Z.max 0 (FFMPEG_RESTART_MAX_ATTEMPTS cfg)
  /\ 0 <= statusRestarts status
  /\ (statusConnected status = true ->
      exists p, statusPid status = Some p /\ p <> 0)
  /\ (healthCode st = 200 ->
      (exists p, statusPid status = Some p /\ p <> 0)
      /\ statusConnected status = true /\ statusBlocked status = false)
  /\ (healthCode st = 200 \/ healthCode st = 503).
Proof.
  intros Hrun status.
  assert (Hc : consistent cfg st).
  { eapply run_consistent; [| exact Hrun].
    unfold consistent. simpl. split; [lia | split; [lia |]].
    intros H; discriminate H. }
  destruct Hc as (Hlen & Hcount & Hpid).
  assert (Hconn : connected (rtmpStatus st) = true ->
            exists p, statusPid status = Some p /\ p <> 0).
  { intros Hconnected. specialize (Hpid Hconnected). subst status.
    unfold getStatus. simpl. unfold noHandle in Hpid.
    destruct (ffmpegProcess st) as [pr |]; [| discriminate].
    apply negb_false_iff in Hpid. rewrite Hpid.
    destruct (pid pr) as [p |]; [| discriminate].
    exists p. split; [reflexivity |]. simpl in Hpid.
    apply negb_true_iff, Z.eqb_neq in Hpid. exact Hpid. }
  split; [exact Hlen |]. split; [exact Hcount |]. split; [exact Hconn |].
  split.
  - unfold healthCode, healthy. intros Hcode.
    destruct (isRunning st && connected (rtmpStatus st) && negb (isBlocked st))
      eqn:Hh; [| discriminate].
    apply andb_prop in Hh. destruct Hh as [Hh Hblocked].
    apply andb_prop in Hh. destruct Hh as [_ Hconnected].
    split; [apply Hconn, Hconnected |]. split; [exact Hconnected |].
    apply negb_true_iff in Hblocked. exact Hblocked.
  - unfold healthCode. destruct (healthy st); auto.
Qed.

(** X21.  A planned restart is no crash.  [requestRestart] on a running
    encoder sends one SIGTERM and marks the restart pending, so that a
    further request is refused; when the 'close' of the encoder is what
    the supervisor sees next, it arms the respawn 250 ms later and leaves
    the restart window, the restart counter and the blocked flag as they
    were, and clears the reason and the pending flag. *)
Theorem planned_restart_is_not_counted reason k now rnd st :
  is_Some (ffmpegProcess st) ->
  pendingOverlayStyleRestart st = false ->
  reason <> "" ->
  k <> KillThrows ->
  let requested := requestRestart reason k st in
  let closed := onProcClose cfg now rnd requested.1.1 in
  requested.2 = true
  /\ requested.1.2 = [AKill]
  /\ (forall reason' k',
        requestRestart reason' k' requested.1.1 = (requested.1.1, [], false))
  /\ closed.2 = [AOnClose]
  /\ timers closed.1
     = timers st ++ [{| handle := timerSeq st; kind := TPlanned;
                        due := now + PLANNED_RESPAWN_MS |}]
  /\ ffmpegRestartAttempts closed.1 = ffmpegRestartAttempts st
  /\ ffmpegRestarts (rtmpStatus closed.1) = ffmpegRestarts (rtmpStatus st)
  /\ restartingFfmpeg closed.1 = restartingFfmpeg st
  /\ ffmpegBlocked closed.1 = ffmpegBlocked st
  /\ ffmpegProcess closed.1 = None
  /\ manualRestartReason closed.1 = None
  /\ pendingOverlayStyleRestart closed.1 = false.
Proof.
  intros [p Hproc] Hpending Hreason Hk requested closed.
  assert (Htruthy : Js.truthyStr (Some reason) = true).
  { simpl. apply negb_true_iff, String.eqb_neq, Hreason. }
  subst closed requested. unfold requestRestart, onProcClose.
  rewrite Hproc, Hpending.
  destruct k; [| | congruence].
  - unfold markKilled. destruct st; simpl in *. subst. simpl.
    rewrite Htruthy. simpl. repeat split; reflexivity.
  - destruct st; simpl in *. subst. simpl.
    rewrite Htruthy. simpl. repeat split; reflexivity.
Qed.

(** X22.  The restart after a failure is backed off.  When
    [scheduleRestart] arms a restart (auto-restart on, none pending, the
    window below the maximum), the delay is the base delay doubled once
    for every attempt still in the window, capped at the maximum delay,
    plus a jitter below one second and below that amount; it is positive
    and stays under the maximum delay plus one second.  The attempt is
    counted once. *)
Theorem restart_backoff_is_bounded now rnd st :
  positiveConfig cfg ->
  Js.validRandom rnd ->
  FFMPEG_AUTO_RESTART cfg = true ->
  restartingFfmpeg st = false ->
  Z.of_nat (length (recentAttempts cfg now st)) < FFMPEG_RESTART_MAX_ATTEMPTS cfg ->
  let n := Z.of_nat (length (recentAttempts cfg now st)) in
  let base := Z.min (FFMPEG_RESTART_BACKOFF_BASE_MS cfg * 2 ^ n)
                (FFMPEG_RESTART_BACKOFF_MAX_MS cfg) in
  exists delay,
    timers (scheduleRestart cfg now rnd st)
    = timers st ++ [{| handle := timerSeq st; kind := TRestart; due := now + delay |}]
    /\ base <= delay < base + Z.min 1000 base
    /\ 0 < delay < FFMPEG_RESTART_BACKOFF_MAX_MS cfg + 1000
    /\ ffmpegRestarts (rtmpStatus (scheduleRestart cfg now rnd st))
       = ffmpegRestarts (rtmpStatus st) + 1
    /\ ffmpegRestartAttempts (scheduleRestart cfg now rnd st)
       = recentAttempts cfg now st ++ [now].
Proof.
  intros Hpos Hrnd Hauto Hrest Hbelow n base.
  exists (backoffDelay cfg n rnd).
  destruct (FfmpegFacts.scheduleRestart_below_threshold cfg now rnd st
              Hauto Hrest Hbelow) as (_ & _ & Hattempts & Htimers).
  destruct (FfmpegFacts.backoffDelay_bounds cfg n rnd Hpos Hrnd ltac:(lia))
    as [Hbase Hdelay].
  fold n in Htimers. change (backoffBase cfg n) with base in Hbase, Hdelay.
  split; [exact Htimers |]. split; [exact Hdelay |]. split; [lia |].
  split; [| exact Hattempts].
  unfold scheduleRestart. rewrite Hauto, Hrest. simpl.
  destruct st; simpl in *. unfold recentAttempts in *. simpl in *.
  apply Z.leb_gt in Hbelow. rewrite Hbelow. reflexivity.
Qed.
Hypothesis autoRestartOff : FFMPEG_AUTO_RESTART cfg = false.

Lemma scheduleRestart_off now rnd st : scheduleRestart cfg now rnd st = st.
Proof. unfold scheduleRestart. rewrite autoRestartOff. reflexivity. Qed.

Lemma spawn_neverRestarted now o st :
  neverRestarted st -> neverRestarted (spawn_ cfg now o st).1.
Proof.
  intros (Ha & Hc & Hr & Hb & Ht). unfold spawn_, neverRestarted.
  destruct o as [| p]; [destruct st; simpl in *; auto |].
  destruct (noHandle p); destruct st; simpl in *; [auto |].
  repeat (split; [assumption |]).
  apply Forall_app. split; [exact Ht |]. constructor; [right; reflexivity | constructor].
Qed.

Lemma clearTimeout_neverRestarted h st :
  neverRestarted st -> neverRestarted (clearTimeout h st).
Proof.
  intros (Ha & Hc & Hr & Hb & Ht). unfold neverRestarted.
  destruct st; simpl in *. repeat (split; [assumption |]).
  apply List.Forall_forall. intros t Hin. apply filter_In in Hin.
  destruct Hin as [Hin _]. rewrite List.Forall_forall in Ht. apply Ht, Hin.
Qed.

Lemma step_neverRestarted e st st1 acts :
  neverRestarted st ->
  step cfg e st = Some (st1, acts) ->
  neverRestarted st1.
Proof.
  intros Hn Hstep. pose proof Hn as (Ha & Hc & Hr & Hb & Ht).
  destruct e; simpl in Hstep.
  - stepped Hstep. apply spawn_neverRestarted, Hn.
  - stepped Hstep. unfold requestRestart.
    destruct (ffmpegProcess st) as [p |] eqn:Hproc; [| exact Hn].
    destruct (pendingOverlayStyleRestart st); [exact Hn |].
    unfold neverRestarted in *. destruct k; destruct st; simpl in *;
      subst; simpl; auto.
  - stepped Hstep. unfold shutdown.
    destruct (ffmpegProcess st) as [p |] eqn:Hproc;
      [destruct k |]; unfold neverRestarted in *; destruct st; simpl in *;
      subst; simpl; auto.
  - stepped Hstep. unfold neverRestarted in *. destruct st; simpl in *; auto.
  - stepped Hstep. unfold neverRestarted in *. destruct st; simpl in *; auto.
  - stepped Hstep. unfold neverRestarted in *. destruct st; simpl in *; auto.
  - destruct (_ && _); [| discriminate]. stepped Hstep. exact Hn.
  - destruct (bool_decide _); [| discriminate]. stepped Hstep.
    unfold onProcClose.
    destruct (Js.truthyStr (manualRestartReason st)).
    + unfold neverRestarted in *. destruct st; simpl in *.
      repeat (split; [assumption |]).
      apply Forall_app. split; [exact Ht |].
      constructor; [left; reflexivity | constructor].
    + simpl. rewrite scheduleRestart_off.
      unfold neverRestarted in *. destruct st; simpl in *; auto.
  - destruct (bool_decide _); [| discriminate]. stepped Hstep.
    unfold onProcError. simpl. rewrite scheduleRestart_off.
    unfold neverRestarted in *. destruct st; simpl in *; auto.
  - destruct (bool_decide _); [| discriminate]. stepped Hstep.
    unfold neverRestarted in *. destruct st; simpl in *; auto.
  - destruct (bool_decide _); [| discriminate]. stepped Hstep.
    unfold neverRestarted, onProgressLine in *.
    destruct frame; destruct st; simpl in *; auto.
  - destruct (bool_decide _); [| discriminate]. stepped Hstep.
    unfold neverRestarted, pipeDestroyed in *. destruct st; simpl in *.
    destruct ffmpegProcess0 as [p |]; [| auto].
    destruct (stdin p); simpl; auto.
  - destruct (heartbeatTimer st); [| discriminate]. stepped Hstep.
    unfold onHeartbeat. destruct (processKilled st).
    + simpl. rewrite scheduleRestart_off.
      unfold neverRestarted in *. destruct st; simpl in *; auto.
    + repeat match goal with
             | |- context [if ?c then _ else _] => destruct c
             | |- context [match ?c with Some _ => _ | None => _ end] =>
                 destruct c
             end; unfold neverRestarted in *; destruct st; simpl in *; auto.
  - unfold onTimer in Hstep.
    destruct (findTimer h st) as [t |] eqn:Hfind; [| discriminate].
    destruct (due t <=? now); [| discriminate].
    pose proof (clearTimeout_neverRestarted h st Hn) as Hcleared.
    assert (Hkind : kind t = TPlanned \/ kind t = TStability).
    { unfold findTimer in Hfind. apply find_some in Hfind.
      rewrite List.Forall_forall in Ht. apply Ht, Hfind. }
    stepped Hstep. destruct Hkind as [-> | ->].
    + apply spawn_neverRestarted, Hcleared.
    + simpl. unfold onStabilityTimer.
      destruct (_ && _); [| exact Hcleared].
      destruct Hcleared as (Ha' & Hc' & Hr' & Hb' & Ht').
      unfold neverRestarted.
      destruct (clearTimeout h st); simpl in *.
      destruct ffmpegBlocked0; simpl; auto.
Qed.

Lemma run_neverRestarted evs : forall st st1 acts,
  neverRestarted st ->
  run cfg evs st = Some (st1, acts) ->
  neverRestarted st1.
Proof.
  induction evs as [| e evs IH]; intros st st1 acts Hn Hrun; simpl in Hrun.
  - stepped Hrun. exact Hn.
  - destruct (step cfg e st) as [[st2 acts2] |] eqn:Hstep; [| discriminate].
    destruct (run cfg evs st2) as [[st3 acts3] |] eqn:Hrest; [| discriminate].
    stepped Hrun. eapply IH; [| exact Hrest].
    eapply step_neverRestarted; eassumption.
Qed.

(** X20.  With [FFMPEG_AUTO_RESTART=false] the supervisor never restarts
    the encoder by itself: whatever happens, no restart attempt is
    recorded or counted, no backed-off restart and no unblock timer is
    armed, and the only timers pending are stability checks and the
    respawns of planned restarts. *)
Theorem no_auto_restart_when_disabled evs st acts :
  run cfg evs initial = Some (st, acts) ->
  neverRestarted st
  /\ restartArmed st = false
  /\ forall now, restartAttemptsInWindow (getStatus now st) = 0
                 /\ statusRestarts (getStatus now st) = 0.
Proof.
  intros Hrun.
  assert (Hn : neverRestarted st).
  { eapply run_neverRestarted; [| exact Hrun].
    unfold neverRestarted. simpl. repeat (split; [reflexivity |]). constructor. }
  split; [exact Hn |]. destruct Hn as (Ha & Hc & Hr & Hb & Ht).
  split.
  - unfold restartArmed. apply not_true_is_false. intros Harmed.
    apply existsb_exists in Harmed. destruct Harmed as (t & Hin & Hkind).
    apply bool_decide_eq_true in Hkind.
    rewrite List.Forall_forall in Ht. destruct (Ht t Hin); congruence.
  - intros now. unfold getStatus. simpl. rewrite Ha, Hc. split; reflexivity.
Qed.
End Invariants.

Lemma status_is_consistent_witness :
  restartAttemptsInWindow (getStatus 19000 (after sixthExit)) <= 5
  /\ healthCode (after sixthExit) = 503.
Proof.
  destruct (run defaults sixthExit initial) as [[st acts] |] eqn:Hrun;
    [| vm_compute in Hrun; discriminate Hrun].
  destruct (status_is_consistent defaults sixthExit st acts 19000 Hrun)
    as (Hlen & _).
  unfold after. rewrite Hrun. split; [exact Hlen |].
  vm_compute in Hrun. injection Hrun as <- _. reflexivity.
Defined.

Lemma planned_restart_is_not_counted_witness :
  ffmpegRestartAttempts
    (onProcClose defaults 12000 noJitter
       (requestRestart "background change" KillDelivered (after fourCrashes)).1.1).1
  = ffmpegRestartAttempts (after fourCrashes).
Proof.
  destruct (planned_restart_is_not_counted defaults "background change"
              KillDelivered 12000 noJitter (after fourCrashes))
    as (_ & _ & _ & _ & _ & Hwindow & _).
  - vm_compute. eexists. reflexivity.
  - reflexivity.
  - discriminate.
  - discriminate.
  - exact Hwindow.
Defined.

Lemma restart_backoff_is_bounded_witness :
  exists delay,
    timers (scheduleRestart defaults 12000 noJitter (after fourCrashes))
    = timers (after fourCrashes)
      ++ [{| handle := timerSeq (after fourCrashes); kind := TRestart;
             due := 12000 + delay |}]
    /\ 8000 <= delay < 9000.
Proof.
  destruct (restart_backoff_is_bounded defaults 12000 noJitter (after fourCrashes))
    as (delay & Htimers & Hdelay & _).
  - vm_compute. repeat split; reflexivity.
  - vm_compute. split; [intros H; discriminate H | reflexivity].
  - reflexivity.
  - vm_compute. reflexivity.
  - vm_compute. reflexivity.
  - exists delay. split; [exact Htimers |].
    vm_compute in Hdelay. exact Hdelay.
Defined.

Lemma no_auto_restart_when_disabled_witness :
  restartArmed
    (default initial
       (option_map fst
          (run withoutAutoRestart [ApiSpawn 0 started; ProcClose 1000 noJitter]
             initial))) = false.
Proof.
  destruct (run withoutAutoRestart [ApiSpawn 0 started; ProcClose 1000 noJitter]
              initial) as [[st acts] |] eqn:Hrun;
    [| vm_compute in Hrun; discriminate Hrun].
  exact (proj1 (proj2 (no_auto_restart_when_disabled withoutAutoRestart eq_refl
                         _ st acts Hrun))).
Defined.

End SupervisionFacts.

(** ** The Ingest Listener: its statistics *)

Module IngestFacts.
Import Tcp Ingest.

Ltac landed H :=
  apply (f_equal (fun r : option (State * list Action) => option_map fst r)) in H;
  cbn [option_map fst] in H; injection H as <-.

Section Counters.

Variable interval : Z.

Lemma total_snoc sizes size : total (sizes ++ [size]) = total sizes + size.
Proof.
  unfold total. induction sizes as [| x sizes IH]; simpl; [lia |].
  rewrite IH. lia.
Qed.

Lemma counts_kept counted st st' :
  ingestStats st' = ingestStats st -> counts counted st -> counts counted st'.
Proof. unfold counts. intros ->. auto. Qed.

Lemma ingest_step_counts e st st1 acts counted :
  sized e ->
  counts counted st ->
  step interval e st = Some (st1, acts) ->
  counts (sinceReset counted [e]) st1.
Proof.
  intros Hsize Hc Hstep. pose proof Hc as (Hb & Hn & Hlog).
  destruct e; simpl in *.
  - landed Hstep. eapply counts_kept; [| exact Hc].
    destruct st; reflexivity.
  - landed Hstep. eapply counts_kept; [| exact Hc].
    unfold stop, stopIngestIdleWarning.
    destruct st; simpl. destruct currentProducer0; reflexivity.
  - destruct (sockets st !! s); [discriminate |].
    landed Hstep.
    unfold onConnection, attachProducer, counts.
    destruct st; simpl. destruct currentProducer0; simpl; repeat split; lia.
  - destruct (sockets st !! s) as [k |]; [| discriminate].
    destruct (paused k || destroyed k); [discriminate |].
    landed Hstep. unfold onSocketData.
    destruct (size =? 0) eqn:Hzero; [exact Hc |].
    unfold handleProducerData, noteIngestChunk, counts in *.
    rewrite total_snoc, length_app. simpl length.
    destruct st; simpl in *.
    destruct (interval <=? now - lastLog ingestStats0);
      destruct (calledPause v), (resultPaused v); simpl; repeat split; lia.
  - destruct (sockets st !! s); [| discriminate].
    landed Hstep. exact Hc.
  - destruct (sockets st !! s) as [k |]; [| discriminate].
    destruct (closed k); [discriminate |].
    landed Hstep.
    unfold onSocketClose, counts. destruct st; simpl.
    repeat match goal with
           | |- context [bool_decide ?P] => destruct (bool_decide P)
           end; simpl; repeat split; lia.
  - destruct (ingestIdleTimer st); [| discriminate].
    landed Hstep. eapply counts_kept; [| exact Hc].
    destruct st; reflexivity.
  - landed Hstep. eapply counts_kept; [| exact Hc].
    unfold pauseProducer. destruct (currentProducer st);
      [destruct (socketDestroyed _ st) |]; destruct st; reflexivity.
  - landed Hstep. eapply counts_kept; [| exact Hc].
    unfold resumeProducer. destruct (pendingSocketResume st);
      [destruct (socketDestroyed _ st) |]; destruct st; reflexivity.
Qed.

Lemma sinceReset_cons counted e evs :
  sinceReset counted (e :: evs) = sinceReset (sinceReset counted [e]) evs.
Proof. destruct e; reflexivity. Qed.

Lemma ingest_run_counts evs : forall st st1 acts counted,
  Forall sized evs ->
  counts counted st ->
  run interval evs st = Some (st1, acts) ->
  counts (sinceReset counted evs) st1.
Proof.
  induction evs as [| e evs IH]; intros st st1 acts counted Hs Hc Hrun.
  - simpl in *. landed Hrun. exact Hc.
  - rewrite sinceReset_cons. simpl in Hrun.
    apply Forall_cons in Hs. destruct Hs as [He Hs].
    destruct (step interval e st) as [[st0 acts0] |] eqn:Hstep; [| discriminate].
    destruct (run interval evs st0) as [[st2 acts2] |] eqn:Hrest; [| discriminate].
    landed Hrun.
    eapply IH; [exact Hs | | exact Hrest].
    eapply ingest_step_counts; eassumption.
Qed.

(** X23.  The ingest statistics count what came in since the last reset:
    after any run of the listener [bytesTotal] is the sum of the sizes,
    and [chunksTotal] the number, of the non-empty chunks received since
    the last connection or socket 'close' (of any socket, a replaced one
    included), and [bytesSinceLog] lies between 0 and [bytesTotal]. *)
Theorem ingest_stats_count_since_reset now evs st acts :
  Forall sized evs ->
  run interval evs (initial now) = Some (st, acts) ->
  bytesTotal (getStats st) = total (sinceReset [] evs)
  /\ chunksTotal (getStats st) = Z.of_nat (length (sinceReset [] evs))
  /\ 0 <= bytesSinceLog (getStats st) <= bytesTotal (getStats st).
Proof.
  intros Hs Hrun. eapply ingest_run_counts; [exact Hs | | exact Hrun].
  unfold counts. simpl. repeat split; lia.
Qed.

End Counters.

Lemma ingest_stats_count_since_reset_witness :
  bytesTotal (getStats (after replaced)) = 4096
  /\ bytesTotal (getStats (after replacedThenClosed)) = 0.
Proof.
  assert (Hsized : Forall sized replacedThenClosed).
  { repeat constructor; simpl; lia. }
  assert (Hsized' : Forall sized replaced).
  { repeat constructor; simpl; lia. }
  destruct (run INGEST_LOG_INTERVAL_MS replaced (initial 0))
    as [[st acts] |] eqn:Hrun; [| vm_compute in Hrun; discriminate Hrun].
  destruct (run INGEST_LOG_INTERVAL_MS replacedThenClosed (initial 0))
    as [[st' acts'] |] eqn:Hrun'; [| vm_compute in Hrun'; discriminate Hrun'].
  pose proof (ingest_stats_count_since_reset INGEST_LOG_INTERVAL_MS 0 replaced
                st acts Hsized' Hrun) as (Hbytes & _).
  pose proof (ingest_stats_count_since_reset INGEST_LOG_INTERVAL_MS 0
                replacedThenClosed st' acts' Hsized Hrun') as (Hbytes' & _).
  unfold after. rewrite Hrun, Hrun'. split; [exact Hbytes | exact Hbytes'].
Defined.
End IngestFacts.

(** ** Producer audio holds the Silence Filler *)

Module HandoverFacts.
Import Silence Server Handover.

(** The state and the actions of a step, read off its equation. *)
Ltac arrived H :=
  apply (inj Some) in H;
  let H1 := fresh in
  let H2 := fresh in
  pose proof (f_equal fst H) as H1; pose proof (f_equal snd H) as H2;
  cbn [fst snd] in H1, H2; clear H; subst.

Section Wired.

Variable cfg : Ffmpeg.Config.
Variable interval : Z.

Lemma muted_of (sil : Silence.State) st :
  silenceGenerator st = sil ->
  silenceInterval sil = true -> silencePaused sil = true -> idleArmed sil = true ->
  muted st.
Proof. intros <- Hi Hp Ha. repeat split; assumption. Qed.

Lemma muted_same st st' :
  silenceGenerator st' = silenceGenerator st -> muted st -> muted st'.
Proof. unfold muted. intros ->. auto. Qed.

Lemma encoderDid_muted acts : forall st,
  muted st ->
  muted (encoderDid acts st).1 /\ fillerWrites (encoderDid acts st).2 = [].
Proof.
  induction acts as [| a acts IH]; intros st Hm; simpl; [auto |].
  assert (Hnext : forall st1 called,
            muted st1 -> fillerWrites called = [] ->
            muted (let '(st2, rest) := encoderDid acts st1 in
                   (st2, Encoder a :: called ++ rest)).1
            /\ fillerWrites (let '(st2, rest) := encoderDid acts st1 in
                             (st2, Encoder a :: called ++ rest)).2 = []).
  { intros st1 called Hm1 Hw. destruct (IH st1 Hm1) as [IHm IHw].
    destruct (encoderDid acts st1) as [st2 rest]. simpl in *.
    split; [exact IHm |].
    change (fillerWrites (called ++ rest) = []).
    rewrite ServerFacts.fillerWrites_app, Hw, IHw. reflexivity. }
  destruct a; simpl; try (apply (Hnext st []); [exact Hm | reflexivity]).
  - pose proof (ServerFacts.onSpawn_effect reason st) as (Hsil & Hw & _).
    destruct (onSpawn reason st) as [st1 called]. simpl in *.
    apply Hnext; [eapply muted_same; eassumption | exact Hw].
  - unfold onClose. apply (Hnext (setPositionUpdates false st) []);
      [| reflexivity].
    eapply muted_same; [| exact Hm]. destruct st; reflexivity.
  - pose proof (ServerFacts.onDrain_effect st) as (Hw & _).
    assert (Hm1 : muted (onDrain st).1).
    { destruct Hm as (Hi & Hp & Ha). unfold onDrain, tcpDoes. simpl.
      unfold muted. rewrite ServerFacts.silence_setTcp, ServerFacts.silence_setSilence.
      unfold resetBackpressure, withBackpressure. simpl. auto. }
    exact (Hnext (onDrain st).1 (onDrain st).2 Hm1 Hw).
Qed.

Lemma listenerDid_muted acts : forall st,
  muted st ->
  muted (listenerDid acts st).1 /\ fillerWrites (listenerDid acts st).2 = [].
Proof.
  induction acts as [| a acts IH]; intros st Hm; simpl; [auto |].
  match goal with
  | |- context [listenerDid acts ?s] =>
      assert (Hm1 : muted s);
      [| destruct (IH s Hm1) as [IHm IHw];
         destruct (listenerDid acts s) as [st2 rest]; simpl in *;
         split; [exact IHm | exact IHw]]
  end.
  destruct a; try exact Hm.
  destruct Hm as (Hi & Hp & Ha). unfold onProducerDisconnect, muted.
  rewrite ServerFacts.silence_setSilence. unfold resumeAfterDelay. simpl. auto.
Qed.

Lemma listener_step_muted e st tcp acts0 :
  Tcp.step interval e (tcpServer st) = Some (tcp, acts0) ->
  muted st ->
  muted (listenerDid acts0 (setTcp tcp st)).1
  /\ fillerWrites (listenerDid acts0 (setTcp tcp st)).2 = [].
Proof.
  intros _ Hm. apply listenerDid_muted.
  eapply muted_same; [| exact Hm]. apply ServerFacts.silence_setTcp.
Qed.

Lemma onData_mutes chunk w st :
  isActive (silenceGenerator st) = true ->
  muted (onData chunk w st).1.1 /\ fillerWrites (onData chunk w st).2 = [].
Proof.
  intros Hact. unfold onData. rewrite Hact.
  set (st1 := setSilence _ st).
  assert (Hm : muted st1).
  { subst st1. unfold muted. rewrite ServerFacts.silence_setSilence.
    unfold isActive in Hact. unfold resumeAfterDelay, suspendTemporarily.
    rewrite Hact. simpl. auto. }
  destruct (Ffmpeg.getStdin (ffmpegManager st1)); [| auto].
  destruct (negb (Ffmpeg.isWritable (ffmpegManager st1))); [auto |].
  destruct w; simpl; split; try reflexivity; try exact Hm.
  eapply muted_same; [| exact Hm]. apply ServerFacts.silence_setManager.
Qed.

Lemma planned_muted reason k st :
  muted st ->
  muted (plannedRestart reason k st).1
  /\ fillerWrites (plannedRestart reason k st).2 = [].
Proof.
  intros (Hi & Hp & Ha). unfold plannedRestart, tcpDoes.
  destruct (Ffmpeg.isRunning (ffmpegManager st)); [| repeat split; assumption].
  simpl.
  match goal with
  | |- context [Ffmpeg.requestRestart reason k ?e] =>
      destruct (Ffmpeg.requestRestart reason k e) as [[enc acts0] sent]
  end.
  simpl. rewrite ServerFacts.fillerWrites_app, ServerFacts.fillerWrites_listener,
    ServerFacts.fillerWrites_encoder.
  split; [| reflexivity]. unfold muted.
  rewrite ServerFacts.silence_setManager, ServerFacts.silence_setSilence. simpl.
  rewrite ServerFacts.silence_setManager, ServerFacts.silence_setTcp. auto.
Qed.
(** While the filler is held, an event that does not end the pause
    leaves it held and makes the filler write nothing. *)
Lemma muted_step e st st1 acts :
  unmutes e = false ->
  step cfg interval e st = Some (st1, acts) ->
  muted st ->
  muted st1 /\ fillerWrites acts = [].
Proof.
  intros Hun Hstep Hm. pose proof Hm as (Hi & Hp & Ha).
  destruct e; unfold step in Hstep; try discriminate.
  - arrived Hstep. unfold startComponents.
    destruct (Ffmpeg.spawn_ cfg now o (ffmpegManager st)) as [enc acts0].
    simpl. split; [| apply ServerFacts.fillerWrites_encoder].
    unfold muted, Silence.start, ensureSilenceWriter.
    rewrite ServerFacts.silence_setTcp, ServerFacts.silence_setSilence,
      ServerFacts.silence_setManager, Hi. auto.
  - destruct (external e); [| discriminate].
    destruct (Ffmpeg.step cfg e (ffmpegManager st)) as [[enc acts0] |];
      [| discriminate].
    arrived Hstep. apply encoderDid_muted.
    eapply muted_same; [| exact Hm]. apply ServerFacts.silence_setManager.
  - destruct (silenceInterval (silenceGenerator st)); [| discriminate].
    arrived Hstep. unfold silenceTick.
    rewrite SilenceFacts.tick_held by (rewrite Hp; reflexivity).
    simpl. split; [| reflexivity].
    eapply muted_same; [| exact Hm].
    rewrite ServerFacts.silence_setManager, ServerFacts.silence_setSilence.
    reflexivity.
  - destruct (Tcp.step interval (Tcp.Connection s now) (tcpServer st))
      as [[tcp acts0] |] eqn:Htcp; [| discriminate].
    arrived Hstep. eapply listener_step_muted; eassumption.
  - destruct (socketAccepts s st); [| discriminate].
    arrived Hstep. unfold producerData.
    destruct (length chunk =? 0)%nat; [auto |].
    destruct (onData_mutes chunk w st Hi) as [Hm1 Hw].
    destruct (onData chunk w st) as [[st' v] wrote]. simpl in *.
    rewrite ServerFacts.fillerWrites_app, Hw, ServerFacts.fillerWrites_listener.
    split; [| reflexivity].
    eapply muted_same; [| exact Hm1]. apply ServerFacts.silence_setTcp.
  - destruct (Tcp.step interval (Tcp.SocketError s) (tcpServer st))
      as [[tcp acts0] |] eqn:Htcp; [| discriminate].
    arrived Hstep. eapply listener_step_muted; eassumption.
  - destruct (Tcp.step interval (Tcp.SocketClose s now) (tcpServer st))
      as [[tcp acts0] |] eqn:Htcp; [| discriminate].
    arrived Hstep. eapply listener_step_muted; eassumption.
  - destruct (Tcp.step interval Tcp.IdleTimer (tcpServer st))
      as [[tcp acts0] |] eqn:Htcp; [| discriminate].
    arrived Hstep. eapply listener_step_muted; eassumption.
  - arrived Hstep. apply planned_muted, Hm.
  - arrived Hstep. apply planned_muted, Hm.
Qed.

Lemma muted_run evs : forall st st1 acts,
  forallb (fun e => negb (unmutes e)) evs = true ->
  run cfg interval evs st = Some (st1, acts) ->
  muted st ->
  muted st1 /\ fillerWrites acts = [].
Proof.
  induction evs as [| e evs IH]; intros st st1 acts Hevs Hrun Hm; simpl in Hrun.
  - injection Hrun as <- <-. auto.
  - simpl in Hevs. apply andb_prop in Hevs. destruct Hevs as [He Hevs].
    apply negb_true_iff in He.
    destruct (step cfg interval e st) as [[st0 acts0] |] eqn:Hstep; [| discriminate].
    destruct (run cfg interval evs st0) as [[st2 acts2] |] eqn:Hrest;
      [| discriminate].
    injection Hrun as <- <-.
    destruct (muted_step e st st0 acts0 He Hstep Hm) as [Hm0 Hw0].
    destruct (IH st0 st2 acts2 Hevs Hrest Hm0) as [Hm2 Hw2].
    rewrite ServerFacts.fillerWrites_app, Hw0, Hw2. auto.
Qed.

(** X24.  Audio of the producer holds the Silence Filler.  A chunk that
    arrives while the filler runs pauses it and arms the resume timer;
    from then on the filler writes nothing, and stays paused with the
    timer pending, through every sequence of events of the server until
    that timer fires or the server shuts down; the timer then lifts the
    pause. *)
Theorem producer_audio_holds_filler s chunk w now st evs st' acts :
  isActive (silenceGenerator st) = true ->
  chunk <> [] ->
  forallb (fun e => negb (unmutes e)) evs = true ->
  run cfg interval evs (producerData interval s chunk w now st).1 = Some (st', acts) ->
  fillerWrites (producerData interval s chunk w now st).2 = []
  /\ muted (producerData interval s chunk w now st).1
  /\ fillerWrites acts = []
  /\ muted st'
  /\ exists st'', step cfg interval SilenceIdleTimer st' = Some (st'', [])
                  /\ isPaused (silenceGenerator st'') = false.
Proof.
  intros Hact Hchunk Hevs Hrun.
  assert (Hfed : muted (producerData interval s chunk w now st).1
                 /\ fillerWrites (producerData interval s chunk w now st).2 = []).
  { unfold producerData. destruct chunk as [| b chunk]; [congruence |].
    simpl length. change (S (length chunk) =? 0)%nat with false. cbv iota.
    destruct (onData_mutes (b :: chunk) w st Hact) as [Hm1 Hw].
    destruct (onData (b :: chunk) w st) as [[st1 v] wrote]. simpl in *.
    rewrite ServerFacts.fillerWrites_app, Hw, ServerFacts.fillerWrites_listener.
    split; [| reflexivity].
    eapply muted_same; [| exact Hm1]. apply ServerFacts.silence_setTcp. }
  destruct Hfed as [Hm Hw].
  destruct (muted_run evs _ st' acts Hevs Hrun Hm) as [Hm' Hw'].
  split; [exact Hw |]. split; [exact Hm |]. split; [exact Hw' |].
  split; [exact Hm' |].
  destruct Hm' as (Hi & Hp & Ha). simpl. rewrite Ha.
  eexists. split; [reflexivity |].
  rewrite ServerFacts.silence_setSilence. unfold onIdleTimer, isPaused.
  rewrite Hi. reflexivity.
Qed.

End Wired.
Lemma producer_audio_holds_filler_witness :
  fillerWrites
    (default []
       (option_map snd
          (run Ffmpeg.defaults Tcp.INGEST_LOG_INTERVAL_MS
             [SilenceTick WriteAccepted; Supervisor Ffmpeg.StdinDrain;
              SilenceTick WriteAccepted]
             (producerData Tcp.INGEST_LOG_INTERVAL_MS 0 audio WriteAccepted 200
                (after streaming)).1))) = [].
Proof.
  destruct (run Ffmpeg.defaults Tcp.INGEST_LOG_INTERVAL_MS
              [SilenceTick WriteAccepted; Supervisor Ffmpeg.StdinDrain;
               SilenceTick WriteAccepted]
              (producerData Tcp.INGEST_LOG_INTERVAL_MS 0 audio WriteAccepted 200
                 (after streaming)).1) as [[st' acts] |] eqn:Hrun;
    [| vm_compute in Hrun; discriminate Hrun].
  destruct (producer_audio_holds_filler Ffmpeg.defaults Tcp.INGEST_LOG_INTERVAL_MS
              0 audio WriteAccepted 200 (after streaming)
              [SilenceTick WriteAccepted; Supervisor Ffmpeg.StdinDrain;
               SilenceTick WriteAccepted] st' acts)
    as (_ & _ & Hw & _).
  - reflexivity.
  - discriminate.
  - reflexivity.
  - exact Hrun.
  - exact Hw.
Defined.

End HandoverFacts.

(** ** POST /metadata: what gets through to the overlay *)

Module MetadataRouteFacts.
Import JsString Metadata MetadataRoute.

Lemma replaceRuns_length (p : N -> bool) s : forall inRun,
  (length (replaceRuns p inRun s) <= length s)%nat.
Proof.
  induction s as [| c s IH]; intros inRun; simpl; [lia |].
  pose proof (IH true). pose proof (IH false).
  destruct (p c); [destruct inRun |]; simpl; lia.
Qed.

Lemma dropWhile_length (p : N -> bool) s : (length (dropWhile p s) <= length s)%nat.
Proof.
  induction s as [| c s IH]; simpl; [lia |]. destruct (p c); simpl; lia.
Qed.

Lemma trimEnd_length s : (length (trimEnd s) <= length s)%nat.
Proof.
  induction s as [| c s IH]; simpl; [lia |].
  destruct (trimEnd s) as [| k kept]; [destruct (isWhiteSpace c) |];
    simpl in *; lia.
Qed.

Lemma trim_length s : (length (trim s) <= length s)%nat.
Proof.
  unfold trim, trimStart.
  pose proof (trimEnd_length (dropWhile isWhiteSpace s)).
  pose proof (dropWhile_length isWhiteSpace s). lia.
Qed.

(** Sanitizing never makes a string longer. *)
Lemma sanitized_length v fallback s :
  sanitizeMetadataField (Some v) fallback = Some s ->
  fallback = Some s \/ (length s <= length v)%nat.
Proof.
  unfold sanitizeMetadataField.
  set (a := replaceRuns isLineBreak false v).
  set (b := List.filter (fun c => negb (isAngle c)) a).
  set (c := List.map (fun c => if isFilterSyntax c then 32%N else c) b).
  set (d := replaceRuns isWhiteSpace false c).
  destruct (0 <? length (trim d))%nat; [| auto].
  intros [= <-]. right.
  pose proof (trim_length d). pose proof (replaceRuns_length isWhiteSpace c false).
  assert (length c = length b) by (subst c; apply length_map).
  pose proof (List.filter_length_le (fun c => negb (isAngle c)) a).
  pose proof (replaceRuns_length isLineBreak v false).
  fold b in H2. fold a in H3. fold d in H0. lia.
Qed.

Lemma validateProvided_ok value maxLength fieldName :
  validateProvided value maxLength fieldName = None <-> acceptable value maxLength.
Proof.
  unfold validateProvided, validateString, acceptable.
  destruct value as [| s |]; simpl.
  - split; auto.
  - destruct (maxLength <? Z.of_nat (length s)) eqn:Hlong.
    + apply Z.ltb_lt in Hlong. split; [discriminate |].
      intros [H | (s' & [= <-] & Hs)]; [discriminate | lia].
    + apply Z.ltb_ge in Hlong. split; [| reflexivity].
      intros _. right. exists s. auto.
  - split; [discriminate |]. intros [H | (s' & H & _)]; discriminate.
Qed.

Lemma shown_fits value maxLength fallback :
  acceptable value maxLength ->
  tidy fallback = true ->
  Z.of_nat (length fallback) <= maxLength ->
  fits maxLength (sanitizeMetadataField (provided value) (Some fallback)).
Proof.
  intros Hok Htidy Hlen. unfold fits.
  destruct Hok as [-> | (s & -> & Hs)]; simpl provided.
  - exists fallback. auto.
  - destruct (MetadataFacts.sanitized_field_is_tidy_or_fallback s (Some fallback))
      as [Hfb | (t & Ht & Htt)].
    + exists fallback. rewrite Hfb. auto.
    + exists t. split; [exact Ht |]. split; [exact Htt |].
      destruct (sanitized_length s (Some fallback) t Ht) as [[= <-] | Hle]; lia.
Qed.
(** X25.  POST /metadata lets a body through exactly when each of title,
    artist, album, comment and filename is missing or a string within its
    maximum length (200, 100, 100, 300, 255 code units): then it answers
    204 and hands the body on, otherwise 400 and nothing is handed on.
    For a body handed on, the title, artist and album that go to the
    overlay are tidy and no longer than 200, 100 and 100 code units. *)
Theorem metadata_route_validates (body : Body) :
  (status (postMetadata body) = 204
   <-> acceptable (title body) MAX_METADATA_TITLE_LENGTH
       /\ acceptable (artist body) MAX_METADATA_ARTIST_LENGTH
       /\ acceptable (album body) MAX_METADATA_ALBUM_LENGTH
       /\ acceptable (comment body) MAX_METADATA_COMMENT_LENGTH
       /\ acceptable (filename body) 255)
  /\ (status (postMetadata body) = 204 /\ update (postMetadata body) = Some body
      \/ status (postMetadata body) = 400 /\ update (postMetadata body) = None
         /\ is_Some (error (postMetadata body)))
  /\ (status (postMetadata body) = 204 ->
      fits MAX_METADATA_TITLE_LENGTH (normalizedTitle body)
      /\ fits MAX_METADATA_ARTIST_LENGTH (normalizedArtist body)
      /\ fits MAX_METADATA_ALBUM_LENGTH (normalizedAlbum body)).
Proof.
  assert (Hiff : status (postMetadata body) = 204
                 <-> acceptable (title body) MAX_METADATA_TITLE_LENGTH
                     /\ acceptable (artist body) MAX_METADATA_ARTIST_LENGTH
                     /\ acceptable (album body) MAX_METADATA_ALBUM_LENGTH
                     /\ acceptable (comment body) MAX_METADATA_COMMENT_LENGTH
                     /\ acceptable (filename body) 255).
  { pose proof (validateProvided_ok (title body) MAX_METADATA_TITLE_LENGTH "title")
      as Ht.
    pose proof (validateProvided_ok (artist body) MAX_METADATA_ARTIST_LENGTH "artist")
      as Ha.
    pose proof (validateProvided_ok (album body) MAX_METADATA_ALBUM_LENGTH "album")
      as Hl.
    pose proof (validateProvided_ok (comment body) MAX_METADATA_COMMENT_LENGTH
                  "comment") as Hc.
    pose proof (validateProvided_ok (filename body) 255 "filename") as Hf.
    unfold postMetadata, checks. simpl.
    destruct (validateProvided (title body) _ _);
      [simpl; split; [discriminate | intros (H & _); apply Ht in H; discriminate H] |].
    destruct (validateProvided (artist body) _ _);
      [simpl; split; [discriminate
                     | intros (_ & H & _); apply Ha in H; discriminate H] |].
    destruct (validateProvided (album body) _ _);
      [simpl; split; [discriminate
                     | intros (_ & _ & H & _); apply Hl in H; discriminate H] |].
    destruct (validateProvided (comment body) _ _);
      [simpl; split; [discriminate
                     | intros (_ & _ & _ & H & _); apply Hc in H; discriminate H] |].
    destruct (validateProvided (filename body) _ _);
      [simpl; split; [discriminate
                     | intros (_ & _ & _ & _ & H); apply Hf in H; discriminate H] |].
    simpl. tauto. }
  split; [exact Hiff |]. split.
  - unfold postMetadata. destruct (firstThrown (checks body)); simpl.
    + right. split; [reflexivity |]. split; [reflexivity |]. eexists. reflexivity.
    + left. split; reflexivity.
  - intros Hok. apply Hiff in Hok. destruct Hok as (Ht & Ha & Hl & _).
    split; [| split].
    + apply shown_fits; [exact Ht | reflexivity | vm_compute; discriminate].
    + apply shown_fits; [exact Ha | reflexivity | vm_compute; discriminate].
    + apply shown_fits; [exact Hl | reflexivity | vm_compute; discriminate].
Qed.

End MetadataRouteFacts.

(** ** The ports read from the environment *)

Module LibConfigFacts.
Import JsString Env LibConfig.

Lemma optionalPortEnv_returns env name fallback port :
  optionalPortEnv env name fallback = Returns port ->
  validPort port
  /\ ((provided env name = None /\ port = fallback)
      \/ exists s, provided env name = Some s /\ parseInt10 s = Some port).
Proof.
  unfold optionalPortEnv, optionalIntEnv, bind, validPort.
  destruct (provided env name) as [s |].
  - destruct (parseInt10 s) as [n |] eqn:Hparse; [| discriminate].
    destruct ((n <? 1) || (65535 <? n)) eqn:Hout; [discriminate |].
    intros [= <-]. apply orb_false_iff in Hout. destruct Hout as [Hlo Hhi].
    apply Z.ltb_ge in Hlo, Hhi. split; [lia |]. right. exists s. auto.
  - destruct ((fallback <? 1) || (65535 <? fallback)) eqn:Hout; [discriminate |].
    intros [= <-]. apply orb_false_iff in Hout. destruct Hout as [Hlo Hhi].
    apply Z.ltb_ge in Hlo, Hhi. split; [lia |]. left. auto.
Qed.

Lemma requirePortEnv_returns env name port :
  requirePortEnv env name = Returns port ->
  validPort port
  /\ exists s, provided env name = Some s /\ parseInt10 s = Some port.
Proof.
  unfold requirePortEnv, requireIntEnv, requireEnv, bind, validPort.
  destruct (provided env name) as [s |]; [| discriminate].
  destruct (parseInt10 s) as [n |] eqn:Hparse; [| discriminate].
  destruct ((n <? 1) || (65535 <? n)) eqn:Hout; [discriminate |].
  intros [= <-]. apply orb_false_iff in Hout. destruct Hout as [Hlo Hhi].
  apply Z.ltb_ge in Hlo, Hhi. split; [lia |]. exists s. auto.
Qed.

Lemma optionalEnv_not_empty env name fallback :
  fallback <> [] -> optionalEnv env name fallback <> [].
Proof.
  intros Hfb. unfold optionalEnv, provided.
  destruct (env !! name) as [[| c v] |]; simpl; [exact Hfb | discriminate | exact Hfb].
Qed.

(** X26.  Whatever the environment holds, once lib/config has loaded,
    the three ports are integers from 1 to 65535, each the default (5000,
    4000, 3000) when its variable is unset or empty and otherwise the
    integer [parseInt] reads in it, and the two hosts are not empty,
    127.0.0.1 when unset; a port outside the range, or one that is no
    number, ends the process instead.  [requirePortEnv] likewise returns
    only ports of that range. *)
Theorem ports_are_valid env c :
  load env = Returns c ->
  (validPort (TCP_PORT c) /\ validPort (HTTP_PORT c) /\ validPort (PLAYER_API_PORT c))
  /\ (provided env "TCP_PORT" = None -> TCP_PORT c = 5000)
  /\ (provided env "HTTP_PORT" = None -> HTTP_PORT c = 4000)
  /\ (provided env "PLAYER_API_PORT" = None -> PLAYER_API_PORT c = 3000)
  /\ (forall s, provided env "TCP_PORT" = Some s -> parseInt10 s = Some (TCP_PORT c))
  /\ (forall s, provided env "HTTP_PORT" = Some s -> parseInt10 s = Some (HTTP_PORT c))
  /\ (forall s, provided env "PLAYER_API_PORT" = Some s ->
                parseInt10 s = Some (PLAYER_API_PORT c))
  /\ HTTP_HOST c <> [] /\ PLAYER_API_HOST c <> []
  /\ (provided env "HTTP_HOST" = None -> HTTP_HOST c = ofString "127.0.0.1")
  /\ (forall name port, requirePortEnv env name = Returns port -> validPort port).
Proof.
  unfold load. intros H.
  destruct (optionalPortEnv env "TCP_PORT" DEFAULT_TCP_PORT) as [tcp |] eqn:Htcp;
    [| discriminate H].
  destruct (optionalPortEnv env "HTTP_PORT" DEFAULT_HTTP_PORT) as [http |] eqn:Hhttp;
    [| discriminate H].
  destruct (optionalPortEnv env "PLAYER_API_PORT" DEFAULT_PLAYER_API_PORT)
    as [player |] eqn:Hplayer; [| discriminate H].
  simpl in H. injection H as <-. simpl.
  apply optionalPortEnv_returns in Htcp, Hhttp, Hplayer.
  destruct Htcp as [Vtcp Wtcp], Hhttp as [Vhttp Whttp], Hplayer as [Vplayer Wplayer].
  split; [auto |].
  split; [intros Hnone; destruct Wtcp as [[_ ->] | (s & Hs & _)];
          [reflexivity | congruence] |].
  split; [intros Hnone; destruct Whttp as [[_ ->] | (s & Hs & _)];
          [reflexivity | congruence] |].
  split; [intros Hnone; destruct Wplayer as [[_ ->] | (s & Hs & _)];
          [reflexivity | congruence] |].
  split; [intros s Hs; destruct Wtcp as [[Hn _] | (s' & Hs' & Hp)]; congruence |].
  split; [intros s Hs; destruct Whttp as [[Hn _] | (s' & Hs' & Hp)]; congruence |].
  split; [intros s Hs; destruct Wplayer as [[Hn _] | (s' & Hs' & Hp)]; congruence |].
  split; [apply optionalEnv_not_empty; discriminate |].
  split; [apply optionalEnv_not_empty; discriminate |].
  split; [intros Hnone; unfold optionalEnv; rewrite Hnone; reflexivity |].
  intros name port Hport. apply requirePortEnv_returns in Hport. tauto.
Qed.
Lemma ports_are_valid_witness :
  validPort 8080 /\ validPort 4000 /\ validPort 3000.
Proof.
  refine (proj1 (ports_are_valid
                   {[ "TCP_PORT" := ofString " 8080"; "HTTP_HOST" := ofString "0.0.0.0" ]}
                   {| TCP_PORT := 8080; HTTP_PORT := 4000;
                      HTTP_HOST := ofString "0.0.0.0";
                      PLAYER_API_PORT := 3000;
                      PLAYER_API_HOST := ofString "127.0.0.1" |} _)).
  vm_compute. reflexivity.
Defined.

End LibConfigFacts.

(** ** The API key of the HTTP endpoints *)

Module AuthFacts.
Import JsString Auth.

Lemma safeCompare_spec a b : safeCompare a b = true <-> utf8 a = utf8 b.
Proof.
  unfold safeCompare.
  destruct (length (utf8 a) =? length (utf8 b))%nat eqn:Hlen; simpl.
  - apply bool_decide_eq_true.
  - apply Nat.eqb_neq in Hlen. split; [discriminate |].
    intros Heq. rewrite Heq in Hlen. congruence.
Qed.

(** The first byte tells the length of the sequence. *)
Lemma utf8CodePoint_head cp :
  exists b bs, utf8CodePoint cp = b :: bs
    /\ ((cp < 0x80 /\ b = cp /\ bs = [])
        \/ (0x80 <= cp < 0x800 /\ 0xC2 <= b < 0xE0
            /\ bs = [0x80 + cp mod 64] /\ b = 0xC0 + cp / 64)
        \/ (0x800 <= cp /\ 0xE0 <= b))%N.
Proof.
  unfold utf8CodePoint.
  destruct (cp <? 0x80)%N eqn:H1; [apply N.ltb_lt in H1 | apply N.ltb_ge in H1].
  { eexists _, _. split; [reflexivity |]. left. auto. }
  destruct (cp <? 0x800)%N eqn:H2; [apply N.ltb_lt in H2 | apply N.ltb_ge in H2].
  { eexists _, _. split; [reflexivity |]. right. left.
    split; [lia |]. split; [| auto].
    pose proof (N.Div0.div_le_mono 0x80 cp 64 H1) as Hlo. change (0x80 / 64)%N with 2%N in Hlo.
    assert (Hhi : (cp / 64 < 32)%N) by (apply N.Div0.div_lt_upper_bound; lia).
    lia. }
  destruct (cp <? 0x10000)%N; eexists _, _; (split; [reflexivity |]);
    right; right; (split; [exact H2 |]).
  - pose proof (N.le_0_l (cp / 4096)). lia.
  - pose proof (N.le_0_l (cp / 262144)). lia.
Qed.

Lemma utf8_head_surrogate c rest :
  (isHighSurrogate c || isLowSurrogate c) = true ->
  exists b bs, utf8 (c :: rest) = b :: bs /\ (0xE0 <= b)%N.
Proof.
  intros Hs. simpl.
  destruct (isHighSurrogate c) eqn:Hh.
  - destruct rest as [| d rest']; [eexists _, _; split; [reflexivity | lia] |].
    destruct (isLowSurrogate d).
    + destruct (utf8CodePoint_head (0x10000 + (c - 0xD800) * 1024 + (d - 0xDC00)))
        as (b & bs & -> & [(Hlt & _) | [(Hlt & _) | (_ & Hb)]]); try lia.
      eexists _, _. split; [reflexivity | exact Hb].
    + eexists _, _. split; [reflexivity | lia].
  - simpl in Hs. rewrite Hs. eexists _, _. split; [reflexivity | lia].
Qed.

Lemma not_surrogate_below c :
  (c < 0x800)%N -> isHighSurrogate c = false /\ isLowSurrogate c = false.
Proof.
  intros Hc. unfold isHighSurrogate, isLowSurrogate.
  split; apply andb_false_iff; left; apply N.leb_gt; lia.
Qed.

(** A string of characters up to U+00FF has the bytes of no other
    string. *)
Lemma utf8_latin1_inj p : forall k,
  latin1 p -> utf8 p = utf8 k -> p = k.
Proof.
  induction p as [| c p IH]; intros k Hp Heq.
  - destruct k as [| d k]; [reflexivity |]. exfalso.
    destruct (isHighSurrogate d || isLowSurrogate d) eqn:Hs.
    + destruct (utf8_head_surrogate d k Hs) as (b & bs & Hk & _).
      rewrite Hk in Heq. discriminate Heq.
    + apply orb_false_iff in Hs. destruct Hs as [Hh Hl].
      simpl in Heq. rewrite Hh, Hl in Heq.
      destruct (utf8CodePoint_head d) as (b & bs & Hd & _).
      rewrite Hd in Heq. discriminate Heq.
  - apply Forall_cons in Hp. destruct Hp as [Hc Hp].
    destruct (not_surrogate_below c ltac:(lia)) as [Hch Hcl].
    assert (Hleft : utf8 (c :: p) = utf8CodePoint c ++ utf8 p)
      by (simpl; rewrite Hch, Hcl; reflexivity).
    rewrite Hleft in Heq.
    destruct (utf8CodePoint_head c)
      as (b & bs & Hcb & [(Hc1 & -> & ->) | [(Hc2 & Hb & -> & Hbq) | (Hc3 & _)]]);
      [| | lia]; rewrite Hcb in Heq.
    + (* one byte *)
      destruct k as [| d k]; [discriminate Heq |].
      destruct (isHighSurrogate d || isLowSurrogate d) eqn:Hs.
      { destruct (utf8_head_surrogate d k Hs) as (b' & bs' & Hk & Hb').
        rewrite Hk in Heq. injection Heq as Hbb _. lia. }
      apply orb_false_iff in Hs. destruct Hs as [Hh Hl].
      simpl in Heq. rewrite Hh, Hl in Heq.
      destruct (utf8CodePoint_head d)
        as (b' & bs' & Hd & [(Hd1 & -> & ->) | [(Hd2 & Hb' & _) | (Hd3 & Hb')]]);
        rewrite Hd in Heq; simpl in Heq; injection Heq as Hbb Hrest; try lia.
      subst d. f_equal. apply IH; assumption.
    + (* two bytes *)
      destruct k as [| d k]; [discriminate Heq |].
      destruct (isHighSurrogate d || isLowSurrogate d) eqn:Hs.
      { destruct (utf8_head_surrogate d k Hs) as (b' & bs' & Hk & Hb').
        rewrite Hk in Heq. injection Heq as Hbb _. lia. }
      apply orb_false_iff in Hs. destruct Hs as [Hh Hl].
      simpl in Heq. rewrite Hh, Hl in Heq.
      destruct (utf8CodePoint_head d)
        as (b' & bs' & Hd & [(Hd1 & -> & ->) | [(Hd2 & Hb' & -> & Hbq') | (Hd3 & Hb')]]);
        rewrite Hd in Heq; simpl in Heq; injection Heq as Hbb Hrest; try lia.
      assert (c = d).
      { rewrite (N.div_mod' c 64), (N.div_mod' d 64). lia. }
      subst d. f_equal. apply IH; assumption.
Qed.

Lemma getApiKey_not_empty env key : getApiKey env = Some key -> key <> [].
Proof.
  unfold getApiKey. destruct (env !! "STREAMDJ_API_KEY") as [raw |]; [| discriminate].
  destruct (negb (length raw =? 0)%nat && (0 <? length (trim raw))%nat) eqn:Hok;
    [| discriminate].
  intros [= <-]. apply andb_prop in Hok. destruct Hok as [_ Hlen].
  apply Nat.ltb_lt in Hlen. destruct (trim raw); [simpl in Hlen; lia | discriminate].
Qed.
(** X27.  The API key gate of the server.  Without a key configured
    every request goes through.  With one, a request goes through exactly
    when its path is /health or lies under it, or the key it carries, in
    X-API-Key or else as a Bearer token in Authorization, is not empty
    and has the bytes of the configured key; a key made of characters up
    to U+00FF, as header values are, has those bytes only when it is the
    configured key itself. *)
Theorem api_key_gate (env : gmap string (list N)) (req : Request) :
  (getApiKey env = None -> serverAuth env req = Next)
  /\ (forall key, getApiKey env = Some key ->
        key <> []
        /\ (serverAuth env req = Next
            <-> path req = ofString "/health"
                \/ startsWith (ofString "/health/") (path req) = true
                \/ exists provided,
                     extractApiKey req = Some provided /\ provided <> []
                     /\ utf8 provided = utf8 key)
        /\ (forall provided,
              latin1 provided -> (utf8 provided = utf8 key <-> provided = key))).
Proof.
  split.
  - intros Hnone. unfold serverAuth, createAuthMiddleware, authMiddleware, isAuthEnabled.
    rewrite Hnone.
    rewrite bool_decide_eq_false_2 by (intros [x Hx]; discriminate Hx).
    destruct (existsb _ _); reflexivity.
  - intros key Hkey. split; [eapply getApiKey_not_empty; exact Hkey |]. split.
    + unfold serverAuth, createAuthMiddleware.
      assert (Hexcluded :
                existsb (fun p => bool_decide (path req = p)
                                  || startsWith (p ++ [47%N]) (path req))
                  [ofString "/health"]
                = bool_decide (path req = ofString "/health")
                  || startsWith (ofString "/health/") (path req)).
      { cbn [existsb]. rewrite orb_false_r. reflexivity. }
      rewrite Hexcluded. clear Hexcluded.
      set (under := startsWith (ofString "/health/") (path req)).
      destruct (bool_decide (path req = ofString "/health")) eqn:Hp.
      { apply bool_decide_eq_true in Hp. cbn [orb]. split; [auto | reflexivity]. }
      apply bool_decide_eq_false in Hp. cbn [orb].
      destruct under eqn:Hsub.
      { split; [auto | reflexivity]. }
      unfold authMiddleware, isAuthEnabled, validateApiKey. rewrite Hkey.
      rewrite bool_decide_eq_true_2 by (eexists; reflexivity). simpl.
      destruct (extractApiKey req) as [[| c provided] |] eqn:Hex; simpl.
      * split; [discriminate |].
        intros [H | [H | (x & [= <-] & Hx & _)]]; congruence.
      * destruct (safeCompare (c :: provided) key) eqn:Hcmp.
        -- split; [| reflexivity]. intros _. right. right.
           exists (c :: provided). split; [reflexivity |].
           split; [discriminate | apply safeCompare_spec, Hcmp].
        -- split; [discriminate |].
           intros [H | [H | (x & [= <-] & _ & Hx)]]; try congruence.
           apply safeCompare_spec in Hx. congruence.
      * split; [discriminate |].
        intros [H | [H | (x & Hx & _)]]; congruence.
    + intros provided Hlatin. split; [apply utf8_latin1_inj, Hlatin | intros ->; reflexivity].
Qed.

End AuthFacts.

(** ** One track after the other *)

Module RoundsFacts.
Import Player Playback Rounds.

Lemma playing_index c :
  playing c ->
  0 <= currentIndex (playlistManager c)
     < Z.of_nat (length (playlist (playlistManager c))).
Proof.
  intros (_ & [t Ht] & _). unfold getTrackAtIndex in Ht.
  destruct (currentIndex (playlistManager c) <? 0) eqn:Hneg; [discriminate |].
  apply Z.ltb_ge in Hneg. apply lookup_lt_Some in Ht. lia.
Qed.

(** One natural completion with shuffle off and a spawn that works. *)
Lemma completion_in_order now draws o c :
  playing c ->
  shuffle (playlistManager c) = false ->
  spawns o ->
  let n := Z.of_nat (length (playlist (playlistManager c))) in
  let next := (currentIndex (playlistManager c) + 1) mod n in
  let c' := (onDecoderClose now draws o c).1 in
  playing c'
  /\ shuffle (playlistManager c') = false
  /\ playlist (playlistManager c') = playlist (playlistManager c)
  /\ currentIndex (playlistManager c') = next
  /\ history (playlistManager c')
     = history (playlistManager c) ++ [currentIndex (playlistManager c)]
  /\ exists track, getTrackAtIndex next (playlistManager c) = Some track
       /\ (onDecoderClose now draws o c).2
          = [SpawnDecoder (fullPath track) 0; PostMetadata track].
Proof.
  intros Hplaying Hshuffle (d & -> & Hd) n next c'.
  pose proof (playing_index c Hplaying) as Hidx. fold n in Hidx.
  destruct Hplaying as (Hproc & Htrack & Hcur & Hpa & Hsi & Hsd).
  assert (Hnext : 0 <= next < n) by (apply Z.mod_pos_bound; lia).
  assert (Hthere : exists track, playlist (playlistManager c) !! Z.to_nat next
                                 = Some track).
  { apply lookup_lt_is_Some. lia. }
  destruct Hthere as [track Hthere].
  assert (Hn0 : (length (playlist (playlistManager c)) =? 0)%nat = false)
    by (apply Nat.eqb_neq; lia).
  assert (Hm1 : (currentIndex (playlistManager c) =? -1) = false)
    by (apply Z.eqb_neq; lia).
  assert (Hrem : Z.rem (currentIndex (playlistManager c) + 1) n = next)
    by (apply Z.rem_mod_nonneg; lia).
  assert (Hnext1 : (next =? -1) = false) by (apply Z.eqb_neq; lia).
  assert (Hnextneg : (next <? 0) = false) by (apply Z.ltb_ge; lia).
  assert (Hclose : onDecoderClose now draws (SpawnReturns d) c
            = ({| playback :=
                    {| process := d; startTime := Some now; offset := 0;
                       isPaused := false; stopIntent := None;
                       shuttingDown := shuttingDown (playback c) |};
                  playlistManager :=
                    setCurrentIndex next (addToHistory (playlistManager c)) |},
               [SpawnDecoder (fullPath track) 0; PostMetadata track])).
  { unfold onDecoderClose. rewrite Hsi, Hsd. cbv iota.
    unfold pickNextIndex, addToHistory. simpl. rewrite Hm1. simpl.
    rewrite Hn0, Hshuffle. simpl. rewrite Hm1. fold n. rewrite Hrem, Hnext1.
    unfold playTrackAtIndex, getTrackAtIndex. simpl.
    rewrite Hnextneg, Hthere, Hd. reflexivity. }
  assert (Hget : forall pl', playlist pl' = playlist (playlistManager c) ->
                             getTrackAtIndex next pl' = Some track).
  { intros pl' Hpl. unfold getTrackAtIndex. rewrite Hnextneg, Hpl. exact Hthere. }
  subst c'. rewrite Hclose. cbn [fst snd].
  assert (Hhist : addToHistory (playlistManager c)
            = Playback.withHistory
                (history (playlistManager c) ++ [currentIndex (playlistManager c)])
                (playlistManager c)).
  { unfold addToHistory. rewrite Hm1. reflexivity. }
  rewrite Hhist.
  split.
  - unfold playing. cbn [playback playlistManager process isPaused stopIntent
                          shuttingDown setCurrentIndex currentIndex currentTrack].
    rewrite !Hget by reflexivity.
    split; [destruct d as [dec |]; [eexists; reflexivity | discriminate Hd] |].
    split; [eexists; reflexivity |]. split; [reflexivity |].
    split; [reflexivity |]. split; [reflexivity | exact Hsd].
  - split; [exact Hshuffle |]. split; [reflexivity |]. split; [reflexivity |].
    split; [reflexivity |]. exists track. split; [| reflexivity].
    apply Hget. reflexivity.
Qed.
(** X28.  With shuffle off the player goes round the playlist in order.
    After any number of natural completions, each meeting a spawn that
    works, the current index has moved on by that number, modulo the
    length of the playlist, so that a full round comes back to the same
    track; the history has gained the indices played on the way, in
    order; and a track is playing. *)
Theorem sequential_playback_goes_round ins c :
  playing c ->
  shuffle (playlistManager c) = false ->
  Forall (fun i => spawns i.2) ins ->
  let n := Z.of_nat (length (playlist (playlistManager c))) in
  let start := currentIndex (playlistManager c) in
  let c' := (completions ins c).1 in
  playing c'
  /\ currentIndex (playlistManager c') = (start + Z.of_nat (length ins)) mod n
  /\ history (playlistManager c')
     = history (playlistManager c)
       ++ List.map (fun k => (start + Z.of_nat k) mod n) (seq 0 (length ins))
  /\ length (decoded (completions ins c).2) = length ins
  /\ (Z.of_nat (length ins) = n -> currentIndex (playlistManager c') = start).
Proof.
  intros Hplaying Hshuffle Hins n start c'.
  assert (Hstart : 0 <= start < n) by (apply playing_index, Hplaying).
  assert (Hmain : playing c'
            /\ currentIndex (playlistManager c') = (start + Z.of_nat (length ins)) mod n
            /\ history (playlistManager c')
               = history (playlistManager c)
                 ++ List.map (fun k => (start + Z.of_nat k) mod n) (seq 0 (length ins))
            /\ length (decoded (completions ins c).2) = length ins).
  { subst c' n start. revert c Hplaying Hshuffle Hstart.
    induction ins as [| [[now draws] o] ins IH]; intros c Hplaying Hshuffle Hstart.
    - simpl. rewrite Z.add_0_r, app_nil_r, Z.mod_small by lia. auto.
    - apply Forall_cons in Hins. destruct Hins as [Ho Hins]. simpl in Ho.
      destruct (completion_in_order now draws o c Hplaying Hshuffle Ho)
        as (Hp1 & Hs1 & Hl1 & Hi1 & Hh1 & track & _ & Hacts).
      simpl completions.
      destruct (onDecoderClose now draws o c) as [c1 acts]. simpl in *.
      specialize (IH Hins c1 Hp1 Hs1).
      rewrite Hl1, Hi1, Hh1 in IH.
      specialize (IH ltac:(apply Z.mod_pos_bound; lia)).
      destruct (completions ins c1) as [c2 acts']. simpl in *.
      destruct IH as (Hp2 & Hi2 & Hh2 & Hd2).
      split; [exact Hp2 |]. split; [| split].
      + rewrite Hi2. rewrite Zplus_mod_idemp_l. f_equal. lia.
      + rewrite Hh2, <- app_assoc. f_equal. simpl. f_equal.
        * rewrite Z.add_0_r, Z.mod_small by lia. reflexivity.
        * rewrite <- seq_shift, List.map_map. apply List.map_ext. intros k.
          rewrite Zplus_mod_idemp_l. f_equal. lia.
      + subst acts. simpl. rewrite Hd2. reflexivity. }
  destruct Hmain as (Hp & Hi & Hh & Hd).
  split; [exact Hp |]. split; [exact Hi |]. split; [exact Hh |].
  split; [exact Hd |].
  intros Hround. rewrite Hi, Hround.
  rewrite <- (Z.mul_1_l n) at 1. rewrite Z.mod_add by lia.
  apply Z.mod_small. lia.
Qed.

Lemma sequential_playback_goes_round_witness :
  currentIndex
    (playlistManager
       (completions [(5000, [], SpawnReturns (Some decoder));
                     (9000, [], SpawnReturns (Some decoder));
                     (13000, [], SpawnReturns (Some decoder))]
          (secondStartedAt 1000)).1) = 1.
Proof.
  destruct (sequential_playback_goes_round
              [(5000, [], SpawnReturns (Some decoder));
               (9000, [], SpawnReturns (Some decoder));
               (13000, [], SpawnReturns (Some decoder))]
              (secondStartedAt 1000))
    as (_ & _ & _ & _ & Hround).
  - vm_compute. repeat split; try reflexivity; eexists; reflexivity.
  - reflexivity.
  - repeat constructor; exists (Some decoder); split; reflexivity.
  - apply Hround. reflexivity.
Defined.

(** With a queue at hand the picks take it from the front. *)
Lemma picks_pop queue : forall drawss pl,
  shuffle pl = true ->
  playlist pl <> [] ->
  shuffledQueue pl = queue ->
  length drawss = length queue ->
  (picks drawss pl).1 = queue
  /\ shuffledQueue (picks drawss pl).2 = []
  /\ playlist (picks drawss pl).2 = playlist pl.
Proof.
  induction queue as [| next rest IH]; intros drawss pl Hs Hne Hq Hlen.
  - destruct drawss; [| discriminate Hlen]. simpl. auto.
  - destruct drawss as [| draws drawss]; [discriminate Hlen |].
    simpl in Hlen. injection Hlen as Hlen. simpl.
    assert (Hpick : pickNextIndex draws pl = (next, withQueue rest pl)).
    { unfold pickNextIndex.
      replace (length (playlist pl) =? 0)%nat with false
        by (destruct (playlist pl); [congruence | reflexivity]).
      rewrite Hs, Hq. cbn [negb length Nat.eqb]. cbv iota.
      rewrite Hq. reflexivity. }
    rewrite Hpick.
    destruct (IH drawss (withQueue rest pl) Hs Hne eq_refl Hlen) as (Hi & He & Hp).
    destruct (picks drawss (withQueue rest pl)) as [indices pl2]. simpl in *.
    split; [f_equal; exact Hi | split; [exact He | exact Hp]].
Qed.

(** X29.  With shuffle on, a round plays every other track once.  When
    the queue is empty the next pick refills it, and that pick and the
    ones after it, as many as the queue holds, give each index of the
    playlist other than the current one exactly once (the one index of a
    one-track playlist), whatever [Math.random] returns; the queue is
    empty again after them. *)
Theorem shuffle_round_plays_each_once draws drawss pl :
  shuffle pl = true ->
  playlist pl <> [] ->
  shuffledQueue pl = [] ->
  S (length drawss)
  = length (shuffledQueue (refreshShuffleQueue draws (currentIndex pl) pl)) ->
  let round := picks (draws :: drawss) pl in
  NoDup round.1
  /\ (forall index,
        index ∈ round.1
        <-> 0 <= index < Z.of_nat (length (playlist pl))
            /\ (index <> currentIndex pl \/ length (playlist pl) = 1%nat))
  /\ shuffledQueue round.2 = []
  /\ playlist round.2 = playlist pl.
Proof.
  intros Hs Hne Hq Hlen round.
  set (refreshed := refreshShuffleQueue draws (currentIndex pl) pl) in *.
  assert (Hround : round.1 = shuffledQueue refreshed
                   /\ shuffledQueue round.2 = []
                   /\ playlist round.2 = playlist pl).
  { subst round. simpl.
    destruct (shuffledQueue refreshed) as [| next rest] eqn:Hqueue;
      [discriminate Hlen |].
    assert (Hpick : pickNextIndex draws pl = (next, withQueue rest refreshed)).
    { unfold pickNextIndex.
      replace (length (playlist pl) =? 0)%nat with false
        by (destruct (playlist pl); [congruence | reflexivity]).
      rewrite Hs, Hq. cbn [negb length Nat.eqb]. cbv iota. fold refreshed.
      rewrite Hqueue. reflexivity. }
    rewrite Hpick. simpl in Hlen. injection Hlen as Hlen.
    destruct (picks_pop rest drawss (withQueue rest refreshed))
      as (Hi & He & Hp); [exact Hs | exact Hne | reflexivity | exact Hlen |].
    destruct (picks drawss (withQueue rest refreshed)) as [indices pl2].
    cbn [fst snd] in *. subst indices.
    split; [exact (eq_sym Hqueue) | split; [exact He | exact Hp]]. }
  destruct Hround as (-> & He & Hp).
  set (others :=
         List.filter
           (fun idx => negb (idx =? currentIndex pl)
                       || (length (playlist pl) =? 1)%nat)
           (List.map Z.of_nat (seq 0 (length (playlist pl))))).
  assert (Hperm : shuffledQueue refreshed ≡ₚ others)
    by apply PlaybackFacts.shuffleFrom_Permutation.
  split; [| split; [| split; [exact He | exact Hp]]].
  - rewrite Hperm. subst others. apply NoDup_ListNoDup, List.NoDup_filter.
    apply Finite.Injective_map_NoDup; [intros a b; lia | apply List.seq_NoDup].
  - intros index. rewrite Hperm. subst others.
    rewrite list_elem_of_In, filter_In, in_map_iff. split.
    + intros [(k & <- & Hk) Hf]. apply in_seq in Hk. split; [lia |].
      apply orb_true_iff in Hf. destruct Hf as [Hf | Hf].
      * left. apply negb_true_iff, Z.eqb_neq in Hf. exact Hf.
      * right. apply Nat.eqb_eq. exact Hf.
    + intros [Hr Hx]. split.
      * exists (Z.to_nat index). split; [lia | apply in_seq; lia].
      * apply orb_true_iff. destruct Hx as [Hx | Hx].
        -- left. apply negb_true_iff, Z.eqb_neq. exact Hx.
        -- right. apply Nat.eqb_eq. exact Hx.
Qed.
Lemma shuffle_round_plays_each_once_witness :
  NoDup (picks [[]; []; []] (initialPlaylist threeTracks true)).1
  /\ shuffledQueue (picks [[]; []; []] (initialPlaylist threeTracks true)).2 = [].
Proof.
  destruct (shuffle_round_plays_each_once [] [[]; []]
              (initialPlaylist threeTracks true))
    as (Hnodup & _ & Hempty & _).
  - reflexivity.
  - discriminate.
  - reflexivity.
  - reflexivity.
  - split; [exact Hnodup | exact Hempty].
Defined.

End RoundsFacts.

(** ** The colours and labels of the overlay style *)

Module OverlayStyleFacts.
Import JsString Metadata OverlayStyle.

Lemma hexDigit_values c :
  isHexDigit c = true ->
  In c [48; 49; 50; 51; 52; 53; 54; 55; 56; 57;
        65; 66; 67; 68; 69; 70; 97; 98; 99; 100; 101; 102]%N.
Proof.
  intros Hhex. unfold isHexDigit in Hhex.
  assert (Hrange : (48 <= c <= 57 \/ 97 <= c <= 102 \/ 65 <= c <= 70)%N).
  { destruct (orb_prop _ _ Hhex) as [Hlower | Hupper].
    - destruct (orb_prop _ _ Hlower) as [Hdigit | Hletter].
      + destruct (andb_prop _ _ Hdigit) as [Hlo Hhi].
        left. split; apply N.leb_le; assumption.
      + destruct (andb_prop _ _ Hletter) as [Hlo Hhi].
        right. left. split; apply N.leb_le; assumption.
    - destruct (andb_prop _ _ Hupper) as [Hlo Hhi].
      right. right. split; apply N.leb_le; assumption. }
  simpl. lia.
Qed.

Lemma hex_not_white c : isHexDigit c = true -> isWhiteSpace c = false.
Proof.
  intros Hhex. apply hexDigit_values in Hhex. simpl in Hhex.
  repeat (destruct Hhex as [<- | Hhex]; [reflexivity |]). contradiction.
Qed.

Lemma upper_hex c :
  isHexDigit c = true ->
  isUpperHexDigit (upperAscii c) = true /\ isHexDigit (upperAscii c) = true
  /\ upperAscii (upperAscii c) = upperAscii c.
Proof.
  intros Hhex. apply hexDigit_values in Hhex. simpl in Hhex.
  repeat (destruct Hhex as [<- | Hhex]; [repeat split; reflexivity |]).
  contradiction.
Qed.

Lemma upper_digits digits :
  forallb isHexDigit digits = true ->
  forallb isUpperHexDigit (List.map upperAscii digits) = true
  /\ forallb isHexDigit (List.map upperAscii digits) = true
  /\ List.map upperAscii (List.map upperAscii digits) = List.map upperAscii digits.
Proof.
  induction digits as [| c digits IH]; intros H; simpl in *; [auto |].
  apply andb_true_iff in H. destruct H as [Hc Hd].
  destruct (upper_hex c Hc) as (Hu & Hh & Hi). destruct (IH Hd) as (IHu & IHh & IHi).
  rewrite Hu, Hh, IHu, IHh, Hi, IHi. auto.
Qed.

(** A string that begins and ends on characters that are no white space
    is its own [trim]. *)
Lemma trim_fixed s :
  (forall c, head s = Some c -> isWhiteSpace c = false) ->
  (forall c, last s = Some c -> isWhiteSpace c = false) ->
  trim s = s.
Proof.
  intros Hh Hl. unfold trim, trimStart.
  destruct s as [| a s]; [reflexivity |].
  simpl dropWhile. rewrite (Hh a eq_refl).
  destruct (last (a :: s)) as [z |] eqn:Hlast.
  - apply (MetadataFacts.trimEnd_fixed _ z); [exact Hlast | apply Hl; reflexivity].
  - apply last_None in Hlast. discriminate.
Qed.

Lemma trim_idempotent s : trim (trim s) = trim s.
Proof.
  apply trim_fixed.
  - intros c Hc. unfold trim in Hc.
    destruct (trimEnd (trimStart s)) as [| k kept] eqn:Ht; [discriminate |].
    assert (Hne : trimEnd (trimStart s) <> []) by (rewrite Ht; discriminate).
    pose proof (MetadataFacts.trimEnd_head (trimStart s) Hne) as Hhead.
    rewrite Ht in Hhead. apply (MetadataFacts.trimStart_head s).
    rewrite <- Hhead. exact Hc.
  - intros c Hc. apply (MetadataFacts.trimEnd_last (trimStart s)). exact Hc.
Qed.

Lemma trim_keeps (p : N -> bool) s : forallb p s = true -> forallb p (trim s) = true.
Proof.
  intros H. unfold trim.
  destruct (MetadataFacts.trimEnd_prefix (trimStart s)) as (dropped & Hs & _).
  apply (MetadataFacts.forallb_app_l p _ dropped). rewrite <- Hs.
  apply MetadataFacts.trimStart_forallb, H.
Qed.

Lemma replaceRuns_breaks s : forall inRun,
  forallb (fun c => negb (isLineBreak c)) (replaceRuns isLineBreak inRun s) = true.
Proof.
  induction s as [| c s IH]; intros inRun; simpl; [reflexivity |].
  destruct (isLineBreak c) eqn:Hc.
  - destruct inRun; simpl; rewrite ?IH; auto.
  - simpl. rewrite Hc, IH. reflexivity.
Qed.

(** X30.  What the style store keeps is canonical.  A colour that
    [sanitizeColor] accepts comes back as [#] and six digits of 0-9 and
    A-F, and a label that [sanitizeText] accepts has no line break, no
    white space at either end and at most [maxLength] code units; both
    sanitizers give a value they returned back unchanged. *)
Theorem overlay_style_values_canonical (value : Value) (maxLength : Z) :
  (forall color, sanitizeColor value = Some color ->
     canonicalColor color = true
     /\ length color = 7%nat
     /\ sanitizeColor (Text color) = Some color)
  /\ (forall label, sanitizeText value maxLength = Some label ->
        Z.of_nat (length label) <= Z.max 0 maxLength
        /\ forallb (fun c => negb (isLineBreak c)) label = true
        /\ trim label = label
        /\ (0 <= maxLength -> sanitizeText (Text label) maxLength = Some label)).
Proof.
  split.
  - intros color Hcolor. unfold sanitizeColor in Hcolor.
    destruct value as [| s |]; try discriminate Hcolor.
    destruct (matchesColor (trim s)) eqn:Hm; [| discriminate Hcolor].
    injection Hcolor as <-. unfold matchesColor in Hm.
    destruct (trim s) as [| h digits]; [discriminate Hm |].
    destruct (N.eq_dec h 35%N) as [-> | Hh];
      [| destruct h as [| p]; [discriminate Hm |];
         repeat (destruct p as [p | p |]; try discriminate Hm); congruence].
    apply andb_true_iff in Hm. destruct Hm as [Hlen Hdigits].
    destruct (upper_digits digits Hdigits) as (Hu & Hh & Hi).
    apply Nat.eqb_eq in Hlen.
    assert (Hup : List.map upperAscii (35%N :: digits)
                  = 35%N :: List.map upperAscii digits) by reflexivity.
    rewrite Hup.
    assert (Htrim : trim (35%N :: List.map upperAscii digits)
                    = 35%N :: List.map upperAscii digits).
    { apply trim_fixed.
      - intros c [= <-]. reflexivity.
      - intros c Hc. destruct (List.map upperAscii digits) as [| d ds] eqn:Hmap.
        + injection Hc as <-. reflexivity.
        + rewrite last_cons in Hc. destruct (last (d :: ds)) as [z |] eqn:Hz.
          * injection Hc as <-. apply hex_not_white.
            rewrite forallb_forall in Hh. apply Hh.
            apply last_Some in Hz. destruct Hz as [l' ->].
            apply in_or_app. right. left. reflexivity.
          * apply last_None in Hz. discriminate. }
    split; [| split].
    + simpl. rewrite length_map, Hlen, Hu. reflexivity.
    + simpl. rewrite length_map, Hlen. reflexivity.
    + unfold sanitizeColor. rewrite Htrim. simpl matchesColor.
      rewrite length_map, Hlen, Hh. simpl.
      change (upperAscii 35) with 35%N. rewrite Hi. reflexivity.
  - intros label Hlabel. unfold sanitizeText in Hlabel.
    destruct value as [| s |]; try discriminate Hlabel.
    + injection Hlabel as <-. simpl. split; [lia |]. split; [reflexivity |].
      split; [reflexivity |]. intros Hmax.
      change (Z.of_nat 0) with 0.
      destruct (maxLength <? 0) eqn:Hneg; [apply Z.ltb_lt in Hneg; lia | reflexivity].
    + set (normalized := trim (replaceRuns isLineBreak false s)) in *.
      destruct (maxLength <? Z.of_nat (length normalized)) eqn:Hlong;
        [discriminate Hlabel |].
      injection Hlabel as <-. apply Z.ltb_ge in Hlong.
      assert (Hbreaks : forallb (fun c => negb (isLineBreak c)) normalized = true)
        by (apply trim_keeps, replaceRuns_breaks).
      split; [lia |]. split; [exact Hbreaks |].
      split; [apply trim_idempotent |]. intros _.
      unfold sanitizeText.
      rewrite (MetadataFacts.replaceRuns_none isLineBreak normalized false Hbreaks).
      unfold normalized at 1 2. rewrite trim_idempotent. fold normalized.
      apply Z.ltb_ge in Hlong. rewrite Hlong. reflexivity.
Qed.
End OverlayStyleFacts.
